(* ===== verification/_CoqProject ===== *)
-Q . S2P
Prelude.v
Libbase.v
CxxString.v
RangeSet.v
Kernel.v
RawDevice.v
Abl.v
PayloadArb.v
PayloadTargets.v
PayloadInfo.v
PayloadFlash.v
Asn1.v
Verifier.v
FuseSideload.v
BlockMap.v
BootloaderMessage.v
Rpc.v
Gpt.v
PayloadExtract.v
SparseImage.v
ImageZip.v
PayloadInspector.v
JailPolicy.v
LockSecurity.v
ScreenLock.v
Uncrypt.v
UpdateVerifier.v
MincryptSha.v
MincryptRsa.v
MincryptP256.v
MincryptDsa.v
FlashMounts.v
FlashRelease.v
FlashLayout.v
FlashPrepare.v
SuperEdit.v
Install.v
BootArgs.v
