(* ===== verification/Prelude.v ===== *)
(** * Verification of the AERA recovery's update and flashing core

    The repository under src/ is the AERA fork of the TWRP/AOSP recovery: the
    program a phone runs to install system packages, flash firmware images
    and wipe partitions. This library models the parts of it that decide
    whether data may be trusted and that write to storage, and proves what
    they promise.

    ** The parts and how they interact

    A package reaches the device as a file, over adb (fuse_sideload/) or as a
    block map (uncrypt/ writes it, otautil/sysutil.cpp reads it), is addressed
    by block ranges (otautil/rangeset.cpp) and is accepted by its signature
    (otautil/verifier.cpp with otautil/asn1_decoder.cpp). install/ checks its
    metadata against the device and runs the updater. Payloads and archives of
    images are inspected, planned, checked against the anti-rollback state,
    extracted or written in parallel (aeraui/features/update/). Before an
    image is written, the partition manager releases mounts and services,
    lays out the Super partition and prepares a rollback
    (partitionmanager.cpp, aera_image_flash_layout.hpp,
    aera_image_flash_mounts.hpp). EFISP and FRP have writers of their own
    (aera_efisp.hpp, aera_frp_wipe.hpp), and aera_abl.cpp warns before leaving
    the recovery when the boot loader that EFISP mods need has disappeared.
    bootloader_message/ leaves orders for the boot loader in the misc
    partition; update_verifier/ reads the new slot at its first boot.
    aera_rpc/ drives the recovery from a connected client, the screen lock
    (aeraui/features/security/, aeraui/platform/screen_lock.cpp) guards it and
    the browser runs under a seccomp filter (aeraui/features/browser/).

    ** The files

    - Prelude: machine integers as Z with their wrap-around ([u64], [u32]),
      little-endian reads that are [None] out of bounds, decimal text, the
      interface [AndroidBase] to libbase, the tactics ([unwrap] drops a
      wrap-around whose operand is in range, [branch] and [bool_facts] walk
      through guards, [rd_step] performs the next in-bounds read).
    - Libbase: a reference implementation that discharges [AndroidBase]'s
      laws, for concrete runs.
    - CxxString: the parts of std::string, the streams and std::map that the
      components share.
    - RangeSet: otautil/rangeset.{h,cpp}, [RangeSet] and [SortedRangeSet],
      specified by the list of blocks a set enumerates.
    - Kernel: files and the answers of a kernel that may interrupt, shorten,
      fail or lose any transfer, as a state monad; the read, write and copy
      loops of the flashing code.
    - RawDevice: aera_efisp.hpp (module [Efisp]) and aera_frp_wipe.hpp
      (module [Frp]).
    - Abl: aera_abl.{hpp,cpp}; ELF, PE, firmware-volume and LZMA scanning, and
      the guard of the exit.
    - PayloadInfo, PayloadArb, PayloadTargets, PayloadFlash: the payload code
      of aeraui/features/update/ (payload_arb, payload_targets, and
      payload_full_flash, payload_workers, payload_parallel) with
      aera_image_flash_geometry.hpp and aera_image_flash_batch.hpp.
    - PayloadInspector, PayloadExtract: payload_inspector.cpp and
      payload_extract.cpp, the review of a package and the rebuilding of its
      images.
    - SparseImage, ImageZip: image_zip.cpp, the streaming decoder of sparse
      images and the archives that hold them.
    - FlashMounts, FlashLayout: aera_image_flash_mounts.hpp and
      aera_image_flash_layout.hpp.
    - FlashRelease, FlashPrepare, SuperEdit: the parts of partitionmanager.cpp
      that release and return mounts and services, prepare a batch of images
      and roll it back, resize a logical partition and remove stale snapshot
      partitions.
    - Install, BootArgs: install/install.cpp with spl_check.cpp,
      wipe_device.cpp and wipe_data.cpp; install/get_args.cpp.
    - Asn1, Verifier: otautil/asn1_decoder.cpp, otautil/verifier.cpp and the
      package readers of otautil/package.cpp.
    - FuseSideload: fuse_sideload/fuse_sideload.cpp and fuse_provider.cpp.
    - BlockMap: the block maps and MemMapping of otautil/sysutil.cpp.
    - BootloaderMessage: bootloader_message/bootloader_message.cpp and
      misctrl_main.cpp.
    - Rpc: aera_rpc/aera_protocol.cpp, aera_dispatcher.cpp, aera_channel.cpp.
    - Uncrypt, UpdateVerifier: uncrypt/uncrypt.cpp and
      update_verifier/update_verifier.cpp.
    - Gpt: gpt/gpt.c and gptcrc32.c.
    - MincryptSha, MincryptRsa, MincryptP256, MincryptDsa: libmincrypt/.
    - LockSecurity, ScreenLock: lock_security.cpp and screen_lock.cpp.
    - JailPolicy: jail_policy.hpp and the machine that runs its filter.

    ** How code is modelled

    A function of the source is a definition with its name; loops are
    Fixpoints, structs Records, enums Inductives. An out-of-bounds access, a
    failed CHECK, a null dereference or other undefined behaviour is the
    outer [None], so that a theorem with [Some] on the right states memory
    safety. Error returns are values. Stateful code passes its state; code
    that talks to the kernel consumes a list of answers and is proved correct
    for every such list, and the theorems about termination assume only that
    helpful answers arrive ([Kernel.ready]). Threads are step relations or
    schedules: PayloadFlash quantifies over all schedules of the worker pool,
    Rpc over all interleavings of the UI thread, the workers and the
    writers of events, ScreenLock over those of its lock holders. Services of
    the platform (the property service, the device mapper, the boot control,
    child processes) are answers of the environment, and so are two calls of
    the partition manager that only ask it (Find_Actual_Block_Device and
    UnMount). Libraries outside the repository (LZMA, xz, SHA,
    BoringSSL keys, jsoncpp, libbase, liblp) are type classes whose laws state what
    their documentation promises.

    Fuel: the retry loops take the number of answers the kernel still has,
    one of which each round consumes ([Kernel.read_exactly], [write_exactly],
    [PayloadTargets.VerifyImageBytes]); the chunked loops take the number of
    bytes, of which each round moves at least one ([Kernel.copy_loop], the
    FRP and EFISP loops, [Verifier.file_hash_loop]);
    [Verifier.hash_loop] takes one unit per 16 MiB; [Abl.Visit] takes 6,
    because the code stops at depth 5; [PayloadArb.oem_scan] takes 1024,
    because it looks at every fourth byte of at most 4096; [Rpc.flush_loop]
    takes the length of the text, [Install.read_lines] that of the updater's
    output; [SparseImage.repeat_fuel], [UpdateVerifier.range_fuel] and
    [Verifier.hash_fuel] count the blocks of their loops; [Uncrypt.fill] and
    [Uncrypt.flush_window] take the blocks of a window;
    [MincryptP256.p256_modinv_vartime] takes 1024 rounds, because every two
    rounds halve one of two 256-bit numbers. Running out of fuel is [None] or an
    incomplete result, so the theorems show that it does not happen.

    ** What the theorems show

    - Acceptance: a package is accepted exactly when it is signed
      (Verifier.verify_file_spec); a PKCS#7 block reads back
      (Asn1.pkcs7_roundtrip); keys are strong (Verifier.load_keys_sound);
      libmincrypt's hashes, RSA and modular arithmetic are exact; the updater
      runs only for a signed package meant for this device that is no hidden
      downgrade (Install.install_authorised); an anti-rollback index comes from
      an image with the right hash (PayloadArb.inspect_arb_sound) and the
      policy refuses exactly the intended cases (PayloadArb.arb_policy); what
      was reviewed is what is extracted (PayloadInspector, ImageZip).
    - Writing: success of Flash, WriteRawImage, WriteAndVerify and
      ZeroAndVerify means the device holds the intended bytes, even if the
      kernel lost writes, and nothing else changed (RawDevice,
      PayloadTargets); sparse and raw images decode to their exact bytes and
      extracted images are verified (SparseImage, PayloadExtract, ImageZip);
      targets are unambiguous and never protected ones; the plan and the
      worker pool write each image once, stop on failure, and terminate
      (PayloadFlash); misc writes stay in their regions (BootloaderMessage)
      and pending arguments survive a reboot (BootArgs).
    - Partitions: a release touches only the mounts of the released devices,
      and what it took away comes back (FlashMounts, FlashRelease); a layout
      plan is found whenever the sizes fit and changes nothing else
      (FlashLayout); a batch that fails before it writes puts the table and
      the recorded mappings back (FlashPrepare); only snapshot partitions are
      removed (SuperEdit).
    - Inspection: InspectAbl and ReadAbl are memory safe on every input and
      their verdicts are backed by evidence; the exit warning is silent only
      when it may be (Abl).
    - Serving: the FUSE daemon refines a plain file system, pins the blocks it
      has accepted, and its block-map source and the memory mapping show the
      bytes of the file (FuseSideload, BlockMap, Uncrypt); range sets behave as
      the lists of blocks they denote (RangeSet); a slot is marked good only
      after all its cared blocks were read (UpdateVerifier).
    - Control: each RPC request gets one answer, and console output is framed
      by lines (Rpc); the screen opens only for the current credential, whose
      guesses are limited (ScreenLock, LockSecurity); the browser's filter is
      the intended policy (JailPolicy).
    - Deviations proved of the code as it is: verify_file ignores read errors,
      a failed FUSE fetch corrupts the cached block, the block-map provider
      misreads a tail that starts its own range, a failed MapBlockFile is
      unmapped twice, misctrl's exit code is inverted, Insert(0, 0) adds every
      block, a GPT is unreadable on 4K sectors, uncrypt's retry finds
      the place of block 0, p256_is_valid_point refuses some points of the
      curve, a plan that does not fit leaves logical partitions unmapped, a
      powerwash dereferences a null pointer and a long line of the updater is
      read as several commands.

    ** What is not modelled

    The user interface, the RPC engine and the MTP server are callbacks over
    frameworks that are not part of the repository. Mounting, formatting,
    backup and restore of the partition manager, NAS and WLAN build command
    lines for external programs, whose behaviour is not to be read here.
    minadbd, adb backup and the remaining install drivers are sockets and
    processes around the functions modelled here. ozip decryption, the
    compression and file-system tools and the legacy libraries are copies of
    other projects. The point arithmetic of libmincrypt/p256_ec.c needs the
    group law of the curve, which no installed library provides. Logging,
    progress reports and floating-point progress bars are left out
    throughout. *)
From stdpp Require Import base list strings gmap.
From Stdlib Require Import ZArith Lia Ascii DecimalString DecimalN.
#[global] Open Scope Z_scope.

(** ** Machine integers (LP64: size_t and uint64_t are 64 bits wide). *)
Definition u8 (z : Z) : Z := z mod 2 ^ 8.
Definition u16 (z : Z) : Z := z mod 2 ^ 16.
Definition u32 (z : Z) : Z := z mod 2 ^ 32.
Definition u64 (z : Z) : Z := z mod 2 ^ 64.
Definition UINT32_MAX : Z := 2 ^ 32 - 1.
Definition UINT64_MAX : Z := 2 ^ 64 - 1.
Definition SIZE_MAX : Z := 2 ^ 64 - 1.
Definition INT_MAX : Z := 2 ^ 31 - 1.
Definition INT64_MAX : Z := 2 ^ 63 - 1.
Definition is_u32 (z : Z) : Prop := 0 <= z < 2 ^ 32.
Definition is_u64 (z : Z) : Prop := 0 <= z < 2 ^ 64.
Definition is_byte (z : Z) : Prop := 0 <= z < 256.

Create HintDb aera discriminated.

Lemma u64_id z : is_u64 z -> u64 z = z.
Proof. apply Z.mod_small. Qed.
Lemma u32_id z : is_u32 z -> u32 z = z.
Proof. apply Z.mod_small. Qed.
Lemma u64_range z : is_u64 (u64 z).
Proof. apply Z.mod_pos_bound. lia. Qed.
Lemma u32_range z : is_u32 (u32 z).
Proof. apply Z.mod_pos_bound. lia. Qed.

(** ** Decimal text: [std::to_string] and [%zu] on an unsigned value. *)
Definition to_string (z : Z) : string := NilZero.string_of_uint (N.to_uint (Z.to_N z)).

(** A string without the character [c]. *)
Fixpoint no_char (c : ascii) (s : string) : bool :=
  match s with
  | EmptyString => true
  | String d s' => negb (bool_decide (c = d)) && no_char c s'
  end.
Arguments no_char _%_char_scope _%_string_scope.

Definition newline : string := String (ascii_of_nat 10) "".
(** ** libbase string helpers

    [android::base::Split] and [ParseUint] are not part of this repository;
    the components that call them take them from this class. *)
Class AndroidBase := {
  base_Split : string -> string -> list string;
  base_ParseUint : string -> Z -> option Z
}.
(** What their documentation promises and the callers rely on: [Split] cuts
    at each delimiter, [ParseUint] reads the decimal text of any value up to
    [max] and rejects larger ones. *)
Class AndroidBaseLaws `(B : AndroidBase) : Prop := {
  split_concat c ps :
    ps ≠ [] -> Forall (fun p => no_char c p = true) ps ->
    base_Split (String.concat (String c "") ps) (String c "") = ps;
  parse_uint_print n max : 0 <= n <= max -> base_ParseUint (to_string n) max = Some n;
  parse_uint_range s max n : base_ParseUint s max = Some n -> 0 <= n <= max
}.

(** ** Tactics *)
Ltac unfold_width := unfold is_u64, is_u32, is_byte, SIZE_MAX, UINT64_MAX, UINT32_MAX,
  INT64_MAX, INT_MAX in *.
(** Split the condition the computation in [H] evaluates first. *)
Ltac if_in H E := match type of H with
  | (if ?c then _ else _) _ = _ => destruct c eqn:E
  | (if ?c then _ else _) = _ => destruct c eqn:E
  end.
Ltac if_step H := let E := fresh "Hc" in if_in H E.
(** Drop the wrap-around of an operation whose result is in range. *)
Ltac unwrap := repeat match goal with
  | |- context [u64 ?z] => rewrite (u64_id z) by (unfold_width; lia)
  | |- context [u32 ?z] => rewrite (u32_id z) by (unfold_width; lia)
  end.
Ltac unwrap_in H := repeat match type of H with
  | context [u64 ?z] => rewrite (u64_id z) in H by (unfold_width; lia)
  | context [u32 ?z] => rewrite (u32_id z) in H by (unfold_width; lia)
  end.
Ltac unwrap_all := repeat match goal with H : _ |- _ => progress unwrap_in H end.
(** Case split on the Z comparisons that guard a branch. *)
Ltac zcase :=
  match goal with
  | |- context [?a <=? ?b] => destruct (Z.leb_spec a b)
  | |- context [?a <? ?b] => destruct (Z.ltb_spec a b)
  | |- context [?a =? ?b] => destruct (Z.eqb_spec a b)
  end.
Ltac zcase_in H :=
  match type of H with
  | context [?a <=? ?b] => destruct (Z.leb_spec a b)
  | context [?a <? ?b] => destruct (Z.ltb_spec a b)
  | context [?a =? ?b] => destruct (Z.eqb_spec a b)
  end.

(** Turn the boolean guards of taken branches into facts. *)
Ltac bool_facts := repeat match goal with
  | H : (_ || _) = false |- _ => apply orb_false_iff in H; destruct H
  | H : (_ && _) = true |- _ => apply andb_true_iff in H; destruct H
  | H : negb _ = false |- _ => apply negb_false_iff in H
  | H : negb _ = true |- _ => apply negb_true_iff in H
  | H : (_ <? _) = false |- _ => apply Z.ltb_ge in H
  | H : (_ <? _) = true |- _ => apply Z.ltb_lt in H
  | H : (_ <=? _) = false |- _ => apply Z.leb_gt in H
  | H : (_ <=? _) = true |- _ => apply Z.leb_le in H
  | H : (_ =? _) = false |- _ => apply Z.eqb_neq in H
  | H : (_ =? _) = true |- _ => apply Z.eqb_eq in H
  | H : String.eqb _ _ = true |- _ => apply String.eqb_eq in H
  | H : String.eqb _ _ = false |- _ => apply String.eqb_neq in H
  | H : bool_decide _ = true |- _ => apply bool_decide_eq_true_1 in H
  | H : bool_decide _ = false |- _ => apply bool_decide_eq_false_1 in H
  end.

(** ** Generic lemmas on text *)
Lemma string_app_assoc (s t u : string) : (s ++ (t ++ u) = (s ++ t) ++ u)%string.
Proof.
  induction s as [|c s IH]; [done|].
  change (String c (s ++ (t ++ u)) = String c ((s ++ t) ++ u))%string. by rewrite IH.
Qed.
Lemma string_app_nil_r (s : string) : (s ++ "" = s)%string.
Proof.
  induction s as [|c s IH]; [done|].
  change (String c (s ++ "") = String c s)%string. by rewrite IH.
Qed.
Lemma concat_snoc sep ps x :
  ps ≠ [] -> String.concat sep (ps ++ [x]) = (String.concat sep ps ++ sep ++ x)%string.
Proof.
  induction ps as [|p [|q ps] IH]; intros Hne; [done|done|].
  specialize (IH ltac:(done)). simpl in *. rewrite IH.
  by rewrite !string_app_assoc.
Qed.

Lemma no_char_app c s t : no_char c (s ++ t)%string = no_char c s && no_char c t.
Proof.
  induction s as [|d s IH]; [done|].
  change (String d s ++ t)%string with (String d (s ++ t)). simpl.
  by rewrite IH, andb_assoc.
Qed.

(** Text up to the first occurrence of a character is determined. *)
Lemma split_first_char c (s t u v : string) :
  no_char c s = true -> no_char c t = true ->
  (s ++ String c u = t ++ String c v)%string -> s = t /\ u = v.
Proof.
  revert t. induction s as [|d s IH]; intros [|e t] Hs Ht E.
  - by injection E as <-.
  - change (String c u = String e (t ++ String c v)) in E. injection E as <- _.
    simpl in Ht. by rewrite bool_decide_eq_true_2 in Ht.
  - change (String d (s ++ String c u) = String c v) in E. injection E as <- _.
    simpl in Hs. by rewrite bool_decide_eq_true_2 in Hs.
  - change (String d (s ++ String c u) = String e (t ++ String c v)) in E. injection E as <- E.
    simpl in Hs, Ht. bool_facts. destruct (IH t) as [-> ->]; done.
Qed.
Lemma string_app_inj_l (s t u : string) : (s ++ t = s ++ u)%string -> t = u.
Proof.
  induction s as [|c s IH]; [done|]. intros E. apply IH.
  change (String c (s ++ t) = String c (s ++ u)) in E. by injection E.
Qed.

(** Decimal text holds only digits. *)
Lemma no_char_uint c u :
  (forall d, In d ["0"; "1"; "2"; "3"; "4"; "5"; "6"; "7"; "8"; "9"]%char -> c ≠ d) ->
  no_char c (NilEmpty.string_of_uint u) = true.
Proof.
  intros Hc. induction u; simpl; try done; rewrite IHu, andb_true_r;
    (rewrite bool_decide_eq_false_2; [done | apply Hc; simpl; tauto]).
Qed.
Lemma no_char_to_string c z :
  (forall d, In d ["0"; "1"; "2"; "3"; "4"; "5"; "6"; "7"; "8"; "9"]%char -> c ≠ d) ->
  no_char c (to_string z) = true.
Proof.
  intros Hc. unfold to_string, NilZero.string_of_uint.
  destruct (N.to_uint (Z.to_N z)) eqn:E; try (rewrite <- E; by apply no_char_uint).
  simpl. rewrite bool_decide_eq_false_2; [done | apply Hc; simpl; tauto].
Qed.

(** ** Binary data

    A buffer is a list of bytes. Reading outside it is undefined in the
    source; here such a read is [None], so "the parser never yields [None]"
    is memory safety. *)
Definition rd8 (bs : list Z) (i : Z) : option Z :=
  if i <? 0 then None else bs !! Z.to_nat i.
Definition rd16 (bs : list Z) (i : Z) : option Z :=
  a ← rd8 bs i; b ← rd8 bs (i + 1); Some (Z.lor a (Z.shiftl b 8)).
Definition rd32 (bs : list Z) (i : Z) : option Z :=
  a ← rd16 bs i; b ← rd16 bs (i + 2); Some (Z.lor a (Z.shiftl b 16)).
Definition rd64 (bs : list Z) (i : Z) : option Z :=
  a ← rd32 bs i; b ← rd32 bs (i + 4); Some (Z.lor a (Z.shiftl b 32)).
Definition blen (bs : list Z) : Z := Z.of_nat (length bs).
Definition bytes_ok (bs : list Z) : Prop := Forall is_byte bs.

(** memcmp of the bytes at [i] with a literal, [None] when out of bounds. *)
Definition bytes_at (bs : list Z) (i n : Z) : option (list Z) :=
  if (i <? 0) || (blen bs <? i + n) then None
  else Some (take (Z.to_nat n) (drop (Z.to_nat i) bs)).
Definition bytes_eq (bs : list Z) (i : Z) (lit : list Z) : option bool :=
  got ← bytes_at bs i (blen lit); Some (bool_decide (got = lit)).

Lemma lor_shiftl_add a b k :
  0 <= k -> 0 <= a < 2 ^ k -> Z.lor a (Z.shiftl b k) = a + b * 2 ^ k.
Proof.
  intros Hk Ha. rewrite <- Z.shiftl_mul_pow2 by done. symmetry. apply Z.add_nocarry_lor.
  apply Z.bits_inj'. intros i Hi. rewrite Z.land_spec, Z.bits_0.
  destruct (Z.lt_ge_cases i k).
  - rewrite Z.shiftl_spec_low by lia. apply andb_false_r.
  - rewrite <- (Z.mod_small a (2 ^ k)) by done. by rewrite Z.mod_pow2_bits_high by lia.
Qed.
Lemma lor_shiftl_bound a b k n :
  0 <= k -> 0 <= n -> 0 <= a < 2 ^ k -> 0 <= b < 2 ^ n ->
  0 <= Z.lor a (Z.shiftl b k) < 2 ^ (k + n).
Proof. intros Hk Hn Ha Hb. rewrite lor_shiftl_add, Z.pow_add_r by done. nia. Qed.

Lemma rd8_Some bs i : 0 <= i < blen bs -> is_Some (rd8 bs i).
Proof.
  intros Hi. unfold rd8, blen in *. destruct (Z.ltb_spec i 0); [lia|].
  apply lookup_lt_is_Some. lia.
Qed.
Lemma rd16_Some bs i : 0 <= i -> i + 2 <= blen bs -> is_Some (rd16 bs i).
Proof.
  intros Hi Hl. unfold rd16. destruct (rd8_Some bs i) as [a ->]; [lia|].
  destruct (rd8_Some bs (i + 1)) as [b ->]; [lia|]. simpl. eauto.
Qed.
Lemma rd32_Some bs i : 0 <= i -> i + 4 <= blen bs -> is_Some (rd32 bs i).
Proof.
  intros Hi Hl. unfold rd32. destruct (rd16_Some bs i) as [a ->]; [lia..|].
  destruct (rd16_Some bs (i + 2)) as [b ->]; [lia..|]. simpl. eauto.
Qed.
Lemma rd64_Some bs i : 0 <= i -> i + 8 <= blen bs -> is_Some (rd64 bs i).
Proof.
  intros Hi Hl. unfold rd64. destruct (rd32_Some bs i) as [a ->]; [lia..|].
  destruct (rd32_Some bs (i + 4)) as [b ->]; [lia..|]. simpl. eauto.
Qed.
Lemma bytes_at_Some bs i n : 0 <= i -> i + n <= blen bs ->
  bytes_at bs i n = Some (take (Z.to_nat n) (drop (Z.to_nat i) bs)).
Proof.
  intros Hi Hl. unfold bytes_at. destruct (Z.ltb_spec i 0); [lia|].
  destruct (Z.ltb_spec (blen bs) (i + n)); [lia|]. done.
Qed.
Lemma bytes_eq_Some bs i lit : 0 <= i -> i + blen lit <= blen bs -> is_Some (bytes_eq bs i lit).
Proof. intros Hi Hl. unfold bytes_eq. rewrite bytes_at_Some by done. simpl. eauto. Qed.

(** Reads of well-formed buffers are in range for their width. *)
Lemma rd8_range bs i v : bytes_ok bs -> rd8 bs i = Some v -> 0 <= v < 2 ^ 8.
Proof.
  intros Hb. unfold rd8. destruct (i <? 0); [done|]. intros Hl.
  unfold bytes_ok in Hb. rewrite Forall_lookup in Hb. apply (Hb _ _ Hl).
Qed.
Lemma rd16_range bs i v : bytes_ok bs -> rd16 bs i = Some v -> 0 <= v < 2 ^ 16.
Proof.
  intros Hb E. unfold rd16 in E. destruct (rd8 bs i) as [a|] eqn:Ea; [|done].
  destruct (rd8 bs (i + 1)) as [b|] eqn:Eb; [|done]. simpl in E. injection E as <-.
  apply (lor_shiftl_bound a b 8 8); try lia; by eapply rd8_range.
Qed.
Lemma rd32_range bs i v : bytes_ok bs -> rd32 bs i = Some v -> 0 <= v < 2 ^ 32.
Proof.
  intros Hb E. unfold rd32 in E. destruct (rd16 bs i) as [a|] eqn:Ea; [|done].
  destruct (rd16 bs (i + 2)) as [b|] eqn:Eb; [|done]. simpl in E. injection E as <-.
  apply (lor_shiftl_bound a b 16 16); try lia; by eapply rd16_range.
Qed.
Lemma rd64_range bs i v : bytes_ok bs -> rd64 bs i = Some v -> 0 <= v < 2 ^ 64.
Proof.
  intros Hb E. unfold rd64 in E. destruct (rd32 bs i) as [a|] eqn:Ea; [|done].
  destruct (rd32 bs (i + 4)) as [b|] eqn:Eb; [|done]. simpl in E. injection E as <-.
  apply (lor_shiftl_bound a b 32 32); try lia; by eapply rd32_range.
Qed.

(** ** Stepping through a parser

    [branch] splits the condition evaluated next; [rd_step] performs the next buffer read, which must be in bounds,
    and records the range of the value read. *)
Lemma some_bind {A B} (v : A) (k : A -> option B) : (Some v ≫= k) = k v.
Proof. done. Qed.
(** The subterm a monadic or branching computation evaluates first. *)
Ltac head_of t := lazymatch t with
  | @mbind _ _ _ _ _ ?m => head_of m
  | match ?m with _ => _ end => head_of m
  | _ => t
  end.
Ltac goal_head := lazymatch goal with
  | |- context [@eq (option _) ?t _] => head_of t
  end.
Ltac branch :=
  let c := goal_head in
  lazymatch type of c with bool => let E := fresh "Hc" in destruct c eqn:E; bool_facts end.
Ltac branch_in H := match type of H with
  | context [if ?c then _ else _] => let E := fresh "Hc" in destruct c eqn:E; bool_facts
  end.
(** A branch whose guard contradicts the arithmetic. *)
Ltac impossible := exfalso;
  repeat match goal with
  | H : _ || _ = true |- _ => apply orb_true_iff in H as [H|H]
  | H : _ && _ = false |- _ => apply andb_false_iff in H as [H|H]
  end; bool_facts; lia.
Ltac read_with some range bs i :=
  let v := fresh "v" in let E := fresh "Hv" in
  destruct (some bs i) as [v E]; [lia..|]; rewrite E, (some_bind v); cbv beta;
  (let R := fresh "Hr" in pose proof (range bs i v ltac:(assumption) E) as R).
Ltac rd_step :=
  let h := goal_head in
  lazymatch h with
  | rd8 ?bs ?i => read_with rd8_Some rd8_range bs i
  | rd16 ?bs ?i => read_with rd16_Some rd16_range bs i
  | rd32 ?bs ?i => read_with rd32_Some rd32_range bs i
  | rd64 ?bs ?i => read_with rd64_Some rd64_range bs i
  | bytes_eq ?bs ?i ?lit =>
      let v := fresh "b" in let E := fresh "Hb" in
      destruct (bytes_eq_Some bs i lit) as [v E];
      [unfold blen in *; simpl length in *; lia..|]; rewrite E, (some_bind v); cbv beta
  end.

Lemma bytes_at_inv bs i n x : bytes_at bs i n = Some x ->
  0 <= i /\ i + n <= blen bs /\ x = take (Z.to_nat n) (drop (Z.to_nat i) bs).
Proof.
  unfold bytes_at. intros E. destruct (_ || _) eqn:C; [done|]. bool_facts.
  injection E as <-. done.
Qed.
Lemma bytes_at_ok bs i n x : bytes_ok bs -> bytes_at bs i n = Some x -> bytes_ok x.
Proof.
  intros Hb (_ & _ & ->)%bytes_at_inv. apply Forall_take, Forall_drop, Hb.
Qed.
Lemma bytes_at_length bs i n x : bytes_at bs i n = Some x -> 0 <= n -> blen x = n.
Proof.
  intros (Hi & Hl & ->)%bytes_at_inv Hn. unfold blen in *.
  rewrite length_take, length_drop. lia.
Qed.
Lemma bytes_ok_drop n bs : bytes_ok bs -> bytes_ok (drop n bs).
Proof. apply Forall_drop. Qed.
Lemma blen_drop n bs : 0 <= n <= blen bs -> blen (drop (Z.to_nat n) bs) = blen bs - n.
Proof. unfold blen. intros. rewrite length_drop. lia. Qed.
Lemma blen_app (a b : list Z) : blen (a ++ b) = blen a + blen b.
Proof. unfold blen. rewrite length_app. lia. Qed.
Lemma blen_take n bs : 0 <= n <= blen bs -> blen (take (Z.to_nat n) bs) = n.
Proof. unfold blen. rewrite length_take. lia. Qed.
Lemma bytes_ok_check bs : forallb (fun b => (0 <=? b) && (b <? 256)) bs = true -> bytes_ok bs.
Proof.
  rewrite forallb_forall. intros H. apply List.Forall_forall. intros b Hb%H.
  bool_facts. unfold is_byte. lia.
Qed.
Lemma seqZ_one b : seqZ b 1 = [b].
Proof. by rewrite seqZ_cons, seqZ_nil by lia. Qed.
Lemma blen_nonneg bs : 0 <= blen bs.
Proof. unfold blen. lia. Qed.
#[export] Hint Resolve bytes_ok_drop bytes_at_ok blen_nonneg : aera.
