(* ===== verification/Libbase.v ===== *)
(** A reference instance of the libbase string helpers. The components are
    verified against the class [AndroidBase]; this instance shows that its
    laws can be met and lets concrete inputs be evaluated. *)
From stdpp Require Import base list strings gmap.
From Stdlib Require Import ZArith Lia Ascii DecimalString DecimalN.
From S2P Require Import Prelude.

Fixpoint split_char (c : ascii) (s : string) : list string :=
  match s with
  | EmptyString => [""%string]
  | String d s' =>
      if bool_decide (c = d) then ""%string :: split_char c s'
      else match split_char c s' with
           | [] => [String d ""]
           | p :: ps => String d p :: ps
           end
  end.
Definition ref_Split (s delimiters : string) : list string :=
  match delimiters with
  | String c EmptyString => split_char c s
  | _ => [s]
  end.
Definition ref_ParseUint (s : string) (max : Z) : option Z :=
  match NilZero.uint_of_string s with
  | Some u => let n := Z.of_N (N.of_uint u) in if n <=? max then Some n else None
  | None => None
  end.

#[global] Instance ref_base : AndroidBase :=
  { base_Split := ref_Split; base_ParseUint := ref_ParseUint }.

Lemma split_char_last c p : no_char c p = true -> split_char c p = [p].
Proof.
  induction p as [|d p IH]; simpl; [done|].
  intros [H1 H2]%andb_true_iff. apply negb_true_iff in H1. rewrite H1, (IH H2). done.
Qed.
Lemma split_char_cons c p rest :
  no_char c p = true -> split_char c (p ++ String c rest) = p :: split_char c rest.
Proof.
  induction p as [|d p IH]; intros Hp.
  { change (("" ++ String c rest)%string) with (String c rest). simpl.
    by rewrite bool_decide_eq_true_2. }
  change ((String d p ++ String c rest)%string) with (String d (p ++ String c rest)). simpl in *.
  apply andb_true_iff in Hp as [H1 H2]. apply negb_true_iff in H1. by rewrite H1, (IH H2).
Qed.

Lemma to_uint_nonnil n : N.to_uint n ≠ Decimal.Nil.
Proof.
  intros E. pose proof (Unsigned.of_to n) as H. rewrite E in H. simpl in H. by subst n.
Qed.

#[global] Instance ref_base_laws : AndroidBaseLaws ref_base.
Proof.
  split.
  - intros c ps Hne Hps. simpl. induction Hps as [|p ps Hp Hps IH]; [done|].
    destruct ps as [|q ps]; [by apply split_char_last|].
    change (String.concat (String c "") (p :: q :: ps))
      with (p ++ String c (String.concat (String c "") (q :: ps)))%string.
    by rewrite split_char_cons, IH.
  - intros n max Hn. simpl. unfold ref_ParseUint, to_string.
    rewrite NilZero.usu by apply to_uint_nonnil. rewrite Unsigned.of_to, Z2N.id by lia.
    by destruct (Z.leb_spec n max); [|lia].
  - intros s max n. simpl. unfold ref_ParseUint.
    destruct (NilZero.uint_of_string s) as [u|]; [|done].
    destruct (Z.leb_spec (Z.of_N (N.of_uint u)) max); [|done]. intros ?. simplify_eq. lia.
Qed.
