(* ===== verification/CxxString.v ===== *)
(** The parts of the C++ standard library the components share: text
    (std::string, the stream operators and std::getline) and std::map with
    string keys. A character is an [ascii], a position a [nat]; std::map is its
    list of pairs in key order, because the sources iterate over it. *)
From stdpp Require Import base list strings gmap sorting.
From Stdlib Require Import ZArith Lia Ascii DecimalString.
From S2P Require Import Prelude.

(** ** Characters and whole strings *)
Fixpoint all_chars (f : ascii -> bool) (s : string) : bool :=
  match s with EmptyString => true | String c s => f c && all_chars f s end.
Definition ends_with (s suffix : string) : bool :=
  let n := String.length s in let k := String.length suffix in
  (k <=? n)%nat && String.eqb (String.substring (n - k) k s) suffix.
Definition is_space (c : ascii) : bool :=
  let n := nat_of_ascii c in (n =? 32)%nat || ((9 <=? n)%nat && (n <=? 13)%nat).
Definition is_digit (c : ascii) : bool :=
  let n := nat_of_ascii c in (48 <=? n)%nat && (n <=? 57)%nat.
Fixpoint skip_space (s : string) : string :=
  match s with String c s' => if is_space c then skip_space s' else s | EmptyString => s end.
(** The digits at the front, as a number, and the rest. *)
Fixpoint digits (s : string) (acc : option Z) : option Z * string :=
  match s with
  | String c s' =>
      if is_digit c
      then digits s' (Some (default 0 acc * 10 + (Z.of_nat (nat_of_ascii c) - 48)))
      else (acc, s)
  | EmptyString => (acc, s)
  end.
(** [stream >> v] for an unsigned v up to [max]: white space, an optional
    sign, decimal digits; and [stream >> word]. *)
Definition extract_uint (max : Z) (s : string) : option (Z * string) :=
  let s := skip_space s in
  let '(neg, s) := match s with
    | String "-" s' => (true, s') | String "+" s' => (false, s') | _ => (false, s) end in
  match digits s None with
  | (Some v, rest) => if max <? v then None else Some (if neg : bool then (- v) mod (max + 1) else v, rest)
  | (None, _) => None
  end.
Fixpoint take_word (s : string) : string * string :=
  match s with
  | String c s' => if is_space c then (""%string, s)
                   else let '(word, rest) := take_word s' in (String c word, rest)
  | EmptyString => (""%string, s)
  end.
Definition extract_word (s : string) : option (string * string) :=
  match take_word (skip_space s) with
  | (EmptyString, _) => None
  | r => Some r
  end.
(** std::getline over the whole text, with a delimiter. *)
Fixpoint getlines_aux (c : ascii) (s : string) (line : string) : list string :=
  match s with
  | EmptyString => if String.eqb line "" then [] else [line]
  | String d s' =>
      if Ascii.eqb d c then line :: getlines_aux c s' ""
      else getlines_aux c s' (line ++ String d "")
  end.
Definition getlines (c : ascii) (s : string) : list string := getlines_aux c s "".
Definition lines (s : string) : list string := getlines (ascii_of_nat 10) s.
(** s.find(c), s.rfind(c); s.substr(n), s.substr(0, n). *)
Fixpoint find_char (c : ascii) (s : string) : option nat :=
  match s with
  | EmptyString => None
  | String d s => if Ascii.eqb d c then Some 0%nat else S <$> find_char c s
  end.
Fixpoint rfind_char (c : ascii) (s : string) : option nat :=
  match s with
  | EmptyString => None
  | String d s =>
      match rfind_char c s with
      | Some n => Some (S n)
      | None => if Ascii.eqb d c then Some 0%nat else None
      end
  end.
Fixpoint str_drop (n : nat) (s : string) : string :=
  match n, s with S n, String _ s => str_drop n s | _, _ => s end.
Fixpoint str_take (n : nat) (s : string) : string :=
  match n, s with S n, String c s => String c (str_take n s) | _, _ => EmptyString end.
(** Cut the characters of [f] off both ends: find_first_not_of and
    find_last_not_of. *)
Fixpoint trim_left (f : ascii -> bool) (s : string) : string :=
  match s with String c s' => if f c then trim_left f s' else s | EmptyString => s end.
Fixpoint trim_right (f : ascii -> bool) (s : string) : string :=
  match s with
  | EmptyString => EmptyString
  | String c s' =>
      match trim_right f s' with
      | EmptyString => if f c then EmptyString else String c EmptyString
      | t => String c t
      end
  end.
Definition trim (f : ascii -> bool) (s : string) : string := trim_right f (trim_left f s).
(** std::tolower of every character, in the C locale. *)
Definition to_lower (c : ascii) : ascii :=
  let n := nat_of_ascii c in if (65 <=? n)%nat && (n <=? 90)%nat then ascii_of_nat (n + 32) else c.
Fixpoint lower (s : string) : string :=
  match s with EmptyString => EmptyString | String c s => String (to_lower c) (lower s) end.
Definition slen (s : string) : Z := Z.of_nat (String.length s).
(** The bytes of a string. *)
Definition byte_of (c : ascii) : Z := Z.of_nat (nat_of_ascii c).
Fixpoint bytes_of (s : string) : list Z :=
  match s with EmptyString => [] | String c s => byte_of c :: bytes_of s end.
Fixpoint string_of (bs : list Z) : string :=
  match bs with [] => EmptyString | b :: bs => String (ascii_of_nat (Z.to_nat b)) (string_of bs) end.

(** [stream >> v] for an int: an overflow sets failbit. *)
Definition extract_int (s : string) : option (Z * string) :=
  let s := skip_space s in
  let '(neg, s) := match s with
    | String "-" s' => (true, s') | String "+" s' => (false, s') | _ => (false, s) end in
  match digits s None with
  | (Some v, rest) => let v := if neg : bool then - v else v in
      if (v <? - 2 ^ 31) || (INT_MAX <? v) then None else Some (v, rest)
  | (None, _) => None
  end.
(** Lower-case hexadecimal text, two digits per byte. *)
Definition hex_char (d : Z) : ascii :=
  match String.get (Z.to_nat d) "0123456789abcdef" with Some c => c | None => "0"%char end.
Fixpoint hex_bytes (bs : list Z) : string :=
  match bs with
  | [] => ""
  | b :: bs => String (hex_char (Z.shiftr b 4)) (String (hex_char (Z.land b 15)) (hex_bytes bs))
  end.

(** ** std::map<std::string, A> *)
Definition smap (A : Type) : Type := list (string * A).
Section Map.
Context {A : Type}.
Fixpoint smap_find (k : string) (m : smap A) : option A :=
  match m with
  | [] => None
  | (k', v) :: m => if String.eqb k k' then Some v else smap_find k m
  end.
(** m[k] = v *)
Fixpoint smap_set (k : string) (v : A) (m : smap A) : smap A :=
  match m with
  | [] => [(k, v)]
  | (k', v') :: m' =>
      match String.compare k k' with
      | Eq => (k, v) :: m'
      | Lt => (k, v) :: m
      | Gt => (k', v') :: smap_set k v m'
      end
  end.
(** m.emplace(k, v): [None] when the key is there. *)
Definition smap_emplace (k : string) (v : A) (m : smap A) : option (smap A) :=
  match smap_find k m with Some _ => None | None => Some (smap_set k v m) end.
End Map.

(** ** Facts about text *)
Lemma string_length_app s t : String.length (s ++ t)%string = (String.length s + String.length t)%nat.
Proof. induction s as [|c s IH]; [done|]. change (S (String.length (s ++ t)) = S (String.length s + String.length t))%nat. by rewrite IH. Qed.
Lemma str_take_drop n s : (str_take n s ++ str_drop n s)%string = s.
Proof.
  revert s. induction n as [|n IH]; intros [|c s]; try done.
  change (String c (str_take n s ++ str_drop n s) = String c s). by rewrite IH.
Qed.
Lemma str_take_app a b : str_take (String.length a) (a ++ b) = a.
Proof. induction a as [|c a IH]; [by destruct b|]. change (String c (str_take (String.length a) (a ++ b)) = String c a). by rewrite IH. Qed.
Lemma str_drop_app a b : str_drop (String.length a) (a ++ b) = b.
Proof. induction a as [|c a IH]; [by destruct b|]. exact IH. Qed.
Lemma str_take_all s : str_take (String.length s) s = s.
Proof. induction s as [|c s IH]; [done|]. change (String c (str_take (String.length s) s) = String c s). by rewrite IH. Qed.
Lemma length_str_take n s : String.length (str_take n s) = Nat.min n (String.length s).
Proof. revert s. induction n as [|n IH]; intros [|c s]; simpl; try done. by rewrite IH. Qed.
Lemma length_str_drop n s : String.length (str_drop n s) = (String.length s - n)%nat.
Proof. revert s. induction n as [|n IH]; intros [|c s]; simpl; try done. Qed.
Lemma string_app_nil s : (s ++ "")%string = s.
Proof. induction s as [|c s IH]; [done|]. change (String c (s ++ "") = String c s). by rewrite IH. Qed.

(** The first occurrence of a character cuts a string in two. *)
Lemma all_chars_app f s t : all_chars f (s ++ t) = all_chars f s && all_chars f t.
Proof.
  induction s as [|c s IH]; [done|]. change (f c && all_chars f (s ++ t) = f c && all_chars f s && all_chars f t).
  by rewrite IH, andb_assoc.
Qed.
Lemma find_char_app c a b : no_char c a = true -> find_char c (a ++ String c b) = Some (String.length a).
Proof.
  induction a as [|d a IH]; intros Ha.
  - change (find_char c (String c b) = Some 0%nat). simpl. by rewrite Ascii.eqb_refl.
  - change (find_char c (String d (a ++ String c b)) = Some (S (String.length a))). simpl in *.
    apply andb_true_iff in Ha as [Hd Ha]. destruct (Ascii.eqb_spec d c) as [->|].
    + by rewrite bool_decide_eq_true_2 in Hd.
    + by rewrite IH.
Qed.
Lemma find_char_Some c s n : find_char c s = Some n ->
  s = (str_take n s ++ String c (str_drop (S n) s))%string /\ no_char c (str_take n s) = true.
Proof.
  revert n. induction s as [|d s IH]; intros n; cbn [find_char]; [done|].
  destruct (Ascii.eqb_spec d c) as [->|Hd].
  - intros [= <-]. by destruct s.
  - destruct (find_char c s) as [m|]; [|done]. intros [= <-]. destruct (IH m eq_refl) as [E Hn].
    change (String d s = String d (str_take m s ++ String c (str_drop (S m) s)) /\
            negb (bool_decide (c = d)) && no_char c (str_take m s) = true).
    rewrite <- E, Hn, bool_decide_eq_false_2 by congruence. done.
Qed.
Lemma find_char_None c s : find_char c s = None <-> no_char c s = true.
Proof.
  induction s as [|d s IH]; cbn [find_char no_char]; [done|]. destruct (Ascii.eqb_spec d c) as [->|Hd].
  - rewrite bool_decide_eq_true_2 by done. done.
  - rewrite bool_decide_eq_false_2 by congruence. cbn [negb andb]. rewrite <- IH. by destruct (find_char c s).
Qed.
(** Two texts cut at the same character agree on both sides. *)
Lemma cut_inj c a a' b b' : no_char c a = true -> no_char c a' = true ->
  (a ++ String c b)%string = (a' ++ String c b')%string -> a = a' /\ b = b'.
Proof.
  intros Ha Ha' E. pose proof (find_char_app c a b Ha) as F. rewrite E, find_char_app in F by done.
  injection F as F. pose proof (f_equal (str_take (String.length a)) E) as E1.
  pose proof (f_equal (str_drop (String.length a)) E) as E2. rewrite str_take_app, <- F, str_take_app in E1.
  rewrite str_drop_app, <- F, str_drop_app in E2. by injection E2.
Qed.

(** ** Decimal numbers *)
Lemma to_string_inj a b : 0 <= a -> 0 <= b -> to_string a = to_string b -> a = b.
Proof.
  intros Ha Hb E. unfold to_string in E. apply (f_equal NilZero.uint_of_string) in E.
  assert (Hne : forall n, N.to_uint n ≠ Decimal.Nil).
  { intros n Hn. pose proof (DecimalN.Unsigned.of_to n) as H. rewrite Hn in H. simpl in H. by subst n. }
  rewrite !NilZero.usu in E by apply Hne. injection E as E. apply (f_equal N.of_uint) in E.
  rewrite !DecimalN.Unsigned.of_to in E. lia.
Qed.
Lemma digits_double d : (Decimal.nb_digits (Decimal.Little.double d) <= S (Decimal.nb_digits d))%nat /\
  (Decimal.nb_digits (Decimal.Little.succ_double d) <= S (Decimal.nb_digits d))%nat.
Proof. induction d; simpl; lia. Qed.
Lemma digits_of_pos p : (Decimal.nb_digits (Pos.to_little_uint p) <= Pos.size_nat p)%nat.
Proof.
  induction p as [p IH|p IH|]; simpl; [|..|lia]; pose proof (digits_double (Pos.to_little_uint p)); lia.
Qed.
Lemma length_string_of_uint u : String.length (NilEmpty.string_of_uint u) = Decimal.nb_digits u.
Proof. induction u; simpl; by rewrite ?IHu. Qed.
Lemma digits_revapp d : forall e, Decimal.nb_digits (Decimal.revapp d e) = (Decimal.nb_digits d + Decimal.nb_digits e)%nat.
Proof. induction d; intros e; simpl; rewrite ?IHd; simpl; lia. Qed.
Lemma size_nat_le p : 2 ^ (Z.of_nat (Pos.size_nat p) - 1) <= Zpos p.
Proof.
  induction p as [p IH|p IH|]; cbn [Pos.size_nat]; [..|done];
    replace (Z.of_nat (S (Pos.size_nat p)) - 1) with (Z.succ (Z.of_nat (Pos.size_nat p) - 1)) by lia;
    (assert (1 <= Z.of_nat (Pos.size_nat p)) by (destruct p; simpl; lia));
    rewrite Z.pow_succ_r by lia; lia.
Qed.
Lemma length_to_string z : 0 <= z < 2 ^ 64 -> (String.length (to_string z) <= 64)%nat.
Proof.
  intros Hz. unfold to_string. destruct z as [|p|]; [vm_compute; lia|..|lia]. cbn [Z.to_N N.to_uint].
  assert (Hp : (Decimal.nb_digits (Pos.to_uint p) <= 64)%nat).
  { unfold Pos.to_uint, Decimal.rev. rewrite digits_revapp. pose proof (digits_of_pos p).
    destruct (Nat.le_gt_cases (Pos.size_nat p) 64); [simpl; lia|]. exfalso. pose proof (size_nat_le p).
    assert (2 ^ 64 <= 2 ^ (Z.of_nat (Pos.size_nat p) - 1)) by (apply Z.pow_le_mono_r; lia). lia. }
  unfold NilZero.string_of_uint.
  destruct (Pos.to_uint p) eqn:E; rewrite <- ?E in *; try (rewrite length_string_of_uint; exact Hp). simpl. lia.
Qed.

(** ** Bytes *)
Lemma byte_of_range c : is_byte (byte_of c).
Proof. unfold is_byte, byte_of. pose proof (nat_ascii_bounded c). lia. Qed.
Lemma bytes_of_ok s : bytes_ok (bytes_of s).
Proof. induction s as [|c s IH]; constructor; [apply byte_of_range|done]. Qed.
Lemma blen_bytes_of s : blen (bytes_of s) = slen s.
Proof. unfold blen, slen. f_equal. induction s; simpl; by rewrite ?IHs. Qed.
Lemma string_of_bytes_of s : string_of (bytes_of s) = s.
Proof.
  induction s as [|c s IH]; [done|]. cbn [bytes_of string_of]. rewrite IH. f_equal. unfold byte_of.
  by rewrite Nat2Z.id, ascii_nat_embedding.
Qed.
Lemma bytes_of_inj s t : bytes_of s = bytes_of t -> s = t.
Proof. intros E. by rewrite <- (string_of_bytes_of s), E, string_of_bytes_of. Qed.
Lemma bytes_of_string_of bs : bytes_ok bs -> bytes_of (string_of bs) = bs.
Proof.
  induction 1 as [|b bs Hb _ IH]; [done|]. cbn [bytes_of string_of]. rewrite IH. f_equal. unfold byte_of, is_byte in *.
  rewrite nat_ascii_embedding by lia. lia.
Qed.

(** ** Words of a stream *)
Definition word_char (c : ascii) : bool := negb (is_space c).
Lemma take_word_app w c rest : all_chars word_char w = true -> is_space c = true ->
  take_word (w ++ String c rest) = (w, String c rest).
Proof.
  intros Hw Hc. induction w as [|d w IH]; [change (take_word (String c rest) = (""%string, String c rest)); cbn [take_word]; by rewrite Hc|].
  cbn in Hw. apply andb_true_iff in Hw as [Hd Hw]. unfold word_char in Hd. apply negb_true_iff in Hd.
  change (take_word (String d (w ++ String c rest)) = (String d w, String c rest)). cbn [take_word].
  by rewrite Hd, IH.
Qed.
Lemma skip_space_word w rest : w ≠ ""%string -> all_chars word_char w = true -> skip_space (w ++ rest) = (w ++ rest)%string.
Proof.
  destruct w as [|d w]; [done|]. intros _ Hw. cbn in Hw. apply andb_true_iff in Hw as [Hd _].
  apply negb_true_iff in Hd. change (skip_space (String d (w ++ rest)) = String d (w ++ rest)). cbn [skip_space]. by rewrite Hd.
Qed.
Lemma extract_word_app w c rest : w ≠ ""%string -> all_chars word_char w = true -> is_space c = true ->
  extract_word (w ++ String c rest) = Some (w, String c rest).
Proof.
  intros Hne Hw Hc. unfold extract_word. rewrite skip_space_word, take_word_app by done. by destruct w.
Qed.
Lemma extract_word_space c s : is_space c = true -> extract_word (String c s) = extract_word s.
Proof. intros Hc. unfold extract_word. cbn [skip_space]. by rewrite Hc. Qed.

(** ** Hexadecimal text *)
Lemma hex_byte_cases (P : Z -> Prop) : (forall b, b ∈ seqZ 0 256 -> P b) -> forall b, is_byte b -> P b.
Proof. intros H b Hb. apply H. apply elem_of_seqZ. unfold is_byte in Hb. lia. Qed.
Lemma length_hex_bytes bs : String.length (hex_bytes bs) = (2 * length bs)%nat.
Proof. induction bs as [|b bs IH]; [done|]. cbn [hex_bytes String.length length]. rewrite IH. lia. Qed.
Lemma hex_char_word d : word_char (hex_char d) = true.
Proof.
  unfold hex_char. destruct (String.get _ _) eqn:E; [|done]. revert E. generalize (Z.to_nat d). intros n E.
  do 16 (destruct n as [|n]; [by injection E as <-|]). done.
Qed.
Lemma hex_bytes_word bs : all_chars word_char (hex_bytes bs) = true.
Proof. induction bs as [|b bs IH]; [done|]. cbn [hex_bytes all_chars]. by rewrite !hex_char_word, IH. Qed.

(** ** Decimal text *)
Definition stops (rest : string) : bool := match rest with String c _ => negb (is_digit c) | EmptyString => true end.
Lemma digits_stop rest acc : stops rest = true -> digits rest acc = (acc, rest).
Proof. destruct rest as [|c rest]; [done|]. cbn. by destruct (is_digit c). Qed.
Lemma digits_cons c s rest acc : is_digit c = true ->
  digits (String c s ++ rest) acc = digits (s ++ rest) (Some (default 0 acc * 10 + (Z.of_nat (nat_of_ascii c) - 48))).
Proof. intros Hc. change (String c s ++ rest)%string with (String c (s ++ rest)). cbn [digits]. by rewrite Hc. Qed.
Lemma digits_acc rest u : stops rest = true -> forall acc,
  digits (NilEmpty.string_of_uint u ++ rest) (Some (Zpos acc)) = (Some (Zpos (Pos.of_uint_acc u acc)), rest).
Proof.
  intros Hr. induction u; intros acc; [by apply digits_stop|..];
    (refine (eq_trans _ (IHu _)); cbn [NilEmpty.string_of_uint]; rewrite digits_cons by done; f_equal; f_equal;
     match goal with |- context [Z.of_nat (nat_of_ascii ?c)] =>
       let k := eval vm_compute in (Z.of_nat (nat_of_ascii c)) in change (Z.of_nat (nat_of_ascii c)) with k end;
     cbn [default from_option id]; lia).
Qed.
Lemma digits_zero rest u : stops rest = true ->
  digits (NilEmpty.string_of_uint u ++ rest) (Some 0) = (Some (Z.of_N (N.of_uint u)), rest).
Proof.
  intros Hr. induction u; [by apply digits_stop|exact IHu|..]; exact (digits_acc rest u Hr _).
Qed.
Lemma digits_to_string z rest : 0 <= z -> stops rest = true -> digits (to_string z ++ rest) None = (Some z, rest).
Proof.
  intros Hz Hr. unfold to_string, NilZero.string_of_uint.
  assert (Hu : Z.of_N (N.of_uint (N.to_uint (Z.to_N z))) = z) by (rewrite DecimalN.Unsigned.of_to; lia).
  pose proof (digits_zero rest (N.to_uint (Z.to_N z)) Hr) as Hd. rewrite Hu in Hd.
  destruct (N.to_uint (Z.to_N z)); [|exact Hd..].
  change (digits rest (Some 0) = (Some z, rest)). by rewrite <- Hu, digits_stop.
Qed.
Lemma all_digits_uint u : all_chars is_digit (NilEmpty.string_of_uint u) = true.
Proof. by induction u. Qed.
Lemma to_string_digits z : all_chars is_digit (to_string z) = true /\ to_string z ≠ ""%string.
Proof.
  unfold to_string, NilZero.string_of_uint. pose proof (all_digits_uint (N.to_uint (Z.to_N z))) as Hd.
  by destruct (N.to_uint (Z.to_N z)).
Qed.
(** A decimal number starts with a digit. *)
Lemma to_string_head z : exists c s, to_string z = String c s /\ is_digit c = true.
Proof.
  destruct (to_string_digits z) as [Hd Hne]. destruct (to_string z) as [|c s]; [done|].
  exists c, s. split; [done|]. cbn in Hd. by apply andb_true_iff in Hd as [-> _].
Qed.
Lemma digit_not_space c : is_digit c = true -> is_space c = false.
Proof. unfold is_digit, is_space. intros [H1%Nat.leb_le H2%Nat.leb_le]%andb_true_iff. apply orb_false_iff. split; [apply Nat.eqb_neq|apply andb_false_iff; right; apply Nat.leb_gt]; lia. Qed.

(** ** Maps *)
Definition str_lt (s t : string) : Prop := String.compare s t = Lt.
Lemma string_compare_refl s : String.compare s s = Eq.
Proof. pose proof (String.compare_antisym s s) as E. by destruct (String.compare s s). Qed.
#[global] Instance str_lt_trans : Transitive str_lt.
Proof.
  unfold str_lt. intros s. induction s as [|a s IH]; intros [|b t] [|c u]; cbn [String.compare]; try done.
  unfold Ascii.compare. intros H1 H2.
  destruct (N.compare_spec (N_of_ascii a) (N_of_ascii b)) as [E1|E1|E1], (N.compare_spec (N_of_ascii b) (N_of_ascii c)) as [E2|E2|E2];
    try done; destruct (N.compare_spec (N_of_ascii a) (N_of_ascii c)); try lia; try done. by eapply IH.
Qed.
Lemma str_lt_irrefl s : ~ str_lt s s.
Proof. unfold str_lt. by rewrite string_compare_refl. Qed.
Section MapFacts.
Context {A : Type}.
Implicit Types m : smap A.
(** The keys are in order, so there is one of each. *)
Definition smap_ok m : Prop := StronglySorted str_lt m.*1.
Lemma smap_find_set k v m k' : smap_find k' (smap_set k v m) = if String.eqb k' k then Some v else smap_find k' m.
Proof.
  induction m as [|[k1 v1] m IH]; cbn [smap_set smap_find]; [done|].
  destruct (String.compare k k1) eqn:E; cbn [smap_find].
  - apply String.compare_eq_iff in E as <-. destruct (String.eqb k' k); done.
  - done.
  - rewrite IH. destruct (String.eqb_spec k' k1) as [->|]; [|done].
    destruct (String.eqb_spec k1 k) as [->|]; [|done]. by rewrite string_compare_refl in E.
Qed.
Lemma smap_set_keys k v m x : x ∈ (smap_set k v m).*1 <-> x = k \/ x ∈ m.*1.
Proof.
  induction m as [|[k1 v1] m IH]; cbn [smap_set fmap list_fmap fst]; [set_solver|].
  destruct (String.compare k k1) eqn:E; cbn [fmap list_fmap fst]; [|set_solver|].
  - apply String.compare_eq_iff in E as <-. set_solver.
  - rewrite !elem_of_cons, IH. tauto.
Qed.
Lemma smap_set_ok k v m : smap_ok m -> smap_ok (smap_set k v m).
Proof.
  unfold smap_ok. induction m as [|[k1 v1] m IH]; cbn [smap_set fmap list_fmap fst]; [by repeat constructor|].
  intros [Hs Hf]%StronglySorted_inv. destruct (String.compare k k1) eqn:E; cbn [fmap list_fmap fst].
  - apply String.compare_eq_iff in E as <-. by constructor.
  - constructor; [by constructor|]. constructor; [done|]. eapply Forall_impl; [exact Hf|]. intros x. by apply str_lt_trans.
  - constructor; [by apply IH|]. apply Forall_forall. intros x [->|Hx]%smap_set_keys.
    + unfold str_lt. by rewrite String.compare_antisym, E.
    + rewrite Forall_forall in Hf. by apply Hf.
Qed.
Lemma smap_find_None k m : smap_find k m = None <-> (k ∉ m.*1).
Proof.
  induction m as [|[k1 v1] m IH]; cbn [smap_find fmap list_fmap fst]; [set_solver|].
  rewrite not_elem_of_cons, <- IH. destruct (String.eqb_spec k k1); naive_solver.
Qed.
Lemma smap_ok_NoDup m : smap_ok m -> NoDup m.*1.
Proof.
  unfold smap_ok. induction (m.*1) as [|k ks IH]; [constructor|]. intros [Hs Hf]%StronglySorted_inv.
  constructor; [|by apply IH]. intros Hin. rewrite Forall_forall in Hf. by apply Hf, str_lt_irrefl in Hin.
Qed.
Lemma smap_find_elem k v m : smap_ok m -> smap_find k m = Some v <-> (k, v) ∈ m.
Proof.
  intros Hm%smap_ok_NoDup. induction m as [|[k1 v1] m IH]; cbn [smap_find]; [set_solver|].
  cbn [fmap list_fmap fst] in Hm. apply NoDup_cons in Hm as [Hk Hm]. rewrite elem_of_cons.
  destruct (String.eqb_spec k k1) as [->|Hne].
  - split; [intros [= ->]; by left|]. intros [[= ->]|Hin]; [done|]. destruct Hk. apply list_elem_of_fmap. by exists (k1, v).
  - rewrite IH by done. naive_solver.
Qed.
Lemma length_smap_set k v m : smap_find k m = None -> length (smap_set k v m) = S (length m).
Proof.
  induction m as [|[k1 v1] m IH]; cbn [smap_find smap_set]; [done|].
  destruct (String.eqb_spec k k1) as [->|Hne]; [done|]. intros Hf.
  destruct (String.compare k k1) eqn:E; cbn [length]; [|done|by rewrite IH].
  by apply String.compare_eq_iff in E.
Qed.
Lemma smap_emplace_Some k v m m' : smap_emplace k v m = Some m' ->
  m' = smap_set k v m /\ smap_find k m = None.
Proof. unfold smap_emplace. destruct (smap_find k m); [done|]. by intros [= <-]. Qed.
End MapFacts.

(** ** Suffixes *)
Lemma substring_all n s : String.substring n (String.length s - n) s = str_drop n s.
Proof.
  revert n. induction s as [|c s IH]; intros [|n]; cbn; try done.
  f_equal. specialize (IH 0%nat). rewrite Nat.sub_0_r in IH. by rewrite IH; destruct s.
Qed.
Lemma ends_with_app s suffix : ends_with s suffix = true ->
  s = (str_take (String.length s - String.length suffix) s ++ suffix)%string.
Proof.
  unfold ends_with. intros [Hle%Nat.leb_le E%String.eqb_eq]%andb_true_iff.
  set (k := String.length suffix) in *. set (n := String.length s) in *.
  replace k with (n - (n - k))%nat in E at 2 by lia. unfold n at 2 in E. rewrite substring_all in E.
  rewrite <- E. symmetry. apply str_take_drop.
Qed.
