(* ===== verification/RangeSet.v ===== *)
(** otautil/rangeset.{h,cpp}: sets of half-open block ranges, the unit in
    which block-based OTA data, FUSE block maps and update verification
    address storage. [RangeSet] keeps the ranges in insertion order with a
    cached block count; [SortedRangeSet] keeps them sorted and merged. *)
From stdpp Require Import base list strings gmap sorting.
From Stdlib Require Import ZArith Lia Ascii.
From S2P Require Import Prelude Libbase.

Abbreviation Range := (Z * Z)%type.

Record RangeSet := MkRangeSet { ranges_ : list Range; blocks_ : Z }.

(** ** RangeSet *)
Definition empty_rs : RangeSet := MkRangeSet [] 0.

Definition Clear (rs : RangeSet) : RangeSet := empty_rs.

Definition PushBack (rs : RangeSet) (range : Range) : RangeSet * bool :=
  let '(first, second) := range in
  if second <=? first then (rs, false)
  else
    let sz := u64 (second - first) in
    if u64 (SIZE_MAX - sz) <=? blocks_ rs then (rs, false)
    else (MkRangeSet (ranges_ rs ++ [range]) (u64 (blocks_ rs + sz)), true).

(** The vector constructor: the first rejected pair clears the set. *)
Fixpoint push_all (rs : RangeSet) (pairs : list Range) : RangeSet :=
  match pairs with
  | [] => rs
  | range :: rest =>
      match PushBack rs range with
      | (rs', true) => push_all rs' rest
      | (rs', false) => Clear rs'
      end
  end.
Definition of_pairs (pairs : list Range) : RangeSet :=
  match pairs with [] => empty_rs | _ => push_all empty_rs pairs end.

(** [Parse] is written against libbase's [Split] and [ParseUint]; a failed
    parse is the empty set. *)
Fixpoint parse_pairs `{AndroidBase} (pieces : list string) : option (list Range) :=
  match pieces with
  | p :: q :: rest =>
      first ← base_ParseUint p INT_MAX;
      second ← base_ParseUint q INT_MAX;
      pairs ← parse_pairs rest;
      Some ((first, second) :: pairs)
  | _ => Some []
  end.
Definition Parse `{AndroidBase} (range_text : string) : RangeSet :=
  let pieces := base_Split range_text "," in
  if Z.of_nat (length pieces) <? 3 then empty_rs
  else match base_ParseUint (default ""%string (pieces !! 0%nat)) INT_MAX with
  | None => empty_rs
  | Some num =>
      if num =? 0 then empty_rs
      else if negb (num mod 2 =? 0) then empty_rs
      else if negb (num =? Z.of_nat (length pieces) - 1) then empty_rs
      else match parse_pairs (drop 1 pieces) with
           | None => empty_rs
           | Some pairs => of_pairs pairs
           end
  end.

Definition ToString (rs : RangeSet) : string :=
  match ranges_ rs with
  | [] => ""
  | _ =>
      foldl (fun result '(b, e) => result ++ "," ++ to_string b ++ "," ++ to_string e)%string
        (to_string (u64 (Z.of_nat (length (ranges_ rs)) * 2))) (ranges_ rs)
  end.

(** [None] is the abort of a failed [CHECK]. *)
Fixpoint block_number (ranges : list Range) (idx : Z) : option Z :=
  match ranges with
  | [] => None
  | (b, e) :: rest =>
      if idx <? u64 (e - b) then Some (u64 (b + idx))
      else block_number rest (u64 (idx - (e - b)))
  end.
Definition GetBlockNumber (rs : RangeSet) (idx : Z) : option Z :=
  if idx <? blocks_ rs then block_number (ranges_ rs) idx else None.

Definition range_overlaps (r s : Range) : bool :=
  negb ((r.2 <=? s.1) || (s.2 <=? r.1)).
Definition Overlaps (rs other : RangeSet) : bool :=
  existsb (fun r => existsb (range_overlaps r) (ranges_ other)) (ranges_ rs).

(** The outer option is a failed [CHECK_LT], the inner one the returned
    [std::optional]. *)
Fixpoint sub_ranges (ranges : list Range) (start_index end_index current_index : Z)
    (result : RangeSet) : option (option RangeSet) :=
  match ranges with
  | [] => Some None
  | (range_start, range_end) :: rest =>
      if range_end <=? range_start then None
      else
        let blocks_in_range := u64 (range_end - range_start) in
        if u64 (current_index + blocks_in_range) <=? start_index then
          sub_ranges rest start_index end_index (u64 (current_index + blocks_in_range)) result
        else
          let trimmed_range_start :=
            if current_index <? start_index
            then u64 (range_start + u64 (start_index - current_index)) else range_start in
          if end_index <=? u64 (current_index + blocks_in_range) then
            let trimmed_range_end :=
              u64 (range_end - u64 (current_index + blocks_in_range - end_index)) in
            match PushBack result (trimmed_range_start, trimmed_range_end) with
            | (_, false) => Some None
            | (result', true) => Some (Some result')
            end
          else match PushBack result (trimmed_range_start, range_end) with
               | (_, false) => Some None
               | (result', true) =>
                   sub_ranges rest start_index end_index
                     (u64 (current_index + blocks_in_range)) result'
               end
  end.
Definition GetSubRanges (rs : RangeSet) (start_index num_of_blocks : Z)
    : option (option RangeSet) :=
  let end_index := u64 (start_index + num_of_blocks) in
  if (end_index <? start_index) || (blocks_ rs <? end_index) then Some None
  else if num_of_blocks =? 0 then Some (Some empty_rs)
  else sub_ranges (ranges_ rs) start_index end_index 0 empty_rs.

(** The inner [while] of [Split]: [it] is the suffix of [ranges_] at the
    iterator, [range] the untaken part of its head. Advancing past the end
    is undefined, [None]. *)
Fixpoint fill_group (it : list Range) (range : Range) (needed : Z) (buffer : RangeSet)
    : option (list Range * Range * RangeSet) :=
  if needed =? 0 then Some (it, range, buffer)
  else match it with
  | [] => None
  | _ :: it' =>
      let range_blocks := u64 (range.2 - range.1) in
      if needed <? range_blocks then
        Some (it, (u64 (range.1 + needed), range.2),
              (PushBack buffer (range.1, u64 (range.1 + needed))).1)
      else
        fill_group it' (match it' with r :: _ => r | [] => range end)
          (u64 (needed - range_blocks)) (PushBack buffer range).1
  end.
Fixpoint fill_groups (blocks_per_group : list Z) (it : list Range) (range : Range)
    : option (list RangeSet) :=
  match blocks_per_group with
  | [] => Some []
  | blocks :: rest =>
      '(it', range', buffer) ← fill_group it range blocks empty_rs;
      result ← fill_groups rest it' range';
      Some (buffer :: result)
  end.
Definition blocks_per_group (blocks groups : Z) : list Z :=
  let mean := blocks / groups in
  replicate (Z.to_nat (blocks mod groups)) (mean + 1) ++
  replicate (Z.to_nat (groups - blocks mod groups)) mean.
Definition Split (rs : RangeSet) (groups : Z) : option (list RangeSet) :=
  match ranges_ rs with
  | [] => Some []
  | r :: _ =>
      if groups =? 0 then Some []
      else
        let groups := if blocks_ rs <? groups then blocks_ rs else groups in
        fill_groups (blocks_per_group (blocks_ rs) groups) (ranges_ rs) r
  end.

(** ** SortedRangeSet *)
Definition kBlockSize : Z := 4096.

(** [std::pair]'s lexicographic [operator<]; [std::sort] over a total order
    has one result, computed here by merge sort. *)
Definition range_le (r s : Range) : Prop := r.1 < s.1 \/ (r.1 = s.1 /\ r.2 <= s.2).
#[global] Instance range_le_dec : RelDecision range_le.
Proof. intros r s. unfold range_le. apply _. Defined.
Definition sort_ranges (l : list Range) : list Range := merge_sort range_le l.

Definition sorted_of_pairs (pairs : list Range) : RangeSet :=
  let rs := of_pairs pairs in
  MkRangeSet (sort_ranges (ranges_ rs)) (blocks_ rs).

Fixpoint merge_ranges (to_insert : Range) (temp : list Range) (acc : RangeSet) : RangeSet :=
  let flush := MkRangeSet (ranges_ acc ++ [to_insert])
                 (u64 (blocks_ acc + (to_insert.2 - to_insert.1))) in
  match temp with
  | [] => flush
  | it :: rest =>
      if it.1 <=? to_insert.2
      then merge_ranges (to_insert.1, Z.max to_insert.2 it.2) rest acc
      else merge_ranges it rest flush
  end.
Definition Insert (self rs : RangeSet) : RangeSet :=
  match ranges_ rs with
  | [] => self
  | _ =>
      match sort_ranges (ranges_ self ++ ranges_ rs) with
      | [] => empty_rs
      | front :: rest => merge_ranges front rest empty_rs
      end
  end.
Definition InsertRange (self : RangeSet) (to_insert : Range) : RangeSet :=
  Insert self (sorted_of_pairs [to_insert]).
Definition extent_range (start len : Z) : Range :=
  (start / kBlockSize, u64 (u64 (start + len - 1) / kBlockSize + 1)).
Definition InsertExtent (self : RangeSet) (start len : Z) : RangeSet :=
  InsertRange self (extent_range start len).
Definition OverlapsExtent (self : RangeSet) (start len : Z) : bool :=
  Overlaps self (of_pairs [extent_range start len]).

Fixpoint offset_in_ranges (ranges : list Range) (old_offset new_block_start : Z) : option Z :=
  let old_block_start := old_offset / kBlockSize in
  match ranges with
  | [] => None
  | (start, end_) :: rest =>
      if end_ <=? old_block_start then
        offset_in_ranges rest old_offset (u64 (new_block_start + (end_ - start)))
      else if start <=? old_block_start then
        let new_block_start := u64 (new_block_start + (old_block_start - start)) in
        Some (u64 (new_block_start * kBlockSize + old_offset mod kBlockSize))
      else None
  end.
Definition GetOffsetInRangeSet (rs : RangeSet) (old_offset : Z) : option Z :=
  offset_in_ranges (ranges_ rs) old_offset 0.

(** ** Specification: the sequence of block numbers a set stands for *)
Definition range_blocks (r : Range) : list Z := seqZ r.1 (r.2 - r.1).
Definition expand (l : list Range) : list Z := l ≫= range_blocks.
Arguments expand : simpl never.
Definition total (l : list Range) : Z := foldr (fun r acc => r.2 - r.1 + acc) 0 l.
Definition range_ok (r : Range) : Prop := 0 <= r.1 < r.2 /\ r.2 < 2 ^ 64.

(** The representation invariant: non-empty 64-bit ranges, an exact cached
    count, and a count below [SIZE_MAX]. *)
Record wf (rs : RangeSet) : Prop := MkWf {
  wf_ranges : Forall range_ok (ranges_ rs);
  wf_count : blocks_ rs = total (ranges_ rs);
  wf_bound : blocks_ rs < SIZE_MAX
}.
Definition block_list (rs : RangeSet) : list Z := expand (ranges_ rs).

Lemma total_app l k : total (l ++ k) = total l + total k.
Proof. unfold total. induction l as [|r l IH]; simpl; [done|]. unfold total in *. lia. Qed.
Lemma total_nonneg l : Forall range_ok l -> 0 <= total l.
Proof. unfold total. induction 1 as [|r l Hr _ IH]; simpl; [done|]. destruct Hr. lia. Qed.
Lemma expand_cons r l : expand (r :: l) = range_blocks r ++ expand l.
Proof. done. Qed.
Lemma expand_app l k : expand (l ++ k) = expand l ++ expand k.
Proof. apply bind_app. Qed.
Lemma length_range_blocks r :
  range_ok r -> Z.of_nat (length (range_blocks r)) = r.2 - r.1.
Proof. intros [??]. unfold range_blocks. rewrite length_seqZ. lia. Qed.
Lemma length_expand l : Forall range_ok l -> Z.of_nat (length (expand l)) = total l.
Proof.
  induction 1 as [|r l Hr Hl IH]; [done|].
  rewrite expand_cons, length_app, Nat2Z.inj_add, IH, length_range_blocks by done.
  done.
Qed.
Lemma empty_wf : wf empty_rs.
Proof. split; simpl; [constructor|done|done]. Qed.

Lemma PushBack_ok rs r :
  wf rs -> range_ok r -> blocks_ rs + (r.2 - r.1) < SIZE_MAX ->
  PushBack rs r = (MkRangeSet (ranges_ rs ++ [r]) (blocks_ rs + (r.2 - r.1)), true).
Proof.
  intros [Hr Hc Hb] Hok Hlt. destruct r as [b e]. unfold range_ok in Hok. simpl in *.
  pose proof (total_nonneg _ Hr). unfold PushBack.
  destruct (Z.leb_spec e b); [lia|]. unwrap.
  destruct (Z.leb_spec (SIZE_MAX - (e - b)) (blocks_ rs)); [lia|]. done.
Qed.

Lemma PushBack_wf rs r :
  wf rs -> is_u64 r.1 -> is_u64 r.2 -> wf (PushBack rs r).1.
Proof.
  intros Hwf H1 H2. destruct r as [b e]. unfold PushBack. simpl in *.
  destruct (Z.leb_spec e b); [done|]. pose proof Hwf as [Hr Hc Hb].
  pose proof (total_nonneg _ Hr). unwrap.
  destruct (Z.leb_spec (SIZE_MAX - (e - b)) (blocks_ rs)); [done|].
  rewrite u64_id by (unfold_width; lia).
  split; simpl; [|rewrite total_app; simpl; lia|lia].
  apply Forall_app; split; [done|]. constructor; [|constructor].
  unfold range_ok, is_u64 in *. simpl. lia.
Qed.

Lemma push_all_wf pairs : forall rs,
  wf rs -> Forall (fun r => is_u64 r.1 /\ is_u64 r.2) pairs -> wf (push_all rs pairs).
Proof.
  induction pairs as [|r pairs IH]; intros rs Hwf Hp; simpl; [done|].
  inversion_clear Hp as [|?? [H1 H2] Hp'].
  pose proof (PushBack_wf rs r Hwf H1 H2) as Hwf'.
  destruct (PushBack rs r) as [rs' []]; [by apply IH|apply empty_wf].
Qed.

Lemma of_pairs_wf pairs :
  Forall (fun r => is_u64 r.1 /\ is_u64 r.2) pairs -> wf (of_pairs pairs).
Proof.
  destruct pairs; intros Hp; [apply empty_wf|]. apply push_all_wf; [apply empty_wf|done].
Qed.

(** Pairs that form a well-formed set are all accepted, in order. *)
Lemma push_all_app pairs : forall rs,
  wf rs -> Forall range_ok pairs -> blocks_ rs + total pairs < SIZE_MAX ->
  push_all rs pairs = MkRangeSet (ranges_ rs ++ pairs) (blocks_ rs + total pairs).
Proof.
  induction pairs as [|r pairs IH]; intros rs Hwf Hp Hb; simpl.
  { rewrite app_nil_r, Z.add_0_r. by destruct rs. }
  inversion_clear Hp as [|?? Hr Hp']. pose proof (total_nonneg _ Hp').
  change (total (r :: pairs)) with (r.2 - r.1 + total pairs) in Hb.
  rewrite PushBack_ok by (done || lia). rewrite IH; simpl; [|split|done|lia].
  - rewrite <- app_assoc. f_equal. lia.
  - simpl. apply Forall_app; split; [apply Hwf|by apply Forall_singleton].
  - simpl. rewrite total_app. simpl. destruct Hwf. lia.
  - simpl. lia.
Qed.

Lemma parse_pairs_range `{AndroidBaseLaws} : forall pieces pairs,
  parse_pairs pieces = Some pairs -> Forall (fun r => is_u64 r.1 /\ is_u64 r.2) pairs.
Proof.
  fix IH 1. intros [|p [|q rest]] pairs E; simpl in E; try (simplify_eq; constructor).
  destruct (base_ParseUint p INT_MAX) as [a|] eqn:Ea; [|done].
  destruct (base_ParseUint q INT_MAX) as [b|] eqn:Eb; [|done].
  destruct (parse_pairs rest) as [ps|] eqn:Ep; [|done]. simpl in E. simplify_eq.
  apply parse_uint_range in Ea. apply parse_uint_range in Eb.
  constructor; [|by eapply IH]. unfold_width. simpl. lia.
Qed.

(** The pieces [ToString] joins with commas. *)
Definition range_pieces (l : list Range) : list string :=
  l ≫= fun r => [to_string r.1; to_string r.2].

Lemma ToString_pieces l ps :
  ps ≠ [] ->
  foldl (fun result '(b, e) => result ++ "," ++ to_string b ++ "," ++ to_string e)%string
    (String.concat "," ps) l = String.concat "," (ps ++ range_pieces l).
Proof.
  revert ps. induction l as [|[b e] l IH]; intros ps Hne; cbn [foldl].
  { by rewrite app_nil_r. }
  replace (range_pieces ((b, e) :: l))
    with ([to_string b] ++ [to_string e] ++ range_pieces l) by done.
  rewrite !app_assoc, <- IH by (by destruct ps).
  f_equal. rewrite !concat_snoc by (by destruct ps). by rewrite !string_app_assoc.
Qed.

Lemma parse_pairs_pieces `{AndroidBaseLaws} l :
  Forall (fun r => range_ok r /\ r.2 <= INT_MAX) l -> parse_pairs (range_pieces l) = Some l.
Proof.
  induction 1 as [|[b e] l [Hr He] Hl IH]; [done|].
  change (range_pieces ((b, e) :: l)) with (to_string b :: to_string e :: range_pieces l).
  unfold range_ok in Hr. simpl in *. rewrite !parse_uint_print by lia. simpl. by rewrite IH.
Qed.

Lemma no_comma_to_string z : no_char "," (to_string z) = true.
Proof. apply no_char_to_string. simpl. intros d Hd. intuition (subst; discriminate). Qed.
Lemma no_comma_pieces l : Forall (fun p => no_char "," p = true) (range_pieces l).
Proof.
  induction l as [|r l IH]; [constructor|].
  change (range_pieces (r :: l)) with (to_string r.1 :: to_string r.2 :: range_pieces l).
  repeat constructor; [apply no_comma_to_string..|done].
Qed.
Lemma length_range_pieces l : length (range_pieces l) = (2 * length l)%nat.
Proof.
  induction l as [|r l IH]; [done|].
  change (range_pieces (r :: l)) with (to_string r.1 :: to_string r.2 :: range_pieces l).
  simpl length. lia.
Qed.

Lemma parse_wf `{AndroidBaseLaws} text : wf (Parse text).
Proof.
  unfold Parse. repeat (case_match; try apply empty_wf).
  apply of_pairs_wf. by eapply parse_pairs_range.
Qed.

(** Printing a well-formed set and parsing the text back gives the same
    set, for every set whose bounds and token count fit the INT_MAX limit
    that Parse enforces (the empty set included). *)
Theorem parse_to_string `{AndroidBaseLaws} rs :
  wf rs -> Forall (fun r => r.2 <= INT_MAX) (ranges_ rs) ->
  2 * Z.of_nat (length (ranges_ rs)) <= INT_MAX ->
  Parse (ToString rs) = rs.
Proof.
  intros [Hr Hc Hb] Hmax Hlen. destruct rs as [l n]. simpl in *. subst n.
  unfold ToString; simpl. destruct l as [|r0 l0] eqn:El.
  { unfold Parse. pose proof (split_concat ","%char [""%string] ltac:(done) ltac:(by repeat constructor)) as E.
    simpl in E. rewrite E. done. }
  assert (0 < length l)%nat by (rewrite El; simpl; lia).
  rewrite <- El in *. clear El r0 l0.
  unwrap. set (n := Z.of_nat (length l) * 2).
  change (to_string n) with (String.concat "," [to_string n]).
  rewrite ToString_pieces by done. unfold Parse.
  rewrite split_concat; [|done|].
  2:{ constructor; [apply no_comma_to_string|apply no_comma_pieces]. }
  cbn [length app]. rewrite length_range_pieces.
  destruct (Z.ltb_spec (Z.of_nat (S (2 * length l))) 3); [lia|].
  cbn. rewrite parse_uint_print by lia.
  destruct (Z.eqb_spec n 0); [lia|].
  replace (n mod 2) with 0 by (unfold n; by rewrite Z.mod_mul).
  cbn [Z.eqb negb]. zcase; [|lia]. cbn [negb drop].
  rewrite drop_0, parse_pairs_pieces.
  - destruct l; [done|]. unfold of_pairs. rewrite push_all_app; [done|apply empty_wf|done|]. cbn [blocks_ empty_rs]. lia.
  - apply Forall_and; done.
Qed.

(** ** Block enumeration *)
Lemma block_number_lookup l : forall idx,
  Forall range_ok l -> is_u64 idx -> block_number l idx = expand l !! Z.to_nat idx.
Proof.
  induction l as [|[b e] l IH]; intros idx Hl Hi; [done|].
  inversion_clear Hl as [|?? Hr Hl']. pose proof (length_range_blocks _ Hr) as Hlen.
  unfold range_ok in Hr. simpl in *. rewrite expand_cons. unfold is_u64 in Hi. unwrap.
  destruct (Z.ltb_spec idx (e - b)).
  - rewrite lookup_app_l by lia. unfold range_blocks. simpl.
    rewrite lookup_seqZ_lt by lia. unwrap. f_equal. lia.
  - rewrite lookup_app_r by lia. unwrap. rewrite IH by (done || unfold_width; lia).
    f_equal. lia.
Qed.

(** GetBlockNumber idx is the idx-th block of the enumeration, and the
    bound CHECK fails exactly beyond its end. *)
Lemma GetBlockNumber_lookup rs idx :
  wf rs -> is_u64 idx -> GetBlockNumber rs idx = block_list rs !! Z.to_nat idx.
Proof.
  intros [Hr Hc Hb] Hi. unfold GetBlockNumber, block_list.
  rewrite block_number_lookup by done. pose proof (length_expand _ Hr).
  destruct (Z.ltb_spec idx (blocks_ rs)); [done|].
  symmetry. apply lookup_ge_None. unfold is_u64 in Hi. lia.
Qed.

Lemma elem_of_expand l x :
  x ∈ expand l <-> exists r, r ∈ l /\ r.1 <= x < r.2.
Proof.
  unfold expand. rewrite list_elem_of_bind. split; intros (r & H1 & H2); exists r.
  - unfold range_blocks in H1. rewrite elem_of_seqZ in H1. split; [done|lia].
  - unfold range_blocks. rewrite elem_of_seqZ. split; [lia|done].
Qed.

Lemma existsb_elem {A} (f : A -> bool) l :
  existsb f l = true <-> exists x, x ∈ l /\ f x = true.
Proof. rewrite existsb_exists. by setoid_rewrite list_elem_of_In. Qed.

(** Two well-formed sets overlap exactly when they share a block. *)
Lemma overlaps_spec rs other :
  wf rs -> wf other ->
  (Overlaps rs other = true <-> exists b, b ∈ block_list rs /\ b ∈ block_list other).
Proof.
  intros [Hr _ _] [Ho _ _]. unfold Overlaps, block_list.
  rewrite existsb_elem. rewrite Forall_forall in Hr, Ho. split.
  - intros (r & Hrin & (s & Hsin & E)%existsb_elem).
    specialize (Hr r Hrin). specialize (Ho s Hsin).
    unfold range_overlaps, range_ok in *.
    apply negb_true_iff, orb_false_iff in E as [E1%Z.leb_gt E2%Z.leb_gt].
    exists (Z.max r.1 s.1). split; apply elem_of_expand; eexists; (split; [done|lia]).
  - intros (b & (r & Hrin & Hb)%elem_of_expand & (s & Hsin & Hb')%elem_of_expand).
    exists r. split; [done|]. apply existsb_elem. exists s. split; [done|].
    unfold range_overlaps. apply negb_true_iff, orb_false_iff.
    split; apply Z.leb_gt; lia.
Qed.

(** ** Sub-ranges *)
Lemma seqZ_slice b n k m :
  0 <= k -> 0 <= m -> k + m <= n ->
  take (Z.to_nat m) (drop (Z.to_nat k) (seqZ b n)) = seqZ (b + k) m.
Proof.
  intros Hk Hm Hn. replace n with (k + (m + (n - k - m))) by lia.
  rewrite seqZ_app, drop_app_length' by (rewrite ?length_seqZ; lia).
  rewrite seqZ_app, take_app_length' by (rewrite ?length_seqZ; lia). done.
Qed.

Lemma block_list_snoc l n r m :
  block_list (MkRangeSet (l ++ [r]) m) = block_list (MkRangeSet l n) ++ range_blocks r.
Proof. unfold block_list. simpl. by rewrite expand_app, expand_cons, app_nil_r. Qed.

Lemma push_step rs r :
  wf rs -> range_ok r -> blocks_ rs + (r.2 - r.1) < SIZE_MAX ->
  exists rs', PushBack rs r = (rs', true) /\ wf rs' /\
    blocks_ rs' = blocks_ rs + (r.2 - r.1) /\
    block_list rs' = block_list rs ++ range_blocks r.
Proof.
  intros Hwf Hr Hb. rewrite PushBack_ok by done. eexists. split; [done|].
  split; [|split; [done|by destruct rs; apply block_list_snoc]].
  destruct Hwf as [H1 H2 H3]. split; simpl; [|rewrite total_app; simpl; lia|done].
  apply Forall_app; split; [done|by apply Forall_singleton].
Qed.

Lemma sub_ranges_spec l S E : forall cur res,
  Forall range_ok l -> wf res -> 0 <= cur < E -> 0 <= S < E ->
  E <= cur + total l -> cur + total l < SIZE_MAX -> blocks_ res = Z.max 0 (cur - S) ->
  exists rs', sub_ranges l S E cur res = Some (Some rs') /\ wf rs' /\
    block_list rs' = block_list res ++
      take (Z.to_nat (E - Z.max cur S)) (drop (Z.to_nat (Z.max cur S - cur)) (expand l)).
Proof.
  induction l as [|[b e] l IH]; intros cur res Hl Hwf Hcur HS HE Htot Hres.
  { simpl in HE. lia. }
  inversion_clear Hl as [|?? Hr Hl']. pose proof (total_nonneg _ Hl').
  pose proof (length_range_blocks _ Hr) as Hlen. rewrite expand_cons.
  change (total ((b, e) :: l)) with (e - b + total l) in *.
  unfold range_ok in Hr. simpl in Hr, Hlen. cbn [sub_ranges].
  destruct (Z.leb_spec e b); [lia|]. unwrap.
  destruct (Z.leb_spec (cur + (e - b)) S).
  { destruct (IH (cur + (e - b)) res) as (rs' & -> & Hwf' & Hbl); try (done || lia).
    exists rs'. split; [done|]. split; [done|]. rewrite Hbl. f_equal.
    rewrite !Z.max_r by lia. f_equal.
    rewrite drop_app_ge by lia. f_equal. lia. }
  set (ts := if cur <? S then _ else b).
  assert (Hts : ts = b + (Z.max cur S - cur)).
  { unfold ts. zcase; unwrap; lia. }
  rewrite Hts. clear ts Hts. set (k := Z.max cur S - cur).
  destruct (Z.leb_spec E (cur + (e - b))).
  - unwrap. destruct (push_step res (b + k, e - (cur + (e - b) - E))) as (rs' & -> & Hwf' & _ & Hbl);
      [done|unfold range_ok; simpl; lia|simpl; lia|].
    exists rs'. split; [done|]. split; [done|]. rewrite Hbl. f_equal.
    rewrite drop_app_le, take_app_le by (rewrite ?length_drop; lia).
    unfold range_blocks. simpl. rewrite seqZ_slice by lia. f_equal. lia.
  - destruct (push_step res (b + k, e)) as (rs' & -> & Hwf' & Hb' & Hbl);
      [done|unfold range_ok; simpl; lia|simpl; lia|].
    destruct (IH (cur + (e - b)) rs') as (rs2 & -> & Hwf2 & Hbl2);
      try (done || lia); [simpl in Hb'; lia|].
    exists rs2. split; [done|]. split; [done|]. rewrite Hbl2, Hbl, <- app_assoc. f_equal.
    rewrite (Z.max_l (cur + (e - b)) S) by lia. rewrite Z.sub_diag, drop_0.
    rewrite drop_app_le, take_app_ge by (rewrite ?length_drop; lia). f_equal.
    + unfold range_blocks. simpl. rewrite <- (seqZ_slice b (e - b) k) by lia.
      rewrite take_ge by (rewrite length_drop, length_seqZ; lia). done.
    + rewrite length_drop. f_equal. lia.
Qed.

Lemma GetSubRanges_inside rs start num :
  wf rs -> is_u64 start -> is_u64 num -> start + num <= blocks_ rs ->
  exists rs', GetSubRanges rs start num = Some (Some rs') /\ wf rs' /\
    block_list rs' = take (Z.to_nat num) (drop (Z.to_nat start) (block_list rs)).
Proof.
  intros Hwf Hs Hn Hle. pose proof Hwf as [Hr Hc Hb]. unfold GetSubRanges. unfold_width.
  unwrap. destruct (Z.ltb_spec (start + num) start); [lia|].
  destruct (Z.ltb_spec (blocks_ rs) (start + num)); [lia|]. simpl.
  destruct (Z.eqb_spec num 0) as [->|].
  { eexists. split; [done|]. split; [apply empty_wf|done]. }
  destruct (sub_ranges_spec (ranges_ rs) start (start + num) 0 empty_rs)
    as (rs' & -> & Hwf' & Hbl); try (done || apply empty_wf || (simpl; unfold_width; lia)).
  exists rs'. split; [done|]. split; [done|]. rewrite Hbl. simpl.
  rewrite Z.max_r by lia. unfold block_list. do 2 f_equal; lia.
Qed.
(** GetSubRanges returns, as a well-formed set, exactly the requested
    run of the enumerated blocks when it lies inside the set, and nullopt
    otherwise, also when start_index + num_of_blocks wraps around 2^64; no
    CHECK fails. *)
Theorem get_sub_ranges_spec rs start num :
  wf rs -> is_u64 start -> is_u64 num ->
  if decide (start + num <= blocks_ rs)
  then exists rs', GetSubRanges rs start num = Some (Some rs') /\ wf rs' /\
         block_list rs' = take (Z.to_nat num) (drop (Z.to_nat start) (block_list rs))
  else GetSubRanges rs start num = Some None.
Proof.
  intros Hwf Hs Hn. case_decide as Hle; [by apply GetSubRanges_inside|].
  pose proof Hwf as [Hr Hc Hb]. unfold GetSubRanges. unfold_width.
  assert (u64 (start + num) < start \/ blocks_ rs < u64 (start + num)) as Hor.
  { destruct (Z.lt_ge_cases (start + num) (2 ^ 64)) as [Hlt|Hge]; [right; unwrap; lia|left].
    unfold u64. replace (start + num) with (start + num - 2 ^ 64 + 1 * 2 ^ 64) by lia.
    rewrite Z.mod_add, Z.mod_small by lia. lia. }
  destruct Hor as [Hlt|Hlt]; apply Z.ltb_lt in Hlt; rewrite Hlt; [done|].
  by rewrite orb_true_r.
Qed.

(** ** Splitting into groups *)

(** What is left to hand out when the iterator is at [it] and [range] is the
    untaken part of its head. *)
Definition pending (it : list Range) (range : Range) : list Range :=
  match it with [] => [] | _ :: rest => range :: rest end.

Lemma fill_group_spec it : forall range needed buffer,
  Forall range_ok (pending it range) -> 0 <= needed <= total (pending it range) ->
  wf buffer -> blocks_ buffer + needed < SIZE_MAX ->
  exists it' range' buffer',
    fill_group it range needed buffer = Some (it', range', buffer') /\
    wf buffer' /\ blocks_ buffer' = blocks_ buffer + needed /\
    block_list buffer' ++ expand (pending it' range') =
      block_list buffer ++ expand (pending it range) /\
    Forall range_ok (pending it' range') /\
    total (pending it' range') = total (pending it range) - needed.
Proof.
  induction it as [|h it IH]; intros range needed buffer Hok Hn Hwf Hb.
  { simpl in Hn. assert (needed = 0) as -> by lia. simpl.
    exists [], range, buffer. rewrite !Z.add_0_r. done. }
  destruct (Z.eqb_spec needed 0) as [->|Hne].
  { exists (h :: it), range, buffer. rewrite Z.add_0_r, Z.sub_0_r. done. }
  cbn [fill_group]. apply Z.eqb_neq in Hne as Hne'. rewrite Hne'. clear Hne'.
  destruct range as [b e]. cbn [pending fst snd] in *.
  inversion_clear Hok as [|?? Hr Hok']. pose proof Hr as Hr'. unfold range_ok in Hr'. simpl in Hr'.
  change (total ((b, e) :: it)) with (e - b + total it) in *. rewrite expand_cons.
  pose proof (total_nonneg _ (wf_ranges _ Hwf)). pose proof (wf_count _ Hwf).
  unwrap. destruct (Z.ltb_spec needed (e - b)).
  - unwrap. destruct (push_step buffer (b, b + needed)) as (bf & -> & Hwf' & Hb' & Hbl);
      [done|unfold range_ok; simpl; lia|simpl; lia|].
    eexists _, _, _. split; [done|]. cbn [pending fst snd] in *.
    split; [done|]. split; [lia|]. rewrite expand_cons, Hbl. split; [|split].
    + rewrite <- app_assoc. f_equal. rewrite app_assoc. f_equal. unfold range_blocks. simpl.
      replace (e - b) with (needed + (e - (b + needed))) by lia. rewrite seqZ_app by lia.
      do 2 f_equal. lia.
    + constructor; [unfold range_ok; simpl; lia|done].
    + unfold total. simpl. fold (total it). lia.
  - unwrap. destruct (push_step buffer (b, e)) as (bf & -> & Hwf' & Hb' & Hbl);
      [done|done|simpl; lia|]. cbn [fst snd] in *.
    assert (Hp : pending it match it with [] => (b, e) | r :: _ => r end = it) by by destruct it.
    destruct (IH (match it with [] => (b, e) | r :: _ => r end) (needed - (e - b)) bf)
      as (it' & r' & bf' & -> & Hwf2 & Hb2 & Hbl2 & Hok2 & Ht2);
      rewrite ?Hp; try (done || lia).
    exists it', r', bf'. split; [done|]. split; [done|]. split; [lia|].
    rewrite Hp in Hbl2, Ht2. rewrite Hbl2, Hbl, <- app_assoc.
    split; [done|]. split; [done|]. lia.
Qed.

Lemma fill_groups_spec bs : forall it range,
  Forall range_ok (pending it range) -> Forall (fun b => 0 <= b) bs ->
  foldr Z.add 0 bs = total (pending it range) -> total (pending it range) < SIZE_MAX ->
  exists gs, fill_groups bs it range = Some gs /\ Forall wf gs /\
    blocks_ <$> gs = bs /\ gs ≫= block_list = expand (pending it range).
Proof.
  induction bs as [|n bs IH]; intros it range Hok Hbs Hsum Hlt.
  { exists []. split; [done|]. split; [constructor|]. split; [done|].
    simpl in Hsum. pose proof (length_expand _ Hok) as Hl.
    destruct (expand (pending it range)); [done|]. simpl in Hl. lia. }
  inversion_clear Hbs as [|?? Hn Hbs']. simpl in Hsum.
  assert (0 <= foldr Z.add 0 bs) by (clear - Hbs'; induction Hbs'; simpl; lia).
  destruct (fill_group_spec it range n empty_rs)
    as (it' & r' & bf & E & Hwf & Hb & Hbl & Hok' & Ht);
    [done|lia|apply empty_wf|simpl; lia|].
  destruct (IH it' r') as (gs & Eg & Hgs & Hbl' & Hcat); [done|done|lia|lia|].
  exists (bf :: gs). split; [cbn [fill_groups]; rewrite E; simpl; by rewrite Eg|]. split; [by constructor|]. split; [by rewrite fmap_cons, Hb, Hbl'|].
  change (block_list bf ++ (gs ≫= block_list) = expand (pending it range)).
  by rewrite Hcat, Hbl.
Qed.

Lemma sum_replicate n x : foldr Z.add 0 (replicate n x) = Z.of_nat n * x.
Proof. induction n as [|n IH]; [done|]. simpl foldr. rewrite IH. lia. Qed.
Lemma sum_app (l k : list Z) : foldr Z.add 0 (l ++ k) = foldr Z.add 0 l + foldr Z.add 0 k.
Proof. induction l as [|x l IH]; simpl; [done|]. lia. Qed.

Lemma blocks_per_group_sum n g :
  0 <= n -> 0 < g -> foldr Z.add 0 (blocks_per_group n g) = n.
Proof.
  intros Hn Hg. unfold blocks_per_group. rewrite sum_app, !sum_replicate.
  pose proof (Z.mod_pos_bound n g Hg). pose proof (Z.div_mod n g). nia.
Qed.

(** Split into g > 0 groups returns min(g, blocks) well-formed non-empty
    sets whose concatenated blocks are the set's blocks in order and whose
    sizes differ by at most one; the range iterator never runs off the end. *)
Theorem split_spec rs groups :
  wf rs -> is_u64 groups -> 0 < groups ->
  exists gs, Split rs groups = Some gs /\ Forall wf gs /\
    gs ≫= block_list = block_list rs /\
    Z.of_nat (length gs) = Z.min groups (blocks_ rs) /\
    forall g h, g ∈ gs -> h ∈ gs -> blocks_ g <= blocks_ h + 1 /\ 0 < blocks_ g.
Proof.
  intros [Hr Hc Hb] Hg Hpos. unfold Split, block_list at 2.
  destruct (ranges_ rs) as [|r l] eqn:El.
  { exists []. simpl in Hc. rewrite Hc. split; [done|]. split; [constructor|]. split; [done|].
    split; [simpl; lia|]. intros g h Hin. by apply not_elem_of_nil in Hin. }
  destruct (Z.eqb_spec groups 0); [lia|].
  assert (Hn : 0 < blocks_ rs).
  { rewrite Hc. inversion_clear Hr as [|?? Hr1 Hr2]. pose proof (total_nonneg _ Hr2).
    destruct Hr1. simpl. fold (total l). lia. }
  set (ng := if blocks_ rs <? groups then _ else _).
  assert (Hng : ng = Z.min groups (blocks_ rs)) by (unfold ng; zcase; lia).
  clearbody ng. assert (0 < ng) by lia.
  pose proof (Z.mod_pos_bound (blocks_ rs) ng ltac:(lia)).
  assert (1 <= blocks_ rs / ng) by (apply Z.div_le_lower_bound; lia).
  destruct (fill_groups_spec (blocks_per_group (blocks_ rs) ng) (r :: l) r)
    as (gs & -> & Hgs & Hbl & Hcat); cbn [pending] in *; try (done || lia).
  { unfold blocks_per_group. apply Forall_app; split; apply Forall_replicate; lia. }
  { rewrite blocks_per_group_sum by lia. done. }
  exists gs. split; [done|]. split; [done|]. split; [done|]. split.
  - rewrite <- (length_fmap blocks_ gs), Hbl. unfold blocks_per_group.
    rewrite length_app, !length_replicate. lia.
  - assert (Hval : forall g, g ∈ gs ->
      blocks_ g = blocks_ rs / ng + 1 \/ blocks_ g = blocks_ rs / ng).
    { intros g Hin. apply (list_elem_of_fmap_2 blocks_) in Hin. rewrite Hbl in Hin.
      unfold blocks_per_group in Hin.
      apply elem_of_app in Hin as [[Hin _]%elem_of_replicate|[Hin _]%elem_of_replicate]; auto. }
    intros g h Hg1 Hh1. pose proof (Hval g Hg1). pose proof (Hval h Hh1). lia.
Qed.

(** ** SortedRangeSet *)
Definition separated (l : list Range) : Prop := StronglySorted (fun r s => r.2 < s.1) l.
(** Sorted, disjoint and non-adjacent ranges with an exact count. *)
Record sorted_wf (rs : RangeSet) : Prop := MkSortedWf {
  swf_ranges : Forall range_ok (ranges_ rs);
  swf_separated : separated (ranges_ rs);
  swf_count : blocks_ rs = total (ranges_ rs)
}.

Lemma separated_snoc l t :
  separated (l ++ [t]) <-> separated l /\ (forall r, r ∈ l -> r.2 < t.1).
Proof.
  unfold separated. rewrite StronglySorted_app. split.
  - intros (H1 & H2 & _). split; [done|]. intros r Hr. apply H1; [done|set_solver].
  - intros (H1 & H2). split; [|split; [done|repeat constructor]].
    intros x y Hx ->%list_elem_of_singleton. auto.
Qed.

Lemma separated_total l : forall lo,
  Forall range_ok l -> separated l -> 0 <= lo < 2 ^ 64 ->
  (forall r, r ∈ l -> lo <= r.1) -> lo + total l < 2 ^ 64.
Proof.
  induction l as [|r l IH]; intros lo Hok Hsep Hlo Hle; [simpl; lia|].
  inversion_clear Hok as [|?? Hr Hok']. inversion_clear Hsep as [|?? Hs Hf].
  rewrite Forall_forall in Hf. unfold range_ok in Hr.
  specialize (Hle r ltac:(set_solver)).
  specialize (IH r.2 Hok' Hs ltac:(lia)).
  change (total (r :: l)) with (r.2 - r.1 + total l).
  enough (r.2 + total l < 2 ^ 64) by lia. apply IH.
  intros s Hin. specialize (Hf s Hin). simpl in Hf. lia.
Qed.
Lemma separated_bound l : Forall range_ok l -> separated l -> 0 <= total l < 2 ^ 64.
Proof.
  intros Hok Hs. split; [by apply total_nonneg|].
  enough (0 + total l < 2 ^ 64) by lia.
  apply separated_total; try done. intros r Hin.
  rewrite Forall_forall in Hok. destruct (Hok r Hin). lia.
Qed.

Lemma merge_ranges_spec temp : forall t acc,
  range_ok t -> Forall range_ok temp -> Forall (fun it => t.1 <= it.1) temp ->
  StronglySorted range_le temp -> Forall range_ok (ranges_ acc) ->
  separated (ranges_ acc ++ [t]) -> blocks_ acc = total (ranges_ acc) ->
  sorted_wf (merge_ranges t temp acc) /\
  forall x, x ∈ block_list (merge_ranges t temp acc) <->
    x ∈ block_list acc \/ t.1 <= x < t.2 \/ x ∈ expand temp.
Proof.
  assert (Hflush : forall t acc, range_ok t -> Forall range_ok (ranges_ acc) ->
    separated (ranges_ acc ++ [t]) -> blocks_ acc = total (ranges_ acc) ->
    Forall range_ok (ranges_ acc ++ [t]) /\
    u64 (blocks_ acc + (t.2 - t.1)) = total (ranges_ acc ++ [t])).
  { intros t acc Ht Hacc Hsep Hb.
    assert (Hok : Forall range_ok (ranges_ acc ++ [t])).
    { apply Forall_app; split; [done|by apply Forall_singleton]. }
    pose proof (separated_bound _ Hok Hsep) as Hbd. split; [done|].
    rewrite total_app in *. simpl in *. rewrite u64_id; unfold_width; lia. }
  induction temp as [|it temp IH]; intros t acc Ht Htemp Hle Hsort Hacc Hsep Hb; cbn [merge_ranges].
  - destruct (Hflush t acc) as [Hok Hcnt]; try done. split; [by split|].
    intros x. unfold block_list. simpl. rewrite expand_app, elem_of_app, !elem_of_expand.
    split.
    + intros [?|(r & ->%list_elem_of_singleton & ?)]; auto.
    + intros [?|[?|(r & []%not_elem_of_nil & _)]]; [auto|]. right. exists t. set_solver.
  - inversion_clear Htemp as [|?? Hit Htemp']. inversion_clear Hle as [|?? Hle1 Hle'].
    inversion_clear Hsort as [|?? Hsort' Hhd]. pose proof Ht as Ht'. pose proof Hit as Hit'.
    unfold range_ok in Ht', Hit'. rewrite expand_cons.
    assert (Hinit : forall x, x ∈ range_blocks it <-> it.1 <= x < it.2).
    { intros x. unfold range_blocks. rewrite elem_of_seqZ. lia. }
    setoid_rewrite elem_of_app. setoid_rewrite Hinit.
    destruct (Z.leb_spec it.1 t.2).
    + destruct (IH (t.1, Z.max t.2 it.2) acc) as [H1 H2]; try done.
      { unfold range_ok. simpl. lia. }
      { apply separated_snoc in Hsep as [??]. by apply separated_snoc. }
      split; [done|]. intros x. rewrite H2. simpl.
      assert (t.1 <= x < Z.max t.2 it.2 <-> t.1 <= x < t.2 \/ it.1 <= x < it.2) by lia. tauto.
    + destruct (Hflush t acc) as [Hok Hcnt]; try done.
      destruct (IH it (MkRangeSet (ranges_ acc ++ [t]) (u64 (blocks_ acc + (t.2 - t.1))))) as [H1 H2];
        try done.
      { rewrite Forall_forall in Hhd |- *. intros s Hs. specialize (Hhd s Hs).
        unfold range_le in Hhd. lia. }
      { simpl. apply separated_snoc. split; [done|]. apply separated_snoc in Hsep as [_ Hsep].
        intros r [Hin| ->%list_elem_of_singleton]%elem_of_app; [|lia].
        specialize (Hsep r Hin). lia. }
      split; [done|]. intros x. rewrite H2. unfold block_list. simpl.
      rewrite expand_app, elem_of_app, expand_cons, elem_of_app.
      assert (x ∈ range_blocks t <-> t.1 <= x < t.2) as ->
        by (unfold range_blocks; rewrite elem_of_seqZ; lia).
      assert (x ∈ expand [] <-> False) as -> by (unfold expand; set_solver). tauto.
Qed.

#[global] Instance range_le_trans : Transitive range_le.
Proof. intros r s t. unfold range_le. lia. Qed.
#[global] Instance range_le_total : Total range_le.
Proof. intros r s. unfold range_le. lia. Qed.

Lemma expand_perm l k x : l ≡ₚ k -> x ∈ expand l <-> x ∈ expand k.
Proof. intros Hp. rewrite !elem_of_expand. by setoid_rewrite Hp. Qed.

Lemma sorted_insert_spec self rs :
  sorted_wf self -> Forall range_ok (ranges_ rs) ->
  sorted_wf (Insert self rs) /\
  forall x, x ∈ block_list (Insert self rs) <-> x ∈ block_list self \/ x ∈ block_list rs.
Proof.
  intros Hself Hrs. unfold Insert. destruct (ranges_ rs) as [|r0 rest] eqn:Ers.
  { split; [done|]. intros x. unfold block_list at 3. rewrite Ers. unfold expand. set_solver. }
  rewrite <- Ers in *.
  pose proof (merge_sort_Permutation range_le (ranges_ self ++ ranges_ rs)) as Hperm.
  pose proof (StronglySorted_merge_sort range_le (ranges_ self ++ ranges_ rs)) as Hsort.
  fold (sort_ranges (ranges_ self ++ ranges_ rs)) in Hperm, Hsort.
  assert (Hok : Forall range_ok (sort_ranges (ranges_ self ++ ranges_ rs))).
  { rewrite Hperm. apply Forall_app. split; [apply Hself|done]. }
  destruct (sort_ranges (ranges_ self ++ ranges_ rs)) as [|f tl] eqn:Es.
  { apply Permutation_nil_l in Hperm. destruct (ranges_ self); simplify_eq/=. congruence. }
  inversion_clear Hok as [|?? Hf Htl]. inversion_clear Hsort as [|?? Hs Hhd].
  destruct (merge_ranges_spec tl f empty_rs) as [H1 H2]; try done.
  { rewrite Forall_forall in Hhd |- *. intros s Hin. specialize (Hhd s Hin).
    unfold range_le in Hhd. lia. }
  { repeat constructor. }
  split; [done|]. intros x. rewrite H2. unfold block_list. cbn [ranges_ empty_rs].
  rewrite <- elem_of_app, <- expand_app, <- (expand_perm _ _ _ Hperm), expand_cons, elem_of_app.
  assert (x ∈ range_blocks f <-> f.1 <= x < f.2) as ->
    by (unfold range_blocks; rewrite elem_of_seqZ; lia).
  assert (x ∈ expand [] <-> False) as -> by (unfold expand; set_solver). tauto.
Qed.

Lemma elem_of_range_blocks r x : x ∈ range_blocks r <-> r.1 <= x < r.2.
Proof. unfold range_blocks. rewrite elem_of_seqZ. lia. Qed.

Lemma separated_above r l x :
  Forall range_ok l -> separated (r :: l) -> x ∈ expand l -> r.2 < x.
Proof.
  intros Hok Hsep (s & Hin & Hx)%elem_of_expand.
  inversion_clear Hsep as [|?? _ Hf]. rewrite Forall_forall in Hf.
  specialize (Hf s Hin). simpl in Hf. lia.
Qed.

Lemma offset_in_ranges_spec old l : forall nb,
  is_u64 old -> Forall range_ok l -> separated l -> 0 <= nb -> (forall r, r ∈ l -> nb <= r.1) ->
  (forall i, expand l !! i = Some (old / kBlockSize) ->
     offset_in_ranges l old nb = Some ((nb + Z.of_nat i) * kBlockSize + old mod kBlockSize)) /\
  (old / kBlockSize ∉ expand l -> offset_in_ranges l old nb = None).
Proof.
  induction l as [|[s e] l IH]; intros nb Hold Hok Hsep Hnb Hle; [done|].
  set (ob := old / kBlockSize) in *.
  assert (Hob : ob * kBlockSize + old mod kBlockSize = old /\ 0 <= old mod kBlockSize < kBlockSize /\ 0 <= ob).
  { unfold ob, kBlockSize, is_u64 in *. pose proof (Z.div_mod old 4096).
    pose proof (Z.mod_pos_bound old 4096). pose proof (Z.div_pos old 4096). lia. }
  inversion_clear Hok as [|?? Hr Hok']. pose proof (length_range_blocks _ Hr) as Hlen.
  assert (Habove : forall x, x ∈ expand l -> e < x).
  { intros x. by apply (separated_above (s, e)). }
  assert (Hles : nb <= s) by (apply (Hle (s, e)); set_solver).
  inversion_clear Hsep as [|?? Hsep' Hf]. rewrite Forall_forall in Hf.
  rewrite expand_cons. unfold range_ok in Hr. simpl in Hr, Hlen. unfold is_u64 in Hold.
  cbn [offset_in_ranges]. fold ob. destruct (Z.leb_spec e ob).
  { rewrite u64_id by (unfold_width; lia). destruct (IH (nb + (e - s))) as [IH1 IH2]; try (done || lia).
    { intros r Hin. specialize (Hf r Hin). simpl in Hf. lia. }
    split.
    - intros i Hi. apply lookup_app_Some in Hi as [Hi|[Hi1 Hi2]].
      + apply list_elem_of_lookup_2, elem_of_range_blocks in Hi. simpl in Hi. lia.
      + rewrite (IH1 _ Hi2). do 3 f_equal. lia.
    - intros Hn. apply IH2. set_solver. }
  destruct (Z.leb_spec s ob).
  { rewrite (u64_id (nb + (ob - s))) by (unfold_width; lia).
    assert ((nb + (ob - s)) * kBlockSize <= ob * kBlockSize) by (unfold kBlockSize; lia).
    rewrite u64_id by (unfold_width; unfold kBlockSize in *; lia). split.
    - intros i Hi. apply lookup_app_Some in Hi as [Hi|[_ Hi]].
      + unfold range_blocks in Hi. simpl in Hi. apply lookup_seqZ in Hi. do 3 f_equal. lia.
      + apply list_elem_of_lookup_2, Habove in Hi. lia.
    - intros []. apply elem_of_app. left. apply elem_of_range_blocks. simpl. lia. }
  split; [|done]. intros i Hi. apply lookup_app_Some in Hi as [Hi|[_ Hi]].
  - apply list_elem_of_lookup_2, elem_of_range_blocks in Hi. simpl in Hi. lia.
  - apply list_elem_of_lookup_2, Habove in Hi. lia.
Qed.

(** A file offset whose block is the i-th block of a sorted set maps to
    byte i*4096 plus the offset inside the block; an offset outside the set
    trips the CHECK. *)
Theorem get_offset_spec rs old :
  sorted_wf rs -> is_u64 old ->
  (forall i, block_list rs !! i = Some (old / kBlockSize) ->
     GetOffsetInRangeSet rs old = Some (Z.of_nat i * kBlockSize + old mod kBlockSize)) /\
  (old / kBlockSize ∉ block_list rs -> GetOffsetInRangeSet rs old = None).
Proof.
  intros [Hok Hsep _] Hold. unfold GetOffsetInRangeSet.
  apply (offset_in_ranges_spec old (ranges_ rs) 0); try done.
  intros r Hin. rewrite Forall_forall in Hok. destruct (Hok r Hin). lia.
Qed.

Lemma sorted_of_pair r :
  range_ok r -> r.2 - r.1 < SIZE_MAX ->
  sorted_of_pairs [r] = MkRangeSet [r] (r.2 - r.1).
Proof.
  intros Hr Hlt. unfold sorted_of_pairs, of_pairs.
  rewrite push_all_app; [|apply empty_wf|by apply Forall_singleton|simpl; lia].
  cbn [ranges_ blocks_ empty_rs]. f_equal. simpl. lia.
Qed.

(** Inserting the byte extent [start, start+len) into a sorted set keeps
    it sorted, disjoint, merged and exactly counted, and adds exactly the
    4096-byte blocks the extent touches. *)
Theorem insert_extent_spec self start len :
  sorted_wf self -> is_u64 start -> 0 < len -> start + len <= 2 ^ 64 ->
  sorted_wf (InsertExtent self start len) /\
  forall x, x ∈ block_list (InsertExtent self start len) <->
    x ∈ block_list self \/ start <= x * kBlockSize + (kBlockSize - 1) /\ x * kBlockSize < start + len.
Proof.
  intros Hself Hs Hlen Hsum. unfold is_u64 in Hs. unfold InsertExtent, InsertRange, extent_range.
  rewrite (u64_id (start + len - 1)) by (unfold_width; lia).
  assert (0 <= start / kBlockSize <= (start + len - 1) / kBlockSize /\
          (start + len - 1) / kBlockSize < 2 ^ 52).
  { unfold kBlockSize. split; [split; [apply Z.div_pos; lia|apply Z.div_le_mono; lia]|].
    apply Z.div_lt_upper_bound; lia. }
  rewrite u64_id by (unfold_width; lia).
  rewrite sorted_of_pair by (unfold range_ok, SIZE_MAX; simpl; lia).
  destruct (sorted_insert_spec self (MkRangeSet [(start / kBlockSize, (start + len - 1) / kBlockSize + 1)]
    ((start + len - 1) / kBlockSize + 1 - start / kBlockSize))) as [H1 H2]; [done| |].
  { apply Forall_singleton. unfold range_ok. simpl. lia. }
  split; [done|]. intros x. rewrite H2. unfold block_list at 2. cbn [ranges_].
  rewrite expand_cons, elem_of_app, elem_of_range_blocks. cbn [fst snd].
  assert (x ∈ expand [] <-> False) as -> by (unfold expand; set_solver).
  unfold kBlockSize in *.
  assert (start / 4096 <= x < (start + len - 1) / 4096 + 1 <->
    start <= x * 4096 + (4096 - 1) /\ x * 4096 < start + len) as ->; [|tauto].
  pose proof (Z.div_mod start 4096). pose proof (Z.mod_pos_bound start 4096).
  pose proof (Z.div_mod (start + len - 1) 4096). pose proof (Z.mod_pos_bound (start + len - 1) 4096).
  lia.
Qed.

(** A zero-length extent at offset 0 occupies no block, yet Insert(0, 0)
    wraps start + len - 1 and inserts all 2^52 blocks of the address space. *)
Theorem insert_zero_length_at_zero :
  InsertExtent empty_rs 0 0 = MkRangeSet [(0, 2 ^ 52)] (2 ^ 52).
Proof. reflexivity. Qed.

(** ** Concrete runs *)
Definition demo_rs : RangeSet := MkRangeSet [(1, 9); (15, 19)] 12.
Lemma demo_rs_wf : wf demo_rs.
Proof.
  split; [|reflexivity|unfold SIZE_MAX; simpl; lia].
  repeat (apply Forall_cons; split; [unfold range_ok; simpl; lia|]). by apply Forall_nil.
Qed.
Lemma demo_rs_sorted : sorted_wf demo_rs.
Proof.
  split; [apply demo_rs_wf| |reflexivity].
  repeat constructor.
Qed.

Lemma parse_to_string_witness : Parse (ToString demo_rs) = demo_rs.
Proof.
  apply (parse_to_string (B := ref_base)); [apply demo_rs_wf| |unfold INT_MAX; simpl; lia].
  repeat (apply Forall_cons; split; [unfold INT_MAX; simpl; lia|]). by apply Forall_nil.
Defined.

Lemma get_sub_ranges_spec_witness :
  exists rs', GetSubRanges demo_rs 6 4 = Some (Some rs') /\ block_list rs' = [7; 8; 15; 16].
Proof.
  destruct (get_sub_ranges_spec demo_rs 6 4 demo_rs_wf) as (rs' & H1 & _ & H2);
    [unfold is_u64; lia..|]. exists rs'. split; [exact H1|exact H2].
Defined.

Lemma split_spec_witness :
  exists gs, Split demo_rs 5 = Some gs /\ Z.of_nat (length gs) = 5.
Proof.
  destruct (split_spec demo_rs 5 demo_rs_wf) as (gs & H1 & _ & _ & H2 & _);
    [unfold is_u64; lia..|]. exists gs. split; [exact H1|exact H2].
Defined.



Lemma get_offset_spec_witness : GetOffsetInRangeSet demo_rs 65546 = Some 36874.
Proof.
  destruct (get_offset_spec demo_rs 65546 demo_rs_sorted) as [H _]; [unfold is_u64; lia|].
  apply (H 9%nat). reflexivity.
Defined.

Lemma insert_extent_spec_witness :
  9 ∈ block_list (InsertExtent demo_rs 40000 1) /\ sorted_wf (InsertExtent demo_rs 40000 1).
Proof.
  destruct (insert_extent_spec demo_rs 40000 1 demo_rs_sorted) as [H1 H2];
    [unfold is_u64; lia|lia|lia|]. split; [|exact H1].
  apply H2. right. unfold kBlockSize. lia.
Defined.
