(* ===== verification/Kernel.v ===== *)
(** Descriptor I/O as the block-writing code sees it.

    A [World] holds the bytes behind each descriptor and the answers the
    kernel will give to the next system calls: an interruption (EINTR), a
    failure, permission to transfer up to [n] bytes, or [Lost n], a write
    that reports [n] bytes moved but never reaches the medium. Code is a
    computation [M A]; [None] means the answers ran out while the code was
    still running, so a theorem about [Some] results covers every kernel
    behaviour: short transfers, interruptions and lost writes included. *)
From stdpp Require Import base list strings gmap.
From Stdlib Require Import ZArith Lia.
From S2P Require Import Prelude.

Inductive Answer := Intr | Fail | Upto (n : Z) | Lost (n : Z).
Record World := MkWorld {
  answers : list Answer;          (* to the next pread and pwrite calls *)
  syncs : list bool;              (* does the next fsync or flush succeed? *)
  files : gmap Z (list Z)         (* the bytes behind each descriptor *)
}.

Definition M (A : Type) : Type := World -> option (A * World).
#[global] Instance M_ret : MRet M := fun A x w => Some (x, w).
#[global] Instance M_bind : MBind M := fun A B k m w =>
  match m w with Some (x, w') => k x w' | None => None end.

Definition content (w : World) (fd : Z) : list Z := default [] (files w !! fd).
Definition set_content (w : World) (fd : Z) (bs : list Z) : World :=
  MkWorld (answers w) (syncs w) (<[fd := bs]> (files w)).
Definition next_answer : M Answer := fun w =>
  match answers w with
  | [] => None
  | a :: rest => Some (a, MkWorld rest (syncs w) (files w))
  end.
Definition get_content (fd : Z) : M (list Z) := fun w => Some (content w fd, w).
Definition put_content (fd : Z) (bs : list Z) : M () := fun w => Some ((), set_content w fd bs).
Definition out_of_answers {A} : M A := fun _ => None.

(** Bytes [off, off+n) of a file; bytes placed over those at [off]. *)
Definition slice (off n : Z) (bs : list Z) : list Z :=
  take (Z.to_nat n) (drop (Z.to_nat off) bs).
Definition overwrite (off : Z) (new bs : list Z) : list Z :=
  take (Z.to_nat off) bs ++ new ++ drop (Z.to_nat off + length new) bs.

(** The results of one transfer: -1/EINTR, -1, or the bytes moved (none at
    end of file or end of device). *)
Inductive Xfer := XIntr | XFail | XBytes (bs : list Z).

Definition pread (fd count off : Z) : M Xfer :=
  a ← next_answer;
  bs ← get_content fd;
  mret match a with
       | Intr => XIntr
       | Fail => XFail
       | Upto n | Lost n => XBytes (slice off (Z.min n count) bs)
       end.
(** A device or preallocated file: a write never extends it. *)
Definition pwrite (fd : Z) (data : list Z) (off : Z) : M Xfer :=
  a ← next_answer;
  bs ← get_content fd;
  let moved n := take (Z.to_nat (Z.min n (Z.of_nat (length bs) - off))) data in
  match a with
  | Intr => mret XIntr
  | Fail => mret XFail
  | Upto n => _ ← put_content fd (overwrite off (moved n) bs); mret (XBytes (moved n))
  | Lost n => mret (XBytes (moved n))
  end.
(** fsync and the BLKFLSBUF ioctl: true when they return zero. *)
Definition sync (fd : Z) : M bool := fun w =>
  match syncs w with
  | [] => None
  | ok :: rest => Some (ok, MkWorld (answers w) rest (files w))
  end.

(** The retry loop around pread that every reader of the code shares: EINTR
    repeats, an error or end of file fails, a short read continues. *)
Fixpoint read_loop (fuel : nat) (fd count off : Z) : M (option (list Z)) :=
  if count =? 0 then mret (Some [])
  else match fuel with
  | O => out_of_answers
  | S fuel =>
      r ← pread fd count off;
      match r with
      | XIntr => read_loop fuel fd count off
      | XFail | XBytes [] => mret None
      | XBytes bs =>
          let n := Z.of_nat (length bs) in
          rest ← read_loop fuel fd (count - n) (off + n);
          mret (rest' ← rest; Some (bs ++ rest'))
      end
  end.
(** Every iteration uses one answer, so this fuel is never the limit. *)
Definition read_exactly (fd count off : Z) : M (option (list Z)) := fun w =>
  read_loop (length (answers w)) fd count off w.

(** The retry loop around pwrite. *)
Fixpoint write_loop (fuel : nat) (fd : Z) (data : list Z) (off : Z) : M bool :=
  match data with
  | [] => mret true
  | _ =>
      match fuel with
      | O => out_of_answers
      | S fuel =>
          r ← pwrite fd data off;
          match r with
          | XIntr => write_loop fuel fd data off
          | XFail | XBytes [] => mret false
          | XBytes bs => write_loop fuel fd (drop (length bs) data) (off + Z.of_nat (length bs))
          end
      end
  end.
Definition write_exactly (fd : Z) (data : list Z) (off : Z) : M bool := fun w =>
  write_loop (length (answers w)) fd data off w.

(** The chunked copy of the flashing code. *)
Fixpoint copy_loop (chunk : Z) (fuel : nat) (source destination bytes offset : Z) : M bool :=
  if bytes <=? offset then mret true
  else match fuel with
  | O => out_of_answers
  | S fuel =>
      let count := Z.min chunk (bytes - offset) in
      buffer ← read_exactly source count offset;
      match buffer with
      | None => mret false
      | Some buffer =>
          ok ← write_exactly destination buffer offset;
          if negb ok then mret false
          else copy_loop chunk fuel source destination bytes (offset + count)
      end
  end.

(** A file that is written from its start through write(2): the result, what
    the file holds afterwards and the answers left. Once the answers are used
    up, the calls succeed. *)
Fixpoint write_fd (answers : list Answer) (file data : list Z) : bool * list Z * list Answer :=
  match data with
  | [] => (true, file, answers)
  | _ =>
      match answers with
      | [] => (true, file ++ data, [])
      | Intr :: answers => write_fd answers file data
      | Fail :: answers => (false, file, answers)
      | (Upto n | Lost n) :: answers =>
          if n <=? 0 then (false, file, answers)
          else write_fd answers (file ++ take (Z.to_nat n) data) (drop (Z.to_nat n) data)
      end
  end.
Definition write_all (answers : list Answer) (file data : list Z) : option (list Z * list Answer) :=
  match write_fd answers file data with
  | (true, file, answers) => Some (file, answers)
  | (false, _, _) => None
  end.
(** A file that is read through read(2) to its known end. *)
Fixpoint read_fd (answers : list Answer) (data : list Z) : option (list Z) :=
  match data with
  | [] => Some []
  | _ =>
      match answers with
      | [] => Some data
      | Intr :: answers => read_fd answers data
      | Fail :: _ => None
      | (Upto n | Lost n) :: answers =>
          if n <=? 0 then None
          else rest ← read_fd answers (drop (Z.to_nat n) data); Some (take (Z.to_nat n) data ++ rest)
      end
  end.

(** ** Lemmas *)
Lemma mbind_Some {A B} (m : M A) (k : A -> M B) w b w' :
  (m ≫= k) w = Some (b, w') <-> exists a w1, m w = Some (a, w1) /\ k a w1 = Some (b, w').
Proof.
  unfold mbind, M_bind. destruct (m w) as [[a w1]|]; split.
  - intros H. by exists a, w1.
  - intros (? & ? & ? & ?). by simplify_eq.
  - done.
  - intros (? & ? & ? & ?). done.
Qed.

Lemma take_length_take {A} n (l : list A) : take n l = take (length (take n l)) l.
Proof.
  rewrite length_take. destruct (Nat.le_gt_cases n (length l)).
  - by rewrite Nat.min_l.
  - rewrite Nat.min_r, !take_ge by lia. done.
Qed.
Lemma slice_length off n bs : (length (slice off n bs) <= Z.to_nat n)%nat.
Proof. unfold slice. rewrite length_take. lia. Qed.
Lemma rd8_slice off n bs i : 0 <= off -> 0 <= i < n -> rd8 (slice off n bs) i = rd8 bs (off + i).
Proof.
  intros Ho Hi. unfold rd8, slice. destruct (Z.ltb_spec i 0); [lia|]. destruct (Z.ltb_spec (off + i) 0); [lia|].
  rewrite lookup_take_lt by lia. rewrite lookup_drop. f_equal. lia.
Qed.
Lemma slice_cat off n k bs :
  0 <= off -> 0 <= n -> 0 <= k -> Z.of_nat (length (slice off n bs)) = n ->
  slice off n bs ++ slice (off + n) k bs = slice off (n + k) bs.
Proof.
  intros Ho Hn Hk Hl. unfold slice in *. rewrite length_take in Hl.
  rewrite !Z2Nat.inj_add by lia.
  rewrite <- drop_drop, take_take_drop. done.
Qed.

Lemma length_overwrite off new bs :
  0 <= off -> off + Z.of_nat (length new) <= Z.of_nat (length bs) ->
  length (overwrite off new bs) = length bs.
Proof. intros. unfold overwrite. rewrite !length_app, length_take, length_drop. lia. Qed.
Lemma overwrite_nil off bs : overwrite off [] bs = bs.
Proof. unfold overwrite. simpl. by rewrite Nat.add_0_r, take_drop. Qed.
Lemma overwrite_overwrite off a b bs :
  0 <= off -> off + Z.of_nat (length a) <= Z.of_nat (length bs) ->
  overwrite (off + Z.of_nat (length a)) b (overwrite off a bs) = overwrite off (a ++ b) bs.
Proof.
  intros Ho Hl. unfold overwrite. rewrite Z2Nat.inj_add, Nat2Z.id by lia.
  set (o := Z.to_nat off). assert (o + length a <= length bs)%nat by lia.
  rewrite (app_assoc (take o bs)). rewrite take_app_length'.
  2:{ rewrite length_app, length_take. lia. }
  rewrite <- !app_assoc. do 2 f_equal. f_equal.
  rewrite drop_app_ge, drop_app_ge by (rewrite length_take; lia).
  rewrite drop_drop, length_take, length_app. f_equal. lia.
Qed.
Lemma take_overwrite off new bs :
  0 <= off <= Z.of_nat (length bs) -> take (Z.to_nat off) (overwrite off new bs) = take (Z.to_nat off) bs.
Proof. intros. unfold overwrite. rewrite take_app_length'; [done|]. rewrite length_take. lia. Qed.
Lemma drop_overwrite off new bs n :
  0 <= off <= Z.of_nat (length bs) -> off + Z.of_nat (length new) <= n ->
  drop (Z.to_nat n) (overwrite off new bs) = drop (Z.to_nat n) bs.
Proof.
  intros. unfold overwrite. rewrite !drop_app_ge by (rewrite ?length_take; lia).
  rewrite drop_drop, length_take. f_equal. lia.
Qed.
Lemma overwrite_all new bs :
  overwrite 0 new bs = new ++ drop (length new) bs.
Proof. done. Qed.

Lemma content_set w fd bs : content (set_content w fd bs) fd = bs.
Proof. unfold content, set_content. simpl. by rewrite lookup_insert_eq. Qed.
Lemma content_set_ne w fd fd' bs :
  fd ≠ fd' -> content (set_content w fd bs) fd' = content w fd'.
Proof. intros. unfold content, set_content. simpl. by rewrite lookup_insert_ne. Qed.

Lemma pread_Some fd count off w r w' :
  pread fd count off w = Some (r, w') ->
  files w' = files w /\ (length (answers w) = S (length (answers w')))%nat /\
  forall bs, r = XBytes bs -> exists n, bs = slice off (Z.min n count) (content w fd).
Proof.
  unfold pread. intros (a & w1 & Ha & (bs & w2 & Hb & Hr)%mbind_Some)%mbind_Some.
  unfold next_answer in Ha. destruct (answers w) as [|a' l] eqn:E; simplify_eq/=.
  unfold get_content in Hb. simplify_eq. unfold mret, M_ret in Hr.
  destruct a; simplify_eq; (split; [done|]); (split; [done|]); intros; simplify_eq; eauto.
Qed.

Lemma read_loop_sound fuel : forall fd count off w r w',
  read_loop fuel fd count off w = Some (r, w') -> 0 <= count -> 0 <= off ->
  files w' = files w /\
  forall bs, r = Some bs -> bs = slice off count (content w fd) /\ Z.of_nat (length bs) = count.
Proof.
  induction fuel as [|fuel IH]; intros fd count off w r w' E Hc Ho; simpl in E;
    destruct (Z.eqb_spec count 0) as [->|Hne];
    try (unfold mret, M_ret in E; simplify_eq; (split; [done|]); intros; simplify_eq; done).
  apply mbind_Some in E as (x & w1 & Hp & E). apply pread_Some in Hp as (Hf & _ & Hx).
  destruct x as [| |bs].
  - apply IH in E as [Hf' H]; [|done..]. rewrite Hf in Hf'. split; [done|].
    unfold content in *. by rewrite Hf in H.
  - unfold mret, M_ret in E. by simplify_eq.
  - destruct (Hx bs eq_refl) as [n Hbs]. destruct bs as [|b bs0] eqn:Eb.
    { unfold mret, M_ret in E. by simplify_eq. }
    rewrite <- Eb in *. clear Eb. assert (Hlen : Z.of_nat (length bs) <= count).
    { rewrite Hbs. pose proof (slice_length off (Z.min n count) (content w fd)). lia. }
    apply mbind_Some in E as (rest & w2 & E & Hr).
    apply IH in E as [Hf' H]; [|lia..]. injection Hr as <- <-.
    split; [congruence|]. intros all Hall. destruct rest as [rest|]; [|done].
    injection Hall as <-.
    destruct (H rest eq_refl) as [Hr Hl]. clear H.
    assert (Hc' : content w1 fd = content w fd) by (unfold content; by rewrite Hf).
    rewrite Hc' in Hr. split; [|rewrite length_app; lia].
    assert (Hbs' : bs = slice off (Z.of_nat (length bs)) (content w fd)).
    { rewrite Hbs. unfold slice. by rewrite Nat2Z.id, <- take_length_take. }
    rewrite Hr, Hbs' at 1.
    rewrite slice_cat by (try lia; by rewrite <- Hbs'). f_equal. lia.
Qed.

(** [touched off n bs bs']: [bs'] differs from [bs] at most in the bytes
    [off, off+n). *)
Definition touched (off n : Z) (bs bs' : list Z) : Prop :=
  length bs' = length bs /\ take (Z.to_nat off) bs' = take (Z.to_nat off) bs /\
  drop (Z.to_nat (off + n)) bs' = drop (Z.to_nat (off + n)) bs.
(** The other descriptors keep their bytes. *)
Definition only (fd : Z) (w w' : World) : Prop :=
  forall fd', fd' ≠ fd -> content w' fd' = content w fd'.

Lemma touched_refl off n bs : touched off n bs bs.
Proof. done. Qed.
Lemma touched_overwrite off new bs n :
  0 <= off -> off + Z.of_nat (length new) <= Z.of_nat (length bs) -> Z.of_nat (length new) <= n ->
  touched off n bs (overwrite off new bs).
Proof.
  intros Ho Hl Hn. split; [by apply length_overwrite|]. split.
  - apply take_overwrite. lia.
  - apply drop_overwrite; lia.
Qed.
Lemma touched_trans off n a b c : touched off n a b -> touched off n b c -> touched off n a c.
Proof. intros (?&?&?) (?&?&?). split; [congruence|]. split; congruence. Qed.
(** A change inside a part is a change inside the whole. *)
Lemma touched_mono off n off' n' a b :
  0 <= off' -> off' <= off -> 0 <= n -> off + n <= off' + n' -> touched off n a b -> touched off' n' a b.
Proof.
  intros H0 H1 H2 H3 (Hl & Ht & Hd). split; [done|]. split.
  - replace (Z.to_nat off') with (Nat.min (Z.to_nat off') (Z.to_nat off)) by lia.
    rewrite <- !take_take. by rewrite Ht.
  - replace (Z.to_nat (off' + n')) with (Z.to_nat (off + n) + Z.to_nat (off' + n' - (off + n)))%nat by lia.
    rewrite <- !drop_drop. by rewrite Hd.
Qed.
Lemma only_refl fd w : only fd w w.
Proof. by intros fd'. Qed.
Lemma only_trans fd a b c : only fd a b -> only fd b c -> only fd a c.
Proof. intros H1 H2 fd' Hne. by rewrite H2, H1. Qed.
#[export] Hint Resolve touched_refl touched_trans only_refl only_trans : aera.

Lemma pwrite_Some fd data off w r w' :
  pwrite fd data off w = Some (r, w') -> 0 <= off <= Z.of_nat (length (content w fd)) ->
  only fd w w' /\ touched off (Z.of_nat (length data)) (content w fd) (content w' fd) /\
  forall bs, r = XBytes bs -> bs = take (length bs) data /\
    off + Z.of_nat (length bs) <= Z.of_nat (length (content w fd)) /\
    touched off (Z.of_nat (length bs)) (content w fd) (content w' fd).
Proof.
  unfold pwrite. intros (a & w1 & Ha & (bs & w2 & Hb & Hr)%mbind_Some)%mbind_Some Hoff.
  unfold next_answer in Ha. destruct (answers w) as [|a' l] eqn:E; [done|].
  injection Ha as <- <-. injection Hb as <- <-.
  change (content (MkWorld l (syncs w) (files w)) fd) with (content w fd) in *.
  set (moved n := take (Z.to_nat (Z.min n (Z.of_nat (length (content w fd)) - off))) data) in *.
  assert (Hm : forall n, moved n = take (length (moved n)) data /\
    off + Z.of_nat (length (moved n)) <= Z.of_nat (length (content w fd)) /\
    Z.of_nat (length (moved n)) <= Z.of_nat (length data)).
  { intros n. unfold moved. split; [apply take_length_take|]. rewrite length_take. lia. }
  destruct a' as [| |n|n].
  1,2: injection Hr as <- <-; repeat (split; [done|]); intros; done.
  - apply mbind_Some in Hr as ([] & w3 & Hput & Hr). injection Hput as <-. injection Hr as <- <-.
    destruct (Hm n) as (H1 & H2 & H3).
    split; [intros fd' Hne; by rewrite content_set_ne by done|].
    rewrite content_set. split; [by apply touched_overwrite; [lia|exact H2|exact H3]|].
    intros bs [= <-]. repeat (split; [done|]). by apply touched_overwrite; [lia|exact H2|].
  - injection Hr as <- <-. destruct (Hm n) as (H1 & H2 & H3). repeat (split; [done|]).
    by intros bs [= <-].
Qed.

Lemma write_loop_sound fuel : forall fd data off w ok w',
  write_loop fuel fd data off w = Some (ok, w') -> 0 <= off <= Z.of_nat (length (content w fd)) ->
  only fd w w' /\ touched off (Z.of_nat (length data)) (content w fd) (content w' fd) /\
  (ok = true -> off + Z.of_nat (length data) <= Z.of_nat (length (content w fd))).
Proof.
  induction fuel as [|fuel IH]; intros fd data off w ok w' E Hoff;
    (destruct data as [|d data0] eqn:Ed;
      [injection E as <- <-; split; [done|]; split; [done|simpl; lia]|]).
  { discriminate E. }
  rewrite <- Ed in *. cbn [write_loop] in E. rewrite Ed in E. rewrite <- Ed in E. clear Ed.
  apply mbind_Some in E as (r & w1 & Hp & E).
  apply pwrite_Some in Hp as (Ho & Ht & Hr); [|done].
  assert (Hlen : length (content w1 fd) = length (content w fd)) by apply Ht.
  destruct r as [| |bs].
  - apply IH in E as (Ho' & Ht' & Hok); [|rewrite Hlen; lia]. rewrite Hlen in Hok.
    split; [eauto with aera|]. split; [eauto with aera|done].
  - injection E as <- <-. by repeat (split; [done|]).
  - destruct (Hr bs eq_refl) as (Hb1 & Hb2 & Hb3).
    destruct bs as [|b bs0] eqn:Eb; [injection E as <- <-; by repeat (split; [done|])|].
    rewrite <- Eb in *. clear Eb.
    assert (length bs <= length data)%nat 
      by (apply (f_equal length) in Hb1; rewrite length_take in Hb1; lia).
    apply IH in E as (Ho' & Ht' & Hok); [|lia]. rewrite length_drop in *.
    split; [eauto with aera|]. split; [|intros Htrue; specialize (Hok Htrue); lia].
    eapply touched_trans; [eapply touched_mono; [| | | |exact Hb3]; lia|].
    eapply touched_mono; [| | | |exact Ht']; lia.
Qed.

(** ** Progress

    [ready k w]: no answer is a failure or an empty transfer, and at least
    [k] of them transfer something. *)
Definition helpful (a : Answer) : Prop :=
  match a with Intr => True | Fail | Lost _ => False | Upto n => 1 <= n end.
Definition transfers (l : list Answer) : Z :=
  foldr (fun a n => match a with Upto _ => n + 1 | _ => n end) 0 l.
Arguments transfers : simpl never.
Lemma transfers_Intr l : transfers (Intr :: l) = transfers l.
Proof. done. Qed.
Lemma transfers_Upto n l : transfers (Upto n :: l) = transfers l + 1.
Proof. done. Qed.
Definition ready (k : Z) (w : World) : Prop :=
  Forall helpful (answers w) /\ k <= transfers (answers w).

Lemma transfers_nonneg l : 0 <= transfers l <= Z.of_nat (length l).
Proof. induction l as [|[] l IH]; [done|..]; unfold transfers in *; simpl; lia. Qed.
Lemma ready_weaken k j w : ready k w -> j <= k -> ready j w.
Proof. intros [??] ?. split; [done|lia]. Qed.

Lemma read_loop_ready fuel : forall fd count off k w,
  (length (answers w) <= fuel)%nat -> 0 <= count -> 0 <= off -> 0 <= k ->
  off + count <= Z.of_nat (length (content w fd)) -> ready (count + k) w ->
  exists w', read_loop fuel fd count off w = Some (Some (slice off count (content w fd)), w') /\
    ready k w' /\ files w' = files w /\ syncs w' = syncs w.
Proof.
  induction fuel as [|fuel IH]; intros fd count off k w Hfuel Hc Ho Hk Hlen [Hg Ht];
    cbn [read_loop]; destruct (Z.eqb_spec count 0) as [->|Hne];
    try (exists w; split; [done|split; [by split|done]]).
  { destruct (answers w); unfold transfers in *; simpl in *; lia. }
  unfold pread, mbind, M_bind, next_answer, get_content.
  destruct (answers w) as [|a l] eqn:Ea; [unfold transfers in Ht; simpl in Ht; lia|].
  inversion_clear Hg as [|?? Ha Hl]. simpl in Hfuel.
  change (content (MkWorld l (syncs w) (files w)) fd) with (content w fd).
  destruct a as [| |n|n]; [rewrite transfers_Intr in Ht|done|rewrite transfers_Upto in Ht|done].
  - destruct (IH fd count off k (MkWorld l (syncs w) (files w))) as (w' & E & Hr & Hf & Hi);
      simpl; try (done || lia || (split; simpl; [done|lia])).
    exists w'. unfold mret, M_ret. rewrite E. by repeat (split; [done|]).
  - simpl in Ha. unfold mret, M_ret.
    set (m := Z.min n count). assert (Hm : Z.of_nat (length (slice off m (content w fd))) = m).
    { unfold slice. rewrite length_take, length_drop. lia. }
    destruct (slice off m (content w fd)) as [|b bs] eqn:Es; [simpl in Hm; lia|].
    rewrite <- Es in *. rewrite Hm.
    destruct (IH fd (count - m) (off + m) k (MkWorld l (syncs w) (files w))) as (w' & E & Hr & Hf & Hi);
      try (change (content _ fd) with (content w fd)); simpl;
      try (done || lia || (split; simpl; [done|lia])).
    rewrite E. exists w'. simpl.
    change (content (MkWorld l (syncs w) (files w)) fd) with (content w fd).
    rewrite slice_cat by lia. replace (m + (count - m)) with count by lia.
    by repeat (split; [done|]).
Qed.

Lemma write_loop_step fuel fd data off :
  data ≠ [] -> write_loop (S fuel) fd data off =
    (r ← pwrite fd data off;
     match r with
     | XIntr => write_loop fuel fd data off
     | XFail | XBytes [] => mret false
     | XBytes bs => write_loop fuel fd (drop (length bs) data) (off + Z.of_nat (length bs))
     end).
Proof. by destruct data. Qed.

Lemma write_loop_ready fuel : forall fd data off k w,
  (length (answers w) <= fuel)%nat -> 0 <= off -> 0 <= k ->
  off + Z.of_nat (length data) <= Z.of_nat (length (content w fd)) ->
  ready (Z.of_nat (length data) + k) w ->
  exists w', write_loop fuel fd data off w = Some (true, w') /\ ready k w' /\ only fd w w' /\
    content w' fd = overwrite off data (content w fd) /\ syncs w' = syncs w.
Proof.
  induction fuel as [|fuel IH]; intros fd data off k w Hfuel Ho Hk Hlen [Hg Ht];
    (destruct data as [|d data0] eqn:Ed;
     [exists w; rewrite overwrite_nil; repeat (split; [done|]); done|]).
  { destruct (answers w); unfold transfers in *; simpl in *; lia. }
  rewrite <- Ed in *. rewrite write_loop_step by (by rewrite Ed).
  assert (1 <= Z.of_nat (length data)) by (rewrite Ed; simpl; lia). clear Ed.
  unfold pwrite, mbind, M_bind, next_answer, get_content.
  destruct (answers w) as [|a l] eqn:Ea; [unfold transfers in Ht; simpl in Ht; lia|].
  inversion_clear Hg as [|?? Ha Hl]. simpl in Hfuel.
  change (content (MkWorld l (syncs w) (files w)) fd) with (content w fd).
  destruct a as [| |n|n]; [rewrite transfers_Intr in Ht|done|rewrite transfers_Upto in Ht|done].
  - destruct (IH fd data off k (MkWorld l (syncs w) (files w))) as (w' & E & Hr & Hf & Hc & Hi);
      simpl; try (done || lia || (split; simpl; [done|lia])).
    exists w'. unfold mret, M_ret. rewrite E. by repeat (split; [done|]).
  - simpl in Ha. unfold put_content, mret, M_ret.
    set (m := take (Z.to_nat _) data).
    assert (Hm : (1 <= length m <= length data)%nat) by (unfold m; rewrite length_take; lia).
    destruct m as [|b bs] eqn:Em; [simpl in Hm; lia|]. rewrite <- Em in *.
    set (w1 := set_content (MkWorld l (syncs w) (files w)) fd (overwrite off m (content w fd))).
    assert (Hc1 : content w1 fd = overwrite off m (content w fd)) by apply content_set.
    assert (Hl1 : length (content w1 fd) = length (content w fd))
      by (rewrite Hc1; apply length_overwrite; lia).
    destruct (IH fd (drop (length m) data) (off + Z.of_nat (length m)) k w1)
      as (w' & E & Hr & Hf & Hc & Hi); rewrite ?length_drop, ?Hl1; simpl;
      try (done || lia || (split; simpl; [done|lia])).
    rewrite E. exists w'. split; [done|]. split; [done|]. split; [|split].
    + intros fd' Hne. rewrite Hf by done. unfold w1. by rewrite content_set_ne by done.
    + rewrite Hc, Hc1, overwrite_overwrite by lia. f_equal.
      unfold m at 1. rewrite (take_length_take _ data) at 1. fold m. apply take_drop.
    + done.
Qed.

Lemma sync_Some fd w ok w' :
  sync fd w = Some (ok, w') -> files w' = files w /\ answers w' = answers w.
Proof. unfold sync. destruct (syncs w); [done|]. intros [= <- <-]. done. Qed.
Lemma content_files w w' fd : files w' = files w -> content w' fd = content w fd.
Proof. unfold content. by intros ->. Qed.
Lemma only_files fd w w' : files w' = files w -> only fd w w'.
Proof. intros E fd' _. by apply content_files. Qed.
#[export] Hint Resolve only_files content_files : aera.

(** The first [n] bytes and the rest. *)
Lemma touched_prefix n (bs bs' : list Z) :
  0 <= n -> touched 0 n bs bs' -> bs' = take (Z.to_nat n) bs' ++ drop (Z.to_nat n) bs.
Proof. intros Hn (_ & _ & Hd). rewrite Z.add_0_l in Hd. rewrite <- Hd. by rewrite take_drop. Qed.
Lemma slice_0 n bs : slice 0 n bs = take (Z.to_nat n) bs.
Proof. done. Qed.

(** Computations that only read. *)
Definition read_only {A} (m : M A) : Prop :=
  forall w x w', m w = Some (x, w') -> files w' = files w.
Lemma read_only_ret {A} (x : A) : read_only (mret x).
Proof. by intros w y w' [= <- <-]. Qed.
Lemma read_only_bind {A B} (m : M A) (k : A -> M B) :
  read_only m -> (forall x, read_only (k x)) -> read_only (m ≫= k).
Proof.
  intros Hm Hk w y w' (x & w1 & H1 & H2)%mbind_Some.
  rewrite (Hk x w1 y w' H2). by eapply Hm.
Qed.
Lemma read_only_pread fd count off : read_only (pread fd count off).
Proof. intros w x w' H. by apply pread_Some in H as [? _]. Qed.
Lemma read_only_read_loop fuel fd count off : read_only (read_loop fuel fd count off).
Proof.
  revert count off. induction fuel as [|fuel IH]; intros count off; simpl;
    (destruct (count =? 0); [apply read_only_ret|]).
  - intros w x w' H. discriminate H.
  - apply read_only_bind; [apply read_only_pread|]. intros [| |[|b bs]]; try apply read_only_ret;
      [apply IH|]. apply read_only_bind; [apply IH|]. intros. apply read_only_ret.
Qed.
Lemma read_only_read_exactly fd count off : read_only (read_exactly fd count off).
Proof. intros w x w'. apply read_only_read_loop. Qed.
#[export] Hint Resolve read_only_ret read_only_bind read_only_pread read_only_read_loop
  read_only_read_exactly : aera.

(** A successful read is the bytes asked for. *)
Lemma read_exactly_sound fd count off w r w' :
  read_exactly fd count off w = Some (r, w') -> 0 <= count -> 0 <= off ->
  files w' = files w /\
  forall bs, r = Some bs -> bs = slice off count (content w fd) /\ blen bs = count.
Proof. apply read_loop_sound. Qed.
Lemma slice_inside_len off n bs : 0 <= off -> 0 <= n -> off + n <= blen bs ->
  Z.of_nat (length (slice off n bs)) = n.
Proof. unfold blen, slice. intros. rewrite length_take, length_drop. lia. Qed.
Lemma slice_slice off n j k (data : list Z) : 0 <= off -> 0 <= j -> 0 <= k -> j + k <= n ->
  slice j k (slice off n data) = slice (off + j) k data.
Proof.
  intros. unfold slice. rewrite skipn_firstn_comm, drop_drop, take_take. f_equal; [lia|]. f_equal. lia.
Qed.
Lemma slice_ok off n bs : bytes_ok bs -> bytes_ok (slice off n bs).
Proof. intros. by apply Forall_take, Forall_drop. Qed.
#[export] Hint Resolve slice_ok : aera.

Lemma read_exactly_ready fd count off k w :
  0 <= count -> 0 <= off -> 0 <= k ->
  off + count <= blen (content w fd) -> ready (count + k) w ->
  exists w', read_exactly fd count off w = Some (Some (slice off count (content w fd)), w') /\
    ready k w' /\ files w' = files w /\ syncs w' = syncs w.
Proof. intros. by apply read_loop_ready. Qed.
Lemma write_exactly_ready fd data off k w :
  0 <= off -> 0 <= k -> off + blen data <= blen (content w fd) -> ready (blen data + k) w ->
  exists w', write_exactly fd data off w = Some (true, w') /\ ready k w' /\ only fd w w' /\
    content w' fd = overwrite off data (content w fd) /\ syncs w' = syncs w.
Proof. intros. by apply write_loop_ready. Qed.

(** ** The chunked copy *)
Lemma copy_loop_sound chunk fuel : 0 < chunk -> forall source destination n off w ok w',
  copy_loop chunk fuel source destination n off w = Some (ok, w') ->
  0 <= off <= blen (content w destination) -> off <= n ->
  only destination w w' /\ touched off (n - off) (content w destination) (content w' destination).
Proof.
  intros Hchunk. induction fuel as [|fuel IH]; intros source destination n off w ok w' E Hoff Hle; simpl in E;
    destruct (Z.leb_spec n off); try discriminate E; try (injection E as <- <-; by split).
  set (count := Z.min chunk (n - off)) in *. assert (0 <= count <= n - off) by (unfold count; lia).
  apply mbind_Some in E as (r1 & w1 & [Hf1 H1]%read_loop_sound & E); [|lia..].
  assert (Hc1 : content w1 destination = content w destination) by eauto with aera.
  destruct r1 as [buffer|].
  2:{ injection E as <- <-. rewrite Hc1. split; [eauto with aera|done]. }
  destruct (H1 buffer eq_refl) as [_ Hbl].
  apply mbind_Some in E as (ok2 & w2 & (Ho2 & Ht2 & Hok2)%write_loop_sound & E);
    [|rewrite Hc1; unfold blen in *; lia].
  rewrite Hc1, Hbl in *.
  assert (Ht2' : touched off (n - off) (content w destination) (content w2 destination)).
  { eapply touched_mono; [| | | |exact Ht2]; lia. }
  assert (only destination w w2) by eauto with aera.
  destruct ok2; simpl in E; [|injection E as <- <-; by split].
  specialize (Hok2 eq_refl). assert (Hl2 : length (content w2 destination) = length (content w destination)) by apply Ht2.
  apply IH in E as [Ho3 Ht3]; [|unfold blen; lia|lia].
  split; [eauto with aera|]. eapply touched_trans; [exact Ht2'|].
  eapply touched_mono; [| | | |exact Ht3]; lia.
Qed.
Lemma copy_loop_ready chunk fuel : 0 < chunk -> forall source destination n off k w,
  n - off <= Z.of_nat fuel -> 0 <= off <= n -> 0 <= k -> source ≠ destination ->
  n <= blen (content w source) -> n <= blen (content w destination) ->
  take (Z.to_nat off) (content w destination) = take (Z.to_nat off) (content w source) ->
  ready (2 * (n - off) + k) w ->
  exists w', copy_loop chunk fuel source destination n off w = Some (true, w') /\ ready k w' /\
    syncs w' = syncs w /\ content w' source = content w source /\
    n <= blen (content w' destination) /\
    take (Z.to_nat n) (content w' destination) = take (Z.to_nat n) (content w source).
Proof.
  intros Hchunk. induction fuel as [|fuel IH]; intros source destination n off k w Hfuel Ho Hk Hne Hs Hd Heq Hr;
    simpl; (destruct (Z.leb_spec n off);
      [assert (n = off) as -> by lia; exists w; split; [done|];
       split; [eapply ready_weaken; [done|lia]|done]|]); [lia|].
  set (count := Z.min chunk (n - off)). assert (0 < count <= n - off) by (unfold count; lia).
  unfold mbind, M_bind.
  destruct (read_exactly_ready source count off (2 * (n - off) - count + k) w)
    as (w1 & E1 & Hr1 & Hf1 & Hs1); try lia; [eapply ready_weaken; [done|lia]|].
   rewrite E1. set (buf := slice off count (content w source)).
  assert (Hbuf : blen buf = count).
  { unfold buf, slice, blen in *. rewrite length_take, length_drop. lia. }
  destruct (write_exactly_ready destination buf off (2 * (n - (off + count)) + k) w1)
    as (w2 & E2 & Hr2 & Ho2 & Hc2 & Hs2); try lia;
    [rewrite (content_files w w1) by done; lia|eapply ready_weaken; [done|lia]|].
  rewrite E2. simpl. rewrite (content_files w w1) in Hc2 by done.
  assert (Hsrc : content w2 source = content w source).
  { rewrite (Ho2 source Hne). by apply content_files. }
  assert (Hl2 : blen (content w2 destination) = blen (content w destination)).
  { unfold blen in *. rewrite Hc2, length_overwrite; lia. }
  destruct (IH source destination n (off + count) k w2)
    as (w' & E3 & H1 & H2 & H3 & H4 & H5); try lia; try done; rewrite ?Hsrc; try lia.
  { rewrite Hc2. unfold overwrite. rewrite Z2Nat.inj_add by lia.
    rewrite app_assoc, take_app_length'.
    2:{ rewrite length_app, length_take. unfold blen in *. lia. }
    rewrite Heq. unfold buf, slice. by rewrite take_take_drop. }
  exists w'. rewrite E3. repeat (split; [congruence || done|]). congruence.
Qed.

(** ** Whole files *)
Lemma write_fd_prefix answers : forall file data,
  exists k, (write_fd answers file data).1.2 = file ++ take k data /\
    ((write_fd answers file data).1.1 = true -> (write_fd answers file data).1.2 = file ++ data).
Proof.
  induction answers as [|a answers IH]; intros file data; destruct data as [|x data]; cbn [write_fd fst snd].
  1, 3: (exists 0%nat; split; [|intros _]; by rewrite app_nil_r).
  1: (exists (length (x :: data)); split; [by rewrite take_ge|done]).
  destruct a as [| |n|n]; [apply IH|exists 0%nat; cbn; split; [by rewrite app_nil_r|done]|..];
    (destruct (n <=? 0); [exists 0%nat; cbn; split; [by rewrite app_nil_r|done]|];
     destruct (IH (file ++ take (Z.to_nat n) (x :: data)) (drop (Z.to_nat n) (x :: data))) as (k & -> & Ht);
     exists (Z.to_nat n + k)%nat; split;
     [by rewrite <- app_assoc, take_take_drop|intros E; rewrite (Ht E); by rewrite <- app_assoc, take_drop]).
Qed.
Lemma write_all_Some answers file data file' rest :
  write_all answers file data = Some (file', rest) -> file' = file ++ data.
Proof.
  unfold write_all. destruct (write_fd_prefix answers file data) as (k & _ & Ht).
  destruct (write_fd answers file data) as [[[|] f] r]; [|done]. intros [= <- _]. by apply Ht.
Qed.
Lemma write_fd_helpful answers : forall file data, Forall helpful answers ->
  exists rest, write_fd answers file data = (true, file ++ data, rest) /\ Forall helpful rest.
Proof.
  induction answers as [|a answers IH]; intros file data Ha; destruct data as [|x data]; cbn [write_fd];
    try (eexists; split; [by rewrite ?app_nil_r|done]).
  apply Forall_cons in Ha as [Ha Has]. destruct a as [| |n|n]; cbn in Ha; try done; [by apply IH|].
  destruct (Z.leb_spec n 0); [lia|].
  destruct (IH (file ++ take (Z.to_nat n) (x :: data)) (drop (Z.to_nat n) (x :: data)) Has) as (rest & -> & Hr).
  exists rest. by rewrite <- app_assoc, take_drop.
Qed.
Lemma write_all_helpful answers file data : Forall helpful answers ->
  exists rest, write_all answers file data = Some (file ++ data, rest) /\ Forall helpful rest.
Proof. intros (rest & E & Hr)%(write_fd_helpful answers file data). exists rest. unfold write_all. by rewrite E. Qed.
Lemma read_fd_Some answers : forall data out, read_fd answers data = Some out -> out = data.
Proof.
  induction answers as [|a answers IH]; intros data out; destruct data as [|x data]; cbn [read_fd]; try (by intros [= <-]).
  destruct a as [| |n|n]; [apply IH|done|..];
    (destruct (n <=? 0); [done|]; intros (rest & ->%IH & [= <-])%bind_Some; by rewrite take_drop).
Qed.
Lemma read_fd_helpful answers : forall data, Forall helpful answers -> read_fd answers data = Some data.
Proof.
  induction answers as [|a answers IH]; intros data Ha; destruct data as [|x data]; cbn [read_fd]; try done.
  apply Forall_cons in Ha as [Ha Has]. destruct a as [| |n|n]; cbn in Ha; try done; [by apply IH|].
  destruct (Z.leb_spec n 0); [lia|]. by rewrite IH, some_bind, take_drop.
Qed.
Lemma slice_overwrite_same off k new bs : 0 <= off -> off + blen new <= blen bs -> 0 <= k <= blen new ->
  slice off k (overwrite off new bs) = take (Z.to_nat k) new.
Proof.
  unfold blen, slice, overwrite. intros. rewrite drop_app_length' by (rewrite length_take; lia).
  by rewrite take_app_le by lia.
Qed.
Lemma slice_overwrite_other off k at_ new bs : 0 <= off -> 0 <= k -> 0 <= at_ -> at_ + blen new <= blen bs -> off + k <= blen bs ->
  off + k <= at_ \/ at_ + blen new <= off -> slice off k (overwrite at_ new bs) = slice off k bs.
Proof.
  unfold blen. intros Ho Hk Ha Hn Hb [H|H]; unfold slice.
  - rewrite !take_drop_commute. f_equal. replace (Z.to_nat off + Z.to_nat k)%nat with (Nat.min (Z.to_nat off + Z.to_nat k) (Z.to_nat at_)) by lia.
    by rewrite <- !take_take, take_overwrite by lia.
  - by rewrite drop_overwrite by lia.
Qed.
