(* ===== verification/RawDevice.v ===== *)
(** aera_frp_wipe.hpp and aera_efisp.hpp: locating, zeroing, flashing and
    verifying a raw partition.

    [Os] is what the kernel reports about paths: symlink resolution, the
    node behind an opened path, sysfs files and the result of close. The
    bytes themselves live in the [World] of Kernel.v. *)
From stdpp Require Import base list strings gmap.
From Stdlib Require Import ZArith Lia Ascii.
From S2P Require Import Prelude Kernel.

(** fstat and BLKGETSIZE64 on an open descriptor; [None] is a failing call. *)
Record Stat := MkStat { st_blk : bool; st_reg : bool; st_rdev : Z; st_size : Z }.
Record Node := MkNode { node_stat : option Stat; node_capacity : option Z }.
Record Os := MkOs {
  os_realpath : string -> option string;
  os_open : string -> option (Z * Node);       (* O_RDONLY | O_NOFOLLOW *)
  os_open_excl : string -> option (Z * Node);  (* O_RDWR | O_EXCL | O_NOFOLLOW *)
  os_access : string -> bool;
  os_close : Z -> bool                         (* close returned zero *)
}.

Definition major (dev : Z) : Z :=
  Z.lor (Z.land (Z.shiftr dev 32) 0xfffff000) (Z.land (Z.shiftr dev 8) 0xfff).
Definition minor (dev : Z) : Z :=
  Z.lor (Z.land (Z.shiftr dev 12) 0xffffff00) (Z.land dev 0xff).
Definition sysfs_block (dev : Z) : string :=
  ("/sys/dev/block/" ++ to_string (major dev) ++ ":" ++ to_string (minor dev))%string.

(** The little-endian fields of a fixed-size, zero-initialised local array. *)
Definition at16 (bs : list Z) (i : Z) : Z := default 0 (rd16 bs i).
Definition at32 (bs : list Z) (i : Z) : Z := default 0 (rd32 bs i).
Definition at8 (bs : list Z) (i : Z) : Z := default 0 (rd8 bs i).

Definition chunk : Z := 64 * 1024.

(** ** The factory-reset-protection partition *)
Module Frp.
Record Target := MkTarget { path : string; device : Z; bytes : Z }.
Definition no_target : Target := MkTarget "" 0 0.

Definition Inspect (os : Os) (p : string) : option Target :=
  if negb (String.prefix "/dev/block/" p) then None
  else match os_realpath os p with
  | None => None
  | Some resolved =>
      if negb (String.prefix "/dev/block/" resolved) then None
      else match os_open os resolved with
      | None => None
      | Some (_, node) =>
          match node_stat node, node_capacity node with
          | Some st, Some bytes =>
              if st_blk st && (0 <? bytes) && (bytes <=? INT64_MAX) &&
                 os_access os (sysfs_block (st_rdev st) ++ "/partition")
              then Some (MkTarget resolved (st_rdev st) bytes) else None
          | _, _ => None
          end
      end
  end.

(** The alias loop shared by both Discover functions: unreadable aliases are
    skipped, two aliases of different devices are refused. The inner [None]
    is "no alias found yet". *)
Fixpoint alias_loop (os : Os) (paths : list string) (found : option Target)
    : option (option Target) :=
  match paths with
  | [] => Some found
  | p :: rest =>
      match Inspect os p with
      | None => alias_loop os rest found
      | Some candidate =>
          match found with
          | Some f => if negb (device f =? device candidate) then None
                      else alias_loop os rest (Some candidate)
          | None => alias_loop os rest (Some candidate)
          end
      end
  end.
Definition aliases (name : string) : list string :=
  [("/dev/block/by-name/" ++ name)%string; ("/dev/block/bootdevice/by-name/" ++ name)%string].
Definition Discover (enabled : bool) (os : Os) (property : string) : option Target :=
  if negb enabled then None
  else if negb (String.eqb property "") then Inspect os property
  else mjoin (alias_loop os (aliases "frp") None).

Fixpoint zero_loop (fuel : nat) (fd bytes offset : Z) : M bool :=
  if bytes <=? offset then mret true
  else match fuel with
  | O => out_of_answers
  | S fuel =>
      let count := Z.min chunk (bytes - offset) in
      r ← pwrite fd (replicate (Z.to_nat count) 0) offset;
      match r with
      | XIntr => zero_loop fuel fd bytes offset
      | XFail | XBytes [] => mret false
      | XBytes bs => zero_loop fuel fd bytes (offset + blen bs)
      end
  end.
Fixpoint zero_check (fuel : nat) (fd bytes offset : Z) : M bool :=
  if bytes <=? offset then mret true
  else match fuel with
  | O => out_of_answers
  | S fuel =>
      let count := Z.min chunk (bytes - offset) in
      r ← pread fd count offset;
      match r with
      | XIntr => zero_check fuel fd bytes offset
      | XFail | XBytes [] => mret false
      | XBytes bs =>
          if existsb (fun c => negb (c =? 0)) bs then mret false
          else zero_check fuel fd bytes (offset + blen bs)
      end
  end.
Definition ZeroAndVerify (fd bytes : Z) : M bool := fun w =>
  if (bytes =? 0) || (INT64_MAX <? bytes) then Some (false, w)
  else (ok ← zero_loop (length (answers w)) fd bytes 0;
        if negb ok then mret false
        else synced ← sync fd;
             if negb synced then mret false
             else zero_check (length (answers w)) fd bytes 0) w.

(** The descriptor-identity test before any write: the opened node is still
    the block device, with the size, that was inspected. *)
Definition same_node (node : Node) (device bytes : Z) : bool :=
  match node_stat node with
  | Some st => st_blk st && (st_rdev st =? device) &&
               match node_capacity node with Some c => c =? bytes | None => false end
  | None => false
  end.

Definition Wipe (enabled : bool) (os : Os) (target : Target) : M bool :=
  if negb enabled || String.eqb (path target) "" then mret false
  else match Inspect os (path target) with
  | None => mret false
  | Some current =>
      if negb (device current =? device target) || negb (bytes current =? bytes target)
      then mret false
      else match os_open_excl os (path target) with
      | None => mret false
      | Some (fd, node) =>
          ok ← (if same_node node (device target) (bytes target)
                then ZeroAndVerify fd (bytes target) else mret false);
          mret (ok && os_close os fd)
      end
  end.
End Frp.

(** ** The EFISP partition *)
Module Efisp.
Import Frp.

Definition Discover (enabled : bool) (os : Os) : option Target :=
  if negb enabled then None else mjoin (alias_loop os (aliases "efisp") None).

Definition ReadAt (fd count offset : Z) : M (option (list Z)) := read_exactly fd count offset.

Fixpoint sections_ok (n : nat) (i fd table size : Z) : M bool :=
  match n with
  | O => mret true
  | S n =>
      section ← ReadAt fd 40 (table + i * 40);
      match section with
      | None => mret false
      | Some section =>
          let length := at32 section 16 in
          let start := at32 section 20 in
          if negb (length =? 0) && ((size <? start) || (size - start <? length)) then mret false
          else sections_ok n (i + 1) fd table size
      end
  end.
Definition ValidImage (fd : Z) (st : Stat) (capacity : Z) : M bool :=
  if negb (st_reg st) || (st_size st <? 64) || (capacity <? st_size st) then mret false
  else
  let size := st_size st in
  dos ← ReadAt fd 64 0;
  match dos with
  | None => mret false
  | Some dos =>
    if negb (at8 dos 0 =? 77) || negb (at8 dos 1 =? 90) then mret false
    else
    let offset := at32 dos 60 in
    if (offset <? 64) || (size - 24 <? offset) then mret false
    else pe ← ReadAt fd 24 offset;
    match pe with
    | None => mret false
    | Some pe =>
      if negb (bool_decide (take 4 pe = [80; 69; 0; 0])) || negb (at16 pe 4 =? 0xaa64) then mret false
      else
      let optional_size := at16 pe 20 in
      let sections := at16 pe 6 in
      if (optional_size <? 112) || (sections =? 0) || (96 <? sections) ||
         (size - offset - 24 <? optional_size) then mret false
      else optional ← ReadAt fd 112 (offset + 24);
      match optional with
      | None => mret false
      | Some optional =>
        if negb (at16 optional 0 =? 0x20b) || negb (at16 optional 68 =? 10) then mret false
        else
        let table := offset + 24 + optional_size in
        if size - table <? sections * 40 then mret false
        else sections_ok (Z.to_nat sections) 0 fd table size
      end
    end
  end.

Fixpoint compare_loop (fuel : nat) (source destination bytes offset : Z) : M bool :=
  if bytes <=? offset then mret true
  else match fuel with
  | O => out_of_answers
  | S fuel =>
      let count := Z.min chunk (bytes - offset) in
      expected ← ReadAt source count offset;
      match expected with
      | None => mret false
      | Some expected =>
          actual ← ReadAt destination count offset;
          match actual with
          | None => mret false
          | Some actual =>
              if bool_decide (expected = actual)
              then compare_loop fuel source destination bytes (offset + count)
              else mret false
          end
      end
  end.
Definition CompareWritten (source destination bytes : Z) : M bool :=
  if (bytes =? 0) || (INT64_MAX <? bytes) then mret false
  else compare_loop (Z.to_nat bytes) source destination bytes 0.

Definition WriteAndVerify (source destination bytes : Z) : M bool :=
  if (bytes =? 0) || (INT64_MAX <? bytes) then mret false
  else ok ← copy_loop chunk (Z.to_nat bytes) source destination bytes 0;
       if negb ok then mret false
       else synced ← sync destination;
            if negb synced then mret false
            else CompareWritten source destination bytes.

Definition Flash (enabled : bool) (os : Os) (p : string) (target : Target) : M bool :=
  match Discover enabled os with
  | None => mret false
  | Some current =>
    if negb (device current =? device target) || negb (bytes current =? bytes target)
    then mret false
    else match os_open os p with
    | None => mret false
    | Some (source, image) =>
      match node_stat image with
      | None => mret false
      | Some st =>
        valid ← ValidImage source st (bytes target);
        if negb valid then mret false
        else match os_open_excl os (path current) with
        | None => mret false
        | Some (block, node) =>
            ok ← (if same_node node (device target) (bytes target)
                  then WriteAndVerify source block (st_size st) else mret false);
            mret (ok && os_close os block)
        end
      end
    end
  end.

Definition Wipe (enabled : bool) (os : Os) (acknowledgement : string) : M bool :=
  if negb (String.eqb acknowledgement "wipe-efisp") then mret false
  else match Discover enabled os with
  | None => mret false
  | Some target =>
      match os_open_excl os (path target) with
      | None => mret false
      | Some (fd, node) =>
          ok ← (if same_node node (device target) (bytes target)
                then ZeroAndVerify fd (bytes target) else mret false);
          mret (ok && os_close os fd)
      end
  end.
End Efisp.

(** ** Lemmas *)
Import Frp Efisp.

Lemma zero_loop_sound fuel : forall fd n off w ok w',
  zero_loop fuel fd n off w = Some (ok, w') -> 0 <= off <= blen (content w fd) ->
  only fd w w' /\ (off <= n -> touched off (n - off) (content w fd) (content w' fd)) /\
  length (content w' fd) = length (content w fd).
Proof.
  induction fuel as [|fuel IH]; intros fd n off w ok w' E Hoff; simpl in E;
    destruct (Z.leb_spec n off); try discriminate E;
    try (injection E as <- <-; by repeat (split; [done|])).
  apply mbind_Some in E as (r & w1 & Hp & E).
  apply pwrite_Some in Hp as (Ho & Ht & Hr); [|done].
  assert (Hrep : Z.of_nat (length (replicate (Z.to_nat (Z.min chunk (n - off))) 0)) <= n - off).
  { rewrite length_replicate. unfold chunk. lia. }
  assert (Ht1 : touched off (n - off) (content w fd) (content w1 fd)).
  { eapply touched_mono; [| | | |exact Ht]; lia. }
  assert (Hl1 : length (content w1 fd) = length (content w fd)) by apply Ht.
  destruct r as [| |bs].
  - apply IH in E as (Ho' & Ht' & Hl'); [|unfold blen in *; lia].
    split; [eauto with aera|]. split; [intros; eapply touched_trans; eauto|congruence].
  - injection E as <- <-. by repeat (split; [done|]).
  - destruct (Hr bs eq_refl) as (Hb1 & Hb2 & Hb3).
    destruct bs as [|b bs0] eqn:Eb; [injection E as <- <-; by repeat (split; [done|])|].
    rewrite <- Eb in *. clear Eb.
    assert (Hlb : blen bs <= n - off).
    { apply (f_equal length) in Hb1. rewrite length_take in Hb1. unfold blen. lia. }
    pose proof (blen_nonneg bs).
    apply IH in E as (Ho' & Ht' & Hl'); [|unfold blen in *; lia].
    split; [eauto with aera|]. split; [|congruence]. intros _.
    eapply touched_trans; [exact Ht1|].
    eapply touched_mono; [| | | |apply Ht'; lia]; lia.
Qed.

Lemma zero_check_sound fuel : forall fd n off w ok w',
  zero_check fuel fd n off w = Some (ok, w') -> 0 <= off ->
  files w' = files w /\
  (ok = true -> off <= n ->
     slice off (n - off) (content w fd) = replicate (Z.to_nat (n - off)) 0).
Proof.
  induction fuel as [|fuel IH]; intros fd n off w ok w' E Hoff; simpl in E;
    destruct (Z.leb_spec n off); try discriminate E;
    try (injection E as <- <-; split; [done|]; intros _ ?; assert (n = off) as -> by lia;
         by rewrite Z.sub_diag).
  apply mbind_Some in E as (r & w1 & Hp & E). apply pread_Some in Hp as (Hf & _ & Hr).
  destruct r as [| |bs].
  - apply IH in E as [Hf' Hc]; [|done]. rewrite (content_files w w1) in Hc by done.
    split; [congruence|done].
  - injection E as <- <-. by split.
  - destruct (Hr bs eq_refl) as [m Hbs]. destruct bs as [|b bs0] eqn:Eb;
      [injection E as <- <-; by split|]. rewrite <- Eb in *. clear Eb.
    destruct (existsb _ bs) eqn:Ez; [injection E as <- <-; by split|].
    assert (Hz : bs = replicate (length bs) 0).
    { symmetry. apply replicate_as_Forall. split; [done|]. apply Forall_forall. intros x Hx.
      destruct (Z.eqb_spec x 0); [congruence|]. exfalso.
      assert (existsb (fun c => negb (c =? 0)) bs = true) as Et; [|congruence].
      apply existsb_exists. exists x. split; [by apply list_elem_of_In|].
      apply negb_true_iff. by apply Z.eqb_neq. }
    assert (Hlb : 0 <= blen bs <= n - off).
    { pose proof (slice_length off (Z.min m (Z.min chunk (n - off))) (content w fd)).
      rewrite <- Hbs in *. unfold blen. lia. }
    apply IH in E as [Hf' Hc]; [|lia]. rewrite (content_files w w1) in Hc by done.
    split; [congruence|]. intros Hok _. specialize (Hc Hok ltac:(lia)).
    assert (Hbs' : bs = slice off (blen bs) (content w fd)).
    { rewrite Hbs. unfold blen, slice. by rewrite Nat2Z.id, <- take_length_take. }
    replace (n - off) with (blen bs + (n - (off + blen bs))) by lia.
    rewrite <- slice_cat by (try lia; rewrite <- Hbs'; done).
    rewrite <- Hbs', Hc. rewrite Z2Nat.inj_add, replicate_add by lia. f_equal.
    unfold blen. by rewrite Nat2Z.id.
Qed.

Lemma zero_and_verify_facts fd n w ok w' :
  ZeroAndVerify fd n w = Some (ok, w') -> 0 <= n ->
  only fd w w' /\ touched 0 n (content w fd) (content w' fd) /\
  (ok = true -> content w' fd = replicate (Z.to_nat n) 0 ++ drop (Z.to_nat n) (content w fd)).
Proof.
  unfold ZeroAndVerify. intros E Hn.
  destruct ((n =? 0) || (INT64_MAX <? n)); [injection E as <- <-; by repeat (split; [done|])|].
  apply mbind_Some in E as (ok1 & w1 & E1 & E).
  apply zero_loop_sound in E1 as (Ho & Ht & _); [|pose proof (blen_nonneg (content w fd)); lia].
  specialize (Ht Hn). rewrite Z.sub_0_r in Ht.
  destruct ok1; simpl in E; [|injection E as <- <-; by repeat (split; [done|])].
  apply mbind_Some in E as (ok2 & w2 & [Hf2 _]%sync_Some & E).
  assert (Hc2 : content w2 fd = content w1 fd) by eauto with aera.
  destruct ok2; simpl in E.
  2:{ injection E as <- <-. rewrite Hc2. split; [eauto with aera|]. by split. }
  apply zero_check_sound in E as [Hf3 Hz]; [|done].
  assert (Hc3 : content w' fd = content w1 fd) by (rewrite <- Hc2; eauto with aera).
  rewrite Hc3. split; [eauto 6 with aera|]. split; [done|]. intros Hok.
  rewrite (touched_prefix n _ _ Hn Ht), <- slice_0. f_equal. rewrite <- Hc2.
  specialize (Hz Hok Hn). by rewrite Z.sub_0_r in Hz.
Qed.

Lemma compare_loop_sound fuel : forall source destination n off w ok w',
  compare_loop fuel source destination n off w = Some (ok, w') -> 0 <= off ->
  files w' = files w /\
  (ok = true -> off <= n ->
     slice off (n - off) (content w destination) = slice off (n - off) (content w source) /\
     blen (slice off (n - off) (content w source)) = n - off).
Proof.
  induction fuel as [|fuel IH]; intros source destination n off w ok w' E Hoff; simpl in E;
    destruct (Z.leb_spec n off); try discriminate E;
    try (injection E as <- <-; split; [done|]; intros _ ?; assert (n = off) as -> by lia;
         by rewrite Z.sub_diag).
  set (count := Z.min chunk (n - off)) in *. assert (0 <= count <= n - off) by (unfold count, chunk; lia).
  apply mbind_Some in E as (r1 & w1 & [Hf1 H1]%read_loop_sound & E); [|lia..].
  destruct r1 as [expected|]; [|injection E as <- <-; by split].
  apply mbind_Some in E as (r2 & w2 & [Hf2 H2]%read_loop_sound & E); [|lia..].
  destruct r2 as [actual|]; [|injection E as <- <-; split; [congruence|done]].
  destruct (H1 expected eq_refl) as [Hx Hxl]. destruct (H2 actual eq_refl) as [Ha Hal].
  rewrite (content_files w w1) in Ha by done.
  case_bool_decide as Heq; [|injection E as <- <-; split; [congruence|done]].
  apply IH in E as [Hf3 H3]; [|lia].
  rewrite !(content_files w w2) in H3 by congruence.
  split; [congruence|]. intros Hok _. destruct (H3 Hok ltac:(lia)) as [H4 H5].
  replace (n - off) with (count + (n - (off + count))) by lia.
  rewrite <- !slice_cat by (try lia; congruence). unfold blen in *. rewrite length_app.
  split; [|rewrite <- Hx; lia]. f_equal; [congruence|done].
Qed.


Lemma write_and_verify_facts source destination n w ok w' :
  WriteAndVerify source destination n w = Some (ok, w') -> 0 <= n -> source ≠ destination ->
  only destination w w' /\ touched 0 n (content w destination) (content w' destination) /\
  (ok = true -> n <= blen (content w source) /\
     content w' destination =
       take (Z.to_nat n) (content w source) ++ drop (Z.to_nat n) (content w destination)).
Proof.
  unfold WriteAndVerify. intros E Hn Hne.
  destruct ((n =? 0) || (INT64_MAX <? n)) eqn:Eg; [injection E as <- <-; by repeat (split; [done|])|].
  apply mbind_Some in E as (ok1 & w1 & E1 & E).
  apply copy_loop_sound in E1 as [Ho Ht]; [|unfold chunk; lia|pose proof (blen_nonneg (content w destination)); lia|done].
  rewrite Z.sub_0_r in Ht.
  destruct ok1; simpl in E; [|injection E as <- <-; by repeat (split; [done|])].
  apply mbind_Some in E as (ok2 & w2 & [Hf2 _]%sync_Some & E).
  assert (Hc2 : content w2 destination = content w1 destination) by eauto with aera.
  destruct ok2; simpl in E.
  2:{ injection E as <- <-. rewrite Hc2. split; [eauto with aera|]. by split. }
  unfold CompareWritten in E. rewrite Eg in E.
  apply compare_loop_sound in E as [Hf3 Hz]; [|done].
  assert (Hc3 : content w' destination = content w1 destination) by (rewrite <- Hc2; eauto with aera).
  rewrite Hc3. split; [eauto 6 with aera|]. split; [done|]. intros Hok.
  specialize (Hz Hok Hn). rewrite Z.sub_0_r, Hc2, (content_files w1 w2) in Hz by done.
  rewrite (Ho source Hne), !slice_0 in Hz. destruct Hz as [Hz1 Hz2]. split.
  - unfold blen in *. rewrite length_take in Hz2. lia.
  - rewrite (touched_prefix n _ _ Hn Ht). by f_equal.
Qed.

Lemma sections_ok_read_only n : forall i fd table size, read_only (sections_ok n i fd table size).
Proof.
  induction n as [|n IH]; intros i fd table size; simpl; [apply read_only_ret|].
  apply read_only_bind; [apply read_only_read_exactly|]. intros [section|]; [|apply read_only_ret].
  case_match; [apply read_only_ret|apply IH].
Qed.
Lemma valid_image_read_only fd st capacity : read_only (ValidImage fd st capacity).
Proof.
  unfold ValidImage, ReadAt.
  repeat first [apply read_only_ret | apply sections_ok_read_only |
    apply read_only_bind; [apply read_only_read_exactly|intros [?|]] | case_match].
Qed.
#[export] Hint Resolve sections_ok_read_only valid_image_read_only : aera.

Lemma inspect_path_block os p t : Inspect os p = Some t ->
  os_realpath os p = Some (path t) /\ String.prefix "/dev/block/" (path t) = true /\
  0 < bytes t <= INT64_MAX /\ os_access os (sysfs_block (device t) ++ "/partition") = true.
Proof.
  unfold Inspect. intros E. repeat (case_match; simplify_eq; try done).
  repeat match goal with
  | H : negb _ = false |- _ => apply negb_false_iff in H
  | H : _ && _ = true |- _ => apply andb_true_iff in H as [??]
  end. simpl. unfold INT64_MAX in *. repeat split; try done; lia.
Qed.

Lemma alias_loop_spec os paths : forall found t,
  alias_loop os paths found = Some (Some t) ->
  (found = Some t \/ exists p, p ∈ paths /\ Inspect os p = Some t) /\
  (forall f, found = Some f -> device f = device t) /\
  (forall p t', p ∈ paths -> Inspect os p = Some t' -> device t' = device t).
Proof.
  induction paths as [|p paths IH]; intros found t E; simpl in E.
  { simplify_eq. split; [by left|]. split; [intros; by simplify_eq|].
    intros p t' Hin. by apply not_elem_of_nil in Hin. }
  destruct (Inspect os p) as [c|] eqn:Ei.
  - assert (Hc : alias_loop os paths (Some c) = Some (Some t) /\
                 forall f, found = Some f -> device f = device c).
    { destruct found as [f|]; [|done]. destruct (Z.eqb_spec (device f) (device c)); simpl in E; [|done].
      split; [done|]. intros f' Hf. by simplify_eq. }
    destruct Hc as [E' Hf]. destruct (IH _ _ E') as (H1 & H2 & H3).
    specialize (H2 c eq_refl). split; [|split].
    + right. destruct H1 as [H1|(q & Hq & H1)]; [|exists q; set_solver].
      exists p. simplify_eq. set_solver.
    + intros f Hff. rewrite (Hf f Hff). done.
    + intros q t' [->|Hin]%elem_of_cons Hi; [|by eapply H3]. rewrite Ei in Hi. by simplify_eq.
  - destruct (IH _ _ E) as (H1 & H2 & H3). split; [|split; [done|]].
    + destruct H1 as [H1|(q & Hq & H1)]; [by left|]. right. exists q. set_solver.
    + intros q t' [->|Hin]%elem_of_cons Hi; [congruence|by eapply H3].
Qed.

Lemma compare_loop_ready fuel : forall source destination n off k w,
  n - off <= Z.of_nat fuel -> 0 <= off -> 0 <= k ->
  n <= blen (content w source) -> n <= blen (content w destination) ->
  slice off (n - off) (content w destination) = slice off (n - off) (content w source) ->
  ready (2 * Z.max 0 (n - off) + k) w ->
  exists w', compare_loop fuel source destination n off w = Some (true, w').
Proof.
  induction fuel as [|fuel IH]; intros source destination n off k w Hfuel Ho Hk Hs Hd Heq Hr; simpl;
    (destruct (Z.leb_spec n off); [eexists; done|]); [lia|].
  set (count := Z.min chunk (n - off)). assert (0 < count <= n - off) by (unfold count, chunk; lia).
  unfold mbind, M_bind.
  destruct (read_exactly_ready source count off (2 * (n - off) - count + k) w)
    as (w1 & E1 & Hr1 & Hf1 & _); try lia; [eapply ready_weaken; [done|lia]|].
  unfold ReadAt. rewrite E1.
  destruct (read_exactly_ready destination count off (2 * Z.max 0 (n - (off + count)) + k) w1)
    as (w2 & E2 & Hr2 & Hf2 & _); try lia;
    [rewrite (content_files w w1) by done; lia|eapply ready_weaken; [done|lia]|].
  rewrite E2, (content_files w w1) by done.
  assert (Hpart : forall i m, 0 <= i -> 0 <= m -> i + m <= n - off ->
    slice (off + i) m (content w destination) = slice (off + i) m (content w source)).
  { intros i m Hi Hm Him. apply (f_equal (fun l => take (Z.to_nat m) (drop (Z.to_nat i) l))) in Heq.
    unfold slice in *. rewrite !skipn_firstn_comm, !drop_drop, !take_take in Heq.
    rewrite !Z2Nat.inj_add by lia. rewrite !Nat.min_l in Heq by lia. exact Heq. }
  pose proof (Hpart 0 count) as Hhd. rewrite Z.add_0_r in Hhd.
  rewrite bool_decide_eq_true_2 by (symmetry; apply Hhd; lia).
  apply (IH _ _ _ _ k); try lia;
    rewrite ?(content_files w w2) by congruence; try done.
  apply Hpart; lia.
Qed.


(** ** Properties *)

(** When ZeroAndVerify reports success, the first [n] bytes of the
    device are zero, the bytes after them are the old ones and no other
    descriptor changed, even if the device lost writes it acknowledged. *)
Theorem zero_and_verify_sound fd n w w' :
  0 <= n -> ZeroAndVerify fd n w = Some (true, w') ->
  content w' fd = replicate (Z.to_nat n) 0 ++ drop (Z.to_nat n) (content w fd) /\
  only fd w w'.
Proof. intros Hn (Ho & _ & Hz)%zero_and_verify_facts; [|done]. auto. Qed.

(** WriteAndVerify never touches a byte past the image ("bytes after the
    executable are deliberately left untouched") nor another descriptor,
    whatever it returns; when it reports success the destination holds
    exactly the source image followed by the old tail, even if acknowledged
    writes were lost. *)
Theorem write_and_verify_sound source destination n w ok w' :
  0 <= n -> source ≠ destination ->
  WriteAndVerify source destination n w = Some (ok, w') ->
  only destination w w' /\
  drop (Z.to_nat n) (content w' destination) = drop (Z.to_nat n) (content w destination) /\
  (ok = true -> content w' destination =
     take (Z.to_nat n) (content w source) ++ drop (Z.to_nat n) (content w destination)).
Proof.
  intros Hn Hne (Ho & Ht & Hok)%write_and_verify_facts; try done.
  split; [done|]. split; [|intros; by apply Hok].
  destruct Ht as (_ & _ & Hd). by rewrite Z.add_0_l in Hd.
Qed.

(** WriteAndVerify terminates and succeeds on a working device: with the
    image and the device large enough, any pattern of interruptions and
    short transfers that lets 4*n transfers through and a successful fsync
    ends in success. *)
Theorem write_and_verify_complete source destination n w rest :
  source ≠ destination -> 0 < n <= INT64_MAX ->
  n <= blen (content w source) -> n <= blen (content w destination) ->
  ready (4 * n) w -> syncs w = true :: rest ->
  exists w', WriteAndVerify source destination n w = Some (true, w').
Proof.
  intros Hne Hn Hs Hd Hr Hsync. unfold WriteAndVerify, CompareWritten.
  assert (((n =? 0) || (INT64_MAX <? n)) = false) as ->.
  { apply orb_false_iff. split; [apply Z.eqb_neq|apply Z.ltb_ge]; lia. }
  destruct (copy_loop_ready chunk (Z.to_nat n) ltac:(unfold chunk; lia) source destination n 0 (2 * n) w)
    as (w1 & E1 & Hr1 & Hs1 & Hc1 & Hl1 & Ht1); try done; try lia;
    [eapply ready_weaken; [done|lia]|].
  unfold mbind, M_bind. rewrite E1. simpl. unfold sync. rewrite Hs1, Hsync. simpl.
  destruct (compare_loop_ready (Z.to_nat n) source destination n 0 0
    (MkWorld (answers w1) rest (files w1))) as [w' E]; try lia.
  - change (n <= blen (content w1 source)). rewrite Hc1. lia.
  - exact Hl1.
  - rewrite Z.sub_0_r, !slice_0. change (take (Z.to_nat n) (content w1 destination) =
      take (Z.to_nat n) (content w1 source)). by rewrite Hc1.
  - destruct Hr1 as [??]. split; [done|]. simpl. lia.
  - exists w'. exact E.
Qed.

(** C2: Flash writes only through the exclusively opened descriptor of the
    freshly discovered EFISP alias, and only when that node is a block
    device with the identity and capacity the user confirmed; success means
    the partition starts with the complete image. *)
Theorem flash_sound enabled os p target w ok w' :
  (forall f1 n1 f2 n2 q, os_open os p = Some (f1, n1) -> os_open_excl os q = Some (f2, n2) -> f1 ≠ f2) ->
  Flash enabled os p target w = Some (ok, w') ->
  (forall fd, content w' fd ≠ content w fd ->
     exists current node, Discover enabled os = Some current /\
       os_open_excl os (path current) = Some (fd, node) /\
       same_node node (device target) (bytes target) = true) /\
  (ok = true -> exists source image st block current node,
     os_open os p = Some (source, image) /\ node_stat image = Some st /\
     Discover enabled os = Some current /\ os_open_excl os (path current) = Some (block, node) /\
     64 <= st_size st <= bytes target /\
     content w' block = take (Z.to_nat (st_size st)) (content w source) ++
                        drop (Z.to_nat (st_size st)) (content w block)).
Proof.
  intros Hfd E. unfold Flash in E.
  assert (Hstop : (ok, w') = (false, w') -> files w' = files w ->
    (forall fd, content w' fd ≠ content w fd -> False) /\ (ok = true -> False)).
  { intros [= ->] Hf. split; [|done]. intros fd []. by apply content_files. }
  destruct (Discover enabled os) as [current|] eqn:Ed; [|injection E as <- <-; naive_solver].
  destruct (negb _ || negb _) in E; [injection E as <- <-; naive_solver|].
  destruct (os_open os p) as [[source image]|] eqn:Eo; [|injection E as <- <-; naive_solver].
  destruct (node_stat image) as [st|] eqn:Es; [|injection E as <- <-; naive_solver].
  apply mbind_Some in E as (valid & w1 & Hv & E).
  pose proof (valid_image_read_only _ _ _ _ _ _ Hv) as Hf1.
  destruct valid; simpl in E; [|injection E as <- <-; naive_solver].
  destruct (os_open_excl os (path current)) as [[block node]|] eqn:Ex;
    [|injection E as <- <-; naive_solver].
  assert (Hsize : 64 <= st_size st <= bytes target).
  { unfold ValidImage in Hv. destruct (negb (st_reg st)); [done|]. simpl in Hv.
    destruct (Z.ltb_spec (st_size st) 64); [done|].
    destruct (Z.ltb_spec (bytes target) (st_size st)); [done|]. lia. }
  destruct (same_node node _ _) eqn:En;
    [|injection E as <- <-; naive_solver].
  apply mbind_Some in E as (ok1 & w2 & Hw & E). injection E as <- <-.
  apply write_and_verify_facts in Hw as (Ho & _ & Hok); [|lia|by eapply Hfd].
  split.
  - intros fd Hc. exists current, node. split; [done|]. split; [|done].
    destruct (decide (fd = block)) as [->|Hne]; [done|]. destruct Hc.
    rewrite (Ho fd Hne). by apply content_files.
  - intros [Hok1 _]%andb_true_iff. exists source, image, st, block, current, node.
    repeat (split; [done|]). destruct (Hok Hok1) as [_ ->].
    by rewrite !(content_files w w1).
Qed.

(** Discover never guesses: a discovered FRP target is the inspection
    of the explicit property or of one by-name alias, it is a partition
    node under /dev/block of a positive size, and no other readable alias
    names a different device. *)
Theorem discover_unambiguous os property t :
  Frp.Discover true os property = Some t ->
  String.prefix "/dev/block/" (path t) = true /\ 0 < bytes t <= INT64_MAX /\
  os_access os (sysfs_block (device t) ++ "/partition") = true /\
  if String.eqb property ""
  then (exists p, p ∈ aliases "frp" /\ Inspect os p = Some t) /\
       (forall p t', p ∈ aliases "frp" -> Inspect os p = Some t' -> device t' = device t)
  else Inspect os property = Some t.
Proof.
  unfold Frp.Discover. intros E. destruct (String.eqb property "") eqn:Ep; cbn [negb] in E.
  - destruct (alias_loop os (aliases "frp") None) as [[t'|]|] eqn:El; [|done|done].
    injection E as ->.
    destruct (alias_loop_spec _ _ _ _ El) as ([?|(p & Hp & Hi)] & _ & H3); [done|].
    destruct (inspect_path_block _ _ _ Hi) as (_ & ? & ? & ?).
    repeat (split; [done|]). split; [eauto|done].
  - by destruct (inspect_path_block _ _ _ E) as (_ & ? & ? & ?).
Qed.

(** ** Concrete runs *)
Definition demo_world : World :=
  MkWorld [Upto 2; Intr; Upto 5; Upto 1; Upto 9; Intr; Upto 3; Upto 3; Upto 3; Upto 3; Upto 3; Upto 3] [true]
    (<[3 := [7; 7; 7; 7]]> {[4 := [1; 2; 3]]}).
Definition demo_end (m : M bool) (w : World) : World := default w (snd <$> m w).

Lemma zero_and_verify_sound_witness :
  content (demo_end (ZeroAndVerify 3 3) demo_world) 3 = [0; 0; 0; 7].
Proof.
  destruct (zero_and_verify_sound 3 3 demo_world (demo_end (ZeroAndVerify 3 3) demo_world))
    as [E _]; [lia|vm_compute; reflexivity|]. exact E.
Defined.

Lemma write_and_verify_sound_witness :
  content (demo_end (WriteAndVerify 4 3 2) demo_world) 3 = [1; 2; 7; 7].
Proof.
  destruct (write_and_verify_sound 4 3 2 demo_world true (demo_end (WriteAndVerify 4 3 2) demo_world))
    as (_ & _ & E); [lia|lia|vm_compute; reflexivity|]. exact (E eq_refl).
Defined.

Lemma write_and_verify_complete_witness :
  exists w', WriteAndVerify 4 3 2 demo_world = Some (true, w').
Proof.
  apply (write_and_verify_complete 4 3 2 demo_world []);
    [lia|unfold INT64_MAX; lia|vm_compute; discriminate|vm_compute; discriminate| |reflexivity].
  split; [|vm_compute; discriminate].
  repeat (apply Forall_cons; split; [simpl; lia || exact I|]); apply Forall_nil; exact I.
Defined.

(** A minimal ARM64 EFI application: DOS header, PE header at 64, a
    112-byte optional header at 88 and one empty section at 200. *)
Definition demo_efi : list Z :=
  [77; 90] ++ replicate 58 0 ++ [64; 0; 0; 0] ++
  [80; 69; 0; 0; 100; 170; 1; 0] ++ replicate 12 0 ++ [112; 0; 0; 0] ++
  [11; 2] ++ replicate 66 0 ++ [10; 0] ++ replicate 42 0 ++ replicate 40 0.
Definition demo_blk : Node := MkNode (Some (MkStat true false 259 0)) (Some 300).
Definition demo_os : Os := MkOs
  (fun p => if String.eqb p "/dev/block/by-name/efisp" then Some "/dev/block/sda9"%string else None)
  (fun p => if String.eqb p "/dev/block/sda9" then Some (9, demo_blk)
            else if String.eqb p "/tmp/app.efi" then Some (5, MkNode (Some (MkStat false true 0 240)) None)
            else None)
  (fun p => if String.eqb p "/dev/block/sda9" then Some (6, demo_blk) else None)
  (fun _ => true) (fun _ => true).
Definition demo_flash_world : World :=
  MkWorld (replicate 9 (Upto 300)) [true] (<[5 := demo_efi]> {[6 := replicate 300 255]}).

Lemma flash_sound_witness :
  exists w', Flash true demo_os "/tmp/app.efi" (MkTarget "/dev/block/sda9" 259 300) demo_flash_world
    = Some (true, w') /\ content w' 6 = demo_efi ++ replicate 60 255.
Proof.
  set (w' := demo_end (Flash true demo_os "/tmp/app.efi" (MkTarget "/dev/block/sda9" 259 300)) demo_flash_world).
  assert (E : Flash true demo_os "/tmp/app.efi" (MkTarget "/dev/block/sda9" 259 300) demo_flash_world
    = Some (true, w')) by (vm_compute; reflexivity).
  exists w'. split; [exact E|].
  destruct (flash_sound true demo_os "/tmp/app.efi" (MkTarget "/dev/block/sda9" 259 300)
    demo_flash_world true w') as [_ H]; [|exact E|].
  - intros f1 n1 f2 n2 q H1 H2. simpl in *. destruct (String.eqb q "/dev/block/sda9"); [|discriminate H2].
    vm_compute in H1. injection H1 as <- _. injection H2 as <- _. discriminate.
  - destruct (H eq_refl) as (source & image & st & block & current & node & H1 & H2 & H3 & H4 & _ & H6).
    vm_compute in H1. injection H1 as <- <-. simpl in H2. injection H2 as <-.
    vm_compute in H3. injection H3 as <-. vm_compute in H4. injection H4 as <- _.
    rewrite H6. vm_compute. reflexivity.
Defined.

Definition demo_frp_os : Os := MkOs
  (fun p => if String.prefix "/dev/block/" p then Some "/dev/block/sda3"%string else None)
  (fun p => Some (9, demo_blk)) (fun p => None) (fun _ => true) (fun _ => true).
Lemma discover_unambiguous_witness :
  Frp.Discover true demo_frp_os "" = Some (MkTarget "/dev/block/sda3" 259 300) /\
  String.prefix "/dev/block/" "/dev/block/sda3" = true.
Proof.
  split; [vm_compute; reflexivity|].
  apply (discover_unambiguous demo_frp_os "" (MkTarget "/dev/block/sda3" 259 300)).
  vm_compute. reflexivity.
Defined.
