(* ===== verification/Abl.v ===== *)
(** aera_abl.cpp: structural detection of the EFISP loader in the Android
    boot loader partitions, and the warning shown when leaving recovery.

    The parsers work on untrusted bytes: a read outside a buffer is [None]
    here, so [Some] results mean memory safety. The LZMA decoder and SHA-256
    belong to other projects and are taken from the classes [Lzma] and
    [Sha256]. Whether the build sets AERA_ENABLE_EFISP is the argument
    [enabled]. *)
From stdpp Require Import base list strings gmap.
From Stdlib Require Import ZArith Lia Ascii.
From S2P Require Import Prelude Kernel RawDevice.

(** ** Other projects' code *)
Inductive LzmaStatus := NotSpecified | FinishedWithMark | NotFinished | NeedsMoreInput
  | MaybeFinishedWithoutMark.
Record LzmaResult := MkLzmaResult {
  lz_ok : bool; lz_output : list Z; lz_status : LzmaStatus }.
Class Lzma := {
  LzmaProps_Decode : list Z -> option Z;                 (* the dictionary size *)
  LzmaDecode : list Z -> list Z -> Z -> LzmaResult       (* properties, input, output limit *)
}.
(** LzmaDecode fills at most the output buffer it is given, with bytes. *)
Class LzmaLaws `(L : Lzma) : Prop := {
  lzma_limit props input limit :
    0 <= limit -> blen (lz_output (LzmaDecode props input limit)) <= limit;
  lzma_bytes props input limit : bytes_ok (lz_output (LzmaDecode props input limit))
}.
Class Sha256 := { SHA256 : list Z -> list Z }.

(** ** Parsers *)
Inductive AblStatus := Unknown | EfispLoader | NoEfispLoader.
#[global] Instance AblStatus_eq_dec : EqDecision AblStatus.
Proof. solve_decision. Defined.

Definition kMaxInput : Z := 32 * 1024 * 1024.
Definition kMaxDecoded : Z := 16 * 1024 * 1024.

Record Range := MkRange { offset : Z; size : Z }.
Record ElfTable := MkElfTable { table : Range; stride : Z; count : Z; wide : bool }.

(** The outer option is memory safety, the inner one the return value. *)
Definition ElfExtent (header : list Z) (capacity : Z) : option (option ElfTable) :=
  if blen header <? 64 then Some None
  else
  magic ← bytes_eq header 0 [0x7f; 69; 76; 70];
  data ← rd8 header 5;
  class ← rd8 header 4;
  if negb magic || negb (data =? 1) || (negb (class =? 1) && negb (class =? 2)) then Some None
  else
  let wide := class =? 2 in
  offset ← (if wide then rd64 header 32 else rd32 header 28);
  stride ← rd16 header (if wide then 54 else 42);
  count ← rd16 header (if wide then 56 else 44);
  let minimum := if wide then 56 else 32 in
  if (stride <? minimum) || (256 <? stride) || (count =? 0) || (128 <? count) ||
     (capacity <? offset) || (u64 (capacity - offset) <? u64 (count * stride)) ||
     (kMaxInput <? u64 (offset + count * stride)) then Some None
  else Some (Some (MkElfTable (MkRange offset (count * stride)) stride count wide)).

(** [p] is the address of the program header inside [buf]. *)
Definition Program (buf : list Z) (p : Z) (wide : bool) (capacity : Z) : option (option Range) :=
  offset ← (if wide then rd64 buf (p + 8) else rd32 buf (p + 4));
  bytes ← (if wide then rd64 buf (p + 32) else rd32 buf (p + 16));
  if (capacity <? offset) || (u64 (capacity - offset) <? bytes) then Some None
  else Some (Some (MkRange offset bytes)).

Fixpoint pe_sections (n : nat) (data : list Z) (section extent : Z) : option Z :=
  match n with
  | O => Some extent
  | S n =>
      raw ← rd32 data (section + 20);
      size ← rd32 data (section + 16);
      if (blen data <? raw) || (u64 (blen data - raw) <? size) then Some 0
      else pe_sections n data (section + 40) (Z.max extent (raw + size))
  end.
Definition PeSize (data : list Z) : option Z :=
  let bytes := blen data in
  if bytes <? 64 then Some 0
  else
  m ← rd8 data 0; z ← rd8 data 1;
  if negb (m =? 77) || negb (z =? 90) then Some 0
  else
  pe ← rd32 data 60;
  if (pe <? 64) || (u64 (bytes - 24) <? pe) then Some 0
  else
  sig ← bytes_eq data pe [80; 69; 0; 0];
  machine ← rd16 data (pe + 4);
  if negb sig || negb (machine =? 0xaa64) then Some 0
  else
  optional ← rd16 data (pe + 20);
  count ← rd16 data (pe + 6);
  if (optional <? 112) || (u64 (bytes - pe - 24) <? optional) || (count =? 0) || (96 <? count)
  then Some 0
  else
  format ← rd16 data (pe + 24);
  subsystem ← rd16 data (pe + 92);
  if negb (format =? 0x20b) || negb (subsystem =? 10) then Some 0
  else
  let table := pe + 24 + optional in
  if u64 (bytes - table) <? count * 40 then Some 0
  else
  extent ← rd32 data (pe + 84);
  if (extent <? table + count * 40) || (bytes <? extent) then Some 0
  else pe_sections (Z.to_nat count) data table extent.

(** std::search: does [needle] occur in [hay]? *)
Fixpoint search (needle hay : list Z) : bool :=
  bool_decide (needle `prefix_of` hay) ||
  match hay with [] => false | _ :: hay => search needle hay end.

(** ** The scan *)
Record Scan := MkScan {
  best : Z; attempts : Z; total : Z; status : AblStatus; exhausted : bool }.
Definition new_scan : Scan := MkScan 0 0 0 Unknown false.
Definition exhaust (s : Scan) : Scan := MkScan (best s) (attempts s) (total s) (status s) true.

(** "efisp" in UTF-16, terminated. *)
Definition needle : list Z := [101; 0; 102; 0; 105; 0; 115; 0; 112; 0; 0; 0].
Definition guid : list Z := [0x98; 0x58; 0x4e; 0xee; 0x14; 0x39; 0x59; 0x42;
                             0x9d; 0x6e; 0xdc; 0x7b; 0xd7; 0x94; 0x03; 0xcf].

(** The PE loop: every "MZ" whose image is larger than the best so far. *)
Fixpoint pe_loop (n : nat) (i : Z) (data : list Z) (s : Scan) : option Scan :=
  match n with
  | O => Some s
  | S n =>
      m ← rd8 data i; z ← rd8 data (i + 1);
      if negb (m =? 77) || negb (z =? 90) then pe_loop n (i + 1) data s
      else
      size ← PeSize (drop (Z.to_nat i) data);
      if size <=? best s then pe_loop n (i + 1) data s
      else
      image ← bytes_at data i size;
      pe_loop n (i + 1) data
        (MkScan size (attempts s) (total s)
           (if search needle image then EfispLoader else NoEfispLoader) (exhausted s))
  end.

Section Visit.
Context `{Lzma}.
(** The recursive call, one level deeper. *)
Variable visit : list Z -> Scan -> option Scan.

(** The two header forms, 13 and 5 bytes; [true] when one decoded. *)
Fixpoint try_headers (headers : list Z) (compressed : list Z) (s : Scan) : option (bool * Scan) :=
  match headers with
  | [] => Some (false, s)
  | header :: rest =>
      let length := blen compressed in
      if length <=? header then try_headers rest compressed s
      else
      declared ← (if header =? 13 then rd64 compressed 5 else Some UINT64_MAX);
      if negb (declared =? UINT64_MAX) && ((declared <? 64) || (kMaxDecoded <? declared))
      then try_headers rest compressed s
      else
      let limit := if declared =? UINT64_MAX then kMaxDecoded else declared in
      props ← bytes_at compressed 0 5;
      input ← bytes_at compressed header (length - header);
      let result := LzmaDecode props input limit in
      let output_size := blen (lz_output result) in
      let complete := match lz_status result with
        | FinishedWithMark => true
        | MaybeFinishedWithoutMark => negb (declared =? UINT64_MAX) && (output_size =? declared)
        | _ => false
        end in
      if negb (lz_ok result) || negb complete || (output_size <? 64)
      then try_headers rest compressed s
      else s ← visit (lz_output result) s; Some (true, s)
  end.

(** One GUID-defined section at [at]; [true] asks Visit to return. *)
Definition guid_section (at_ : Z) (data : list Z) (s : Scan) : option (bool * Scan) :=
  let section := at_ - 4 in
  b0 ← rd8 data section; b1 ← rd8 data (section + 1); b2 ← rd8 data (section + 2);
  let size := Z.lor (Z.lor b0 (Z.shiftl b1 8)) (Z.shiftl b2 16) in
  offset ← rd16 data (at_ + 16);
  kind ← rd8 data (section + 3);
  if negb (kind =? 2) || (size <? 24) || (u64 (blen data - section) <? size) ||
     (offset <? 24) || (size <=? offset) then Some (false, exhaust s)
  else
  let s := MkScan (best s) (attempts s + 1) (total s) (status s) (exhausted s) in
  if 8 <? attempts s then Some (true, exhaust s)
  else
  compressed ← bytes_at data (section + offset) (size - offset);
  if size - offset <? 6 then Some (false, exhaust s)
  else
  props ← bytes_at compressed 0 5;
  match LzmaProps_Decode props with
  | None => Some (false, exhaust s)
  | Some dicSize =>
      if kMaxDecoded <? dicSize then Some (false, exhaust s)
      else r ← try_headers [13; 5] compressed s;
           Some (false, if r.1 : bool then r.2 else exhaust r.2)
  end.
Fixpoint guid_loop (n : nat) (at_ : Z) (data : list Z) (s : Scan) : option Scan :=
  match n with
  | O => Some s
  | S n =>
      here ← bytes_eq data at_ guid;
      if negb here then guid_loop n (at_ + 1) data s
      else r ← guid_section at_ data s;
           if r.1 : bool then Some r.2 else guid_loop n (at_ + 1) data r.2
  end.
End Visit.

(** [fuel] bounds the nesting, which the code itself stops at depth 5. *)
Fixpoint Visit `{Lzma} (enabled : bool) (fuel : nat) (data : list Z) (depth : Z) (s : Scan)
    : option Scan :=
  match fuel with
  | O => None
  | S fuel =>
      let bytes := blen data in
      if (4 <? depth) || (u64 (64 * 1024 * 1024 - total s) <? bytes) then Some (exhaust s)
      else
      let s := MkScan (best s) (attempts s) (total s + bytes) (status s) (exhausted s) in
      s ← pe_loop (Z.to_nat (bytes - 63)) 0 data s;
      if negb enabled then Some s
      else guid_loop (fun out => Visit enabled fuel out (depth + 1)) (Z.to_nat (bytes - 23)) 4 data s
  end.
Definition visit_fuel : nat := 6.

Fixpoint inspect_programs `{Lzma} (enabled : bool) (n : nat) (header : Z) (t : ElfTable)
    (image : list Z) (s : Scan) : option (option Scan) :=
  match n with
  | O => Some (Some s)
  | S n =>
      part ← Program image header (wide t) (blen image);
      match part with
      | None => Some None
      | Some part =>
          type ← rd32 image header;
          s ← (if (type =? 1) && negb (size part =? 0)
               then bs ← bytes_at image (offset part) (size part); Visit enabled visit_fuel bs 0 s
               else Some s);
          inspect_programs enabled n (header + stride t) t image s
      end
  end.
Definition verdict (s : Scan) : AblStatus := if exhausted s then Unknown else status s.
Definition InspectAbl `{Lzma} (enabled : bool) (image : list Z) : option AblStatus :=
  if (blen image <? 64) || (kMaxInput <? blen image) then Some Unknown
  else
  elf ← ElfExtent image (blen image);
  match elf with
  | Some t =>
      if blen image <? u64 (offset (table t) + size (table t)) then Some Unknown
      else s ← inspect_programs enabled (Z.to_nat (count t)) (offset (table t)) t image new_scan;
           Some (match s with Some s => verdict s | None => Unknown end)
  | None =>
      m ← rd8 image 0; z ← rd8 image 1;
      if (m =? 77) && (z =? 90)
      then s ← Visit enabled visit_fuel image 0 new_scan; Some (verdict s)
      else Some Unknown
  end.

(** ** Samples *)
Record AblSample := MkSample { name : string; digest : string; sstatus : AblStatus }.
Record AblWarning := MkWarning { text : string; token : string }.

Definition AblStatusName (s : AblStatus) : string :=
  match s with
  | EfispLoader => "EFISP loader present"
  | NoEfispLoader => "EFISP loader absent"
  | Unknown => "unknown"
  end.

Definition hex_digit (d : Z) : ascii :=
  match String.get (Z.to_nat d) "0123456789abcdef" with Some c => c | None => "0"%char end.
Fixpoint hex (digest : list Z) : string :=
  match digest with
  | [] => ""
  | byte :: rest =>
      String (hex_digit (Z.shiftr byte 4)) (String (hex_digit (Z.land byte 15)) (hex rest))
  end.
Definition Hash `{Sha256} (bytes : list Z) : string := hex (SHA256 bytes).

(** The end of the furthest program segment; the inner [None] is a header
    that does not fit the device. *)
Fixpoint programs_extent (n : nat) (header : Z) (t : ElfTable) (bytes : list Z)
    (capacity extent : Z) : option (option Z) :=
  match n with
  | O => Some (Some extent)
  | S n =>
      program ← Program bytes header (wide t) capacity;
      match program with
      | None => Some None
      | Some p =>
          programs_extent n (header + stride t) t bytes capacity
            (if size p =? 0 then extent else Z.max extent (offset p + size p))
      end
  end.
Fixpoint cached (cache : list AblSample) (nm dg : string) : option AblStatus :=
  match cache with
  | [] => None
  | previous :: rest =>
      if String.eqb (name previous) nm && String.eqb (digest previous) dg
      then Some (sstatus previous) else cached rest nm dg
  end.

Section ReadAbl.
Context `{Lzma} `{Sha256}.
Variables (enabled : bool) (os : Os).

(** The part after the extent is known: read it, hash it, classify it. *)
Definition classify (fd : Z) (nm : string) (cache : list AblSample) (extent : Z)
    : M (option AblSample) :=
  let result := MkSample nm "" Unknown in
  if kMaxInput <? extent then mret (Some result)
  else
  bytes ← Efisp.ReadAt fd extent 0;
  match bytes with
  | None => mret (Some result)
  | Some bytes =>
      let dg := Hash bytes in
      mret match cached cache nm dg with
           | Some st => Some (MkSample nm dg st)
           | None => MkSample nm dg <$> InspectAbl enabled bytes
           end
  end.
(** The size ReadAbl trusts: BLKGETSIZE64 of a block device, st_size of a
    non-empty regular file. *)
Definition abl_capacity (node : Node) : option Z :=
  match node_stat node with
  | None => None
  | Some st =>
      if st_blk st then node_capacity node
      else if st_reg st && (0 <? st_size st) then Some (st_size st) else None
  end.
(** The extent of the image on the device; the outer option is memory
    safety, the inner one an early return. *)
Definition abl_extent (fd capacity : Z) : M (option (option Z)) :=
  if (capacity <? 64) || (kMaxInput <? capacity) then mret (Some None)
  else
  head ← Efisp.ReadAt fd 64 0;
  match head with
  | None => mret (Some None)
  | Some head =>
      match ElfExtent head capacity with
      | None => mret None
      | Some None => mret (Some (Some capacity))
      | Some (Some t) =>
          let n := Z.max 64 (offset (table t) + size (table t)) in
          bytes ← Efisp.ReadAt fd n 0;
          mret match bytes with
               | None => Some None
               | Some bytes =>
                   programs_extent (Z.to_nat (count t)) (offset (table t)) t bytes capacity n
               end
      end
  end.
Definition ReadAbl (p nm : string) (cache : list AblSample) : M (option AblSample) :=
  let result := MkSample nm "" Unknown in
  match os_open os p with
  | None => mret (Some result)
  | Some (fd, node) =>
      match abl_capacity node with
      | None => mret (Some result)
      | Some capacity =>
          extent ← abl_extent fd capacity;
          match extent with
          | None => mret None
          | Some None => mret (Some result)
          | Some (Some extent) => classify fd nm cache extent
          end
      end
  end.

(** The alias loop of DiscoverSamples: the last readable alias, and whether
    two aliases named different devices. *)
Fixpoint abl_alias (paths : list string) (found : option Frp.Target) (ambiguous : bool)
    : option Frp.Target * bool :=
  match paths with
  | [] => (found, ambiguous)
  | p :: rest =>
      match Frp.Inspect os p with
      | None => abl_alias rest found ambiguous
      | Some candidate =>
          abl_alias rest (Some candidate)
            (ambiguous || match found with
                          | Some f => negb (Frp.device f =? Frp.device candidate)
                          | None => false
                          end)
      end
  end.
Fixpoint discover_names (names : list string) (cache : list AblSample) : M (option (list AblSample)) :=
  match names with
  | [] => mret (Some [])
  | nm :: names =>
      match abl_alias (Frp.aliases nm) None false with
      | (Some found, false) =>
          sample ← ReadAbl (Frp.path found) nm cache;
          rest ← discover_names names cache;
          mret (s ← sample; r ← rest; Some (s :: r))
      | _ => discover_names names cache
      end
  end.
Definition DiscoverSamples (cache : list AblSample) : M (option (list AblSample)) :=
  discover_names ["abl_a"; "abl_b"; "abl"] cache.
End ReadAbl.

(** ** The session and the exit guard *)
Record AblSession := MkSession { captured_ : bool; baseline_ : list AblSample }.
Definition Capture (s : AblSession) (samples : list AblSample) : AblSession :=
  if captured_ s then s else MkSession true samples.

Definition find_sample (nm : string) (samples : list AblSample) : option AblSample :=
  snd <$> list_find (fun item => name item = nm) samples.
Definition lost_text (absent : bool) : string :=
  if absent
  then ": the vulnerable ABL has been overwritten. The EFISP loader is no longer present."
  else ": ABL has changed or cannot be read. EFISP loader support could not be verified.".
(** The loop body for one baseline sample: nothing, or a line and a token. *)
Definition check_one (before : AblSample) (samples : list AblSample) : option AblWarning :=
  if negb (bool_decide (sstatus before = EfispLoader)) then None
  else
  let now := find_sample (name before) samples in
  if match now with
     | Some now => String.eqb (digest now) (digest before) && negb (String.eqb (digest now) "")
     | None => false
     end then None
  else if match now with
          | Some now => bool_decide (sstatus now = EfispLoader)
          | None => false
          end then None
  else
  let absent := match now with
                | Some now => bool_decide (sstatus now = NoEfispLoader)
                | None => false
                end in
  Some (MkWarning
    (name before ++ lost_text absent ++ newline)
    (name before ++ ":" ++ match now with Some now => digest now | None => "unreadable" end ++
     ":" ++ (if absent then "absent" else "unknown") ++ ";"))%string.
Definition append_warning (w : AblWarning) (o : option AblWarning) : AblWarning :=
  match o with
  | Some v => MkWarning (text w ++ text v) (token w ++ token v)
  | None => w
  end%string.
Definition no_warning : AblWarning := MkWarning "" "".
Definition advice : string :=
  (newline ++ "An installed EFISP mod may no longer boot, and Android may fail to start. "
  ++ "Cancel to restore a compatible vulnerable ABL before leaving recovery, "
  ++ "or explicitly continue if this change was intentional.")%string.
Definition SessionCheck (s : AblSession) (samples : list AblSample) : AblWarning :=
  let w := fold_left (fun w before => append_warning w (check_one before samples))
                     (baseline_ s) no_warning in
  if String.eqb (text w) "" then w else MkWarning (text w ++ advice) (token w).

(** The file-level variables behind guard_mutex. *)
Record Guard := MkGuard {
  session : AblSession;
  baseline_cache : list AblSample;
  acknowledged : string;
  initialized : bool
}.
Definition initial_guard : Guard := MkGuard (MkSession false []) [] "" false.

Definition summary_line (s : AblSample) : string :=
  ("EFISP ABL baseline: " ++ name s ++ ": " ++ AblStatusName (sstatus s) ++ newline)%string.
Definition baseline_summary (samples : list AblSample) : string :=
  let summary := String.concat "" (map summary_line samples) in
  if String.eqb summary "" then "EFISP ABL baseline: no readable ABL partitions found" ++ newline
  else summary.

(** What each entry point does once DiscoverSamples has returned. *)
Definition capture_with (samples : list AblSample) (g : Guard) : string * Guard :=
  (baseline_summary samples,
   MkGuard (Capture (session g) samples) samples (acknowledged g) true).
Definition current_with (samples : list AblSample) (g : Guard) : list AblSample * Guard :=
  (samples, MkGuard (session g) samples (acknowledged g) (initialized g)).
Definition exit_with (current : list AblSample) (g : Guard) : AblWarning * Guard :=
  let warning := SessionCheck (session g) current in
  let g := MkGuard (session g) current (acknowledged g) (initialized g) in
  if negb (String.eqb (token warning) "") && String.eqb (token warning) (acknowledged g)
  then (no_warning, g) else (warning, g).

Section Guard.
Context `{Lzma} `{Sha256}.
Variables (enabled : bool) (os : Os).
Definition after_discovery {A} (cache : list AblSample)
    (k : list AblSample -> Guard -> A * Guard) (g : Guard) : M (option (A * Guard)) :=
  samples ← DiscoverSamples enabled os cache;
  mret ((fun s => k s g) <$> samples).
Definition CaptureAblBaseline (g : Guard) : M (option (string * Guard)) :=
  if negb enabled || initialized g then mret (Some (""%string, g))
  else after_discovery [] capture_with g.
Definition CurrentAblSamples (g : Guard) : M (option (list AblSample * Guard)) :=
  if negb enabled || negb (initialized g) then mret (Some ([], g))
  else after_discovery (baseline_cache g) current_with g.
Definition AblExitWarning (g : Guard) : M (option (AblWarning * Guard)) :=
  if negb enabled || negb (initialized g) then mret (Some (no_warning, g))
  else after_discovery (baseline_cache g) exit_with g.
End Guard.
Definition AcknowledgeAblExit (t : string) (g : Guard) : Guard :=
  MkGuard (session g) (baseline_cache g) t (initialized g).
Definition ClearAblExitAcknowledgement (g : Guard) : Guard :=
  MkGuard (session g) (baseline_cache g) "" (initialized g).

(** ** Memory safety of the parsers *)
Ltac rejected := eexists; split; [reflexivity | intros ? [=]].

Definition elf_ok (capacity : Z) (t : ElfTable) : Prop :=
  (if wide t then 56 else 32) <= stride t <= 256 /\ 1 <= count t <= 128 /\
  0 <= offset (table t) /\ size (table t) = count t * stride t /\
  offset (table t) + size (table t) <= capacity /\
  offset (table t) + size (table t) <= kMaxInput.

Lemma elf_extent_ok header capacity :
  bytes_ok header -> is_u64 capacity ->
  exists r, ElfExtent header capacity = Some r /\ forall t, r = Some t -> elf_ok capacity t.
Proof.
  intros Hb Hc. unfold ElfExtent. unfold_width. branch; [by rejected|].
  do 3 rd_step. branch; [by rejected|].
  unfold elf_ok. destruct (v0 =? 2); do 3 rd_step; (branch; [by rejected|]);
    (eexists; split; [done|]); intros t [= <-]; simpl;
    assert (0 <= v3 * v2 <= 128 * 256) by nia;
    unwrap_all; lia.
Qed.

Lemma program_ok buf p w capacity :
  bytes_ok buf -> 0 <= p -> p + (if w : bool then 56 else 32) <= blen buf -> is_u64 capacity ->
  exists r, Program buf p w capacity = Some r /\
    forall part, r = Some part -> 0 <= offset part /\ 0 <= size part /\
      offset part + size part <= capacity.
Proof.
  intros Hb Hp Hl Hc. unfold Program.
  destruct w; do 2 rd_step; branch; try (by rejected); eexists; (split; [done|]);
    intros part [= <-]; simpl; unfold_width; unwrap_all; lia.
Qed.

Lemma pe_sections_ok n data section extent :
  bytes_ok data -> blen data < 2 ^ 63 -> 0 <= section ->
  section + 40 * Z.of_nat n <= blen data -> 0 <= extent <= blen data ->
  exists r, pe_sections n data section extent = Some r /\ 0 <= r <= blen data.
Proof.
  intros Hb Hlen. revert section extent.
  induction n as [|n IH]; intros section extent Hs Hl He; cbn [pe_sections]; [eauto|].
  do 2 rd_step. branch; [exists 0; split; [done|lia]|].
  unfold_width. unwrap_all. apply IH; lia.
Qed.
Lemma pe_size_ok data :
  bytes_ok data -> blen data < 2 ^ 63 ->
  exists r, PeSize data = Some r /\ 0 <= r <= blen data.
Proof.
  intros Hb Hlen. unfold PeSize. pose proof (blen_nonneg data).
  assert (exists r, Some 0 = Some r /\ 0 <= r <= blen data) by (exists 0; split; [done|lia]).
  branch; [done|]. do 2 rd_step. branch; [done|]. rd_step. branch; [done|].
  unwrap_all. do 2 rd_step. branch; [done|]. do 2 rd_step. branch; [done|].
  unwrap_all.
  do 2 rd_step. branch; [done|]. branch; [done|].
  unwrap_all.
  rd_step. branch; [done|]. apply pe_sections_ok; done || lia.
Qed.

(** ** The scan keeps its evidence

    [P] is the set of buffers the scan may look at. *)
Definition evidence (P : list Z -> Prop) (s : Scan) : Prop :=
  (best s = 0 /\ status s = Unknown) \/
  exists buf i image, P buf /\ 0 < best s /\ bytes_at buf i (best s) = Some image /\
    PeSize (drop (Z.to_nat i) buf) = Some (best s) /\
    status s = if search needle image then EfispLoader else NoEfispLoader.
Record scan_ok (P : list Z -> Prop) (s : Scan) : Prop := MkScanOk {
  scan_best : 0 <= best s;
  scan_total : 0 <= total s <= 64 * 1024 * 1024;
  scan_evidence : evidence P s
}.
Lemma exhaust_ok P s : scan_ok P s -> scan_ok P (exhaust s).
Proof. intros [Hb Ht He]. by split. Qed.
Lemma recount_ok P s n : scan_ok P s -> scan_ok P (MkScan (best s) n (total s) (status s) (exhausted s)).
Proof. intros [Hb Ht He]. by split. Qed.
Lemma new_scan_ok P : scan_ok P new_scan.
Proof. split; simpl; [lia|lia|by left]. Qed.
#[local] Hint Resolve exhaust_ok recount_ok new_scan_ok : aera.

Lemma pe_loop_ok P n i data s :
  bytes_ok data -> blen data < 2 ^ 63 -> P data -> 0 <= i -> i + Z.of_nat n + 63 <= blen data ->
  scan_ok P s -> exists s', pe_loop n i data s = Some s' /\ scan_ok P s'.
Proof.
  intros Hb Hlen HP. revert i s.
  induction n as [|n IH]; intros i s Hi Hl Hs; cbn [pe_loop]; [eauto|].
  do 2 rd_step. branch; [apply IH; [lia..|done]|].
  destruct (pe_size_ok (drop (Z.to_nat i) data)) as (r & E & Hr1);
    [auto with aera|rewrite blen_drop; lia|].
  rewrite blen_drop in Hr1 by lia. rewrite E, (some_bind r). cbv beta.
  branch; [apply IH; [lia..|done]|].
  rewrite bytes_at_Some, some_bind by lia. apply IH; [lia..|].
  destruct Hs as [Hb0 Ht He]. split; simpl; [lia|done|]. right.
  exists data, i. eexists. split; [done|]. split; [simpl; lia|].
  split; [simpl; apply bytes_at_Some; lia|]. done.
Qed.

Section VisitOk.
Context `{LzmaLaws} (P : list Z -> Prop) (visit : list Z -> Scan -> option Scan).
Definition unpack_closed : Prop := forall buf i n compressed props header input limit,
  P buf -> bytes_at buf i n = Some compressed -> bytes_at compressed 0 5 = Some props ->
  bytes_at compressed header (blen compressed - header) = Some input ->
  P (lz_output (LzmaDecode props input limit)).
Definition visit_ok : Prop := forall out s,
  bytes_ok out -> blen out <= kMaxDecoded -> P out -> scan_ok P s ->
  exists s', visit out s = Some s' /\ scan_ok P s'.
Hypotheses (Hclosed : unpack_closed) (Hvisit : visit_ok).

Lemma try_headers_ok headers buf i n compressed s :
  Forall (fun h => h = 13 \/ h = 5) headers -> P buf -> bytes_at buf i n = Some compressed ->
  bytes_ok compressed -> 6 <= blen compressed -> scan_ok P s ->
  exists r, try_headers visit headers compressed s = Some r /\ scan_ok P r.2.
Proof.
  intros Hh Hbuf Hat Hb Hl Hs. induction Hh as [|h headers Hh _ IH]; cbn [try_headers]; [by eauto|].
  branch; [done|].
  assert (exists d, (if h =? 13 then rd64 compressed 5 else Some UINT64_MAX) = Some d /\ 0 <= d)
    as (d & -> & Hd).
  { destruct (Z.eqb_spec h 13); [|exists UINT64_MAX; unfold_width; split; [done|lia]].
    destruct (rd64_Some compressed 5) as [d E]; [lia..|]. exists d. split; [done|].
    pose proof (rd64_range _ _ _ Hb E). lia. }
  rewrite some_bind. branch; [done|].
  destruct (bytes_at compressed 0 5) as [props|] eqn:Ep; [|rewrite bytes_at_Some in Ep; [done|lia..]].
  destruct (bytes_at compressed h (blen compressed - h)) as [input|] eqn:Ei;
    [|rewrite bytes_at_Some in Ei; [done|lia..]].
  rewrite !some_bind. set (limit := if d =? UINT64_MAX then kMaxDecoded else d).
  assert (0 <= limit <= kMaxDecoded).
  { unfold limit. destruct (Z.eqb_spec d UINT64_MAX); [unfold kMaxDecoded; lia|].
    apply andb_false_iff in Hc0 as [Hc0|Hc0]; bool_facts; [done|lia]. }
  branch; [done|].
  pose proof (lzma_limit props input limit).
  destruct (Hvisit (lz_output (LzmaDecode props input limit)) s) as (s' & -> & Hs');
    [apply lzma_bytes|lia|by eapply Hclosed|done|]. rewrite some_bind. by eauto.
Qed.

Lemma guid_section_ok at_ data s :
  bytes_ok data -> blen data < 2 ^ 63 -> P data -> 4 <= at_ -> at_ + 20 <= blen data ->
  scan_ok P s -> exists r, guid_section visit at_ data s = Some r /\ scan_ok P r.2.
Proof.
  intros Hb Hlen HP Hat Hl Hs. unfold guid_section. do 5 rd_step. branch; [eauto with aera|].
  set (size := Z.lor _ _) in *. unfold_width. unwrap_all.
  branch; [simpl; eauto with aera|].
  destruct (bytes_at data (at_ - 4 + v2) (size - v2)) as [compressed|] eqn:Ec;
    [|rewrite bytes_at_Some in Ec; [done|lia..]].
  rewrite some_bind. branch; [eauto with aera|].
  pose proof (bytes_at_length data _ _ _ Ec ltac:(lia)).
  rewrite bytes_at_Some, some_bind by lia.
  destruct (LzmaProps_Decode _) as [dic|]; [|eauto with aera]. branch; [eauto with aera|].
  edestruct (try_headers_ok [13; 5] data) as ([[] s'] & -> & Hs');
    [repeat constructor; lia|done|done|by eapply bytes_at_ok|lia|by apply recount_ok| |];
    rewrite some_bind; simpl in *; eauto with aera.
Qed.
Lemma guid_loop_ok n at_ data s :
  bytes_ok data -> blen data < 2 ^ 63 -> P data -> 4 <= at_ ->
  at_ + Z.of_nat n + 19 <= blen data ->
  scan_ok P s -> exists s', guid_loop visit n at_ data s = Some s' /\ scan_ok P s'.
Proof.
  intros Hb Hlen HP. revert at_ s.
  induction n as [|n IH]; intros at_ s Ha Hl Hs; cbn [guid_loop]; [eauto|].
  rd_step. branch; [apply IH; [lia..|done]|].
  destruct (guid_section_ok at_ data s) as ([[] s'] & -> & Hs'); [done|done|done|lia..|done| |];
    rewrite some_bind; simpl in *; [eauto|]. apply IH; [lia..|done].
Qed.
End VisitOk.

Lemma visit_ok_fuel `{LzmaLaws} P enabled fuel depth data s :
  unpack_closed P -> 6 <= Z.of_nat fuel + depth -> (1 <= fuel)%nat ->
  bytes_ok data -> blen data < 2 ^ 63 -> P data -> scan_ok P s ->
  exists s', Visit enabled fuel data depth s = Some s' /\ scan_ok P s'.
Proof.
  intros Hcl. revert depth data s.
  induction fuel as [|fuel IH]; intros depth data s Hf Hf1 Hb Hlen HP Hs; [lia|].
  cbn [Visit]. branch; [eauto with aera|].
  pose proof (scan_total _ _ Hs). pose proof (blen_nonneg data). unfold_width. unwrap_all.
  assert (scan_ok P (MkScan (best s) (attempts s) (total s + blen data) (status s) (exhausted s)))
    as Hs1 by (destruct Hs; split; simpl; [done|lia|done]).
  match goal with |- context [pe_loop ?n 0 data ?s1] => assert (exists s', pe_loop n 0 data s1 = Some s' /\ scan_ok P s') as (s2 & -> & Hs2) end.
  { destruct (Z.le_gt_cases 64 (blen data)).
    - apply pe_loop_ok; [done..|lia|lia|done].
    - replace (Z.to_nat _) with O by lia. simpl. eauto. }
  rewrite some_bind. branch; [eauto|].
  destruct (Z.le_gt_cases 24 (blen data)).
  - apply guid_loop_ok; [done| |done..|lia|lia|done].
    intros out s' Ho Hlo HPo Hso. unfold kMaxDecoded in Hlo. apply IH; [lia..|done|lia|done|done].
  - replace (Z.to_nat _) with O by lia. simpl. eauto.
Qed.

(** The buffers a scan of [image] may look at: the image, its parts, and
    whatever the decoder unpacks from a part of one of them. *)
Inductive derived `{Lzma} (image : list Z) : list Z -> Prop :=
| derived_image : derived image image
| derived_part i n part : bytes_at image i n = Some part -> derived image part
| derived_unpacked buf i n compressed props header input limit :
    derived image buf -> bytes_at buf i n = Some compressed ->
    bytes_at compressed 0 5 = Some props ->
    bytes_at compressed header (blen compressed - header) = Some input ->
    derived image (lz_output (LzmaDecode props input limit)).
Lemma derived_closed `{Lzma} image : unpack_closed (derived image).
Proof. unfold unpack_closed. intros. by eapply derived_unpacked. Qed.

Lemma inspect_programs_ok `{LzmaLaws} enabled n header t image s :
  bytes_ok image -> 64 <= blen image <= kMaxInput -> elf_ok (blen image) t -> 0 <= header ->
  header + Z.of_nat n * stride t <= blen image -> scan_ok (derived image) s ->
  exists r, inspect_programs enabled n header t image s = Some r /\
    forall s', r = Some s' -> scan_ok (derived image) s'.
Proof.
  intros Hb Hl Ht. revert header s. unfold kMaxInput in Hl. destruct Ht as (Hst & _).
  induction n as [|n IH]; intros header s Hh Hn Hs; cbn [inspect_programs].
  { eexists. split; [done|]. by intros s' [= <-]. }
  assert (32 <= stride t) by (destruct (wide t); lia).
  destruct (program_ok image header (wide t) (blen image)) as (part & -> & Hp);
    [done|lia|nia|unfold_width; lia|]. rewrite some_bind.
  destruct part as [part|]; [|by rejected]. destruct (Hp _ eq_refl) as (? & ? & ?).
  rd_step. destruct ((v =? 1) && _); [|rewrite some_bind; apply IH; [lia|nia|done]].
  destruct (bytes_at image (offset part) (size part)) as [bs|] eqn:Ebs;
    [|rewrite bytes_at_Some in Ebs; [done|lia..]].
  pose proof (bytes_at_length _ _ _ _ Ebs ltac:(lia)).
  rewrite some_bind. edestruct (visit_ok_fuel (derived image) enabled visit_fuel 0 bs s)
    as (s' & -> & Hs'); [apply derived_closed|unfold visit_fuel; lia..|by eapply bytes_at_ok|
    lia|by eapply derived_part|done|]. rewrite some_bind. apply IH; [lia|nia|done].
Qed.

(** A scan's verdict is never better than its evidence. *)
Lemma verdict_evidence P s : scan_ok P s -> verdict s ≠ Unknown ->
  exists buf i image, P buf /\ 0 < blen image /\ bytes_at buf i (blen image) = Some image /\
    PeSize (drop (Z.to_nat i) buf) = Some (blen image) /\
    verdict s = if search needle image then EfispLoader else NoEfispLoader.
Proof.
  intros [Hb _ He]. unfold verdict. destruct (exhausted s); [done|].
  destruct He as [[_ ->]|(buf & i & image & HP & Hpos & Hat & Hpe & ->)]; [done|]. intros _.
  exists buf, i, image. rewrite (bytes_at_length _ _ _ _ Hat ltac:(lia)). done.
Qed.

Lemma inspect_abl_ok `{LzmaLaws} enabled image :
  bytes_ok image ->
  exists st, InspectAbl enabled image = Some st /\
    (st ≠ Unknown -> exists buf i pe, derived image buf /\ 0 < blen pe /\
       bytes_at buf i (blen pe) = Some pe /\ PeSize (drop (Z.to_nat i) buf) = Some (blen pe) /\
       st = if search needle pe then EfispLoader else NoEfispLoader).
Proof.
  intros Hb. unfold InspectAbl. branch; [by eexists|].
  destruct (elf_extent_ok image (blen image)) as (r & -> & Ht);
    [done|unfold_width; unfold kMaxInput in *; lia|]. rewrite some_bind.
  destruct r as [t|].
  - specialize (Ht t eq_refl). branch; [by eexists|].
    pose proof Ht as (? & ? & ? & Hsz & ? & ?). unfold kMaxInput in *.
    edestruct (inspect_programs_ok enabled (Z.to_nat (count t)) (offset (table t)) t image new_scan)
      as (s & -> & Hs); [done|unfold kMaxInput; lia|done|lia|nia|apply new_scan_ok|].
    rewrite some_bind. eexists. split; [done|]. destruct s as [s|]; [|done].
    by apply verdict_evidence, Hs.
  - do 2 rd_step. branch; [|by eexists].
    edestruct (visit_ok_fuel (derived image) enabled visit_fuel 0 image new_scan)
      as (s & -> & Hs); [apply derived_closed|unfold visit_fuel; lia..|done|
      unfold kMaxInput in *; lia|apply derived_image|apply new_scan_ok|].
    rewrite some_bind. eexists. split; [done|]. by apply verdict_evidence.
Qed.

(** ** The exit guard *)

(** What became of a sample that had the loader at boot. *)
Inductive Fate := Intact | Unreadable | Changed (dg : string) (absent : bool).
Definition fate (before : AblSample) (samples : list AblSample) : Fate :=
  if negb (bool_decide (sstatus before = EfispLoader)) then Intact
  else match find_sample (name before) samples with
  | None => Unreadable
  | Some now =>
      if String.eqb (digest now) (digest before) && negb (String.eqb (digest now) "") then Intact
      else match sstatus now with
           | EfispLoader => Intact
           | NoEfispLoader => Changed (digest now) true
           | Unknown => Changed (digest now) false
           end
  end.
(** The piece of the token for one fate. *)
Definition piece (nm : string) (f : Fate) : string :=
  match f with
  | Intact => ""
  | Unreadable => nm ++ String ":" ("unreadable" ++ String ":" ("unknown" ++ String ";" ""))
  | Changed dg absent =>
      nm ++ String ":" (dg ++ String ":" ((if absent then "absent" else "unknown") ++ String ";" ""))
  end%string.
Definition pieces (baseline samples : list AblSample) : string :=
  foldr (fun b acc => (piece (name b) (fate b samples) ++ acc)%string) "" baseline.

Lemma check_one_fate b samples :
  match check_one b samples with
  | None => fate b samples = Intact
  | Some w => fate b samples ≠ Intact /\ text w ≠ "" /\ token w = piece (name b) (fate b samples)
  end.
Proof.
  unfold check_one, fate. destruct (negb _); [done|].
  destruct (find_sample _ _) as [now|]; simpl; [|by destruct (name b)].
  destruct (_ && _); [done|]. destruct (sstatus now); simpl; try done;
    (split; [done|]); (split; [by destruct (name b)|]); done.
Qed.
Lemma app_empty (s t : string) : (s ++ t)%string = "" <-> s = ""%string /\ t = ""%string.
Proof. split; [destruct s; [done|by intros [=]]|by intros [-> ->]]. Qed.
Lemma piece_empty nm f : piece nm f = ""%string <-> f = Intact.
Proof.
  split; [|by intros ->]. destruct f as [| |dg a]; [done|..]; by intros [_ [=]]%app_empty.
Qed.
Lemma pieces_empty baseline samples :
  pieces baseline samples = ""%string <-> Forall (fun b => fate b samples = Intact) baseline.
Proof.
  induction baseline as [|b baseline IH]; [done|]. simpl.
  by rewrite app_empty, piece_empty, IH, Forall_cons.
Qed.

Lemma fold_warnings samples baseline w :
  let r := fold_left (fun w b => append_warning w (check_one b samples)) baseline w in
  token r = (token w ++ pieces baseline samples)%string /\
  (text r = ""%string <-> text w = ""%string /\ Forall (fun b => fate b samples = Intact) baseline).
Proof.
  revert w. induction baseline as [|b baseline IH]; intros w; cbn zeta.
  - simpl. rewrite string_app_nil_r. split; [done|]. split; [done|tauto].
  - cbn [fold_left]. destruct (IH (append_warning w (check_one b samples))) as [-> Ht].
    rewrite Ht, Forall_cons. simpl pieces. pose proof (check_one_fate b samples) as Hf.
    destruct (check_one b samples) as [v|]; simpl.
    + destruct Hf as (Hi & Htv & ->). rewrite string_app_assoc, app_empty. split; [done|tauto].
    + rewrite Hf. simpl. split; [done|tauto].
Qed.
Lemma session_check_spec s samples :
  let intact := Forall (fun b => fate b samples = Intact) (baseline_ s) in
  token (SessionCheck s samples) = pieces (baseline_ s) samples /\
  (SessionCheck s samples = no_warning <-> intact) /\
  (text (SessionCheck s samples) = ""%string <-> intact).
Proof.
  cbn zeta. unfold SessionCheck.
  destruct (fold_warnings samples (baseline_ s) no_warning) as [Hk Ht].
  rewrite (left_id_L _ _) in Hk || simpl in Hk.
  set (w := fold_left _ _ _) in *. destruct (String.eqb_spec (text w) "") as [E|E].
  - assert (Forall (fun b => fate b samples = Intact) (baseline_ s)) as Hi by by apply Ht.
    split; [done|]. split; [|done]. split; [done|]. intros _.
    apply pieces_empty in Hi. rewrite Hi in Hk. destruct w as [wt wk].
    simpl in E, Hk. subst wt wk. done.
  - assert (~ Forall (fun b => fate b samples = Intact) (baseline_ s)) as Hi
      by (intros Hi; apply E, Ht; done).
    simpl. split; [done|]. split; (split; [|done]).
    + by intros [= [? _]%app_empty _].
    + by intros [? _]%app_empty.
Qed.

(** Acknowledging cannot hide another state: with distinct names free of
    the separator and hexadecimal digests, a token determines the fates. *)
Definition is_hex (s : string) : bool := no_char ":" s && no_char "u" s.
Definition samples_ok (samples : list AblSample) : Prop :=
  Forall (fun s => is_hex (digest s) = true) samples.
Definition fate_ok (f : Fate) : Prop :=
  match f with Changed dg _ => is_hex dg = true | _ => True end.
Lemma fate_hex b samples : samples_ok samples -> fate_ok (fate b samples).
Proof.
  intros Hs. unfold fate. destruct (negb _); [done|]. unfold find_sample.
  destruct (list_find _ samples) as [[i now]|] eqn:E; [|done]. simpl.
  apply list_find_Some in E as (E & _). unfold samples_ok in Hs. rewrite Forall_lookup in Hs.
  specialize (Hs _ _ E). destruct (_ && _); [done|]. by destruct (sstatus now).
Qed.

(** A non-empty piece is the name, the separator, and a rest. *)
Definition piece_rest (f : Fate) : string :=
  match f with
  | Intact => ""
  | Unreadable => "unreadable" ++ String ":" ("unknown" ++ String ";" "")
  | Changed dg a => dg ++ String ":" ((if a then "absent" else "unknown") ++ String ";" "")
  end%string.
Lemma piece_shape nm f acc : f ≠ Intact ->
  (piece nm f ++ acc = nm ++ String ":" (piece_rest f ++ acc))%string.
Proof. destruct f; [done|..]; intros _; simpl; by rewrite <- string_app_assoc. Qed.
Definition view (f : Fate) : string * bool :=
  match f with
  | Intact => ("", false) | Unreadable => ("unreadable", false) | Changed dg a => (dg, a)
  end%string.
Definition word (a : bool) : string := if a then "absent" else "unknown".
Lemma piece_rest_view f acc : f ≠ Intact ->
  (piece_rest f ++ acc = (view f).1 ++ String ":" (word (view f).2 ++ String ";" acc))%string.
Proof.
  destruct f as [| |dg a]; [done|done|]. intros _. simpl. rewrite <- string_app_assoc.
  by destruct a.
Qed.
Lemma piece_rest_inj f f' acc acc' :
  f ≠ Intact -> f' ≠ Intact -> fate_ok f -> fate_ok f' ->
  (piece_rest f ++ acc = piece_rest f' ++ acc')%string -> f = f' /\ acc = acc'.
Proof.
  intros Hn Hn' Hf Hf' E. rewrite !piece_rest_view in E by done.
  assert (forall f, fate_ok f -> no_char ":" (view f).1 = true) as Hcolon.
  { intros [| |dg a]; [done|done|]. simpl. unfold is_hex. by intros [? _]%andb_true_iff. }
  apply split_first_char in E as [Ed E]; [|by apply Hcolon..].
  apply split_first_char in E as [Ea ->]; [|by destruct (view f).2|by destruct (view f').2].
  split; [|done].
  destruct f as [| |dg a], f' as [| |dg' a']; simpl in *; try done; try (subst; done).
  subst dg'. f_equal. by destruct a, a'.
Qed.

Lemma pieces_head baseline samples nm :
  Forall (fun b => no_char ":" (name b) = true) baseline -> no_char ":" nm = true ->
  nm ∉ map name baseline -> forall u, pieces baseline samples ≠ (nm ++ String ":" u)%string.
Proof.
  intros Hb Hnm. induction Hb as [|b baseline Hnb _ IH]; intros Hnotin u E; simpl in *.
  - symmetry in E. by apply app_empty in E as [_ [=]].
  - apply not_elem_of_cons in Hnotin as [Hne Hnotin].
    destruct (fate b samples) as [| |dg a] eqn:Hf; [by eapply IH|..];
      rewrite piece_shape in E by done; by apply split_first_char in E as [Heq _]; [congruence|..].
Qed.
Lemma pieces_inj baseline s1 s2 :
  NoDup (map name baseline) -> Forall (fun b => no_char ":" (name b) = true) baseline ->
  samples_ok s1 -> samples_ok s2 -> pieces baseline s1 = pieces baseline s2 ->
  Forall (fun b => fate b s1 = fate b s2) baseline.
Proof.
  intros Hnd Hb H1 H2. induction Hb as [|b baseline Hnb Hb IH]; intros E; [done|].
  simpl in Hnd, E. apply NoDup_cons in Hnd as [Hnotin Hnd].
  pose proof (fate_hex b s1 H1) as Hf1. pose proof (fate_hex b s2 H2) as Hf2.
  assert (forall f, {f = Intact} + {f ≠ Intact}) as dec by (intros []; [left|right|right]; done).
  destruct (dec (fate b s1)) as [E1|E1], (dec (fate b s2)) as [E2|E2].
  - constructor; [congruence|]. rewrite E1, E2 in E. by apply IH.
  - rewrite E1, (piece_shape _ _ _ E2) in E. simpl in E. by apply pieces_head in E.
  - rewrite E2, (piece_shape _ _ _ E1) in E. symmetry in E. simpl in E. by apply pieces_head in E.
  - rewrite !piece_shape in E by done. apply string_app_inj_l in E. injection E as E.
    apply piece_rest_inj in E as [E Er]; [|done..].
    constructor; [done|]. by apply IH.
Qed.

(** The steps of the guard: what the user interface may call, in any order
    and on any partition contents. *)
Inductive guard_step : Guard -> Guard -> Prop :=
| step_capture g samples : initialized g = false -> guard_step g (capture_with samples g).2
| step_current g samples : initialized g = true -> guard_step g (current_with samples g).2
| step_exit g samples : initialized g = true -> guard_step g (exit_with samples g).2
| step_acknowledge g t : guard_step g (AcknowledgeAblExit t g)
| step_clear g : guard_step g (ClearAblExitAcknowledgement g).
Lemma exit_session samples g : session (exit_with samples g).2 = session g /\
  initialized (exit_with samples g).2 = initialized g /\
  acknowledged (exit_with samples g).2 = acknowledged g.
Proof. unfold exit_with. cbn zeta. by destruct (_ && _). Qed.
Lemma guard_step_session g g' : guard_step g g' -> initialized g = true ->
  session g' = session g /\ initialized g' = true.
Proof.
  intros [h s Hi|h s Hi|h s Hi|h t|h] Hg; try done; [congruence|].
  destruct (exit_session s h) as (-> & -> & _). done.
Qed.
Lemma guard_steps_session g g' : rtc guard_step g g' -> initialized g = true ->
  session g' = session g /\ initialized g' = true.
Proof.
  induction 1 as [|g1 g2 g3 Hst _ IH]; intros Hg; [done|].
  destruct (guard_step_session _ _ Hst Hg) as [<- Hg2]. by apply IH.
Qed.
Lemma exit_silent current g :
  (exit_with current g).1 = no_warning <->
  Forall (fun b => fate b current = Intact) (baseline_ (session g)) \/
  (acknowledged g ≠ "" /\ pieces (baseline_ (session g)) current = acknowledged g).
Proof.
  destruct (session_check_spec (session g) current) as (Hk & Hn & _).
  unfold exit_with. cbn zeta. simpl acknowledged. rewrite Hk.
  destruct (String.eqb_spec (pieces (baseline_ (session g)) current) "") as [E|E]; simpl.
  - apply pieces_empty in E. rewrite Hn. tauto.
  - destruct (String.eqb_spec (pieces (baseline_ (session g)) current) (acknowledged g)) as [E'|E'];
      simpl.
    + split; [|done]. intros _. right. by rewrite <- E'.
    + rewrite Hn. split; [by left|]. intros [?|[_ ?]]; done.
Qed.

(** Whatever happens after the boot baseline was captured with
    [samples], the exit warning is silent exactly when every partition that
    had the loader at boot is intact (same digest, or still a loader) or the
    user acknowledged exactly the present token; later captures, refreshes
    and acknowledgements never move the baseline. *)
Theorem abl_exit_guard samples g current :
  rtc guard_step (capture_with samples initial_guard).2 g ->
  ((exit_with current g).1 = no_warning <->
   Forall (fun b => fate b current = Intact) samples \/
   (acknowledged g ≠ "" /\ token (SessionCheck (session g) current) = acknowledged g)).
Proof.
  intros Hr. destruct (guard_steps_session _ _ Hr eq_refl) as [Es _].
  destruct (session_check_spec (session g) current) as (-> & _).
  rewrite exit_silent, Es. done.
Qed.

(** An acknowledgement covers only the state it was given for: after
    acknowledging the warning for the samples [s1], a later exit with samples
    [s2] is silent only if every boot-time loader is intact or each of them
    met exactly the fate (unreadable, or this digest, absent or unknown) the
    user accepted. *)
Theorem abl_acknowledge_exact g s1 s2 :
  NoDup (map name (baseline_ (session g))) ->
  Forall (fun b => no_char ":" (name b) = true) (baseline_ (session g)) ->
  samples_ok s1 -> samples_ok s2 ->
  (exit_with s2 (AcknowledgeAblExit (token (SessionCheck (session g) s1)) g)).1 = no_warning ->
  Forall (fun b => fate b s2 = Intact) (baseline_ (session g)) \/
  Forall (fun b => fate b s1 = fate b s2) (baseline_ (session g)).
Proof.
  intros Hnd Hb H1 H2 [Hi|[_ E]]%exit_silent; [by left|right]. simpl in *.
  destruct (session_check_spec (session g) s1) as (Hk & _). rewrite Hk in E.
  by apply pieces_inj.
Qed.

(** ** Reading a partition *)
Lemma programs_extent_ok n header t bytes capacity extent :
  bytes_ok bytes -> is_u64 capacity -> elf_ok capacity t -> 0 <= header ->
  header + Z.of_nat n * stride t <= blen bytes -> 0 <= extent ->
  exists r, programs_extent n header t bytes capacity extent = Some r /\
    forall e, r = Some e -> 0 <= e.
Proof.
  intros Hb Hc Ht. revert header extent. destruct Ht as (Hst & _).
  induction n as [|n IH]; intros header extent Hh Hn He; cbn [programs_extent].
  { eexists. split; [done|]. by intros e [= <-]. }
  assert (32 <= stride t) by (destruct (wide t); lia).
  destruct (program_ok bytes header (wide t) capacity) as (part & -> & Hp); [done|done|nia|done|].
  rewrite some_bind. destruct part as [part|]; [|by rejected].
  destruct (Hp _ eq_refl) as (? & ? & ?). apply IH; [lia|nia|]. destruct (size part =? 0); lia.
Qed.
Lemma abl_extent_ok fd capacity w r w' :
  bytes_ok (content w fd) -> abl_extent fd capacity w = Some (r, w') ->
  files w' = files w /\ exists e, r = Some e /\ forall x, e = Some x -> 0 <= x.
Proof.
  intros Hb. unfold abl_extent. destruct (_ || _) eqn:Hc.
  { intros [= <- <-]. split; [done|]. by rejected. }
  bool_facts. unfold kMaxInput in *. intros (head & w1 & H1 & H2)%mbind_Some.
  apply read_exactly_sound in H1 as [Ef Hhead]; [|lia..].
  destruct head as [head|]; [|injection H2 as <- <-; split; [done|by rejected]].
  destruct (Hhead _ eq_refl) as [-> _].
  edestruct (elf_extent_ok (slice 0 64 (content w fd)) capacity) as (r0 & E & Ht);
    [auto with aera|unfold_width; lia|]. rewrite E in H2.
  destruct r0 as [t|].
  2: { injection H2 as <- <-. split; [done|]. eexists. split; [done|]. intros x [= <-]. lia. }
  specialize (Ht _ eq_refl). pose proof Ht as (? & ? & ? & Hsz & ? & ?).
  apply mbind_Some in H2 as (bs & w2 & H2 & Hm3). injection Hm3 as <- <-.
  apply read_exactly_sound in H2 as [Ef2 Hbs]; [|lia..].
  split; [congruence|]. destruct bs as [bs|]; [|by rejected].
  destruct (Hbs _ eq_refl) as [Ebs Hl].
  apply programs_extent_ok; [|unfold_width; lia|done|lia|nia|lia].
  rewrite Ebs, (content_files w w1 fd Ef). auto with aera.
Qed.

Section ReadSound.
Context `{LzmaLaws} `{Sha256}.
(** ReadAbl is memory safe on any device contents, never changes a byte,
    and a sample with a digest describes what it read: the digest is the
    hash of the first [extent] bytes of the opened partition, at most 32 MiB,
    and the status is the inspection of those same bytes or the cached
    verdict for that name and digest. *)
Theorem read_abl_sound enabled os p nm cache w r w' :
  (forall fd, bytes_ok (content w fd)) ->
  ReadAbl enabled os p nm cache w = Some (r, w') ->
  files w' = files w /\ exists sample, r = Some sample /\ name sample = nm /\
    (digest sample ≠ ""%string ->
     exists fd node extent, os_open os p = Some (fd, node) /\ 0 <= extent <= kMaxInput /\
       let bytes := slice 0 extent (content w fd) in
       blen bytes = extent /\ digest sample = Hash bytes /\
       (InspectAbl enabled bytes = Some (sstatus sample) \/
        cached cache nm (Hash bytes) = Some (sstatus sample))).
Proof.
  intros Hb. unfold ReadAbl.
  destruct (os_open os p) as [[fd node]|]; [|intros [= <- <-]; split; [done|by eexists]].
  destruct (abl_capacity node) as [cap|]; [|intros [= <- <-]; split; [done|by eexists]].
  intros (e & w1 & Hm1 & Hm2)%mbind_Some. apply abl_extent_ok in Hm1 as (Ef & e' & -> & He); [|done].
  destruct e' as [x|]; [|injection Hm2 as <- <-; split; [done|by eexists]].
  specialize (He _ eq_refl). unfold classify in Hm2.
  destruct (Z.ltb_spec kMaxInput x); [injection Hm2 as <- <-; split; [done|by eexists]|].
  apply mbind_Some in Hm2 as (bs & w2 & Hm2 & Hm3).
  apply read_exactly_sound in Hm2 as [Ef2 Hbs]; [|lia..].
  rewrite (content_files w w1 fd Ef) in Hbs.
  destruct bs as [bs|]; [|injection Hm3 as <- <-; split; [congruence|by eexists]].
  destruct (Hbs _ eq_refl) as [-> Hl]. injection Hm3 as <- <-. split; [congruence|].
  assert (0 <= x <= kMaxInput) by lia.
  destruct (cached cache nm _) as [st|] eqn:Ec.
  { eexists. split; [done|]. split; [done|]. intros _. exists fd, node, x. cbn zeta. split_and!; (done || lia || auto). }
  destruct (inspect_abl_ok enabled (slice 0 x (content w fd))) as (st & E & _);
    [auto with aera|]. rewrite E. eexists. split; [done|]. split; [done|]. intros _.
  exists fd, node, x. cbn zeta. split_and!; (done || lia || auto).
Qed.
End ReadSound.

Section InspectSound.
Context `{LzmaLaws}.
(** C6: InspectAbl is memory safe and terminates on every byte string, and a
    definite verdict is always backed by an ARM64 EFI application found in
    the image, one of its segments or data unpacked from them: it reports
    the loader present exactly when that application holds the UTF-16
    partition name. *)
Theorem inspect_abl_sound enabled image :
  bytes_ok image ->
  exists st, InspectAbl enabled image = Some st /\
    (st ≠ Unknown -> exists buf i pe, derived image buf /\ 0 < blen pe /\
       bytes_at buf i (blen pe) = Some pe /\ PeSize (drop (Z.to_nat i) buf) = Some (blen pe) /\
       st = if search needle pe then EfispLoader else NoEfispLoader).
Proof. apply inspect_abl_ok. Qed.
End InspectSound.

(** ** Concrete runs

    A decoder for stored data and a checksum stand in for the libraries. *)
#[local] Instance stored_lzma : Lzma := {
  LzmaProps_Decode props := Some 4096;
  LzmaDecode props input limit :=
    MkLzmaResult true (take (Z.to_nat limit) (map u8 input)) FinishedWithMark
}.
#[local] Instance stored_lzma_laws : LzmaLaws stored_lzma.
Proof.
  split; intros props input limit; simpl.
  - intros Hl. unfold blen. rewrite length_take. lia.
  - apply Forall_take, Forall_map, Forall_true. intros x. apply Z.mod_pos_bound. lia.
Qed.
#[local] Instance demo_sha : Sha256 := { SHA256 bytes := [u8 (foldr Z.add 0 bytes)] }.

(** An EFI application of 252 bytes that ends with the partition name. *)
Definition demo_abl : list Z :=
  [77; 90] ++ replicate 58 0 ++ [64; 0; 0; 0] ++
  [80; 69; 0; 0; 100; 170; 1; 0] ++ replicate 12 0 ++ [112; 0; 0; 0] ++
  [11; 2] ++ replicate 58 0 ++ [252; 0; 0; 0] ++ replicate 4 0 ++ [10; 0] ++ replicate 42 0 ++
  replicate 40 0 ++ needle.
Lemma demo_abl_bytes : bytes_ok demo_abl.
Proof. unfold bytes_ok. apply (bool_decide_unpack (Forall _ _)). vm_compute. exact I. Qed.

Lemma inspect_abl_sound_witness :
  InspectAbl true demo_abl = Some EfispLoader /\
  exists buf i pe, derived demo_abl buf /\ bytes_at buf i (blen pe) = Some pe /\
    search needle pe = true.
Proof.
  assert (E : InspectAbl true demo_abl = Some EfispLoader) by (vm_compute; reflexivity).
  split; [exact E|].
  destruct (inspect_abl_sound true demo_abl demo_abl_bytes) as (st & E' & H).
  rewrite E in E'. injection E' as <-.
  destruct H as (buf & i & pe & Hd & _ & Hat & _ & Hs); [discriminate|].
  exists buf, i, pe. split; [exact Hd|]. split; [exact Hat|].
  destruct (search needle pe); [reflexivity|discriminate Hs].
Defined.

Definition demo_abl_os : Os := MkOs (fun p => Some p)
  (fun p => Some (3, MkNode (Some (MkStat true false 259 0)) (Some 252)))
  (fun p => None) (fun _ => true) (fun _ => true).
Definition demo_abl_world : World :=
  MkWorld (replicate 4 (Upto 300)) [] {[3 := demo_abl]}.
Lemma read_abl_sound_witness :
  exists r w', ReadAbl true demo_abl_os "/dev/block/sda4" "abl" [] demo_abl_world = Some (r, w') /\
    files w' = files demo_abl_world.
Proof.
  destruct (ReadAbl true demo_abl_os "/dev/block/sda4" "abl" [] demo_abl_world) as [[r w']|] eqn:E;
    [|vm_compute in E; discriminate E].
  exists r, w'. split; [reflexivity|].
  apply (read_abl_sound true demo_abl_os "/dev/block/sda4" "abl" [] demo_abl_world r w'); [|exact E].
  intros fd. unfold content, demo_abl_world. simpl.
  destruct (decide (fd = 3)) as [->|Hne].
  - rewrite lookup_singleton_eq. exact demo_abl_bytes.
  - rewrite lookup_singleton_ne by (intros Heq; apply Hne; symmetry; exact Heq). apply Forall_nil. exact I.
Defined.

Definition demo_boot : list AblSample := [MkSample "abl_a" "0a" EfispLoader; MkSample "abl_b" "0b" Unknown].
Definition demo_now : list AblSample := [MkSample "abl_a" "0c" NoEfispLoader].
Definition demo_guard : Guard := (capture_with demo_boot initial_guard).2.

Lemma abl_exit_guard_witness : (exit_with demo_now demo_guard).1 ≠ no_warning.
Proof.
  intros E. apply (abl_exit_guard demo_boot demo_guard demo_now) in E; [|apply rtc_refl].
  destruct E as [E|[E _]]; [|apply E; reflexivity].
  apply Forall_cons in E as [E _]. vm_compute in E. discriminate E.
Defined.

Lemma abl_acknowledge_exact_witness :
  (exit_with demo_now (AcknowledgeAblExit (token (SessionCheck (session demo_guard) demo_now)) demo_guard)).1
    = no_warning /\
  Forall (fun b => fate b demo_now = fate b demo_now) demo_boot.
Proof.
  assert (E : (exit_with demo_now (AcknowledgeAblExit (token (SessionCheck (session demo_guard) demo_now))
    demo_guard)).1 = no_warning) by (vm_compute; reflexivity).
  split; [exact E|].
  destruct (abl_acknowledge_exact demo_guard demo_now demo_now) as [H|H]; [| | | |exact E| |exact H].
  - apply (bool_decide_unpack (NoDup _)). vm_compute. exact I.
  - repeat constructor.
  - repeat constructor.
  - repeat constructor.
  - apply Forall_cons in H as [H _]. vm_compute in H. discriminate H.
Defined.
