(* ===== verification/PayloadArb.v ===== *)
(** aeraui/features/update/payload_arb.cpp: the anti-rollback index carried
    by Qualcomm firmware, in the package and on the device, and the policy
    that compares them.

    The bzip2, zstd and xz decoders and SHA-256 are other projects' code,
    taken from [Decoders] and [Sha256]; the protobuf manifest is the record
    of the fields the code reads. *)
From stdpp Require Import base list strings gmap.
From Stdlib Require Import ZArith Lia.
From S2P Require Import Prelude Kernel RawDevice Abl.

(** ** Decoders *)
Inductive XzRet := XzOk | XzStreamEnd | XzError.
Class Decoders := {
  bz2 : list Z -> Z -> option (list Z);           (* input, room: the output when BZ_OK *)
  zstd : list Z -> Z -> bool * list Z;            (* success, bytes handed to the sink *)
  xz_state : Type;
  xz_init : option xz_state;
  (* input left, room left: result, bytes consumed, bytes produced *)
  xz_run : xz_state -> list Z -> Z -> XzRet * Z * list Z * xz_state
}.
(** Each decoder stays inside the buffers it is given and produces bytes. *)
Class DecodersLaws `(D : Decoders) : Prop := {
  bz2_room input room out : 0 <= room -> bz2 input room = Some out -> blen out <= room /\ bytes_ok out;
  zstd_room input room : 0 <= room ->
    blen (zstd input room).2 <= room /\ bytes_ok (zstd input room).2;
  xz_bounds st input room r consumed produced st' :
    0 <= room -> xz_run st input room = (r, consumed, produced, st') ->
    0 <= consumed <= blen input /\ blen produced <= room /\ bytes_ok produced
}.

(** ** Data *)
Record Arb := MkArb { available : bool; index : Z; detail : string }.
Record DeviceArb := MkDeviceArb { slot_a : Arb; slot_b : Arb }.
Inductive ArbDecision := NotApplicable | Undecided | Same | Upgrade | Downgrade.
#[global] Instance ArbDecision_eq_dec : EqDecision ArbDecision.
Proof. solve_decision. Defined.

(** The manifest fields the payload code reads. *)
Record Extent := MkExtent { start_block : Z; num_blocks : Z }.
Record Operation := MkOperation {
  op_type : Z; data_offset : Z; data_length : Z;
  data_sha256_hash : option (list Z); dst_extents : list Extent;
  src_extents_size : Z; has_src_sha256_hash : bool }.
Record PartitionUpdate := MkPartition {
  partition_name : string; new_size : Z; new_hash : list Z; operations : list Operation;
  has_old_partition_info : bool }.
(** dynamic_partition_metadata: groups_size, snapshot_enabled, vabc_enabled. *)
Record ManifestDetails := MkDetails {
  minor_version : Z; partial_update : bool; manifest_timestamp : Z; manifest_patch_level : string;
  dynamic_metadata : option (Z * bool * bool) }.
Record Manifest := MkManifest {
  block_size : Z; partitions : list PartitionUpdate; details : ManifestDetails }.

Definition kLimit : Z := 16 * 1024 * 1024.

(** ** Policy *)
Definition CompareArb (includes_firmware : bool) (package : Arb) (device : DeviceArb) : ArbDecision :=
  if negb includes_firmware then NotApplicable
  else if negb (available package) then Undecided
  else if (available (slot_a device) && (index package <? index (slot_a device))) ||
          (available (slot_b device) && (index package <? index (slot_b device))) then Downgrade
  else if negb (available (slot_a device)) || negb (available (slot_b device)) then Undecided
  else if (index (slot_a device) <? index package) || (index (slot_b device) <? index package)
  then Upgrade
  else Same.
Definition ArbAllowsInstall (decision : ArbDecision) (upgrade_acknowledged : bool) : bool :=
  match decision with
  | NotApplicable | Undecided | Same => true
  | Upgrade => upgrade_acknowledged
  | Downgrade => false
  end.

(** ** The OEM metadata of an xbl_config image *)
Definition unsupported : Arb := MkArb false 0 "Unsupported Qualcomm OEM metadata".
Definition conflicting : Arb := MkArb false 0 "Conflicting OEM indices in xbl_config".

(** What one candidate header at [h] says, with [room] bytes after it. *)
Definition oem_header (image : list Z) (h room : Z) : option (option Z) :=
  version ← rd32 image h; common ← rd32 image (h + 4); qti ← rd32 image (h + 8);
  oem ← rd32 image (h + 12); hashes ← rd32 image (h + 16);
  if (version <? 1) || (10 <? version) || (4096 <? common) || (4096 <? qti) ||
     (oem <? 12) || (16384 <? oem) || (hashes =? 0) || negb (hashes mod 16 =? 0) ||
     (room <? 36 + common + qti + oem) ||
     (u64 (room - (36 + common + qti + oem)) <? hashes) then Some None
  else
  let md := h + 36 + common + qti in
  major ← rd32 image md; minor ← rd32 image (md + 4); arb ← rd32 image (md + 8);
  if (1000 <=? major) || (1000 <=? minor) || (128 <=? arb) then Some None
  else Some (Some arb).
(** The inner loop: the first header that parses, every four bytes. *)
Fixpoint oem_scan (n : nat) (image : list Z) (segment size j : Z) : option (option Z) :=
  match n with
  | O => Some None
  | S n =>
      if negb (j <? Z.min 4096 size) || (size - j <? 36) then Some None
      else
      r ← oem_header image (segment + j) (size - j);
      match r with
      | Some arb => Some (Some arb)
      | None => oem_scan n image segment size (j + 4)
      end
  end.
Definition oem_fuel : nat := 1024.
Fixpoint firmware_programs (n : nat) (image : list Z) (ph stride : Z) (result : Arb) : option Arb :=
  match n with
  | O => Some result
  | S n =>
      type ← rd32 image ph; flags ← rd32 image (ph + 4);
      offset ← rd64 image (ph + 8); size ← rd64 image (ph + 32);
      if negb (type =? 0) || negb (Z.land flags 1 =? 0) || (blen image <? offset) ||
         (u64 (blen image - offset) <? size) || (size <? 36)
      then firmware_programs n image (ph + stride) stride result
      else
      found ← oem_scan oem_fuel image offset size 0;
      match found with
      | None => firmware_programs n image (ph + stride) stride result
      | Some arb =>
          if available result && negb (index result =? arb) then Some conflicting
          else firmware_programs n image (ph + stride) stride
                 (MkArb true arb "Qualcomm OEM metadata in xbl_config; package value only")
      end
  end.
Definition ReadFirmwareArb (image : list Z) : option Arb :=
  if blen image <? 64 then Some unsupported
  else
  magic ← bytes_eq image 0 [127; 69; 76; 70];
  class ← rd8 image 4; data ← rd8 image 5;
  if negb magic || negb (class =? 2) || negb (data =? 1) then Some unsupported
  else
  table ← rd64 image 32; stride ← rd16 image 54; count ← rd16 image 56;
  if (stride <? 56) || (count =? 0) || (65536 <? count * stride) || (blen image <? table) ||
     (u64 (blen image - table) <? count * stride) then Some unsupported
  else firmware_programs (Z.to_nat count) image table stride unsupported.

(** ** Rebuilding xbl_config from the payload *)
(** A value, an early return with its message, or an access out of bounds. *)
Inductive Outcome (A : Type) := Done (a : A) | Refused (why : string) | Fault.
Arguments Done {A} a.
Arguments Refused {A} why.
Arguments Fault {A}.

Section Inspect.
Context `{Decoders} `{Sha256}.

Definition HashMatches (data expected : list Z) : bool :=
  (blen expected =? 32) && bool_decide (SHA256 data = expected).

(** The xz loop stops at the first call that is not XZ_OK or moves nothing;
    [fuel] counts the bytes that can still move. *)
Fixpoint xz_loop (fuel : nat) (st : xz_state) (input : list Z) (room : Z) (out : list Z)
    : option (list Z) :=
  match xz_run st input room with
  | (r, consumed, produced, st') =>
      let input' := drop (Z.to_nat consumed) input in
      let room' := room - blen produced in
      let out' := out ++ produced in
      match r with
      | XzOk =>
          if (consumed =? 0) && (blen produced =? 0) then None
          else match fuel with
          | O => None
          | S fuel => xz_loop fuel st' input' room' out'
          end
      | XzStreamEnd => if (blen input' =? 0) && (room' =? 0) then Some out' else None
      | XzError => None
      end
  end.
(** [room] is the size of the output vector. *)
Definition Decode (type : Z) (input : list Z) (room : Z) : option (list Z) :=
  if type =? 0 then if blen input =? room then Some input else None
  else if type =? 1 then
    match bz2 input room with
    | Some out => if blen out =? room then Some out else None
    | None => None
    end
  else if type =? 14 then
    let r := zstd input room in
    if r.1 then Some (r.2 ++ replicate (Z.to_nat (room - blen r.2)) 0) else None
  else if negb (type =? 8) then None
  else match xz_init with
  | None => None
  | Some st => xz_loop (length input + Z.to_nat room) st input room []
  end.

Definition arb_error (why : string) : Arb := MkArb false 0 why.

(** The checks of every destination extent; the total they cover. *)
Fixpoint extents_size (extents : list Extent) (size block expanded : Z) : option Z :=
  match extents with
  | [] => Some expanded
  | e :: rest =>
      if (size / block <? start_block e) || (size / block <? num_blocks e) ||
         (u64 (size - u64 (start_block e * block)) <? u64 (num_blocks e * block)) ||
         (u64 (kLimit - expanded) <? u64 (num_blocks e * block)) then None
      else extents_size rest size block (expanded + num_blocks e * block)
  end.
(** copy_n into the image, in bounds of both buffers or a fault. *)
Fixpoint copy_extents (extents : list Extent) (block : Z) (output : list Z) (pos : Z)
    (image : list Z) : option (list Z) :=
  match extents with
  | [] => Some image
  | e :: rest =>
      let bytes := num_blocks e * block in
      let at_ := start_block e * block in
      if bytes =? 0 then copy_extents rest block output pos image
      else if (blen output <? pos + bytes) || (blen image <? at_ + bytes) then None
      else copy_extents rest block output (pos + bytes)
             (overwrite at_ (slice pos bytes output) image)
  end.
Definition supported_type (type : Z) : bool :=
  (type =? 0) || (type =? 1) || (type =? 8) || (type =? 6) || (type =? 14).
(** The decoded bytes of one operation; type 6 writes zeroes. *)
Definition operation_output (fd base : Z) (op : Operation) (expanded : Z) : M (option (list Z)) :=
  if op_type op =? 6 then mret (Some (replicate (Z.to_nat expanded) 0))
  else
  data ← read_exactly fd (data_length op) (u64 (base + data_offset op));
  mret match data with
       | None => None
       | Some data =>
           if match data_sha256_hash op with
              | Some expected => negb (HashMatches data expected)
              | None => false
              end then None
           else Decode (op_type op) data expanded
       end.
Fixpoint apply_operations (fd base len size block : Z) (ops : list Operation)
    (image : list Z) (work : Z) : M (Outcome (list Z)) :=
  match ops with
  | [] => mret (Done image)
  | op :: rest =>
      if negb (supported_type (op_type op))
      then mret (Refused "xbl_config requires an unsupported or source-dependent operation")
      else match extents_size (dst_extents op) size block 0 with
      | None => mret (Refused "Invalid xbl_config extents")
      | Some expanded =>
          if (kLimit <? data_length op) || (u64 (4 * kLimit - work) <? expanded + data_length op) ||
             (len <? data_offset op) || (u64 (len - data_offset op) <? data_length op)
          then mret (Refused "xbl_config operation exceeds scan limits")
          else
          output ← operation_output fd base op expanded;
          match output with
          | None => mret (Refused "Cannot decode or verify xbl_config")
          | Some output =>
              match copy_extents (dst_extents op) block output 0 image with
              | None => mret Fault
              | Some image =>
                  apply_operations fd base len size block rest image
                    (work + (expanded + data_length op))
              end
          end
      end
  end.
Definition inspect_partition (fd base len block : Z) (p : PartitionUpdate) : M (option Arb) :=
  let size := new_size p in
  if (size =? 0) || (kLimit <? size) || (block =? 0) || (65536 <? block) ||
     (4096 <? Z.of_nat (length (operations p)))
  then mret (Some (arb_error "xbl_config exceeds scan limits"))
  else if negb (blen (new_hash p) =? 32)
  then mret (Some (arb_error "xbl_config has no SHA-256 integrity hash"))
  else
  r ← apply_operations fd base len size block (operations p) (replicate (Z.to_nat size) 0) 0;
  mret match r with
       | Fault => None
       | Refused why => Some (arb_error why)
       | Done image =>
           if negb (HashMatches image (new_hash p))
           then Some (arb_error "xbl_config image hash mismatch")
           else ReadFirmwareArb image
       end.
Fixpoint find_partition (nm : string) (ps : list PartitionUpdate) : option PartitionUpdate :=
  match ps with
  | [] => None
  | p :: rest => if String.eqb (partition_name p) nm then Some p else find_partition nm rest
  end.
Definition InspectArb (fd base len : Z) (manifest : Manifest) : M (option Arb) :=
  match find_partition "xbl_config" (partitions manifest) with
  | Some p => inspect_partition fd base len (block_size manifest) p
  | None => mret (Some (arb_error "No xbl_config image in this payload"))
  end.
End Inspect.

(** ** The installed firmware *)
Inductive Opened := Open (fd : Z) (node : Node) | Missing | Denied.
Fixpoint open_first (open : string -> Opened) (paths : list string) : Opened :=
  match paths with
  | [] => Missing
  | p :: rest => match open p with Missing => open_first open rest | r => r end
  end.
Definition read_slot (open : string -> Opened) (nm : string) : M (option Arb) :=
  match open_first open (Frp.aliases nm) with
  | Denied => mret (Some (arb_error ("Cannot open " ++ nm)%string))
  | Missing => mret (Some (arb_error ("Partition not found: " ++ nm)%string))
  | Open fd node =>
      let bounded := match node_stat node, node_capacity node with
        | Some st, Some bytes =>
            if st_blk st && (64 <=? bytes) && (bytes <=? kLimit) then Some bytes else None
        | _, _ => None
        end in
      match bounded with
      | None => mret (Some (arb_error ("Cannot determine bounded partition size: " ++ nm)%string))
      | Some bytes =>
          image ← read_exactly fd bytes 0;
          mret match image with
               | None => Some (arb_error ("Cannot read " ++ nm)%string)
               | Some image =>
                   result ← ReadFirmwareArb image;
                   Some (MkArb (available result) (index result)
                     (nm ++ ": " ++ if available result
                      then "installed firmware metadata; not the hardware fuse value"
                      else detail result)%string)
               end
      end
  end.
Definition ReadDeviceArb (open : string -> Opened) : M (option DeviceArb) :=
  a ← read_slot open "xbl_config_a";
  b ← read_slot open "xbl_config_b";
  mret (a ← a; b ← b; Some (MkDeviceArb a b)).

(** ** Memory safety of the firmware parser *)
Lemma oem_header_ok image h room :
  bytes_ok image -> 0 <= h -> 36 <= room < 2 ^ 63 -> h + room <= blen image ->
  exists r, oem_header image h room = Some r /\ forall arb, r = Some arb -> 0 <= arb < 128.
Proof.
  intros Hb Hh Hr Hl. unfold oem_header. do 5 rd_step. branch; [by rejected|].
  unfold_width. unwrap_all. do 3 rd_step. branch; [by rejected|].
  eexists. split; [done|]. intros arb [= <-]. lia.
Qed.
Lemma oem_scan_ok n image segment size j :
  bytes_ok image -> 0 <= segment -> size < 2 ^ 63 -> segment + size <= blen image -> 0 <= j ->
  exists r, oem_scan n image segment size j = Some r /\ forall arb, r = Some arb -> 0 <= arb < 128.
Proof.
  intros Hb Hs Hsz Hl. revert j. induction n as [|n IH]; intros j Hj; cbn [oem_scan]; [by rejected|].
  branch; [by rejected|].
  destruct (oem_header_ok image (segment + j) (size - j)) as (r & -> & Hr); [done|lia..|].
  rewrite some_bind. destruct r as [arb|]; [by eauto|]. apply IH. lia.
Qed.
Definition arb_ok (a : Arb) : Prop := available a = true -> 0 <= index a < 128.
Lemma firmware_programs_ok n image ph stride result :
  bytes_ok image -> blen image < 2 ^ 63 -> 56 <= stride -> 0 <= ph ->
  ph + Z.of_nat n * stride <= blen image -> arb_ok result ->
  exists r, firmware_programs n image ph stride result = Some r /\ arb_ok r.
Proof.
  intros Hb Hlen Hst. revert ph result.
  induction n as [|n IH]; intros ph result Hp Hn Hr; cbn [firmware_programs]; [by eauto|].
  assert (ph + 56 <= blen image) by nia.
  do 4 rd_step. branch; [apply IH; [lia|nia|done]|]. unfold_width. unwrap_all.
  destruct (oem_scan_ok oem_fuel image v1 v2 0) as (r & -> & Ha); [done|lia..|].
  rewrite some_bind. destruct r as [arb|]; [|apply IH; [lia|nia|done]].
  branch; [by eexists|]. apply IH; [lia|nia|]. intros _. simpl. by apply Ha.
Qed.
Lemma read_firmware_ok image :
  bytes_ok image -> blen image < 2 ^ 63 ->
  exists r, ReadFirmwareArb image = Some r /\ arb_ok r.
Proof.
  intros Hb Hlen. unfold ReadFirmwareArb.
  assert (exists r, Some unsupported = Some r /\ arb_ok r) by by eexists.
  branch; [done|]. do 3 rd_step. branch; [done|]. do 3 rd_step. branch; [done|].
  unfold_width. unwrap_all. apply firmware_programs_ok; done || lia || nia.
Qed.

(** ** Rebuilding the image stays in bounds *)
Definition extent_ok (e : Extent) : Prop := is_u64 (start_block e) /\ is_u64 (num_blocks e).
Definition operation_ok (op : Operation) : Prop :=
  is_u64 (data_offset op) /\ is_u64 (data_length op) /\ Forall extent_ok (dst_extents op).
Definition covered (es : list Extent) (block : Z) : Z :=
  foldr (fun e acc => num_blocks e * block + acc) 0 es.
Definition fits (size block : Z) (e : Extent) : Prop :=
  0 <= start_block e /\ 0 <= num_blocks e /\ start_block e * block + num_blocks e * block <= size.

Lemma extents_size_ok es size block : forall expanded n,
  Forall extent_ok es -> 0 < block -> 0 < size <= kLimit -> 0 <= expanded <= kLimit ->
  extents_size es size block expanded = Some n ->
  n = expanded + covered es block /\ expanded <= n <= kLimit /\ Forall (fits size block) es.
Proof.
  intros expanded n He Hbl Hs. unfold kLimit in Hs. revert expanded.
  induction He as [|e es [Hst Hnb] _ IH]; intros expanded Hex E; cbn [extents_size] in E.
  { injection E as <-. simpl. split; [lia|]. split; [lia|done]. }
  destruct (_ || _) eqn:Hc in E; [done|]. bool_facts. unfold is_u64 in *.
  assert (size / block * block <= size) by (rewrite Z.mul_comm; by apply Z.mul_div_le).
  assert (num_blocks e * block <= size) by nia.
  assert (start_block e * block <= size) by nia.
  assert (0 <= num_blocks e * block) by nia. assert (0 <= start_block e * block) by nia.
  unfold kLimit in *. unfold_width. unwrap_all.
  apply IH in E as (-> & ? & Hf); [|lia]. cbn [covered foldr]. fold (covered es block).
  split; [lia|]. split; [lia|]. constructor; [|done]. unfold fits. lia.
Qed.

Lemma covered_nonneg es size block : Forall (fits size block) es -> 0 < block -> 0 <= covered es block.
Proof. intros Hf Hb. induction Hf as [|e es (? & ? & _) _ IH]; cbn; [lia|]. unfold covered in IH. nia. Qed.
Lemma overwrite_ok off new bs : bytes_ok new -> bytes_ok bs -> bytes_ok (overwrite off new bs).
Proof.
  intros. apply Forall_app_2; [by apply Forall_take|]. apply Forall_app_2; [done|by apply Forall_drop].
Qed.
Lemma slice_inside off n bs : 0 <= off -> 0 <= n -> off + n <= blen bs -> blen (slice off n bs) = n.
Proof. apply slice_inside_len. Qed.

Lemma copy_extents_ok es size block output : forall pos image,
  Forall (fits size block) es -> 0 < block -> 0 <= pos -> pos + covered es block <= blen output ->
  blen image = size -> bytes_ok image -> bytes_ok output ->
  exists image', copy_extents es block output pos image = Some image' /\
    blen image' = size /\ bytes_ok image'.
Proof.
  intros pos image Hf Hbl. revert pos image.
  induction Hf as [|e es (Hst & Hnb & Hfit) Hf IH]; intros pos image Hp Hl Hi Hb Ho;
    cbn [copy_extents]; [by eauto|].
  cbn [covered foldr] in Hl. fold (covered es block) in Hl.
  assert (0 <= num_blocks e * block) by nia. assert (0 <= start_block e * block) by nia.
  pose proof (covered_nonneg _ _ _ Hf Hbl).
  branch; [apply IH; done || lia|]. branch; [impossible|].
  pose proof (slice_inside pos (num_blocks e * block) output ltac:(lia) ltac:(lia) ltac:(lia)).
  apply IH; [lia|lia| |apply overwrite_ok; auto with aera|done].
  unfold blen in *. rewrite length_overwrite; lia.
Qed.

Section InspectSound.
Context `{DecodersLaws} `{Sha256}.

Lemma xz_loop_ok fuel : forall st input room out r,
  0 <= room -> bytes_ok out -> xz_loop fuel st input room out = Some r ->
  blen r = blen out + room /\ bytes_ok r.
Proof.
  induction fuel as [|fuel IH]; intros st input room out r Hr Ho E; cbn [xz_loop] in E;
    destruct (xz_run st input room) as [[[res consumed] produced] st'] eqn:Ex;
    destruct (xz_bounds _ _ _ _ _ _ _ Hr Ex) as (Hc & Hp & Hpb); cbv zeta in E;
    assert (bytes_ok (out ++ produced)) by (by apply Forall_app_2);
    (destruct res; [|destruct (_ && _) eqn:Hend in E; [|done]; bool_facts; injection E as <-;
       (split; [unfold blen in *; rewrite length_app; lia|done])|done]);
    destruct (_ && _) in E; try done.
  apply IH in E as [-> Hb]; [|lia|done]. split; [|done].
  unfold blen in *. rewrite length_app. lia.
Qed.
Lemma decode_ok type input room out :
  0 <= room -> bytes_ok input -> Decode type input room = Some out ->
  blen out = room /\ bytes_ok out.
Proof.
  intros Hr Hb. unfold Decode. destruct (type =? 0).
  { destruct (Z.eqb_spec (blen input) room); [|done]. by intros [= <-]. }
  destruct (type =? 1).
  { destruct (bz2 input room) as [o|] eqn:E; [|done].
    destruct (Z.eqb_spec (blen o) room); [|done]. intros [= <-].
    by destruct (bz2_room _ _ _ Hr E). }
  destruct (type =? 14).
  { destruct (zstd_room input room Hr) as [Hl Ho]. destruct (zstd input room) as [[] o]; [|done].
    simpl in *. intros [= <-]. split.
    - unfold blen in *. rewrite length_app, length_replicate. lia.
    - apply Forall_app_2; [done|]. apply Forall_replicate. unfold is_byte. lia. }
  destruct (negb _); [done|]. destruct xz_init as [st|]; [|done]. intros E.
  apply xz_loop_ok in E as [-> ?]; [done|done|apply Forall_nil_2].
Qed.
Lemma operation_output_ok fd base op expanded w out w' :
  bytes_ok (content w fd) -> is_u64 (data_length op) -> 0 <= expanded ->
  operation_output fd base op expanded w = Some (out, w') ->
  files w' = files w /\ forall o, out = Some o -> blen o = expanded /\ bytes_ok o.
Proof.
  intros Hb Hd He. unfold operation_output. destruct (_ =? 6).
  { intros [= <- <-]. split; [done|]. intros o [= <-]. split.
    - unfold blen. rewrite length_replicate. lia.
    - apply Forall_replicate. unfold is_byte. lia. }
  intros (data & w1 & E1 & E2)%mbind_Some. pose proof (u64_range (base + data_offset op)).
  unfold_width. apply read_exactly_sound in E1 as [Ef Hdata]; [|lia..].
  injection E2 as <- <-. split; [done|]. intros o Eo.
  destruct data as [data|]; [|done]. destruct (Hdata _ eq_refl) as [-> _].
  destruct (match data_sha256_hash op with Some _ => _ | None => _ end); [done|].
  apply decode_ok in Eo; auto with aera.
Qed.
Lemma apply_operations_ok fd base len size block ops : forall image work w r w',
  (forall f, bytes_ok (content w f)) -> Forall operation_ok ops ->
  0 < block -> 0 < size <= kLimit -> blen image = size -> bytes_ok image -> 0 <= work <= 4 * kLimit ->
  apply_operations fd base len size block ops image work w = Some (r, w') ->
  files w' = files w /\ r ≠ Fault /\ forall img, r = Done img -> blen img = size /\ bytes_ok img.
Proof.
  induction ops as [|op ops IH]; intros image work w r w' Hb Hops Hbl Hs Hi Hib Hw E;
    cbn [apply_operations] in E.
  { injection E as <- <-. split; [done|]. split; [done|]. by intros img [= <-]. }
  apply Forall_cons in Hops as [(Hoff & Hlen & Hext) Hops].
  assert (forall s, (mret (Refused s) : M (Outcome (list Z))) w = Some (r, w') -> files w' = files w /\ r ≠ Fault /\
    forall img, r = Done img -> blen img = size /\ bytes_ok img) as Hrefused
    by (intros s [= <- <-]; split; [done|]; split; [done|]; done).
  destruct (negb _) in E; [by eapply Hrefused|].
  destruct (extents_size _ _ _ _) as [expanded|] eqn:Ex in E; [|by eapply Hrefused].
  apply extents_size_ok in Ex as (Hexp & Hx & Hfit); [|done..|unfold kLimit; lia].
  destruct (_ || _) eqn:Hc in E; [by eapply Hrefused|]. bool_facts.
  unfold_width. unfold kLimit in *. unwrap_all.
  apply mbind_Some in E as (out & w1 & E1 & E2).
  apply operation_output_ok in E1 as [Ef Hout]; [|done|unfold_width; lia|lia].
  destruct out as [out|]; [|rewrite <- Ef; injection E2 as <- <-; split; [done|by split]].
  destruct (Hout _ eq_refl) as [Hol Hob].
  edestruct (copy_extents_ok (dst_extents op) size block out 0 image) as (img & Ec & Hil & Hib');
    [done|done|lia|lia|done..|]. rewrite Ec in E2.
  apply IH in E2 as (Ef2 & Hr); [| |done..|lia].
  - split; [congruence|done].
  - intros f. by rewrite (content_files w w1 f Ef).
Qed.

(** C7: InspectArb never reads or writes out of bounds, whatever the payload
    and its manifest say, and changes no file; an index it reports comes from
    an image of the declared size, at most 16 MiB, whose SHA-256 is the one in
    the manifest, and is below 128. *)
Theorem inspect_arb_sound fd base len manifest w r w' :
  (forall f, bytes_ok (content w f)) ->
  0 <= block_size manifest ->
  Forall (fun p => 0 <= new_size p /\ Forall operation_ok (operations p)) (partitions manifest) ->
  InspectArb fd base len manifest w = Some (r, w') ->
  files w' = files w /\ exists arb, r = Some arb /\
    (available arb = true -> exists p image,
       find_partition "xbl_config" (partitions manifest) = Some p /\
       blen image = new_size p /\ new_size p <= kLimit /\ SHA256 image = new_hash p /\
       ReadFirmwareArb image = Some arb /\ 0 <= index arb < 128).
Proof.
  intros Hb Hbs Hps. unfold InspectArb.
  assert (forall p, find_partition "xbl_config" (partitions manifest) = Some p ->
    0 <= new_size p /\ Forall operation_ok (operations p)) as Hp.
  { intros p. induction Hps as [|q ps Hq _ IH]; simpl; [done|].
    destruct (String.eqb _ _); [by intros [= <-]|done]. }
  destruct (find_partition _ _) as [p|]; [|intros [= <- <-]; split; [done|by eexists]].
  destruct (Hp p eq_refl) as [Hsize Hops]. unfold inspect_partition.
  destruct (_ || _) eqn:Hc; [intros [= <- <-]; split; [done|by eexists]|]. bool_facts.
  destruct (negb _) eqn:Hc1; [intros [= <- <-]; split; [done|by eexists]|]. bool_facts.
  intros (o & w1 & E1 & E2)%mbind_Some. injection E2 as <- <-.
  apply apply_operations_ok in E1 as (Ef & Hf & Hdone);
    [|done|done|lia|lia|unfold blen; rewrite length_replicate; lia|
     apply Forall_replicate; unfold is_byte; lia|unfold kLimit; lia].
  split; [done|]. destruct o as [image|why|]; [|by eexists|done].
  destruct (Hdone _ eq_refl) as [Hl Hi].
  destruct (HashMatches image (new_hash p)) eqn:Hh; [|by eexists]. simpl.
  destruct (read_firmware_ok image) as (arb & E & Ha); [done|unfold kLimit in *; lia|].
  exists arb. split; [done|]. intros Hav. exists p, image. unfold HashMatches in Hh. bool_facts.
  split_and!; try done; by apply Ha.
Qed.
End InspectSound.

(** The anti-rollback policy refuses exactly two kinds of package: one
    whose known index is below that of a readable slot, even when the other
    slot is unreadable, and an unacknowledged upgrade over two readable
    slots. *)
Theorem arb_policy firmware package device acknowledged :
  ArbAllowsInstall (CompareArb firmware package device) acknowledged = false <->
  firmware = true /\ available package = true /\
  ((exists slot, slot ∈ [slot_a device; slot_b device] /\ available slot = true /\
      index package < index slot) \/
   (acknowledged = false /\ available (slot_a device) = true /\ available (slot_b device) = true /\
    (index (slot_a device) < index package \/ index (slot_b device) < index package))).
Proof.
  destruct package as [av i d], device as [[aa ia da] [ab ib db]]. unfold CompareArb. simpl.
  split.
  - destruct firmware; [|done]. destruct av; [|done]. simpl. intros E. split; [done|]. split; [done|].
    destruct aa, ab, acknowledged; simpl in *; repeat zcase_in E; simpl in E; try done;
      first [left; eexists; split; [by left|]; split; [done|]; simpl; lia
            |left; eexists; split; [right; by left|]; split; [done|]; simpl; lia
            |right; split_and!; try done; lia].
  - intros (-> & -> & [(slot & Hin & Hav & Hlt)|(-> & -> & -> & Hlt)]); simpl.
    + rewrite !elem_of_cons in Hin. destruct Hin as [->|[->|Hin]]; [| |by apply elem_of_nil in Hin];
        simpl in *; subst; simpl; repeat zcase; simpl; rewrite ?orb_true_r, ?andb_true_r, ?andb_false_r;
        try done; try lia.
    + repeat zcase; simpl; done || lia.
Qed.

(** ** Concrete runs *)
#[local] Instance demo_decoders : Decoders := {
  bz2 _ _ := None; zstd _ _ := (false, []); xz_state := unit; xz_init := None;
  xz_run st _ _ := (XzError, 0, [], st) }.
#[local] Instance demo_decoders_laws : DecodersLaws demo_decoders.
Proof.
  split.
  - intros input room out _ [=].
  - intros input room Hr. split; [done|apply Forall_nil_2].
  - intros st input room r c p st' Hr [= <- <- <- <-]. pose proof (blen_nonneg input).
    split; [lia|]. split; [done|apply Forall_nil_2].
Qed.
#[local] Instance demo_sha32 : Sha256 := { SHA256 bytes := replicate 32 (u8 (foldr Z.add 0 bytes)) }.

(** An ELF with one hash segment of 64 bytes at 120 whose index is 3. *)
Definition demo_xbl : list Z :=
  [127; 69; 76; 70; 2; 1] ++ replicate 26 0 ++ [64; 0; 0; 0; 0; 0; 0; 0] ++ replicate 14 0 ++
  [56; 0; 1; 0] ++ replicate 6 0 ++
  replicate 8 0 ++ [120; 0; 0; 0; 0; 0; 0; 0] ++ replicate 16 0 ++ [64; 0; 0; 0; 0; 0; 0; 0] ++
  replicate 16 0 ++
  [3; 0; 0; 0] ++ replicate 8 0 ++ [12; 0; 0; 0; 16; 0; 0; 0] ++ replicate 16 0 ++
  [1; 0; 0; 0; 2; 0; 0; 0; 3; 0; 0; 0] ++ replicate 16 0.
Definition demo_manifest : Manifest := MkManifest 8
  [MkPartition "boot" 8 [] [] false;
   MkPartition "xbl_config" 184 (SHA256 demo_xbl)
     [MkOperation 0 0 184 None [MkExtent 0 23] 0 false] false] (MkDetails 0 false 0 "" None).
Definition demo_payload : World := MkWorld (replicate 3 (Upto 100)) [] {[7 := demo_xbl]}.

Lemma inspect_arb_sound_witness :
  exists w' arb, InspectArb 7 0 184 demo_manifest demo_payload = Some (Some arb, w') /\
    available arb = true /\ index arb = 3 /\ index arb < 128.
Proof.
  destruct (InspectArb 7 0 184 demo_manifest demo_payload) as [[[arb|] w']|] eqn:E;
    [|vm_compute in E; discriminate E..].
  exists w', arb. split; [reflexivity|].
  assert (H3 : available arb = true /\ index arb = 3)
    by (vm_compute in E; injection E as <- _; split; reflexivity).
  split; [exact (proj1 H3)|]. split; [exact (proj2 H3)|].
  destruct (inspect_arb_sound 7 0 184 demo_manifest demo_payload (Some arb) w')
    as (_ & a & Ea & H); [|vm_compute; discriminate| |exact E|].
  - intros f. unfold content, demo_payload. simpl. destruct (decide (f = 7)) as [->|Hne].
    + rewrite lookup_singleton_eq. apply (bool_decide_unpack (Forall _ _)). vm_compute. exact I.
    + rewrite lookup_singleton_ne by (intros Heq; apply Hne; symmetry; exact Heq).
      apply Forall_nil. exact I.
  - repeat (first [apply Forall_nil; exact I | apply Forall_cons; split]); simpl;
      unfold operation_ok, extent_ok, is_u64; simpl; split_and!; try lia;
      repeat (first [apply Forall_nil; exact I | apply Forall_cons; split]); simpl; try lia;
      split_and!; try lia;
      repeat (first [apply Forall_nil; exact I | apply Forall_cons; split]); simpl; lia.
  - injection Ea as <-. destruct (H (proj1 H3)) as (p & img & _ & _ & _ & _ & _ & Hi). lia.
Defined.
