(* ===== verification/PayloadTargets.v ===== *)
(** aeraui/features/update/payload_targets.cpp and
    aera_image_flash_geometry.hpp: which partition an OTA image may be
    written to, claiming it exclusively, writing it and reading it back.

    [Host] is what the kernel reports; SHA-256 and its incremental interface
    belong to BoringSSL and are taken from [Sha256] and [ShaStream]. The
    progress callbacks of the user interface are not modelled. *)
From stdpp Require Import base list strings gmap.
From Stdlib Require Import ZArith Lia Ascii.
From S2P Require Import Prelude CxxString Kernel RawDevice Abl.

Record Host := MkHost {
  host_os : Os;
  read_text : string -> option string;   (* a sysfs file, [None] when it cannot be opened *)
  blkroget : Z -> option bool;           (* BLKROGET on a descriptor: read-only? *)
  strerror : string
}.
Class ShaStream := {
  sha_ctx : Type;
  SHA256_Init : sha_ctx;
  SHA256_Update : sha_ctx -> list Z -> sha_ctx;
  SHA256_Final : sha_ctx -> list Z
}.
(** Hashing in pieces is hashing the whole. *)
Class ShaStreamLaws `(S : Sha256) `(T : ShaStream) : Prop := {
  sha_pieces chunks : SHA256_Final (foldl SHA256_Update SHA256_Init chunks) = SHA256 (concat chunks)
}.

(** ** Names *)
Definition is_alnum_dash (c : ascii) : bool :=
  let n := nat_of_ascii c in
  ((97 <=? n)%nat && (n <=? 122)%nat) || ((65 <=? n)%nat && (n <=? 90)%nat) ||
  ((48 <=? n)%nat && (n <=? 57)%nat) || (n =? 95)%nat || (n =? 45)%nat.
Definition protected_names : list string :=
  ["super"; "userdata"; "metadata"; "misc"; "persist"; "cache"; "frp"; "devinfo"; "modemst1";
   "modemst2"; "fsg"; "fsc"; "config"; "keystore"].
Definition IsPartitionImageName (nm : string) : bool :=
  if String.eqb nm "" || (128 <? String.length nm)%nat || existsb (String.eqb nm) protected_names
  then false
  else if (2 <? String.length nm)%nat && (ends_with nm "_a" || ends_with nm "_b") then false
  else all_chars is_alnum_dash nm.

(** ** Text of sysfs files *)
(** [stream >> v] for an [unsigned]. *)
Definition extract_unsigned (s : string) : option (Z * string) := extract_uint UINT32_MAX s.
Definition first_line (s : string) : option string :=
  match lines s with l :: _ => Some l | [] => None end.
(** [Some exact], or [None] for a node that is neither. *)
Definition BlockRequiresExactCapacity (h : Host) (sysfs_node : string) : option bool :=
  let physical := read_text h (sysfs_node ++ "/partition") in
  let mapper := read_text h (sysfs_node ++ "/dm/name") in
  match physical with
  | Some text =>
      match extract_unsigned text with
      | Some (number, rest) =>
          if (number =? 0) || negb (String.eqb (skip_space rest) "") ||
             match mapper with Some _ => true | None => false end
          then None else Some false
      | None => None
      end
  | None =>
      match mapper ≫= first_line with
      | Some nm => if String.eqb nm "" || negb (no_char "/" nm) then None else Some true
      | None => None
      end
  end.
Definition ImageFlashGeometry (h : Host) (node : Node) : option (Z * bool) :=
  match node_stat node, node_capacity node with
  | Some st, Some bytes =>
      if negb (st_blk st) || (bytes =? 0) then None
      else exact ← BlockRequiresExactCapacity h (sysfs_block (st_rdev st)); Some (bytes, exact)
  | _, _ => None
  end.

(** ** Probing *)
(** Device and size of a writable block device. *)
Definition Geometry (h : Host) (fd : Z) (node : Node) : option (Z * Z) :=
  match node_stat node, node_capacity node with
  | Some st, Some bytes =>
      if negb (st_blk st) || (bytes =? 0) then None
      else match blkroget h fd with
           | Some false => Some (st_rdev st, bytes)
           | _ => None
           end
  | _, _ => None
  end.
Record RawNode := MkRawNode { rn_path : string; rn_name : string; rn_bytes : Z; rn_device : Z }.
Definition partname (uevent : string) : string :=
  fold_left (fun nm line => if String.prefix "PARTNAME=" line
                            then String.substring 9 (String.length line - 9) line else nm)
            (lines uevent) "".
Definition ProbeBlock (h : Host) (p : string) : option RawNode :=
  resolved ← os_realpath (host_os h) p;
  if negb (String.prefix "/dev/block/" resolved) then None
  else
  opened ← os_open (host_os h) resolved;
  geometry ← Geometry h opened.1 opened.2;
  let '(device, bytes) := geometry in
  part ← read_text h (sysfs_block device ++ "/partition");
  number ← extract_unsigned part;
  if number.1 =? 0 then None
  else
  let nm := partname (default "" (read_text h (sysfs_block device ++ "/uevent"))) in
  if String.eqb nm "" then None else Some (MkRawNode resolved nm bytes device).

(** ** Targets *)
Record PayloadFlashTarget := MkFlashTarget {
  t_name : string; t_path : string; t_bytes : Z; t_raw : bool; t_device : Z; t_reason : string }.
Definition refused_target (nm reason : string) : PayloadFlashTarget :=
  MkFlashTarget nm "" 0 false 0 reason.

Section Discover.
Variables (probe : string -> option RawNode) (nm slot : string).
(** The pair of slots behind one alias root, checked; the chosen one. *)
Definition slot_pair (root : string) : option RawNode :=
  match probe (root ++ nm ++ "_a"), probe (root ++ nm ++ "_b") with
  | Some a, Some b =>
      if negb (String.eqb (rn_name a) (nm ++ "_a")) || negb (String.eqb (rn_name b) (nm ++ "_b")) ||
         (rn_device a =? 0)%Z || (rn_device b =? 0)%Z || (rn_device a =? rn_device b)%Z ||
         (rn_bytes a =? 0)%Z || (rn_bytes b =? 0)%Z then None
      else Some (if String.eqb slot "A" then a else b)
  | _, _ => None
  end%string.
Fixpoint discover_roots (roots : list string) (target : PayloadFlashTarget) : PayloadFlashTarget :=
  match roots with
  | [] => target
  | root :: rest =>
      match slot_pair root with
      | None => discover_roots rest target
      | Some chosen =>
          if negb (String.eqb (t_path target) "") &&
             (negb (t_device target =? rn_device chosen) || negb (t_bytes target =? rn_bytes chosen))
          then MkFlashTarget (t_name target) "" (t_bytes target) (t_raw target) (t_device target)
                 "Conflicting partition aliases"
          else discover_roots rest
                 (MkFlashTarget (t_name target) (rn_path chosen) (rn_bytes chosen) true
                    (rn_device chosen) "")
      end
  end.
Definition DiscoverRawTarget : PayloadFlashTarget :=
  if negb (IsPartitionImageName nm) then refused_target nm "Protected or invalid partition name"
  else if negb (String.eqb slot "A") && negb (String.eqb slot "B")
  then refused_target nm "Current slot is unknown"
  else discover_roots ["/dev/block/by-name/"; "/dev/block/bootdevice/by-name/"]%string
         (refused_target nm "No verified A/B firmware target on this device").
End Discover.

(** A descriptor, or the error message. *)
Definition OpenRawTarget (h : Host) (target : PayloadFlashTarget) (image_bytes : Z)
    : string + (Z * Node) :=
  if negb (t_raw target) || String.eqb (t_path target) "" || (image_bytes =? 0)%Z ||
     (t_bytes target <? image_bytes)%Z
  then inl "Image exceeds partition capacity or target is invalid"%string
  else match os_open_excl (host_os h) (t_path target) with
  | None => inl ("Cannot claim " ++ t_name target ++ ": " ++ strerror h)%string
  | Some (fd, node) =>
      match Geometry h fd node with
      | Some (device, bytes) =>
          if negb (device =? t_device target) || negb (bytes =? t_bytes target)
          then inl ("Partition identity or capacity changed: " ++ t_name target)%string
          else inr (fd, node)
      | None => inl ("Partition identity or capacity changed: " ++ t_name target)%string
      end
  end.
Definition TargetCapacityMatches (capacity image_bytes : Z) (exact : bool) : bool :=
  negb (image_bytes =? 0) &&
  (if exact then capacity =? image_bytes else image_bytes <=? capacity).
Definition DeviceCapacityPolicy (h : Host) (device : Z) : option bool :=
  BlockRequiresExactCapacity h (sysfs_block device).
Definition OpenDirectBlock (h : Host) (p : string) (image_bytes : Z) : string + (Z * Node) :=
  match os_realpath (host_os h) p with
  | None => inl "Invalid direct block target"%string
  | Some resolved =>
      if negb (String.prefix "/dev/block/" resolved) then inl "Invalid direct block target"%string
      else match os_open_excl (host_os h) resolved with
      | None => inl ("Cannot exclusively claim " ++ p ++ ": " ++ strerror h)%string
      | Some (fd, node) =>
          match Geometry h fd node with
          | None => inl "Cannot identify direct target as a physical partition or logical mapping"%string
          | Some (device, bytes) =>
              match DeviceCapacityPolicy h device with
              | None => inl "Cannot identify direct target as a physical partition or logical mapping"%string
              | Some exact =>
                  if negb (TargetCapacityMatches bytes image_bytes exact)
                  then inl (if exact
                            then "Direct logical target does not exactly match the manifest image size"
                            else "Image exceeds physical partition capacity")%string
                  else inr (fd, node)
              end
          end
      end
  end.

(** ** Read-back *)
Section Verify.
Context `{Sha256} `{ShaStream}.
Definition verify_chunk : Z := 1024 * 1024.
Fixpoint verify_loop (fuel : nat) (fd image_bytes off : Z) (ctx : sha_ctx) : M (string + sha_ctx) :=
  if image_bytes <=? off then mret (inr ctx)
  else match fuel with
  | O => out_of_answers
  | S fuel =>
      r ← pread fd (Z.min verify_chunk (image_bytes - off)) off;
      match r with
      | XIntr => verify_loop fuel fd image_bytes off ctx
      | XFail | XBytes [] => mret (inl ("Partition readback failed at byte " ++ to_string off)%string)
      | XBytes bs => verify_loop fuel fd image_bytes (off + blen bs) (SHA256_Update ctx bs)
      end
  end.
Definition mismatch : string :=
  "Written image SHA-256 does not match the OTA manifest. Do not reboot; reflash a known-good image.".
(** [None] is success, otherwise the error message. *)
Definition VerifyImageBytes (fd image_bytes : Z) (expected : list Z) : M (option string) := fun w =>
  if (fd <? 0) || (image_bytes =? 0) || (INT64_MAX <? image_bytes) || negb (blen expected =? 32)
  then Some (Some "Invalid image size or manifest SHA-256 for readback"%string, w)
  else (r ← verify_loop (length (answers w)) fd image_bytes 0 SHA256_Init;
        mret match r with
             | inl e => Some e
             | inr ctx => if bool_decide (SHA256_Final ctx = expected) then None else Some mismatch
             end) w.
(** fsync then BLKFLSBUF, the second only when the first succeeded. *)
Definition flush (fd : Z) : M bool :=
  a ← sync fd; if negb a then mret false else sync fd.
Definition written_ok (h : Host) (node : Node) (image_bytes : Z) (exact : bool) (expected : list Z) : bool :=
  match node_stat node, node_capacity node with
  | Some st, Some capacity =>
      st_blk st &&
      match DeviceCapacityPolicy h (st_rdev st) with
      | Some logical => TargetCapacityMatches capacity image_bytes (logical || exact)
      | None => false
      end && (blen expected =? 32)
  | _, _ => false
  end.
Definition VerifyWrittenFd (h : Host) (fd : Z) (node : Node) (image_bytes : Z) (expected : list Z)
    (exact_capacity : bool) : M (option string) :=
  if negb (written_ok h node image_bytes exact_capacity expected)
  then mret (Some "Written partition has invalid type or capacity"%string)
  else
  flushed ← flush fd;
  if negb flushed
  then mret (Some ("Cannot flush written partition for verification: " ++ strerror h)%string)
  else VerifyImageBytes fd image_bytes expected.
Definition VerifyWrittenBlock (h : Host) (p : string) (image_bytes : Z) (expected : list Z)
    : M (option string) :=
  match os_realpath (host_os h) p with
  | None => mret (Some "Cannot resolve written partition for verification"%string)
  | Some resolved =>
      if negb (String.prefix "/dev/block/" resolved)
      then mret (Some "Cannot resolve written partition for verification"%string)
      else match os_open (host_os h) resolved with
      | None => mret (Some "Cannot open written partition for verification"%string)
      | Some (fd, node) => VerifyWrittenFd h fd node image_bytes expected false
      end
  end.

(** ** Writing *)
Definition write_chunk : Z := 256 * 1024.
Definition WriteRawImage (h : Host) (fd : Z) (node : Node) (target : PayloadFlashTarget)
    (image : string) (image_bytes : Z) (expected : list Z) : M (option string) :=
  let claimed := match Geometry h fd node with
    | Some (device, bytes) =>
        t_raw target && (device =? t_device target) && (bytes =? t_bytes target) &&
        negb (image_bytes =? 0) && (image_bytes <=? bytes) && (image_bytes <=? INT64_MAX / 2) &&
        (blen expected =? 32)
    | None => false
    end in
  if negb claimed then mret (Some "Invalid claimed block target"%string)
  else match os_open (host_os h) image with
  | None => mret (Some "Extracted image changed"%string)
  | Some (source, image_node) =>
      match node_stat image_node with
      | None => mret (Some "Extracted image changed"%string)
      | Some st =>
          if negb (st_reg st) || (st_size st <? 0) || negb (st_size st =? image_bytes)
          then mret (Some "Extracted image changed"%string)
          else
          ok ← copy_loop write_chunk (Z.to_nat image_bytes) source fd image_bytes 0;
          if negb ok then mret (Some "Firmware write failed"%string)
          else
          flushed ← flush fd;
          if negb flushed then mret (Some "Firmware flush failed"%string)
          else VerifyImageBytes fd image_bytes expected
      end
  end.
End Verify.

(** ** Lemmas *)
Section VerifyLemmas.
Context `{ShaStreamLaws}.
Lemma verify_loop_sound fuel : forall fd n off ctx w r w',
  verify_loop fuel fd n off ctx w = Some (r, w') -> 0 <= off <= n ->
  files w' = files w /\
  forall ctx', r = inr ctx' -> exists chunks, ctx' = foldl SHA256_Update ctx chunks /\
    concat chunks = slice off (n - off) (content w fd) /\ blen (concat chunks) = n - off.
Proof.
  induction fuel as [|fuel IH]; intros fd n off ctx w r w' E Ho; cbn [verify_loop] in E;
    destruct (Z.leb_spec n off); try discriminate E;
    try (injection E as <- <-; split; [done|]; intros ctx' [= <-]; exists []; simpl;
         replace (n - off) with 0 by lia; done).
  apply mbind_Some in E as (x & w1 & E1 & E2). apply pread_Some in E1 as (Ef & _ & Hx).
  destruct x as [| |[|b bs]].
  - apply IH in E2 as [Ef2 Hr]; [|lia]. split; [congruence|]. by rewrite <- (content_files w w1 fd Ef).
  - by injection E2 as <- <-.
  - by injection E2 as <- <-.
  - destruct (Hx _ eq_refl) as [k Hbs]. set (c := b :: bs) in *.
    assert (Hc : 0 < blen c <= n - off).
    { split; [unfold blen, c; simpl; lia|]. rewrite Hbs. unfold blen.
      pose proof (slice_length off (Z.min k (Z.min verify_chunk (n - off))) (content w fd)). lia. }
    apply IH in E2 as [Ef2 Hr]; [|lia]. split; [congruence|]. intros ctx' Hctx.
    destruct (Hr _ Hctx) as (chunks & -> & Hcat & Hlen). rewrite (content_files w w1 fd Ef) in Hcat.
    exists (c :: chunks). split; [done|]. cbn [concat].
    assert (c = slice off (blen c) (content w fd)) as Hc'.
    { rewrite Hbs at 1. unfold slice. rewrite take_length_take. f_equal.
      rewrite <- (Nat2Z.id (length _)). f_equal. by rewrite Hbs. }
    split; [|unfold blen in *; rewrite length_app; lia].
    rewrite Hcat, Hc' at 1. rewrite slice_cat; [f_equal; lia|lia..|]. by rewrite <- Hc'.
Qed.
Lemma verify_image_sound fd n expected w r w' :
  0 <= n -> VerifyImageBytes fd n expected w = Some (r, w') ->
  files w' = files w /\ (r = None -> blen expected = 32 /\
    blen (content w fd) >= n /\ SHA256 (take (Z.to_nat n) (content w fd)) = expected).
Proof.
  intros Hn. unfold VerifyImageBytes. destruct (_ || _) eqn:Hc; [by intros [= <- <-]|]. bool_facts.
  intros (x & w1 & E1 & E2)%mbind_Some. injection E2 as <- <-.
  apply verify_loop_sound in E1 as [Ef Hx]; [|lia]. split; [done|].
  destruct x as [e|ctx]; [done|]. destruct (bool_decide _) eqn:Hd; [|done]. bool_facts. intros _.
  destruct (Hx _ eq_refl) as (chunks & -> & Hcat & Hlen). rewrite sha_pieces, Hcat in Hd.
  rewrite Z.sub_0_r, slice_0 in *. split; [done|]. split; [|done].
  rewrite Hcat in Hlen. unfold blen in *. rewrite length_take in Hlen. lia.
Qed.
Lemma flush_files fd w ok w' : flush fd w = Some (ok, w') -> files w' = files w.
Proof.
  intros (a & w1 & E1 & E2)%mbind_Some. apply sync_Some in E1 as [<- _].
  destruct a; simpl in E2; [by apply sync_Some in E2 as [? _]|by injection E2 as <- <-].
Qed.
Lemma verify_loop_ready fuel : forall fd n off ctx w,
  (length (answers w) <= fuel)%nat -> 0 <= off <= n -> n <= blen (content w fd) ->
  ready (n - off) w ->
  exists ctx' w', verify_loop fuel fd n off ctx w = Some (inr ctx', w').
Proof.
  induction fuel as [|fuel IH]; intros fd n off ctx w Hf Ho Hn [Hh Hr]; cbn [verify_loop];
    (destruct (Z.leb_spec n off); [by eauto|]).
  { pose proof (transfers_nonneg (answers w)). destruct (answers w); simpl in *; [|lia].
    unfold transfers in Hr. simpl in Hr. lia. }
  unfold mbind, M_bind, pread, next_answer. destruct w as [[|a ans] sy fs]; simpl in *.
  { unfold transfers in Hr. simpl in Hr. lia. }
  apply Forall_cons in Hh as [Ha Hh].
  destruct a as [| |k|k]; simpl in Ha; try done.
  - destruct (IH fd n off ctx (MkWorld ans sy fs)) as (c & w' & E); simpl; [lia|done|done| |by eauto].
    split; [done|]. by rewrite transfers_Intr in Hr.
  - unfold get_content, mret, M_ret. simpl.
    set (bs := slice off _ (content _ fd)).
    assert (Hbs : 0 < blen bs <= n - off).
    { unfold bs, slice, blen, verify_chunk, content in *. rewrite length_take, length_drop. simpl in *. lia. }
    destruct bs as [|b bs'] eqn:Eb; [unfold blen in Hbs; simpl in Hbs; lia|].
    destruct (IH fd n (off + blen (b :: bs')) (SHA256_Update ctx (b :: bs')) (MkWorld ans sy fs))
      as (c & w' & E); [simpl; lia|lia|done| |by eauto].
    split; [done|]. rewrite transfers_Upto in Hr. cbn [answers]. lia.
Qed.
End VerifyLemmas.

(** A discovered pair is the pair of exactly named slot partitions. *)
Lemma slot_pair_spec probe nm slot root chosen :
  slot_pair probe nm slot root = Some chosen ->
  rn_name chosen = (nm ++ if String.eqb slot "A" then "_a" else "_b")%string /\
  rn_device chosen ≠ 0 /\ rn_bytes chosen ≠ 0 /\
  (exists other, probe (root ++ nm ++ if String.eqb slot "A" then "_b" else "_a")%string = Some other /\
     rn_device other ≠ rn_device chosen).
Proof.
  unfold slot_pair. destruct (probe _) as [a|] eqn:Ea; [|done].
  destruct (probe (root ++ nm ++ "_b")%string) as [b|] eqn:Eb; [|done].
  destruct (_ || _) eqn:Hc; [done|]. bool_facts.
  destruct (String.eqb slot "A"); intros [= <-]; split_and!; try done; eexists; (split; [done|]); congruence.
Qed.
Lemma discover_roots_spec probe nm slot roots : forall t r,
  discover_roots probe nm slot roots t = r -> t_path r ≠ ""%string ->
  (forall root c, root ∈ roots -> slot_pair probe nm slot root = Some c -> rn_path c ≠ ""%string) ->
  (r = t /\ forall root, root ∈ roots -> slot_pair probe nm slot root = None) \/
  (t_raw r = true /\ t_reason r = ""%string /\ t_name r = t_name t /\
   (t_path t ≠ ""%string -> t_device t = t_device r /\ t_bytes t = t_bytes r) /\
   (exists root c, root ∈ roots /\ slot_pair probe nm slot root = Some c /\ rn_path c = t_path r) /\
   forall root c, root ∈ roots -> slot_pair probe nm slot root = Some c ->
     rn_device c = t_device r /\ rn_bytes c = t_bytes r).
Proof.
  induction roots as [|root roots IH]; intros t r E Hp Hne; cbn [discover_roots] in E.
  { left. split; [done|]. intros root Hin. by apply elem_of_nil in Hin. }
  destruct (slot_pair probe nm slot root) as [c|] eqn:Ec.
  - right. destruct (_ && _) eqn:Hc in E; [by subst r|].
    assert (Hcn : rn_path c ≠ ""%string) by (eapply Hne; [by left|done]).
    apply andb_false_iff in Hc.
    assert (Hold : t_path t ≠ ""%string -> t_device t = rn_device c /\ t_bytes t = rn_bytes c).
    { intros Ht. destruct Hc as [Hc|Hc]; bool_facts; done. }
    apply IH in E as [[-> Hnone]|(Hraw & Hre & Hnm & Hdev & (root' & c' & Hin & Hs & Hpath) & Hall)];
      [| |done|intros ?? Hin; apply Hne; by right].
    + simpl. split_and!; try done; [exists root, c; split; [by left|done]|].
      intros root' c' [->|Hin]%elem_of_cons Hs; [rewrite Ec in Hs; by injection Hs as <-|].
      by rewrite (Hnone _ Hin) in Hs.
    + simpl in *. specialize (Hdev Hcn) as [Hd1 Hd2]. split_and!; try done.
      * intros Ht. destruct (Hold Ht). split; congruence.
      * exists root', c'. split; [by right|done].
      * intros root'' c'' [->|Hin']%elem_of_cons Hs'; [|by eapply Hall].
        rewrite Ec in Hs'. by injection Hs' as <-.
  - apply IH in E as [[-> Hnone]|(? & ? & ? & ? & (root' & c' & Hin & Hs & Hpath) & Hall)];
      [| |done|intros ?? Hin; apply Hne; by right].
    + left. split; [done|]. by intros root' [->|Hin]%elem_of_cons; [|apply Hnone].
    + right. split_and!; try done; [exists root', c'; split; [by right|done]|].
      intros root'' c'' [->|Hin']%elem_of_cons Hs'; [congruence|by eapply Hall].
Qed.

(** DiscoverRawTarget only ever names a firmware partition of the current
    slot: the image name is allowed and not a protected one, the slot is A or
    B, the path is a probed node whose kernel partition name is the image
    name with the slot suffix and which differs from its sibling slot, and
    every alias root that resolves at all names the same device and size. *)
Theorem discover_raw_target_safe probe nm slot :
  (forall p c, probe p = Some c -> rn_path c ≠ ""%string) ->
  let t := DiscoverRawTarget probe nm slot in
  t_path t ≠ ""%string ->
  IsPartitionImageName nm = true /\ (nm ∉ protected_names) /\ (slot = "A" \/ slot = "B")%string /\
  t_raw t = true /\ t_device t ≠ 0 /\ t_bytes t ≠ 0 /\
  (exists root c, slot_pair probe nm slot root = Some c /\ rn_path c = t_path t /\
     rn_device c = t_device t /\
     rn_name c = (nm ++ if String.eqb slot "A" then "_a" else "_b")%string) /\
  (forall root c, root ∈ ["/dev/block/by-name/"; "/dev/block/bootdevice/by-name/"]%string ->
     slot_pair probe nm slot root = Some c -> rn_device c = t_device t /\ rn_bytes c = t_bytes t).
Proof.
  intros Hprobe t Hp. subst t. unfold DiscoverRawTarget in *.
  destruct (IsPartitionImageName nm) eqn:Hn; [|done]. cbn [negb] in *.
  destruct (negb _ && _) eqn:Hs; [done|].
  assert (forall root c, root ∈ ["/dev/block/by-name/"; "/dev/block/bootdevice/by-name/"]%string ->
    slot_pair probe nm slot root = Some c -> rn_path c ≠ ""%string) as Hne.
  { intros root c _. unfold slot_pair.
    destruct (probe _) as [a|] eqn:Ea; [|done]. destruct (probe (root ++ nm ++ "_b")%string) as [b|] eqn:Eb; [|done].
    destruct (_ || _); [done|]. destruct (String.eqb slot "A"); intros [= <-]; by eapply Hprobe. }
  destruct (discover_roots_spec _ _ _ _ _ _ eq_refl Hp Hne)
    as [[E _]|(Hraw & _ & _ & _ & (root & c & Hin & Hc & Hpath) & Hall)]; [by rewrite E in Hp|].
  destruct (Hall _ _ Hin Hc) as [Hd Hby]. destruct (slot_pair_spec _ _ _ _ _ Hc) as (Hnm & Hd0 & Hb0 & _).
  split_and!; try done.
  - intros Hprot. unfold IsPartitionImageName in Hn.
    destruct (_ || _) eqn:Hc' in Hn; [done|]. bool_facts.
    match goal with H : existsb _ _ = false |- _ =>
      rewrite <- not_true_iff_false, existsb_exists in H; apply H end.
    exists nm. split; [by apply list_elem_of_In|]. apply String.eqb_refl.
  - apply andb_false_iff in Hs as [Hs|Hs]; bool_facts; auto.
  - congruence.
  - congruence.
  - by exists root, c.
Qed.

Section WriteSound.
Context `{ShaStreamLaws}.
(** C4: WriteRawImage changes only the claimed descriptor and only its first
    [n] bytes, even when it fails; when it reports success the descriptor is
    the discovered device with the discovered size, the image fits, and the
    bytes now on the device, read back after a flush, hash to the digest in
    the manifest, whatever the kernel answered and even if writes were lost. *)
Theorem write_raw_image_sound h fd node target image n expected w r w' :
  0 <= n -> WriteRawImage h fd node target image n expected w = Some (r, w') ->
  only fd w w' /\ drop (Z.to_nat n) (content w' fd) = drop (Z.to_nat n) (content w fd) /\
  (r = None -> Geometry h fd node = Some (t_device target, t_bytes target) /\
     0 < n <= t_bytes target /\ n <= blen (content w' fd) /\
     SHA256 (take (Z.to_nat n) (content w' fd)) = expected).
Proof.
  intros Hn. unfold WriteRawImage.
  assert (forall e, (mret (Some e) : M (option string)) w = Some (r, w') ->
    only fd w w' /\ drop (Z.to_nat n) (content w' fd) = drop (Z.to_nat n) (content w fd) /\ r ≠ None)
    as Hfail by (intros e [= <- <-]; split; [apply only_refl|by split]).
  destruct (Geometry h fd node) as [[device bytes]|]; [|intros E; apply Hfail in E; tauto].
  destruct (negb _) eqn:Hc; [intros E; apply Hfail in E; tauto|]. bool_facts.
  destruct (os_open _ _) as [[source inode]|]; [|intros E; apply Hfail in E; tauto].
  destruct (node_stat inode) as [st|]; [|intros E; apply Hfail in E; tauto].
  destruct (negb (st_reg st) || _ || _); [intros E; apply Hfail in E; tauto|].
  intros (ok & w1 & E1 & E2)%mbind_Some.
  apply copy_loop_sound in E1 as [Ho Ht]; [|unfold write_chunk; lia|pose proof (blen_nonneg (content w fd)); lia|done].
  assert (Hd : drop (Z.to_nat n) (content w1 fd) = drop (Z.to_nat n) (content w fd)).
  { destruct Ht as (_ & _ & Hd). by rewrite Z.sub_0_r, Z.add_0_l in Hd. }
  destruct ok; simpl in E2; [|injection E2 as <- <-; by split].
  apply mbind_Some in E2 as (fl & w2 & E2 & E3). apply flush_files in E2.
  destruct fl; simpl in E3; [|injection E3 as <- <-; rewrite (content_files w1 w2 fd E2); split;
    [eapply only_trans; [done|by apply only_files]|by split]].
  apply verify_image_sound in E3 as [Ef3 Hv]; [|done].
  assert (Hfs : files w' = files w1) by congruence. rewrite (content_files w1 w' fd Hfs).
  split; [eapply only_trans; [done|by apply only_files]|]. split; [done|].
  intros Hr. destruct (Hv Hr) as (_ & Hl & Hh). rewrite (content_files w1 w2 fd E2) in *.
  subst. split; [congruence|]. split; [lia|]. split; [lia|done].
Qed.

(** Read-back decides exactly: on a device that answers every read
    (short and interrupted reads allowed) VerifyImageBytes terminates, and
    accepts precisely when the first [n] bytes hash to the expected digest,
    never looking at the tail of a larger partition. *)
Theorem verify_image_exact fd n expected w :
  0 <= fd -> 0 < n <= INT64_MAX -> blen expected = 32 -> n <= blen (content w fd) -> ready n w ->
  exists w', VerifyImageBytes fd n expected w =
    Some (if bool_decide (SHA256 (take (Z.to_nat n) (content w fd)) = expected)
          then None else Some mismatch, w') /\ files w' = files w.
Proof.
  intros Hfd Hn He Hl Hr. unfold VerifyImageBytes.
  destruct (_ || _) eqn:Hc; [impossible|].
  destruct (verify_loop_ready (length (answers w)) fd n 0 SHA256_Init w) as (ctx & w1 & E);
    [done|lia|done|by rewrite Z.sub_0_r|].
  pose proof E as E'. apply verify_loop_sound in E' as [Ef Hx]; [|lia].
  destruct (Hx _ eq_refl) as (chunks & -> & Hcat & _).
  unfold mbind, M_bind. rewrite E. exists w1. split; [|done].
  unfold mret, M_ret. rewrite sha_pieces, Hcat, Z.sub_0_r, slice_0. done.
Qed.
End WriteSound.

(** ** Concrete runs *)
#[local] Instance demo_sha : Sha256 := { SHA256 bytes := replicate 32 (u8 (foldr Z.add 0 bytes)) }.
#[local] Instance demo_stream : ShaStream := {
  sha_ctx := list Z; SHA256_Init := []; SHA256_Update := app; SHA256_Final := SHA256 }.
#[local] Instance demo_stream_laws : ShaStreamLaws demo_sha demo_stream.
Proof.
  split. intros chunks. f_equal.
  change (foldl app [] chunks = concat chunks).
  assert (forall acc : list Z, foldl app acc chunks = acc ++ concat chunks) as ->; [|done].
  induction chunks as [|c chunks IH]; intros acc; simpl; [by rewrite app_nil_r|].
  by rewrite IH, app_assoc.
Qed.
Definition demo_node : Node := MkNode (Some (MkStat true false 259 0)) (Some 4).
Definition demo_host : Host := MkHost
  (MkOs (fun p => Some p) (fun p => Some (8, MkNode (Some (MkStat false true 0 3)) None))
        (fun p => Some (3, demo_node)) (fun _ => true) (fun _ => true))
  (fun p => Some "1"%string) (fun _ => Some false) "error".
Definition demo_target : PayloadFlashTarget := MkFlashTarget "xbl" "/dev/block/sda1" 4 true 259 "".
Definition demo_write : World :=
  MkWorld [Upto 2; Upto 5; Intr; Upto 2; Upto 9; Upto 1; Upto 9] [true; true]
    (<[3 := [7; 7; 7; 7]]> {[8 := [1; 2; 3]]}).
Definition demo_written : World :=
  MkWorld [] [] (<[3 := [1; 2; 3; 7]]> {[8 := [1; 2; 3]]}).

Lemma write_raw_image_sound_witness :
  exists w', WriteRawImage demo_host 3 demo_node demo_target "/tmp/xbl.img" 3 (replicate 32 6) demo_write
    = Some (None, w') /\ SHA256 (take 3 (content w' 3)) = replicate 32 6.
Proof.
  destruct (WriteRawImage demo_host 3 demo_node demo_target "/tmp/xbl.img" 3 (replicate 32 6) demo_write)
    as [[[e|] w']|] eqn:E; [vm_compute in E; discriminate E| |vm_compute in E; discriminate E].
  exists w'. split; [reflexivity|].
  destruct (write_raw_image_sound demo_host 3 demo_node demo_target "/tmp/xbl.img" 3 (replicate 32 6)
    demo_write None w') as (_ & _ & H); [lia|exact E|].
  destruct (H eq_refl) as (_ & _ & _ & Hh). exact Hh.
Defined.

Lemma verify_image_exact_witness :
  exists w', VerifyImageBytes 3 3 (replicate 32 21) demo_write = Some (None, w').
Proof.
  destruct (verify_image_exact 3 3 (replicate 32 21) demo_write) as (w' & E & _);
    [lia|unfold INT64_MAX; lia|reflexivity|vm_compute; discriminate| |].
  - split; [|vm_compute; discriminate].
    repeat (apply Forall_cons; split; [simpl; lia || exact I|]); apply Forall_nil; exact I.
  - exists w'. rewrite E. vm_compute. reflexivity.
Defined.

Definition demo_probe (p : string) : option RawNode :=
  if String.eqb p "/dev/block/by-name/xbl_a" then Some (MkRawNode "/dev/block/sda1" "xbl_a" 4 259)
  else if String.eqb p "/dev/block/by-name/xbl_b" then Some (MkRawNode "/dev/block/sda2" "xbl_b" 4 260)
  else None.
Lemma discover_raw_target_safe_witness :
  t_path (DiscoverRawTarget demo_probe "xbl" "B") = "/dev/block/sda2"%string /\
  t_device (DiscoverRawTarget demo_probe "xbl" "B") ≠ 0.
Proof.
  split; [vm_compute; reflexivity|].
  destruct (discover_raw_target_safe demo_probe "xbl" "B") as (_ & _ & _ & _ & H & _);
    [|vm_compute; discriminate|exact H].
  intros p c. unfold demo_probe. destruct (String.eqb p _); [intros E; injection E as <-; discriminate|].
  destruct (String.eqb p _); [intros E; injection E as <-; discriminate|discriminate].
Defined.
