(* ===== verification/PayloadInfo.v ===== *)
(** aeraui/features/update/payload_inspector.hpp: what the inspection of a
    package reports about it. The inspectors (ImageZip, PayloadInspector) fill
    it in field by field, with coqutil's record updates; the planner
    (PayloadFlash) and the extractors read it. *)
From coqutil Require Export Datatypes.RecordSetters.
From stdpp Require Import base list strings.
From Stdlib Require Import ZArith.
From S2P Require Import Prelude.

Record ImageZipGroup := MkGroup { zg_name : string; maximum_bytes : Z }.
Record ImageZipPartition := MkZipPart { zp_name : string; zp_group : string; zp_attributes : Z }.
Record Partition := MkPart {
  p_name : string; p_bytes : Z; p_operations : Z; extractable : bool; extraction_error : string;
  sha256 : list Z; sparse : bool }.
Record Info := MkInfo {
  is_payload : bool; is_image_zip : bool; image_zip_requirements : string;
  image_zip_groups : list ImageZipGroup; image_zip_layout : list ImageZipPartition; valid : bool;
  incremental : bool; partial : bool; dynamic_partitions : bool; snapshots : bool;
  virtual_ab_compression : bool; payload_bytes : Z; expanded_bytes : Z; i_operations : Z; max_timestamp : Z;
  format_version : Z; i_minor_version : Z; target_device : string; target_build : string; build_id : string;
  device_codename : string; name_from_filename : bool; system_fingerprint : string; arb_available : bool;
  arb_index : Z; arb_detail : string; target_sdk : string; security_patch : string; operation_types : string;
  error : string; manifest_hash : list Z; parts : list Partition }.
(** A value-initialized [Info]. *)
Definition no_info : Info :=
  MkInfo false false ""%string [] [] false false false false false false 0 0 0 0 0 0
    ""%string ""%string ""%string ""%string false ""%string false 0 ""%string ""%string ""%string ""%string
    ""%string [] [].
Export DoubleBraceUpdate.
