(* ===== verification/PayloadFlash.v ===== *)
(** Flashing a whole payload: aeraui/features/update/payload_full_flash.hpp
    (the plan), payload_workers.hpp (the worker budget), payload_parallel.hpp
    (the progress store and the worker pool) and aera_image_flash_batch.hpp
    (the batch that owns stopped services).

    The worker pool is a transition system: [step] performs one action of the
    main thread or of a worker, and a schedule is any sequence of them. The
    floating-point progress bar is not modelled. *)
From stdpp Require Import base list strings gmap.
From Stdlib Require Import ZArith Lia.
From S2P Require Import Prelude CxxString PayloadTargets PayloadInfo.

(** ** The plan *)
(** The preservation settings: is the feature supported, is it switched on? *)
Record Preserve := MkPreserve { supported : bool; preferred : bool }.
Definition ProtectedPartitions (abl recovery splash : Preserve) : gset string :=
  (if supported abl && preferred abl then {["abl"%string]} else ∅) ∪
  (if supported recovery && preferred recovery then {["recovery"%string]} else ∅) ∪
  (if preferred splash && supported splash then {["splash"%string]} else ∅).

(** The three sets of the loop and the plan so far. *)
Record Plan := MkPlan {
  unique_names : gset string; unique_paths : gset string; raw_devices : gset Z;
  planned : list string }.
Definition find_target (targets : list PayloadFlashTarget) (nm : string) : option PayloadFlashTarget :=
  snd <$> list_find (fun t => t_name t = nm) targets.

(** One partition: the new plan, or the error. *)
Definition plan_one (targets : list PayloadFlashTarget) (protected : gset string)
    (p : Partition) (s : Plan) : string + Plan :=
  if bool_decide (p_name p ∈ unique_names s)
  then inl ("Duplicate payload partition: " ++ p_name p)%string
  else
  let s := MkPlan ({[p_name p]} ∪ unique_names s) (unique_paths s) (raw_devices s) (planned s) in
  if bool_decide (p_name p ∈ protected) then inr s
  else if negb (extractable p) || (p_bytes p =? 0) || negb (blen (sha256 p) =? 32)
  then inl ("Fast flash cannot process " ++ p_name p ++ ". Use normal installation.")%string
  else
  let unsafe := ("No safe flash target for " ++ p_name p ++ ". Use normal installation.")%string in
  match find_target targets (p_name p) with
  | None => inl unsafe
  | Some t =>
      if String.eqb (t_path t) "" || (t_raw t && ((t_bytes t <? p_bytes p) || (t_device t =? 0))) ||
         bool_decide (t_path t ∈ unique_paths s) ||
         (t_raw t && bool_decide (t_device t ∈ raw_devices s))
      then inl unsafe
      else inr (MkPlan (unique_names s) ({[t_path t]} ∪ unique_paths s)
                 (if t_raw t then {[t_device t]} ∪ raw_devices s else raw_devices s)
                 (planned s ++ [p_name p]))
  end.
Fixpoint plan_all (targets : list PayloadFlashTarget) (protected : gset string)
    (ps : list Partition) (s : Plan) : string + Plan :=
  match ps with
  | [] => inr s
  | p :: ps =>
      match plan_one targets protected p s with
      | inl e => inl e
      | inr s => plan_all targets protected ps s
      end
  end.
(** The names to flash, or the error; on error the caller's list is empty. *)
Definition PlanFullFlash (info : Info) (targets : list PayloadFlashTarget) (protected : gset string)
    : string + list string :=
  if negb (valid info) || negb (is_payload info) || incremental info ||
     match parts info with [] => true | _ => false end
  then inl "Fast flash requires a full, non-incremental OTA. Use normal installation."%string
  else match plan_all targets protected (parts info) (MkPlan ∅ ∅ ∅ []) with
  | inl e => inl e
  | inr s =>
      match planned s with
      | [] => inl "No unprotected payload images remain to flash."%string
      | names => inr names
      end
  end.

(** ** The worker budget *)
Definition WorkerBudget (ram available cpus : Z) : Z :=
  let reserve := Z.shiftl 512 20 in
  let per_worker := Z.shiftl 256 20 in
  let spare := if reserve <? available then available - reserve else 0 in
  let memory_limit := Z.max 1 (Z.min (ram / 2) spare / per_worker) in
  let cpu_limit := if cpus =? 0 then 1 else 2 * Z.min cpus 8 in
  Z.max 1 (Z.min cpu_limit (u32 (Z.min 16 memory_limit))).
(** The first line of /proc/meminfo that reads as "MemAvailable: <kib>". *)
Fixpoint mem_available (text : list string) : option Z :=
  match text with
  | [] => None
  | line :: rest =>
      match (k ← extract_word line; v ← extract_uint UINT64_MAX k.2; Some (k.1, v.1)) with
      | Some (key, kib) =>
          if String.eqb key "MemAvailable:" then Some kib else mem_available rest
      | None => mem_available rest
      end
  end.
(** The arguments are the three sysconf values and the text of
    /proc/meminfo, empty when it cannot be opened. *)
Definition AvailableWorkers (pages page_size cpus : Z) (meminfo : string) : Z :=
  let ram := if (0 <? pages) && (0 <? page_size) then u64 (pages * page_size) else 0 in
  let available := match mem_available (lines meminfo) with
                   | Some kib => u64 (kib * 1024)
                   | None => ram / 4
                   end in
  WorkerBudget ram available (if 0 <? cpus then u32 cpus else 1).

(** ** The progress store *)
Inductive PayloadPhase := Queued | Preparing | Writing | Written | Verifying | Verified | Failed | NotFlashed.
#[global] Instance PayloadPhase_eq_dec : EqDecision PayloadPhase.
Proof. solve_decision. Defined.
Record PartitionState := MkPartitionState { ps_name : string; ps_bytes : Z; ps_done : Z; ps_phase : PayloadPhase }.
Record FlashProgress := MkProgress { fp_available : bool; fp_lanes : Z; fp_parts : list PartitionState }.
Definition ProgressReset (s : FlashProgress) : FlashProgress := MkProgress false 1 [].
(** [None] when the byte list is shorter than the name list. *)
Fixpoint queue (names : list string) (bytes : list Z) : option (list PartitionState) :=
  match names, bytes with
  | [], _ => Some []
  | nm :: names, b :: bytes => rest ← queue names bytes; Some (MkPartitionState nm b 0 Queued :: rest)
  | _ :: _, [] => None
  end.
Definition ProgressBegin (names : list string) (bytes : list Z) (lanes : Z) (s : FlashProgress)
    : option FlashProgress :=
  MkProgress true lanes <$> queue names bytes.
(** vector::at throws when the index is out of range. *)
Definition ProgressSet (i : nat) (phase : PayloadPhase) (done : Z) (s : FlashProgress)
    : option FlashProgress :=
  p ← fp_parts s !! i;
  Some (MkProgress (fp_available s) (fp_lanes s)
    (<[i := MkPartitionState (ps_name p) (ps_bytes p) (Z.min done (ps_bytes p)) phase]> (fp_parts s))).
Definition finish_one (p : PartitionState) : PartitionState :=
  match ps_phase p with
  | Queued | Preparing => MkPartitionState (ps_name p) (ps_bytes p) (ps_done p) NotFlashed
  | _ => p
  end.
Definition ProgressFinish (s : FlashProgress) : FlashProgress :=
  MkProgress (fp_available s) (fp_lanes s) (map finish_one (fp_parts s)).

(** ** The batch *)
(** [active] is the shared flag; the operations act on a state [S]. The
    destructor of Cleanup clears the flag and restores on every path. *)
Definition RunImageFlashBatch {S : Type} (prepare operation : S -> bool * S) (restore : S -> S)
    (active : bool) (s : S) : bool * (bool * S) :=
  if active then (false, (active, s))
  else
  let '(ok, s) := prepare s in
  let '(ok, s) := if ok : bool then operation s else (false, s) in
  (ok, (false, restore s)).
Definition RunPreparedImageFlashBatch {S : Type} (prepare operation : S -> bool * S) (restore : S -> S)
    (writer_started : S -> bool) (rollback : S -> S) (active : bool) (s : S) : bool * (bool * S) :=
  RunImageFlashBatch prepare
    (fun s => let '(ok, s) := operation s in
              (ok, if negb ok && negb (writer_started s) then rollback s else s))
    restore active s.

(** ** The worker pool *)
Inductive Thread := Waiting | Working (i : nat) | Exited.
#[global] Instance Thread_eq_dec : EqDecision Thread.
Proof. solve_decision. Defined.
(** Where the main thread is. *)
Inductive Main := Creating | Releasing | Joining | Returned (ok : bool).
Record Pool := MkPool {
  main : Main; released : bool; failed : bool; next : nat; threads : list Thread }.
Definition new_pool : Pool := MkPool Creating false false 0 [].
(** pthread_create succeeds or fails; the main thread goes on; worker [t] acts. *)
Inductive Action := CreateOk | CreateFails | MainStep | Worker (t : nat).

Section Pool.
Variables (count lanes : nat) (work : nat -> bool).
Definition step (a : Action) (s : Pool) : option Pool :=
  match a, main s with
  | CreateOk, Creating =>
      if decide (length (threads s) < Nat.min lanes count)%nat
      then Some (MkPool Creating (released s) (failed s) (next s) (threads s ++ [Waiting])) else None
  | CreateFails, Creating =>
      if decide (length (threads s) < Nat.min lanes count)%nat
      then Some (MkPool Releasing (released s) true (next s) (threads s)) else None
  | MainStep, Creating =>
      if decide (length (threads s) < Nat.min lanes count)%nat then None
      else Some (MkPool Releasing (released s) (failed s) (next s) (threads s))
  | MainStep, Releasing => Some (MkPool Joining true (failed s) (next s) (threads s))
  | MainStep, Joining =>
      if decide (Forall (fun t => t = Exited) (threads s))
      then Some (MkPool (Returned (negb (failed s))) (released s) (failed s) (next s) (threads s))
      else None
  | Worker t, _ =>
      match threads s !! t with
      | Some Waiting =>
          if negb (released s) then None
          else if failed s || bool_decide (next s = count)
          then Some (MkPool (main s) (released s) (failed s) (next s) (<[t := Exited]> (threads s)))
          else Some (MkPool (main s) (released s) (failed s) (S (next s))
                       (<[t := Working (next s)]> (threads s)))
      | Some (Working i) =>
          if work i
          then Some (MkPool (main s) (released s) (failed s) (next s) (<[t := Waiting]> (threads s)))
          else Some (MkPool (main s) (released s) true (next s) (<[t := Exited]> (threads s)))
      | _ => None
      end
  | _, _ => None
  end.
(** The state after a schedule; an action that is not enabled is skipped. *)
Definition run (schedule : list Action) (s : Pool) : Pool :=
  fold_left (fun s a => default s (step a s)) schedule s.
(** RunParallelImages returns false at once when there is nothing to do. *)
Definition RunParallelImages (schedule : list Action) : option bool :=
  if decide (count = 0%nat \/ lanes = 0%nat) then Some false
  else match main (run schedule new_pool) with Returned ok => Some ok | _ => None end.
End Pool.

(** ** Invariant of the pool *)
Section PoolLemmas.
Variables (count lanes : nat) (work : nat -> bool).
Record pool_ok (s : Pool) : Prop := MkPoolOk {
  po_next : (next s <= count)%nat;
  po_working t i : threads s !! t = Some (Working i) -> (i < next s)%nat;
  po_distinct t t' i : threads s !! t = Some (Working i) -> threads s !! t' = Some (Working i) -> t = t';
  po_held : released s = false -> next s = 0%nat /\ forall t x, threads s !! t = Some x -> x = Waiting;
  po_main : match main s with
            | Creating => released s = false /\ failed s = false /\ (length (threads s) <= Nat.min lanes count)%nat
            | Releasing => released s = false
            | Joining => released s = true
            | Returned ok => released s = true /\ ok = negb (failed s) /\
                             Forall (fun t => t = Exited) (threads s)
            end;
  po_created : main s ≠ Creating -> failed s = true \/ length (threads s) = Nat.min lanes count;
  po_clean : failed s = false -> forall i, (i < next s)%nat ->
             work i = true \/ exists t, threads s !! t = Some (Working i);
  po_failed : failed s = true ->
    (next s = 0%nat /\ (length (threads s) < Nat.min lanes count)%nat) \/
    exists i, (i < next s)%nat /\ work i = false;
  po_exited t : threads s !! t = Some Exited -> failed s = true \/ next s = count;
  po_short : (length (threads s) < Nat.min lanes count)%nat -> next s = 0%nat
}.
Lemma new_pool_ok : pool_ok new_pool.
Proof. split; simpl; try done; lia. Qed.

(** The threads after one of them changed. *)
Lemma insert_thread (l : list Thread) t x y u v :
  l !! t = Some x -> <[t := y]> l !! u = Some v -> (u = t /\ v = y) \/ (u ≠ t /\ l !! u = Some v).
Proof.
  intros Ht Hu. destruct (decide (u = t)) as [->|Hne]; [left|right].
  - rewrite list_lookup_insert_eq in Hu by (by eapply lookup_lt_Some). by injection Hu as <-.
  - by rewrite list_lookup_insert_ne in Hu.
Qed.
Lemma main_released s : pool_ok s -> released s = true -> main s ≠ Creating /\ main s ≠ Releasing.
Proof. intros Hs Hr. pose proof (po_main _ Hs) as Hm. destruct (main s); [destruct Hm|..]; split; congruence. Qed.
Lemma not_returned s t x : pool_ok s -> threads s !! t = Some x -> x ≠ Exited ->
  forall ok, main s ≠ Returned ok.
Proof.
  intros Hs Ht Hx ok Hm. pose proof (po_main _ Hs) as H. rewrite Hm in H.
  destruct H as (_ & _ & H). rewrite Forall_lookup in H. by apply Hx, (H t).
Qed.

Lemma dequeue_ok s t :
  pool_ok s -> threads s !! t = Some Waiting -> released s = true -> failed s = false -> next s ≠ count ->
  pool_ok (MkPool (main s) (released s) (failed s) (S (next s)) (<[t := Working (next s)]> (threads s))).
Proof.
  intros Hs Ht Hr Hf Hn. pose proof (po_next _ Hs).
  destruct (main_released _ Hs Hr) as [Hm1 Hm2]. pose proof (not_returned _ _ _ Hs Ht) as Hm3.
  split; simpl; try congruence.
  - lia.
  - intros u i Hu. destruct (insert_thread _ _ _ _ _ _ Ht Hu) as [[_ [= ->]]|[_ Hu']]; [lia|].
    pose proof (po_working _ Hs _ _ Hu'). lia.
  - intros u u' i Hu Hu'.
    destruct (insert_thread _ _ _ _ _ _ Ht Hu) as [[-> E]|[_ Hv]],
      (insert_thread _ _ _ _ _ _ Ht Hu') as [[-> E']|[_ Hv']]; try done.
    + injection E as ->. pose proof (po_working _ Hs _ _ Hv'). lia.
    + injection E' as ->. pose proof (po_working _ Hs _ _ Hv). lia.
    + by eapply (po_distinct _ Hs).
  - pose proof (po_main _ Hs) as Hmain. destruct (main s) as [| | |ok] eqn:Em; [done|done|done|].
    by destruct (Hm3 ltac:(done) ok).
  - intros _. rewrite length_insert. by apply (po_created _ Hs).
  - intros _ i Hi. destruct (decide (i = next s)) as [->|Hne].
    + right. exists t. apply list_lookup_insert_eq. by eapply lookup_lt_Some.
    + destruct (po_clean _ Hs Hf i) as [|[u Hu]]; [lia|by left|right]. exists u.
      rewrite list_lookup_insert_ne; [done|]. intros <-. congruence.
  - intros u Hu. destruct (insert_thread _ _ _ _ _ _ Ht Hu) as [[_ [=]]|[_ Hu']].
    destruct (po_exited _ Hs _ Hu'); [congruence|]. lia.
  - rewrite length_insert. intros Hl. destruct (po_created _ Hs Hm1); [congruence|lia].
Qed.
Lemma exit_ok s t :
  pool_ok s -> threads s !! t = Some Waiting -> released s = true -> failed s = true \/ next s = count ->
  pool_ok (MkPool (main s) (released s) (failed s) (next s) (<[t := Exited]> (threads s))).
Proof.
  intros Hs Ht Hr Hf. pose proof (not_returned _ _ _ Hs Ht) as Hm3.
  destruct (main_released _ Hs Hr) as [Hm1 Hm2].
  split; simpl; try congruence; try (by destruct Hs).
  - intros u i Hu. destruct (insert_thread _ _ _ _ _ _ Ht Hu) as [[_ [=]]|[_ Hu']].
    by eapply (po_working _ Hs).
  - intros u u' i Hu Hu'.
    destruct (insert_thread _ _ _ _ _ _ Ht Hu) as [[_ [=]]|[_ Hv]],
      (insert_thread _ _ _ _ _ _ Ht Hu') as [[_ [=]]|[_ Hv']]. by eapply (po_distinct _ Hs).
  - pose proof (po_main _ Hs) as Hmain. destruct (main s) as [| | |ok] eqn:Em; [done|done|done|].
    by destruct (Hm3 ltac:(done) ok).
  - intros _. rewrite length_insert. by apply (po_created _ Hs).
  - intros Hfl i Hi. destruct (po_clean _ Hs Hfl i Hi) as [|[u Hu]]; [by left|right]. exists u.
    rewrite list_lookup_insert_ne; [done|]. intros <-. congruence.
  - intros Hfl. rewrite length_insert. by apply (po_failed _ Hs).
  - rewrite length_insert. apply (po_short _ Hs).
Qed.
Lemma work_done_ok s t i :
  pool_ok s -> threads s !! t = Some (Working i) ->
  pool_ok (if work i
    then MkPool (main s) (released s) (failed s) (next s) (<[t := Waiting]> (threads s))
    else MkPool (main s) (released s) true (next s) (<[t := Exited]> (threads s))).
Proof.
  intros Hs Ht. pose proof (not_returned _ _ _ Hs Ht) as Hm3.
  assert (released s = true) as Hr.
  { destruct (released s) eqn:Hr; [done|]. destruct (po_held _ Hs Hr) as [_ H].
    discriminate (H _ _ Ht). }
  destruct (main_released _ Hs Hr) as [Hm1 Hm2]. pose proof (po_working _ Hs _ _ Ht) as Hi.
  set (y := if work i then Waiting else Exited).
  assert (forall u j, <[t := y]> (threads s) !! u = Some (Working j) ->
    threads s !! u = Some (Working j) /\ u ≠ t) as Hold.
  { intros u j Hu. destruct (insert_thread _ _ _ _ _ _ Ht Hu) as [[_ E]|[? ?]]; [|done].
    unfold y in E. by destruct (work i). }
  destruct (work i) eqn:Hw; split; simpl; try congruence; try (by destruct Hs).
  all: try (by intros u j [Hu _]%Hold; eapply (po_working _ Hs)).
  all: try (by intros u u' j [Hu _]%Hold [Hu' _]%Hold; eapply (po_distinct _ Hs)).
  all: try (pose proof (po_main _ Hs) as Hmain; destruct (main s) as [| | |ok] eqn:Em;
            [done|done|done|by destruct (Hm3 ltac:(done) ok)]).
  all: try (intros _; rewrite length_insert; first [by left | by apply (po_created _ Hs)]).
  - intros Hfl j Hj. destruct (po_clean _ Hs Hfl j Hj) as [|[u Hu]]; [by left|].
    destruct (decide (u = t)) as [->|Hne]; [left; congruence|right].
    exists u. by rewrite list_lookup_insert_ne.
  - intros Hfl. rewrite length_insert. by apply (po_failed _ Hs).
  - intros u Hu. destruct (insert_thread _ _ _ _ _ _ Ht Hu) as [[_ E]|[_ ?]];
      [unfold y in E; congruence|by eapply (po_exited _ Hs)].
  - rewrite length_insert. apply (po_short _ Hs).
  - intros _. right. by exists i.
  - by left.
  - rewrite length_insert. apply (po_short _ Hs).
Qed.

Lemma step_ok a s s' : pool_ok s -> step count lanes work a s = Some s' -> pool_ok s'.
Proof.
  intros Hs E. pose proof (po_main _ Hs) as Hm. pose proof (po_held _ Hs) as Hh.
  destruct a as [| | |t]; cbn [step] in E.
  4: { destruct (threads s !! t) as [[|i|]|] eqn:Ht; [| |done..].
       - destruct (released s) eqn:Hr; simpl in E; [|done].
         destruct (failed s || _) eqn:Hc; injection E as <-; rewrite <- Hr.
         + apply exit_ok; [done..|]. apply orb_true_iff in Hc as [Hc|Hc]; bool_facts; auto.
         + bool_facts. apply dequeue_ok; done.
       - pose proof (work_done_ok s t i Hs Ht) as Hd. destruct (work i); by injection E as <-. }
  all: destruct (main s) as [| | |ok] eqn:Em; try done; repeat case_decide; try done; injection E as <-.
  - destruct Hm as (Hr & Hf & Hl). destruct (Hh Hr) as [Hn Hw].
    assert (forall t x, (threads s ++ [Waiting]) !! t = Some x -> x = Waiting) as Hall.
    { intros t x [Hx|[_ Hx]]%lookup_app_Some; [by eapply Hw|].
      by apply list_lookup_singleton_Some in Hx as [_ <-]. }
    split; simpl; try done; try congruence; try lia.
    + by intros t i Ht%Hall.
    + by intros t u i Ht%Hall.
    + rewrite length_app. simpl. split; [done|]. split; [done|lia].
    + intros t Ht. by apply Hall in Ht.
  - destruct Hm as (Hr & Hf & Hl). destruct (Hh Hr) as [Hn Hw]. destruct Hs.
    split; simpl; try done; try congruence; try (by left).
  - destruct Hm as (Hr & Hf & Hl). destruct Hs. split; simpl; try done. intros _. right. lia.
  - destruct (Hh Hm) as [Hn Hw]. destruct Hs. split; simpl; try done. intros _. apply po_created0. congruence.
  - destruct Hs. split; simpl; try done. intros _. apply po_created0. congruence.
Qed.
Lemma run_ok schedule s : pool_ok s -> pool_ok (run count lanes work schedule s).
Proof.
  revert s. induction schedule as [|a schedule IH]; intros s Hs; [done|]. simpl. apply IH.
  destruct (step count lanes work a s) as [s'|] eqn:E; [|done]. by eapply step_ok.
Qed.

(** Every action that can happen brings the pool closer to its end. *)
Definition thread_weight (t : Thread) : nat :=
  match t with Waiting => 1 | Working _ => 2 | Exited => 0 end.
Definition pool_measure (s : Pool) : nat :=
  match main s with
  | Creating => 3 + 2 * (Nat.min lanes count - length (threads s))
  | Releasing => 2 | Joining => 1 | Returned _ => 0
  end + sum_list_with thread_weight (threads s) + 2 * (count - next s).
Lemma weight_insert l t x y : l !! t = Some x ->
  (sum_list_with thread_weight (<[t := y]> l) + thread_weight x =
   sum_list_with thread_weight l + thread_weight y)%nat.
Proof.
  revert t. induction l as [|z l IH]; intros [|t] Ht; simpl in *; try done.
  - injection Ht as ->. lia.
  - specialize (IH _ Ht). simpl in *. lia.
Qed.
Lemma step_measure a s s' : pool_ok s -> step count lanes work a s = Some s' ->
  (pool_measure s' < pool_measure s)%nat.
Proof.
  intros Hs E. pose proof (po_next _ Hs). destruct a as [| | |t]; cbn [step] in E.
  4: { destruct (threads s !! t) as [[|i|]|] eqn:Ht; [| |done..].
       - pose proof (weight_insert _ _ _ Exited Ht). pose proof (weight_insert _ _ _ (Working (next s)) Ht).
         destruct (negb _); [done|]. destruct (failed s || _) eqn:Hc; injection E as <-;
           unfold pool_measure; simpl in *; rewrite length_insert; bool_facts; destruct (main s); lia.
       - pose proof (weight_insert _ _ _ Waiting Ht). pose proof (weight_insert _ _ _ Exited Ht).
         destruct (work i); injection E as <-; unfold pool_measure; simpl in *; rewrite length_insert;
           destruct (main s); lia. }
  all: destruct (main s) as [| | |ok] eqn:Em; try done; repeat case_decide; try done; injection E as <-;
    unfold pool_measure; rewrite ?Em; simpl; rewrite ?sum_list_with_app, ?length_app; simpl; lia.
Qed.
(** A pool that has not returned can always act. *)
Lemma pool_progress s : pool_ok s -> (forall ok, main s ≠ Returned ok) ->
  exists a s', step count lanes work a s = Some s'.
Proof.
  intros Hs Hn. destruct (main s) as [| | |ok] eqn:Em; [| | |by destruct (Hn ok)].
  - destruct (decide (length (threads s) < Nat.min lanes count)%nat) as [Hlt|Hge].
    + exists CreateOk. unfold step. rewrite Em, decide_True by done. by eexists.
    + exists MainStep. unfold step. rewrite Em, decide_False by done. by eexists.
  - exists MainStep. unfold step. rewrite Em. by eexists.
  - destruct (decide (Forall (fun t => t = Exited) (threads s))) as [Hall|Hnot].
    { exists MainStep. unfold step. rewrite Em, decide_True by done. by eexists. }
    apply not_Forall_Exists in Hnot; [|apply _].
    apply Exists_exists in Hnot as (x & (t & Ht)%list_elem_of_lookup & Hx).
    pose proof (po_main _ Hs) as Hr. rewrite Em in Hr.
    exists (Worker t). unfold step. rewrite Em, Ht. destruct x as [|i|]; [| |by destruct Hx].
    + rewrite Hr. simpl. destruct (failed s || _); by eexists.
    + destruct (work i); by eexists.
Qed.
End PoolLemmas.

(** The sequences of actions of the pool. *)
Definition pool_step (count lanes : nat) (work : nat -> bool) (s s' : Pool) : Prop :=
  exists a, step count lanes work a s = Some s'.

(** Whatever the schedule, workers never overlap: no image is dequeued
    before every thread exists, two workers never hold the same image, an
    image being written was dequeued exactly by its worker, and when a
    thread could not be created nothing is ever written. *)
Theorem parallel_images_safe count lanes work schedule :
  let s := run count lanes work schedule new_pool in
  (forall t t' i, threads s !! t = Some (Working i) -> threads s !! t' = Some (Working i) -> t = t') /\
  (forall t i, threads s !! t = Some (Working i) -> (i < next s <= count)%nat) /\
  (length (threads s) < Nat.min lanes count -> next s = 0)%nat.
Proof.
  cbn zeta. pose proof (run_ok count lanes work schedule _ (new_pool_ok count lanes work)) as Hs.
  set (s := run _ _ _ _ _) in *. split; [apply (po_distinct _ _ _ _ Hs)|]. split.
  - intros t i Ht. pose proof (po_working _ _ _ _ Hs _ _ Ht). pose proof (po_next _ _ _ _ Hs). lia.
  - apply (po_short _ _ _ _ Hs).
Qed.

(** C8: when RunParallelImages returns, every worker has been joined; it
    returns true only if there was something to do, every image was dequeued
    and every task succeeded, and false only if there was nothing to do, a
    thread could not be created (and then no task ran), or a task failed. *)
Theorem parallel_images_result count lanes work schedule ok :
  RunParallelImages count lanes work schedule = Some ok ->
  let s := run count lanes work schedule new_pool in
  if ok
  then (0 < count)%nat /\ Forall (fun t => t = Exited) (threads s) /\ next s = count /\
       forall i, (i < count)%nat -> work i = true
  else count = 0%nat \/ lanes = 0%nat \/
       (Forall (fun t => t = Exited) (threads s) /\
        (next s = 0%nat \/ exists i, (i < next s)%nat /\ work i = false)).
Proof.
  intros E. cbn zeta. unfold RunParallelImages in E.
  pose proof (run_ok count lanes work schedule _ (new_pool_ok count lanes work)) as Hs.
  set (s := run _ _ _ _ _) in *. destruct (decide _) as [Hz|Hz]; [injection E as <-; tauto|].
  pose proof (po_main _ _ _ _ Hs) as Hm. pose proof (po_created _ _ _ _ Hs) as Hc.
  destruct (main s) as [| | |b] eqn:Em; try done. injection E as ->.
  destruct Hm as (Hr & -> & Hex). specialize (Hc ltac:(done)).
  destruct (failed s) eqn:Hf; simpl.
  - right. right. split; [done|]. destruct (po_failed _ _ _ _ Hs Hf) as [[? _]|?]; auto.
  - destruct Hc as [?|Hc]; [done|]. rewrite Forall_lookup in Hex.
    destruct (threads s) as [|x l] eqn:Et; [simpl in Hc; lia|].
    assert (x = Exited) as -> by by apply (Hex 0%nat).
    destruct (po_exited _ _ _ _ Hs 0%nat) as [?|Hn]; [by rewrite Et|congruence|].
    split; [lia|]. split; [by apply Forall_lookup|]. split; [done|]. intros i Hi.
    destruct (po_clean _ _ _ _ Hs Hf i) as [|[t Ht]]; [lia|done|]. rewrite Et in Ht.
    discriminate (Hex _ _ Ht).
Qed.

(** The pool always finishes: no execution is longer than a fixed bound,
    and an execution that has not returned can always take another step, so
    every maximal execution ends by returning, without deadlock. *)
Theorem parallel_images_terminate count lanes work n s :
  nsteps (pool_step count lanes work) n new_pool s ->
  (n <= 3 + 2 * Nat.min lanes count + 2 * count)%nat /\
  ((exists ok, main s = Returned ok) \/ exists s', pool_step count lanes work s s').
Proof.
  assert (forall n s0 s1, nsteps (pool_step count lanes work) n s0 s1 -> pool_ok count lanes work s0 ->
    pool_ok count lanes work s1 /\ (n + pool_measure count lanes s1 <= pool_measure count lanes s0)%nat) as H.
  { induction 1 as [|k x y z (a & Ha) _ IH]; intros Hx; [split; [done|lia]|].
    pose proof (step_measure _ _ _ _ _ _ Hx Ha).
    destruct (IH (step_ok _ _ _ _ _ _ Hx Ha)) as [? ?]. split; [done|lia]. }
  intros Hn. destruct (H _ _ _ Hn (new_pool_ok _ _ _)) as [Hs Hle].
  split; [unfold pool_measure, new_pool in Hle; simpl in Hle; lia|].
  destruct (main s) as [| | |b] eqn:Em; [right|right|right|left; by eexists].
  all: destruct (pool_progress _ _ _ s Hs) as (a & s' & Ha); [by rewrite Em|]; by exists s', a.
Qed.

(** A worker budget is between 1 and 16, uses at most two workers per
    CPU, and more than one worker only when the memory left after 512 MiB,
    and half of the RAM, hold 256 MiB for each. *)
Lemma worker_budget_bounds ram available cpus :
  is_u64 ram -> is_u64 available -> is_u32 cpus ->
  let b := WorkerBudget ram available cpus in
  1 <= b <= 16 /\ b <= Z.max 1 (2 * cpus) /\
  (1 < b -> b * (256 * 2 ^ 20) <= available - 512 * 2 ^ 20 /\ b * (256 * 2 ^ 20) <= ram / 2).
Proof.
  intros Hram Hav Hc. unfold WorkerBudget. cbn zeta.
  change (Z.shiftl 512 20) with (512 * 2 ^ 20). change (Z.shiftl 256 20) with (256 * 2 ^ 20).
  unfold_width. set (spare := if _ <? _ then _ else _).
  assert (Hs : 0 <= spare /\ (0 < spare -> spare = available - 512 * 2 ^ 20)).
  { unfold spare. destruct (Z.ltb_spec (512 * 2 ^ 20) available); lia. }
  assert (0 <= ram / 2) by (apply Z.div_pos; lia).
  set (q := Z.min (ram / 2) spare / (256 * 2 ^ 20)).
  assert (Hq : 0 <= q /\ q * (256 * 2 ^ 20) <= Z.min (ram / 2) spare).
  { split; [apply Z.div_pos; lia|]. rewrite Z.mul_comm. apply Z.mul_div_le. lia. }
  unwrap. destruct (Z.eqb_spec cpus 0); lia.
Qed.

(** ** The plan is safe *)
Definition pair_ok (targets : list PayloadFlashTarget) (x : Partition * PayloadFlashTarget) : Prop :=
  let (p, t) := x in
  find_target targets (p_name p) = Some t /\ extractable p = true /\ p_bytes p ≠ 0 /\
  blen (sha256 p) = 32 /\ t_path t ≠ ""%string /\
  (t_raw t = true -> p_bytes p <= t_bytes t /\ t_device t ≠ 0).
Definition raw_of (pairs : list (Partition * PayloadFlashTarget)) : list Z :=
  pairs ≫= fun x => if t_raw x.2 then [t_device x.2] else [].
Definition paths_of (pairs : list (Partition * PayloadFlashTarget)) : list string :=
  map (fun x => t_path x.2) pairs.
Record plan_ok (targets : list PayloadFlashTarget) (s : Plan)
    (pairs : list (Partition * PayloadFlashTarget)) : Prop := MkPlanOk {
  pl_planned : planned s = map (fun x => p_name x.1) pairs;
  pl_paths : forall q, q ∈ unique_paths s <-> q ∈ paths_of pairs;
  pl_raw : forall d, d ∈ raw_devices s <-> d ∈ raw_of pairs;
  pl_paths_nodup : NoDup (paths_of pairs);
  pl_raw_nodup : NoDup (raw_of pairs);
  pl_pairs : Forall (pair_ok targets) pairs
}.
Definition unprotected (protected : gset string) (ps : list Partition) : list Partition :=
  filter (fun p => p_name p ∉ protected) ps.

Lemma plan_one_ok targets protected p s s' pairs :
  plan_ok targets s pairs -> plan_one targets protected p s = inr s' ->
  (p_name p ∉ unique_names s) /\ unique_names s' = {[p_name p]} ∪ unique_names s /\
  exists new, plan_ok targets s' (pairs ++ new) /\ map fst new = unprotected protected [p].
Proof.
  intros Hs. unfold plan_one, unprotected. rewrite filter_cons, filter_nil.
  destruct (bool_decide (p_name p ∈ unique_names s)) eqn:Hdup; [done|]. bool_facts.
  destruct (bool_decide (p_name p ∈ protected)) eqn:Hp; bool_facts.
  { intros [= <-]. split; [done|]. split; [done|]. exists []. rewrite app_nil_r, decide_False by tauto.
    split; [|done]. destruct Hs. by split. }
  destruct (negb _ || _ || _) eqn:Hc; [done|]. bool_facts.
  destruct (find_target targets (p_name p)) as [t|] eqn:Ht; [|done]. cbn [unique_paths raw_devices].
  destruct (_ || _) eqn:Hc2; [done|]. bool_facts. intros [= <-]. split; [done|]. split; [done|].
  exists [(p, t)]. rewrite decide_True by done. split; [|done].
  assert (Hraw : t_raw t = true -> p_bytes p <= t_bytes t /\ t_device t ≠ 0 /\ t_device t ∉ raw_devices s).
  { intros Hr. rewrite Hr in *. simpl in *. bool_facts. done. }
  destruct Hs as [Hp1 Hp2 Hp3 Hp4 Hp5 Hp6]. unfold paths_of, raw_of in *.
  split; unfold paths_of, raw_of; simpl.
  - by rewrite Hp1, map_app.
  - intros q. rewrite map_app, elem_of_union, elem_of_app, elem_of_singleton, Hp2. simpl.
    rewrite list_elem_of_singleton. tauto.
  - intros d. rewrite bind_app, elem_of_app, <- Hp3. simpl. rewrite app_nil_r.
    destruct (t_raw t); [rewrite elem_of_union, elem_of_singleton, list_elem_of_singleton; tauto|].
    rewrite elem_of_nil. tauto.
  - rewrite map_app. apply NoDup_app. split; [done|]. split; [|apply NoDup_singleton].
    intros q Hq ->%list_elem_of_singleton. by apply Hp2 in Hq.
  - rewrite bind_app. apply NoDup_app. split; [done|]. simpl. rewrite app_nil_r.
    destruct (t_raw t); [|split; [set_solver|constructor]].
    split; [|apply NoDup_singleton]. intros d Hd ->%list_elem_of_singleton.
    apply Hp3 in Hd. by apply Hraw.
  - apply Forall_app. split; [done|]. apply Forall_singleton. simpl.
    split_and!; try done. intros Hr. by destruct (Hraw Hr) as (? & ? & _).
Qed.
Lemma plan_all_ok targets protected ps : forall s s' pairs,
  plan_ok targets s pairs -> plan_all targets protected ps s = inr s' ->
  NoDup (map p_name ps) /\ (forall p, p ∈ ps -> p_name p ∉ unique_names s) /\
  exists new, plan_ok targets s' (pairs ++ new) /\ map fst new = unprotected protected ps.
Proof.
  induction ps as [|p ps IH]; intros s s' pairs Hs E; cbn [plan_all] in E.
  { injection E as <-. split; [constructor|]. split; [set_solver|]. exists []. by rewrite app_nil_r. }
  destruct (plan_one targets protected p s) as [e|s1] eqn:E1; [done|].
  destruct (plan_one_ok _ _ _ _ _ _ Hs E1) as (Hnew & Hu & new1 & Hs1 & Hf1).
  destruct (IH _ _ _ Hs1 E) as (Hnd & Hall & new2 & Hs2 & Hf2).
  split; [|split].
  - constructor; [|done]. intros (q & Heq & Hq)%list_elem_of_fmap_1.
    apply (Hall q Hq). rewrite Hu. set_solver.
  - intros q [->|Hq]%elem_of_cons; [done|]. specialize (Hall q Hq). rewrite Hu in Hall. set_solver.
  - exists (new1 ++ new2). rewrite app_assoc. split; [done|].
    rewrite map_app, Hf1, Hf2. unfold unprotected. by rewrite <- filter_app.
Qed.

Lemma plan_full_flash_ok info targets protected names :
  PlanFullFlash info targets protected = inr names ->
  valid info = true /\ is_payload info = true /\ incremental info = false /\ names ≠ [] /\
  NoDup (map p_name (parts info)) /\
  exists pairs, map fst pairs = unprotected protected (parts info) /\
    names = map (fun x => p_name x.1) pairs /\ Forall (pair_ok targets) pairs /\
    NoDup (paths_of pairs) /\ NoDup (raw_of pairs).
Proof.
  unfold PlanFullFlash. destruct (_ || _) eqn:Hc; [done|]. bool_facts.
  destruct (plan_all _ _ _ _) as [e|s] eqn:E; [done|].
  assert (plan_ok targets (MkPlan ∅ ∅ ∅ []) []) as Hp0.
  { split; simpl; [done|set_solver|set_solver|constructor|constructor|constructor]. }
  destruct (plan_all_ok _ _ _ _ _ _ Hp0 E) as (Hnd & _ & pairs & [Hp1 _ _ Hp4 Hp5 Hp6] & Hf).
  destruct (planned s) as [|nm names'] eqn:Hp; [done|]. intros [= <-].
  split_and!; try done. exists pairs. split_and!; done.
Qed.
(** A full-flash plan contains exactly the unprotected partitions of a
    full, non-incremental payload, in payload order and each once; every one
    is extractable, non-empty and has a SHA-256 digest and a target, fits a
    raw target, and no two share a path or a raw device. *)
Theorem plan_full_flash_safe info targets protected names :
  PlanFullFlash info targets protected = inr names ->
  valid info = true /\ is_payload info = true /\ incremental info = false /\ names ≠ [] /\
  NoDup (map p_name (parts info)) /\
  exists pairs, map fst pairs = unprotected protected (parts info) /\
    names = map (fun x => p_name x.1) pairs /\ Forall (pair_ok targets) pairs /\
    NoDup (paths_of pairs) /\ NoDup (raw_of pairs).
Proof. apply plan_full_flash_ok. Qed.

(** The batch never nests and always cleans up: with the flag already
    set nothing runs; otherwise the flag is clear afterwards and restore ran
    exactly once, last, after a failed preparation too; the operation runs
    only after a successful preparation, and rollback only when the operation
    failed before any writer started. *)
Lemma flash_batch_cleanup {S : Type} (prepare operation : S -> bool * S) (restore rollback : S -> S)
    (started : S -> bool) active s :
  RunPreparedImageFlashBatch prepare operation restore started rollback active s =
  if active then (false, (true, s))
  else
    let (prepared, s1) := prepare s in
    if prepared
    then let (ok, s2) := operation s1 in
         (ok, (false, restore (if ok then s2 else if started s2 then s2 else rollback s2)))
    else (false, (false, restore s1)).
Proof.
  unfold RunPreparedImageFlashBatch, RunImageFlashBatch. destruct active; [done|].
  destruct (prepare s) as [[] s1]; [|done]. destruct (operation s1) as [[] s2]; [done|].
  simpl. by destruct (started s2).
Qed.

(** ** The progress store never shows more than a partition holds *)
Definition progress_ok (s : FlashProgress) : Prop :=
  Forall (fun p => 0 <= ps_done p <= ps_bytes p) (fp_parts s).
Lemma progress_begin_ok names bytes lanes s s' :
  Forall (fun b => 0 <= b) bytes -> ProgressBegin names bytes lanes s = Some s' ->
  progress_ok s' /\ map ps_name (fp_parts s') = names.
Proof.
  unfold ProgressBegin, progress_ok. intros Hb. destruct (queue names bytes) as [l|] eqn:E; [|done].
  simpl. intros [= <-]. simpl. revert bytes l Hb E.
  induction names as [|nm names IH]; intros [|b bytes] l Hb E; simpl in E; try done;
    try (injection E as <-; by split).
  destruct (queue names bytes) as [rest|] eqn:Er; [|done]. injection E as <-.
  apply Forall_cons in Hb as [Hb0 Hb]. destruct (IH _ _ Hb Er) as [? <-]. split; [|done].
  constructor; [simpl; lia|done].
Qed.
Lemma progress_set_ok i phase done s s' :
  0 <= done -> progress_ok s -> ProgressSet i phase done s = Some s' -> progress_ok s'.
Proof.
  unfold ProgressSet, progress_ok. intros Hd Hs E.
  destruct (fp_parts s !! i) as [p|] eqn:Ep; [|discriminate E]. injection E as <-.
  apply Forall_insert; [done|]. rewrite Forall_lookup in Hs. specialize (Hs _ _ Ep). simpl in *. lia.
Qed.
(** After Finish nothing is shown as still waiting. *)
Lemma progress_finish_ok s : progress_ok s ->
  progress_ok (ProgressFinish s) /\
  Forall (fun p => ps_phase p ≠ Queued /\ ps_phase p ≠ Preparing) (fp_parts (ProgressFinish s)).
Proof.
  unfold progress_ok. intros Hs. split; simpl; apply Forall_map.
  - eapply Forall_impl; [done|]. intros [? ? ? []]; done.
  - apply Forall_true. intros [? ? ? []]; done.
Qed.

(** ** Concrete runs *)
Definition demo_schedule : list Action :=
  [CreateOk; CreateOk; MainStep; MainStep; Worker 1; Worker 0; Worker 0; Worker 1; Worker 0;
   Worker 1; Worker 0; Worker 0; MainStep].
Lemma parallel_images_result_witness :
  RunParallelImages 3 2 (fun _ => true) demo_schedule = Some true /\
  next (run 3 2 (fun _ => true) demo_schedule new_pool) = 3%nat.
Proof.
  assert (E : RunParallelImages 3 2 (fun _ => true) demo_schedule = Some true) by (vm_compute; reflexivity).
  split; [exact E|].
  destruct (parallel_images_result 3 2 (fun _ => true) demo_schedule true E) as (_ & _ & Hn & _). exact Hn.
Defined.
Lemma parallel_images_terminate_witness :
  exists s, nsteps (pool_step 3 2 (fun _ => true)) 1 new_pool s /\ exists s', pool_step 3 2 (fun _ => true) s s'.
Proof.
  exists (MkPool Creating false false 0 [Waiting]).
  assert (E : nsteps (pool_step 3 2 (fun _ => true)) 1 new_pool (MkPool Creating false false 0 [Waiting])).
  { apply nsteps_once. exists CreateOk. vm_compute. reflexivity. }
  split; [exact E|].
  destruct (parallel_images_terminate 3 2 (fun _ => true) _ _ E) as [_ [[ok H]|H]]; [discriminate H|exact H].
Defined.
Definition demo_info : Info := no_info {{ is_payload := true; valid := true;
  parts := [MkPart "abl" 2 1 true "" (replicate 32 0) false; MkPart "xbl" 3 1 true "" (replicate 32 1) false] }}.
Definition demo_targets : list PayloadFlashTarget := [MkFlashTarget "xbl" "/dev/block/sda1" 4 true 259 ""].
Lemma plan_full_flash_safe_witness :
  PlanFullFlash demo_info demo_targets {["abl"%string]} = inr ["xbl"%string] /\
  NoDup (map p_name (parts demo_info)).
Proof.
  assert (E : PlanFullFlash demo_info demo_targets {["abl"%string]} = inr ["xbl"%string])
    by (vm_compute; reflexivity).
  split; [exact E|].
  destruct (plan_full_flash_safe demo_info demo_targets _ _ E) as (_ & _ & _ & _ & H & _). exact H.
Defined.
