(* ===== verification/Asn1.v ===== *)
(** otautil/asn1_decoder.cpp and the PKCS#7 extraction of otautil/verifier.cpp.

    A context is a pointer with the bytes that follow it and the length it
    may use; dereferencing past the bytes is [None]. *)
From stdpp Require Import base list strings gmap.
From Stdlib Require Import ZArith Lia.
From S2P Require Import Prelude Kernel.

Record asn1_context := MkCtx { p_ : list Z; length_ : Z; app_type_ : Z }.
Definition new_context (buffer : list Z) (len : Z) : asn1_context := MkCtx buffer len 0.

Definition kMaskConstructed : Z := 0xE0.
Definition kMaskTag : Z := 0x7F.
Definition kMaskAppType : Z := 0x1F.
Definition kTagOctetString : Z := 0x04.
Definition kTagOid : Z := 0x06.
Definition kTagSequence : Z := 0x30.
Definition kTagSet : Z := 0x31.
Definition kTagConstructed : Z := 0xA0.

Definition peek_byte (c : asn1_context) : option Z :=
  if length_ c =? 0 then Some (-1) else head (p_ c).
Definition get_byte (c : asn1_context) : option (Z * asn1_context) :=
  if length_ c =? 0 then Some (-1, c)
  else match p_ c with
  | byte :: rest => Some (byte, MkCtx rest (u64 (length_ c - 1)) (app_type_ c))
  | [] => None
  end.
Definition skip_bytes (num_skip : Z) (c : asn1_context) : bool * asn1_context :=
  if length_ c <? num_skip then (false, c)
  else (true, MkCtx (drop (Z.to_nat num_skip) (p_ c)) (length_ c - num_skip) (app_type_ c)).

Fixpoint length_octets (n : nat) (len : Z) (c : asn1_context) : option (option Z * asn1_context) :=
  match n with
  | O => Some (Some len, c)
  | S n =>
      r ← get_byte c;
      if r.1 =? -1 then Some (None, r.2)
      else length_octets n (u64 (u64 (Z.shiftl len 8) + r.1)) r.2
  end.
(** [None] inside: the function returned false. *)
Definition decode_length (c : asn1_context) : option (option Z * asn1_context) :=
  r ← get_byte c;
  let '(num_octets, c) := r in
  if num_octets =? -1 then Some (None, c)
  else if Z.land num_octets 0x80 =? 0 then Some (Some num_octets, c)
  else
  let num_octets := Z.land num_octets kMaskTag in
  if 8 <=? num_octets then Some (None, c)
  else length_octets (Z.to_nat num_octets) 0 c.

(** The new context of a constructed, sequence or set value; [None] inside
    is a null pointer. The parent stays behind the header. *)
Definition sub_context (app_type : Z) (c : asn1_context) : option (option asn1_context * asn1_context) :=
  r ← decode_length c;
  let '(len, c) := r in
  match len with
  | Some len => if length_ c <? len then Some (None, c)
                else Some (Some (MkCtx (p_ c) len app_type), c)
  | None => Some (None, c)
  end.
Definition asn1_constructed_get (c : asn1_context) : option (option asn1_context * asn1_context) :=
  r ← get_byte c;
  let '(type, c) := r in
  if (type =? -1) || negb (Z.land type kMaskConstructed =? kTagConstructed) then Some (None, c)
  else sub_context (Z.land type kMaskAppType) c.
Definition asn1_sequence_get (c : asn1_context) : option (option asn1_context * asn1_context) :=
  r ← get_byte c;
  if negb (Z.land r.1 kMaskTag =? kTagSequence) then Some (None, r.2) else sub_context 0 r.2.
Definition asn1_set_get (c : asn1_context) : option (option asn1_context * asn1_context) :=
  r ← get_byte c;
  if negb (Z.land r.1 kMaskTag =? kTagSet) then Some (None, r.2) else sub_context 0 r.2.
Definition asn1_constructed_type (c : asn1_context) : Z := app_type_ c.

(** Every turn of the loop consumes at least the tag byte. *)
Fixpoint skip_all_loop (fuel : nat) (c : asn1_context) : option (bool * asn1_context) :=
  byte ← peek_byte c;
  if negb (byte =? -1) && (Z.land byte kMaskConstructed =? kTagConstructed)
  then match fuel with
  | O => None
  | S fuel =>
      let c := (skip_bytes 1 c).2 in
      r ← decode_length c;
      match r with
      | (Some len, c) =>
          let '(ok, c) := skip_bytes len c in
          if negb ok then Some (false, c) else skip_all_loop fuel c
      | (None, c) => Some (false, c)
      end
  end
  else Some (negb (byte =? -1), c).
Definition asn1_constructed_skip_all (c : asn1_context) : option (bool * asn1_context) :=
  skip_all_loop (length (p_ c)) c.
Definition asn1_sequence_next (c : asn1_context) : option (bool * asn1_context) :=
  r ← get_byte c;
  if r.1 =? -1 then Some (false, r.2)
  else
  l ← decode_length r.2;
  match l with
  | (Some len, c) => Some (skip_bytes len c)
  | (None, c) => Some (false, c)
  end.
(** The bytes of the value are the first [length] bytes at the pointer. *)
Definition tagged_get (tag : Z) (c : asn1_context) : option (option (list Z * Z) * asn1_context) :=
  r ← get_byte c;
  if negb (r.1 =? tag) then Some (None, r.2)
  else
  l ← decode_length r.2;
  match l with
  | (Some len, c) =>
      if (len =? 0) || (length_ c <? len) then Some (None, c) else Some (Some (p_ c, len), c)
  | (None, c) => Some (None, c)
  end.
Definition asn1_oid_get := tagged_get kTagOid.
Definition asn1_octet_string_get := tagged_get kTagOctetString.

(** [n] calls of asn1_sequence_next joined by &&. *)
Fixpoint next_times (n : nat) (c : asn1_context) : option (bool * asn1_context) :=
  match n with
  | O => Some (true, c)
  | S n => r ← asn1_sequence_next c; if r.1 : bool then next_times n r.2 else Some r
  end.
(** The signature, or [None] inside when the function returns false. *)
Definition read_pkcs7 (pkcs7_der : list Z) (pkcs7_der_len : Z) : option (option (list Z)) :=
  r ← asn1_sequence_get (new_context pkcs7_der pkcs7_der_len);
  match r.1 with
  | None => Some None
  | Some pkcs7_seq =>
  r ← asn1_sequence_next pkcs7_seq;
  if negb r.1 then Some None
  else
  r ← asn1_constructed_get r.2;
  match r.1 with
  | None => Some None
  | Some signed_data_app =>
  r ← asn1_sequence_get signed_data_app;
  match r.1 with
  | None => Some None
  | Some signed_data_seq =>
  r ← next_times 3 signed_data_seq;
  if negb r.1 then Some None
  else
  r ← asn1_constructed_skip_all r.2;
  if negb r.1 then Some None
  else
  r ← asn1_set_get r.2;
  match r.1 with
  | None => Some None
  | Some sig_set =>
  r ← asn1_sequence_get sig_set;
  match r.1 with
  | None => Some None
  | Some sig_seq =>
  r ← next_times 4 sig_seq;
  if negb r.1 then Some None
  else
  r ← asn1_octet_string_get r.2;
  match r.1 with
  | None => Some None
  | Some (sig_der_ptr, sig_der_length) => Some <$> bytes_at sig_der_ptr 0 sig_der_length
  end end end end end end.

(** ** Memory safety *)
Record ctx_ok (c : asn1_context) : Prop := MkCtxOk {
  ctx_len : 0 <= length_ c <= blen (p_ c);
  ctx_width : length_ c < 2 ^ 64;
  ctx_bytes : bytes_ok (p_ c)
}.
(** A step from [c] to [c'] that reads [c] in bounds and moves forward. *)
Definition forward (c c' : asn1_context) : Prop :=
  ctx_ok c' /\ length_ c' <= length_ c /\ blen (p_ c') <= blen (p_ c).
Lemma forward_refl c : ctx_ok c -> forward c c.
Proof. intros. split; [done|]. lia. Qed.
Lemma forward_trans a b c : forward a b -> forward b c -> forward a c.
Proof. intros (_ & ? & ?) (? & ? & ?). split; [done|]. lia. Qed.
#[local] Hint Resolve forward_refl forward_trans : aera.

Lemma get_byte_ok c : ctx_ok c -> exists b c', get_byte c = Some (b, c') /\ forward c c' /\
  -1 <= b < 256 /\ (b ≠ -1 -> length_ c' = length_ c - 1 /\ blen (p_ c') = blen (p_ c) - 1).
Proof.
  intros [Hl Hw Hb]. unfold get_byte. destruct (Z.eqb_spec (length_ c) 0).
  { exists (-1), c. split; [done|]. split; [by apply forward_refl|]. split; [lia|done]. }
  destruct (p_ c) as [|b rest] eqn:Ep; [unfold blen in Hl; simpl in Hl; lia|].
  apply Forall_cons in Hb as [Hb0 Hb]. unfold is_byte in Hb0.
  assert (blen (b :: rest) = blen rest + 1) by (unfold blen; simpl length; lia).
  exists b. eexists. split; [done|]. unwrap. unfold forward. simpl. rewrite Ep.
  split; [split; [split; simpl; [lia|lia|done]|lia]|]. split; [lia|]. intros _. lia.
Qed.
Lemma skip_bytes_ok n c ok c' : ctx_ok c -> 0 <= n -> skip_bytes n c = (ok, c') -> forward c c'.
Proof.
  intros [Hl Hw Hb] Hn. unfold skip_bytes. destruct (Z.ltb_spec (length_ c) n); intros [= <- <-].
  { by apply forward_refl. }
  unfold forward. simpl. rewrite blen_drop by lia.
  split; [split; simpl; [rewrite blen_drop; lia|lia|by apply Forall_drop]|lia].
Qed.
Lemma length_octets_ok n : forall len c, ctx_ok c -> 0 <= len < 2 ^ 64 ->
  exists r c', length_octets n len c = Some (r, c') /\ forward c c' /\ (forall l, r = Some l -> 0 <= l < 2 ^ 64).
Proof.
  induction n as [|n IH]; intros len c Hc Hlen; cbn [length_octets].
  { exists (Some len), c. split; [done|]. split; [by apply forward_refl|]. by intros l [= <-]. }
  destruct (get_byte_ok c Hc) as (b & c1 & -> & Hf & Hb & _). rewrite some_bind. simpl.
  destruct (b =? -1); [exists None, c1; done|].
  destruct (IH (u64 (u64 (Z.shiftl len 8) + b)) c1) as (r & c2 & -> & Hf2 & Hr);
    [apply Hf|apply u64_range|]. exists r, c2. split; [done|]. split; [by eapply forward_trans|done].
Qed.
Lemma decode_length_ok c : ctx_ok c ->
  exists r c', decode_length c = Some (r, c') /\ forward c c' /\ (forall l, r = Some l -> 0 <= l < 2 ^ 64).
Proof.
  intros Hc. unfold decode_length. destruct (get_byte_ok c Hc) as (b & c1 & -> & Hf & Hb & _).
  rewrite some_bind. destruct (Z.eqb_spec b (-1)); [exists None, c1; done|].
  destruct (_ =? 0). { exists (Some b), c1. split; [done|]. split; [done|]. intros l [= <-]. lia. }
  destruct (8 <=? _); [exists None, c1; done|].
  destruct (length_octets_ok (Z.to_nat (Z.land b kMaskTag)) 0 c1) as (r & c2 & -> & Hf2 & Hr);
    [apply Hf|lia|]. exists r, c2. split; [done|]. split; [by eapply forward_trans|done].
Qed.
Lemma sub_context_ok t c : ctx_ok c -> exists r c', sub_context t c = Some (r, c') /\ forward c c' /\
  forall s, r = Some s -> ctx_ok s.
Proof.
  intros Hc. unfold sub_context. destruct (decode_length_ok c Hc) as (r & c1 & -> & Hf & Hr).
  rewrite some_bind. destruct r as [len|]; [|exists None, c1; done].
  specialize (Hr _ eq_refl). pose proof Hf as ([? ? ?] & _).
  destruct (Z.ltb_spec (length_ c1) len); [exists None, c1; done|].
  eexists _, c1. split; [done|]. split; [done|]. intros s [= <-]. split; simpl; [lia|lia|done].
Qed.
Definition get_ok (f : asn1_context -> option (option asn1_context * asn1_context)) : Prop :=
  forall c, ctx_ok c -> exists r c', f c = Some (r, c') /\ forward c c' /\ forall s, r = Some s -> ctx_ok s.
Lemma constructed_get_ok : get_ok asn1_constructed_get.
Proof.
  intros c Hc. unfold asn1_constructed_get. destruct (get_byte_ok c Hc) as (b & c1 & -> & Hf & _).
  rewrite some_bind. destruct (_ || _); [exists None, c1; done|].
  destruct (sub_context_ok (Z.land b kMaskAppType) c1) as (r & c2 & -> & Hf2 & Hr); [apply Hf|].
  exists r, c2. split; [done|]. split; [by eapply forward_trans|done].
Qed.
Lemma masked_get_ok tag : get_ok (fun c => r ← get_byte c;
  if negb (Z.land r.1 kMaskTag =? tag) then Some (None, r.2) else sub_context 0 r.2).
Proof.
  intros c Hc. destruct (get_byte_ok c Hc) as (b & c1 & -> & Hf & _).
  rewrite some_bind. simpl. destruct (negb _); [exists None, c1; done|].
  destruct (sub_context_ok 0 c1) as (r & c2 & -> & Hf2 & Hr); [apply Hf|].
  exists r, c2. split; [done|]. split; [by eapply forward_trans|done].
Qed.
Lemma sequence_get_ok : get_ok asn1_sequence_get.
Proof. exact (masked_get_ok kTagSequence). Qed.
Lemma set_get_ok : get_ok asn1_set_get.
Proof. exact (masked_get_ok kTagSet). Qed.
Definition next_ok (f : asn1_context -> option (bool * asn1_context)) : Prop :=
  forall c, ctx_ok c -> exists b c', f c = Some (b, c') /\ forward c c'.
Lemma sequence_next_ok : next_ok asn1_sequence_next.
Proof.
  intros c Hc. unfold asn1_sequence_next. destruct (get_byte_ok c Hc) as (b & c1 & -> & Hf & _).
  rewrite some_bind. simpl. destruct (b =? -1); [exists false, c1; done|].
  destruct (decode_length_ok c1) as (r & c2 & -> & Hf2 & Hr); [apply Hf|].
  rewrite some_bind. destruct r as [len|]; [|exists false, c2; split; [done|by eapply forward_trans]].
  destruct (skip_bytes len c2) as [ok c3] eqn:E. exists ok, c3. split; [done|].
  specialize (Hr _ eq_refl). apply skip_bytes_ok in E; [|apply Hf2|lia].
  eapply forward_trans; [done|]. by eapply forward_trans.
Qed.
Lemma next_times_ok n : next_ok (next_times n).
Proof.
  induction n as [|n IH]; intros c Hc; cbn [next_times].
  { exists true, c. split; [done|by apply forward_refl]. }
  destruct (sequence_next_ok c Hc) as (b & c1 & -> & Hf). rewrite some_bind. simpl.
  destruct b; [|by exists false, c1]. destruct (IH c1) as (b & c2 & -> & Hf2); [apply Hf|].
  exists b, c2. split; [done|by eapply forward_trans].
Qed.
Lemma skip_all_loop_ok fuel : forall c, ctx_ok c -> blen (p_ c) <= Z.of_nat fuel ->
  exists b c', skip_all_loop fuel c = Some (b, c') /\ forward c c'.
Proof.
  induction fuel as [|fuel IH]; intros c Hc Hfuel; cbn [skip_all_loop];
    (assert (exists b, peek_byte c = Some b /\ (length_ c = 0 -> b = -1)) as (b & -> & Hb0);
     [unfold peek_byte; pose proof (ctx_len c Hc); destruct (Z.eqb_spec (length_ c) 0); [by eexists|];
      destruct (p_ c) as [|x l]; [unfold blen in *; simpl in *; lia|by exists x]|]);
    rewrite some_bind;
    (destruct (negb (b =? -1) && _) eqn:Hcond; [|eexists _, c; split; [done|by apply forward_refl]]).
  - bool_facts. pose proof (ctx_len c Hc). pose proof (blen_nonneg (p_ c)). exfalso. apply H, Hb0. lia.
  - assert (Hlen : 1 <= length_ c).
    { bool_facts. pose proof (ctx_len c Hc). destruct (Z.eq_dec (length_ c) 0); [|lia]. tauto. }
    destruct (skip_bytes 1 c) as [ok1 c1] eqn:E1. simpl.
    pose proof (skip_bytes_ok 1 c ok1 c1 Hc ltac:(lia) E1) as Hf1.
    assert (Hp1 : blen (p_ c1) < blen (p_ c)).
    { unfold skip_bytes in E1. destruct (Z.ltb_spec (length_ c) 1); [lia|]. injection E1 as _ <-.
      simpl p_. pose proof (ctx_len c Hc). rewrite (blen_drop 1) by lia. lia. }
    destruct (decode_length_ok c1) as (r & c2 & -> & Hf2 & Hr); [apply Hf1|].
    rewrite some_bind. destruct r as [len|]; [|eexists _, c2; split; [done|by eapply forward_trans]].
    destruct (skip_bytes len c2) as [ok c3] eqn:E3. specialize (Hr _ eq_refl).
    apply skip_bytes_ok in E3 as Hf3; [|apply Hf2|lia].
    assert (forward c c3) by (eapply forward_trans; [done|]; by eapply forward_trans).
    destruct ok; simpl; [|by eexists _, c3].
    destruct (IH c3) as (b' & c4 & -> & Hf4); [apply Hf3|destruct Hf3 as (_ & _ & ?), Hf2 as (_ & _ & ?); lia|].
    exists b', c4. split; [done|by eapply forward_trans].
Qed.
Lemma skip_all_ok : next_ok asn1_constructed_skip_all.
Proof. intros c Hc. apply skip_all_loop_ok; [done|]. unfold blen. lia. Qed.
Lemma tagged_get_ok tag c : ctx_ok c -> exists r c', tagged_get tag c = Some (r, c') /\
  forall ptr len, r = Some (ptr, len) -> 0 <= len <= blen ptr /\ bytes_ok ptr.
Proof.
  intros Hc. unfold tagged_get. destruct (get_byte_ok c Hc) as (b & c1 & -> & Hf & _).
  rewrite some_bind. simpl. destruct (negb _); [exists None, c1; done|].
  destruct (decode_length_ok c1) as (r & c2 & -> & Hf2 & Hr); [apply Hf|]. rewrite some_bind.
  destruct r as [len|]; [|exists None, c2; done]. specialize (Hr _ eq_refl).
  destruct (_ || _) eqn:Hc2; [exists None, c2; done|]. bool_facts.
  eexists _, c2. split; [done|]. intros ptr l [= <- <-]. pose proof Hf2 as ([? ? ?] & _). split; [lia|done].
Qed.

(** Peel one call off a parser whose context is well formed. *)
Ltac asn1_get lemma c s Hs :=
  let r := fresh "r" in let c' := fresh "c" in let E := fresh "E" in let H := fresh "Hr" in
  destruct (lemma c) as (r & c' & E & _ & H); [assumption|]; rewrite E, some_bind; cbn [fst snd];
  destruct r as [s|]; [|by eexists]; pose proof (H _ eq_refl) as Hs.
Ltac asn1_next lemma c c' Hc' :=
  let b := fresh "b" in let E := fresh "E" in let H := fresh "Hr" in
  destruct (lemma c) as (b & c' & E & H); [assumption|]; rewrite E, some_bind; cbn [fst snd];
  destruct b; cbn [negb]; [|by eexists]; pose proof (proj1 H) as Hc'.
(** No input makes the PKCS#7 reader leave its buffer. *)
Lemma read_pkcs7_ok der len :
  bytes_ok der -> 0 <= len <= blen der -> len < 2 ^ 64 -> exists r, read_pkcs7 der len = Some r.
Proof.
  intros Hb Hl Hw. unfold read_pkcs7.
  assert (ctx_ok (new_context der len)) as H0 by (split; simpl; done).
  asn1_get sequence_get_ok (new_context der len) s1 H1.
  asn1_next sequence_next_ok s1 s2 H2.
  asn1_get constructed_get_ok s2 s3 H3.
  asn1_get sequence_get_ok s3 s4 H4.
  asn1_next (next_times_ok 3) s4 s5 H5.
  asn1_next skip_all_ok s5 s6 H6.
  asn1_get set_get_ok s6 s7 H7.
  asn1_get sequence_get_ok s7 s8 H8.
  asn1_next (next_times_ok 4) s8 s9 H9.
  destruct (tagged_get_ok kTagOctetString s9 H9) as (o & c' & Eo & Ho).
  unfold asn1_octet_string_get. rewrite Eo, some_bind. cbn [fst].
  destruct o as [[ptr l]|]; [|by eexists]. destruct (Ho _ _ eq_refl) as [? _].
  rewrite bytes_at_Some by lia. by eexists.
Qed.

(** ** DER encoding

    The reader against the writer's side: values as tag, length and body. *)
Definition enc_len (n : Z) : list Z :=
  if n <? 128 then [n] else if n <? 256 then [0x81; n] else [0x82; n / 256; n mod 256].
Definition tlv (tag : Z) (body : list Z) : list Z := tag :: enc_len (blen body) ++ body.
(** SignedData with an arbitrary content of the fields the reader skips;
    [optional] are the certificates and revocation lists, tags A0 to BF. *)
Record SignedData := MkSigned {
  content_type : list Z; version : list Z; digests : list Z; encap : list Z;
  optional : list (Z * list Z);
  signer_version : list Z; signer_id : list Z; digest_alg : list Z; signature_alg : list Z;
  signature : list Z }.
Definition signer_info (s : SignedData) : list Z :=
  tlv 2 (signer_version s) ++ tlv 0x30 (signer_id s) ++ tlv 0x30 (digest_alg s) ++
  tlv 0x30 (signature_alg s) ++ tlv 4 (signature s).
Definition signed_body (s : SignedData) : list Z :=
  tlv 2 (version s) ++ tlv 0x31 (digests s) ++ tlv 0x30 (encap s) ++
  (optional s ≫= fun o => tlv (0xA0 + o.1) o.2) ++ tlv 0x31 (tlv 0x30 (signer_info s)).
Definition content_info (s : SignedData) : list Z :=
  tlv 6 (content_type s) ++ tlv 0xA0 (tlv 0x30 (signed_body s)).
Definition pkcs7 (s : SignedData) : list Z := tlv 0x30 (content_info s).

Lemma blen_cons x l : blen (x :: l) = 1 + blen l.
Proof. unfold blen. simpl length. lia. Qed.
Lemma get_byte_cons b rest k t : 0 <= k < 2 ^ 63 -> get_byte (MkCtx (b :: rest) (1 + k) t) = Some (b, MkCtx rest k t).
Proof.
  intros Hk. unfold get_byte. simpl length_. destruct (Z.eqb_spec (1 + k) 0); [lia|]. simpl. unwrap.
  by replace (1 + k - 1) with k by lia.
Qed.
Lemma decode_length_enc n rest k t : 0 <= n < 65536 -> 0 <= k < 2 ^ 62 ->
  decode_length (MkCtx (enc_len n ++ rest) (blen (enc_len n) + k) t) = Some (Some n, MkCtx rest k t).
Proof.
  intros Hn Hk. unfold enc_len. destruct (Z.ltb_spec n 128); [|destruct (Z.ltb_spec n 256)].
  - change (blen [n] + k) with (1 + k). unfold decode_length. simpl app.
    rewrite get_byte_cons, some_bind by lia. destruct (Z.eqb_spec n (-1)); [lia|].
    assert (Z.land n 128 = 0) as ->; [|done].
    change 128 with (Z.shiftl 1 7). rewrite <- (Z.mod_small n (2 ^ 7)) by lia.
    apply Z.bits_inj'. intros i Hi. rewrite Z.land_spec, Z.bits_0.
    destruct (Z.lt_ge_cases i 7); [rewrite Z.shiftl_spec_low by lia; apply andb_false_r|].
    by rewrite Z.mod_pow2_bits_high by lia.
  - replace (blen [129; n] + k) with (1 + (1 + k)) by (unfold blen; simpl length; lia).
    unfold decode_length. simpl app. rewrite get_byte_cons, some_bind by lia.
    change (length_octets 1 0 (MkCtx (n :: rest) (1 + k) t) = Some (Some n, MkCtx rest k t)).
    cbn [length_octets].
    rewrite get_byte_cons, some_bind by lia. cbn [fst snd]. destruct (Z.eqb_spec n (-1)); [lia|].
    change (u64 (Z.shiftl 0 8)) with 0. unwrap. done.
  - replace (blen [130; n / 256; n mod 256] + k) with (1 + (1 + (1 + k))) by (unfold blen; simpl length; lia).
    unfold decode_length. simpl app. rewrite get_byte_cons, some_bind by lia.
    pose proof (Z.mod_pos_bound n 256 ltac:(lia)). pose proof (Z.div_pos n 256 ltac:(lia) ltac:(lia)).
    change (length_octets 2 0 (MkCtx (n / 256 :: n mod 256 :: rest) (1 + (1 + k)) t) = Some (Some n, MkCtx rest k t)).
    cbn [length_octets]. rewrite get_byte_cons, some_bind by lia. cbn [fst snd].
    destruct (Z.eqb_spec (n / 256) (-1)); [lia|].
    rewrite get_byte_cons, some_bind by lia. cbn [fst snd].
    destruct (Z.eqb_spec (n mod 256) (-1)); [lia|]. change (u64 (Z.shiftl 0 8)) with 0.
    assert (n / 256 < 256) by (apply Z.div_lt_upper_bound; lia).
    rewrite (u64_id (0 + n / 256)) by (unfold_width; lia). rewrite Z.shiftl_mul_pow2 by lia. unwrap.
    do 3 f_equal. rewrite (Z.div_mod n 256) at 3 by lia. lia.
Qed.
(** A context at [l], inside a buffer that goes on with [rest]. *)
Definition ctx_at (l rest : list Z) (t : Z) : asn1_context := MkCtx (l ++ rest) (blen l) t.
Lemma blen_tlv tag body : blen (tlv tag body) = 1 + blen (enc_len (blen body)) + blen body.
Proof. unfold tlv. rewrite blen_cons, blen_app. lia. Qed.
Lemma enter_tlv tag body l rest t : blen (tlv tag body ++ l) < 65536 ->
  exists c, get_byte (ctx_at (tlv tag body ++ l) rest t) = Some (tag, c) /\
    decode_length c = Some (Some (blen body), ctx_at (body ++ l) rest t).
Proof.
  intros Hl. rewrite blen_app, blen_tlv in Hl.
  pose proof (blen_nonneg body). pose proof (blen_nonneg l). pose proof (blen_nonneg (enc_len (blen body))).
  unfold ctx_at. rewrite blen_app, blen_tlv.
  replace (1 + blen (enc_len (blen body)) + blen body + blen l)
    with (1 + (blen (enc_len (blen body)) + (blen body + blen l))) by lia.
  eexists. split.
  - unfold tlv. rewrite <- app_assoc. simpl. rewrite <- app_assoc. apply get_byte_cons. lia.
  - rewrite decode_length_enc by lia. by rewrite blen_app, <- app_assoc.
Qed.
Lemma next_tlv tag body l rest t : tag ≠ -1 -> blen (tlv tag body ++ l) < 65536 ->
  asn1_sequence_next (ctx_at (tlv tag body ++ l) rest t) = Some (true, ctx_at l rest t).
Proof.
  intros Ht Hl. destruct (enter_tlv tag body l rest t Hl) as (c & E1 & E2).
  unfold asn1_sequence_next. rewrite E1, some_bind. cbn [fst snd].
  destruct (Z.eqb_spec tag (-1)); [done|]. rewrite E2, some_bind. unfold skip_bytes, ctx_at. simpl.
  rewrite blen_app. destruct (Z.ltb_spec (blen body + blen l) (blen body)).
  { pose proof (blen_nonneg l). lia. }
  unfold blen at 1. rewrite Nat2Z.id, <- app_assoc, drop_app_length.
  by replace (blen body + blen l - blen body) with (blen l) by lia.
Qed.
Lemma sub_tlv tag body l rest t a : blen (tlv tag body ++ l) < 65536 ->
  exists c c', get_byte (ctx_at (tlv tag body ++ l) rest t) = Some (tag, c) /\
    sub_context a c = Some (Some (ctx_at body (l ++ rest) a), c').
Proof.
  intros Hl. destruct (enter_tlv tag body l rest t Hl) as (c & E1 & E2). exists c.
  eexists. split; [exact E1|].
  unfold sub_context. rewrite E2, some_bind. unfold ctx_at. simpl. rewrite blen_app.
  destruct (Z.ltb_spec (blen body + blen l) (blen body)); [pose proof (blen_nonneg l); lia|].
  by rewrite <- app_assoc.
Qed.
Lemma sequence_tlv body l rest t : blen (tlv 0x30 body ++ l) < 65536 ->
  exists c, asn1_sequence_get (ctx_at (tlv 0x30 body ++ l) rest t) = Some (Some (ctx_at body (l ++ rest) 0), c).
Proof.
  intros Hl. destruct (sub_tlv 0x30 body l rest t 0 Hl) as (c & c' & E1 & E2). exists c'.
  unfold asn1_sequence_get. by rewrite E1, some_bind.
Qed.
Lemma set_tlv body l rest t : blen (tlv 0x31 body ++ l) < 65536 ->
  exists c, asn1_set_get (ctx_at (tlv 0x31 body ++ l) rest t) = Some (Some (ctx_at body (l ++ rest) 0), c).
Proof.
  intros Hl. destruct (sub_tlv 0x31 body l rest t 0 Hl) as (c & c' & E1 & E2). exists c'.
  unfold asn1_set_get. by rewrite E1, some_bind.
Qed.
Lemma constructed_tlv body l rest t : blen (tlv 0xA0 body ++ l) < 65536 ->
  exists c, asn1_constructed_get (ctx_at (tlv 0xA0 body ++ l) rest t) = Some (Some (ctx_at body (l ++ rest) 0), c).
Proof.
  intros Hl. destruct (sub_tlv 0xA0 body l rest t 0 Hl) as (c & c' & E1 & E2). exists c'.
  unfold asn1_constructed_get. by rewrite E1, some_bind.
Qed.
Lemma octets_tlv body l rest t : body ≠ [] -> blen (tlv 4 body ++ l) < 65536 ->
  exists c, asn1_octet_string_get (ctx_at (tlv 4 body ++ l) rest t) = Some (Some (body ++ l ++ rest, blen body), c).
Proof.
  intros Hne Hl. destruct (enter_tlv 4 body l rest t Hl) as (c & E1 & E2).
  unfold asn1_octet_string_get, tagged_get. rewrite E1, some_bind. cbn [fst snd].
  change (negb (4 =? kTagOctetString)) with false. rewrite E2, some_bind. unfold ctx_at. simpl.
  rewrite blen_app. destruct (_ || _) eqn:Hc.
  - destruct body as [|b body]; [done|]. rewrite blen_cons in Hc.
    pose proof (blen_nonneg body). pose proof (blen_nonneg l). impossible.
  - rewrite <- app_assoc. by eexists.
Qed.

Lemma constructed_tags o : 0 <= o < 32 -> Z.land (0xA0 + o) kMaskConstructed = kTagConstructed.
Proof.
  intros Ho. assert (Forall (fun o => Z.land (0xA0 + o) kMaskConstructed = kTagConstructed) (seqZ 0 32)) as H.
  { apply (bool_decide_unpack (Forall _ _)). vm_compute. exact I. }
  rewrite Forall_forall in H. apply H. apply elem_of_seqZ. lia.
Qed.
Lemma skip_all_tlv opts set rest t : forall fuel,
  (length opts <= fuel)%nat -> Forall (fun o : Z * list Z => 0 <= o.1 < 32) opts ->
  blen ((opts ≫= fun o => tlv (0xA0 + o.1) o.2) ++ tlv 0x31 set) < 65536 ->
  skip_all_loop fuel (ctx_at ((opts ≫= fun o => tlv (0xA0 + o.1) o.2) ++ tlv 0x31 set) rest t) =
  Some (true, ctx_at (tlv 0x31 set) rest t).
Proof.
  induction opts as [|o opts IH]; intros fuel Hfuel Hopts Hl.
  - simpl. assert (peek_byte (ctx_at (tlv 49 set) rest t) = Some 0x31) as Hp.
    { unfold peek_byte, ctx_at. simpl length_. rewrite blen_tlv.
      destruct (Z.eqb_spec (1 + blen (enc_len (blen set)) + blen set) 0); [|done].
      pose proof (blen_nonneg set). pose proof (blen_nonneg (enc_len (blen set))). lia. }
    destruct fuel; cbn [skip_all_loop]; by rewrite Hp, some_bind.
  - apply Forall_cons in Hopts as [Ho Hopts]. destruct fuel as [|fuel]; [simpl in Hfuel; lia|].
    cbn [mbind list_bind] in *. rewrite <- app_assoc in *. set (more := _ ++ tlv 49 set) in *.
    assert (Hl' : blen more < 65536).
    { rewrite blen_app in Hl. pose proof (blen_nonneg (tlv (160 + o.1) o.2)). lia. }
    destruct (enter_tlv (0xA0 + o.1) o.2 more rest t Hl) as (c & E1 & E2).
    assert (peek_byte (ctx_at (tlv (160 + o.1) o.2 ++ more) rest t) = Some (0xA0 + o.1) /\
      (skip_bytes 1 (ctx_at (tlv (160 + o.1) o.2 ++ more) rest t)).2 = c) as [Hp Hskip].
    { assert (1 <= blen (tlv (160 + o.1) o.2 ++ more)).
      { rewrite blen_app, blen_tlv. pose proof (blen_nonneg o.2). pose proof (blen_nonneg more).
        pose proof (blen_nonneg (enc_len (blen o.2))). lia. }
      revert E1. unfold peek_byte, get_byte, skip_bytes, ctx_at. cbn [length_ p_ app_type_].
      generalize dependent (blen (tlv (160 + o.1) o.2 ++ more)). intros n Hn Hn1.
      destruct (Z.eqb_spec n 0); [lia|]. destruct (Z.ltb_spec n 1); [lia|].
      simpl. intros [= <-]. unwrap. split; done. }
    cbn [skip_all_loop]. rewrite Hp, some_bind, constructed_tags by done.
    destruct (Z.eqb_spec (0xA0 + o.1) (-1)); [lia|]. cbn [negb andb].
    change (kTagConstructed =? kTagConstructed) with true. cbv iota. rewrite Hskip, E2, some_bind.
    unfold skip_bytes, ctx_at. simpl length_. rewrite blen_app.
    destruct (Z.ltb_spec (blen o.2 + blen more) (blen o.2)); [pose proof (blen_nonneg more); lia|].
    cbn [negb]. unfold blen at 1. rewrite Nat2Z.id. simpl p_. rewrite <- app_assoc, drop_app_length.
    replace (blen o.2 + blen more - blen o.2) with (blen more) by lia.
    apply IH; [simpl in Hfuel; lia|done|done].
Qed.

(** The last element of a list of values. *)
Lemma tlv_alone tag body rest t : ctx_at (tlv tag body) rest t = ctx_at (tlv tag body ++ []) rest t.
Proof. by rewrite app_nil_r. Qed.
Lemma next_times_0 c : next_times 0 c = Some (true, c).
Proof. done. Qed.
Lemma next_times_S n c : next_times (S n) c =
  (r ← asn1_sequence_next c; if r.1 : bool then next_times n r.2 else Some r).
Proof. done. Qed.

Lemma opts_length (opts : list (Z * list Z)) :
  (length opts <= length (opts ≫= fun o => tlv (0xA0 + o.1) o.2))%nat.
Proof.
  induction opts as [|o opts IH]; [done|]. rewrite bind_cons, length_app. unfold tlv at 1.
  cbn [length]. lia.
Qed.
Lemma read_signer s rest :
  signature s ≠ [] -> blen (signer_info s) < 65536 ->
  exists c c' ptr, next_times 4 (ctx_at (signer_info s) rest 0) = Some (true, c) /\
    asn1_octet_string_get c = Some (Some (signature s ++ ptr, blen (signature s)), c').
Proof.
  intros Hne Hl. unfold signer_info in *. rewrite !blen_app in Hl.
  pose proof (blen_nonneg (tlv 2 (signer_version s))). pose proof (blen_nonneg (tlv 48 (signer_id s))).
  pose proof (blen_nonneg (tlv 48 (digest_alg s))). pose proof (blen_nonneg (tlv 48 (signature_alg s))).
  rewrite next_times_S, next_tlv, some_bind by (rewrite ?blen_app; lia). cbn [fst snd].
  do 3 (rewrite next_times_S, next_tlv, some_bind by (rewrite ?blen_app; lia); cbn [fst snd]).
  rewrite tlv_alone. destruct (octets_tlv (signature s) [] rest 0) as [c E];
    [done|rewrite app_nil_r; lia|]. by eexists _, c, rest.
Qed.

(** The parts of a short block are short. *)
Lemma tlv_content t body n : blen (tlv t body) < n -> blen body < n.
Proof. rewrite blen_tlv. pose proof (blen_nonneg (enc_len (blen body))). lia. Qed.
Lemma pkcs7_sizes s : blen (pkcs7 s) < 65536 ->
  blen (content_info s) < 65536 /\ blen (tlv 160 (tlv 0x30 (signed_body s))) < 65536 /\
  blen (signed_body s) < 65536.
Proof.
  intros Hl. assert (blen (content_info s) < 65536) as Hci by (by eapply tlv_content).
  assert (blen (tlv 160 (tlv 0x30 (signed_body s))) < 65536) as Hsd.
  { pose proof Hci as Hc. unfold content_info in Hc. rewrite blen_app in Hc.
    pose proof (blen_nonneg (tlv 6 (content_type s))). lia. }
  split_and!; [done..|]. by do 2 eapply tlv_content.
Qed.

(** Reading back a PKCS#7 SignedData block gives its signature, for any
    contents of the fields the reader skips, any number of optional
    certificate and revocation entries, and anything after the block. *)
Theorem pkcs7_roundtrip s rest :
  blen (pkcs7 s) < 65536 -> signature s ≠ [] -> Forall (fun o => 0 <= o.1 < 32) (optional s) ->
  read_pkcs7 (pkcs7 s ++ rest) (blen (pkcs7 s)) = Some (Some (signature s)).
Proof.
  intros Hl Hsig Hopt.
  destruct (pkcs7_sizes s Hl) as (Hci & Hsd & Hsb). pose proof (tlv_content _ _ _ Hsd) as Hsd'.
  unfold read_pkcs7.
  change (new_context (pkcs7 s ++ rest) (blen (pkcs7 s))) with (ctx_at (pkcs7 s) rest 0).
  unfold pkcs7. rewrite tlv_alone. destruct (sequence_tlv (content_info s) [] rest 0) as [c1 ->];
    [by rewrite app_nil_r|]. rewrite some_bind. cbn [fst].
  unfold content_info at 1. rewrite next_tlv, some_bind; [cbn [fst snd negb]|done|done].
  rewrite tlv_alone. destruct (constructed_tlv (tlv 48 (signed_body s)) [] ([] ++ rest) 0) as [c2 ->];
    [rewrite app_nil_r; lia|]. rewrite some_bind. cbn [fst].
  rewrite tlv_alone.
  destruct (sequence_tlv (signed_body s) [] ([] ++ [] ++ rest) 0) as [c3 ->]; [by rewrite app_nil_r|].
  rewrite some_bind. cbn [fst]. rewrite ?app_nil_l.
  pose proof Hsb as Hsb'. unfold signed_body in Hsb' |- *. rewrite !blen_app in Hsb'.
  set (opts := optional s ≫= _) in *. set (sset := tlv 49 (tlv 48 (signer_info s))) in *.
  pose proof (blen_nonneg (tlv 2 (version s))). pose proof (blen_nonneg (tlv 49 (digests s))).
  pose proof (blen_nonneg (tlv 48 (encap s))). pose proof (blen_nonneg opts). pose proof (blen_nonneg sset).
  do 3 (rewrite next_times_S, next_tlv, some_bind by (rewrite ?blen_app; lia); cbn [fst snd]).
  rewrite next_times_0, some_bind. cbn [fst snd negb].
  unfold asn1_constructed_skip_all, opts, sset. rewrite skip_all_tlv;
    [|simpl; rewrite !length_app|done|fold opts sset; rewrite blen_app; lia].
  2: { pose proof (opts_length (optional s)). lia. }
  rewrite some_bind. cbn [fst snd negb]. rewrite tlv_alone.
  assert (Hset : blen (tlv 0x30 (signer_info s)) < 65536).
  { apply (tlv_content 49). fold sset. lia. }
  destruct (set_tlv (tlv 48 (signer_info s)) [] rest 0) as [c4 ->]; [rewrite app_nil_r; fold sset; lia|].
  rewrite some_bind. cbn [fst]. rewrite tlv_alone.
  destruct (sequence_tlv (signer_info s) [] ([] ++ rest) 0) as [c5 ->]; [by rewrite app_nil_r|].
  rewrite some_bind. cbn [fst]. rewrite ?app_nil_l.
  assert (blen (signer_info s) < 65536) by (by eapply tlv_content).
  destruct (read_signer s rest) as (c6 & c7 & ptr & -> & E7); [done|done|].
  rewrite some_bind. cbn [fst snd negb]. rewrite E7, some_bind. cbn [fst].
  rewrite bytes_at_Some by (rewrite ?blen_app; pose proof (blen_nonneg ptr); lia).
  change (Z.to_nat 0) with 0%nat. rewrite drop_0. unfold blen. rewrite Nat2Z.id, take_app_length. done.
Qed.

(** ** A concrete run *)
Definition demo_signed : SignedData :=
  MkSigned [42; 134] [1] [] [6; 1; 7] [(0, [48; 0]); (1, [])] [1] [48; 0] [6; 0] [5; 0] [222; 173; 190; 239].
Lemma pkcs7_roundtrip_witness :
  read_pkcs7 (pkcs7 demo_signed ++ [9; 9]) (blen (pkcs7 demo_signed)) = Some (Some [222; 173; 190; 239]).
Proof.
  apply (pkcs7_roundtrip demo_signed [9; 9]); [vm_compute; reflexivity|discriminate|].
  apply Forall_cons; split; [simpl; lia|]. apply Forall_cons; split; [simpl; lia|].
  apply Forall_nil. exact I.
Defined.
