(* ===== verification/Verifier.v ===== *)
(** otautil/verifier.cpp and otautil/package.cpp: whole-file signature
    verification of an OTA package, and the keys it accepts.

    The ZIP reader, X.509, RSA, ECDSA and the hash functions belong to
    libziparchive and BoringSSL and are class parameters. A [Package] is the
    VerifierInterface; MemoryPackage and FilePackage are its two
    implementations, and [Serves]/[Reliable] is what the verifier relies on.
    A read outside a buffer, or a call with a null key, is [None]. Progress
    reports and logging are not modelled. *)
From stdpp Require Import base list strings gmap.
From Stdlib Require Import ZArith Lia.
From S2P Require Import Prelude Kernel Abl PayloadTargets Asn1.

(** ** Other projects' code *)
Class Sha1 := {
  SHA1 : list Z -> list Z;
  sha1_ctx : Type;
  SHA1_Init : sha1_ctx;
  SHA1_Update : sha1_ctx -> list Z -> sha1_ctx;
  SHA1_Final : sha1_ctx -> list Z
}.
Class Sha1Laws `(S : Sha1) : Prop := {
  sha1_pieces chunks : SHA1_Final (foldl SHA1_Update SHA1_Init chunks) = SHA1 (concat chunks)
}.
Inductive HashNid := NID_sha1 | NID_sha256.
Class PublicKeys := {
  rsa_key : Type;
  ec_key : Type;
  RSA_verify : HashNid -> list Z -> list Z -> rsa_key -> bool;   (* hash, signature *)
  ECDSA_verify : list Z -> list Z -> ec_key -> bool;
  modulus_bits : rsa_key -> Z;
  public_exponent : rsa_key -> Z;
  group_degree : ec_key -> option Z                              (* no group: None *)
}.
Inductive SignatureNid := NID_md5WithRSA | NID_md5WithRSAEncryption | NID_sha1WithRSA
  | NID_sha1WithRSAEncryption | NID_sha256WithRSAEncryption | NID_ecdsa_with_SHA256 | OtherNid.
Inductive PKey `{PublicKeys} := PKeyRSA (k : option rsa_key) | PKeyEC (k : option ec_key) | PKeyOther.
Record X509 `{PublicKeys} := MkX509 { signature_nid : SignatureNid; pubkey : option PKey }.
Arguments PKeyRSA {_} _.
Arguments PKeyEC {_} _.
Arguments PKeyOther {_}.
Arguments MkX509 {_} _ _.
Class Pem `{PublicKeys} := { PEM_read_bio_X509 : list Z -> option X509 }.

(** ** Packages *)
Record Package := MkPackage {
  GetPackageSize : Z;
  ReadFullyAtOffset : Z -> Z -> option (list Z);          (* byte_count, offset *)
  UpdateHashAtOffset : Z -> Z -> bool * list (list Z)     (* start, length: what the hashers saw *)
}.
Definition MiB : Z := 1024 * 1024.

Definition memory_read (content : list Z) (byte_count offset : Z) : option (list Z) :=
  if (blen content <? byte_count) || (u64 (blen content - byte_count) <? offset) then None
  else Some (slice offset byte_count content).
Definition MemoryPackage (content : list Z) : Package :=
  MkPackage (blen content) (memory_read content)
    (fun start length =>
       match memory_read content length start with
       | None => (false, [])
       | Some bs => (true, [bs])
       end).

Section FilePackage.
Variables (package_size : Z) (file_read : Z -> Z -> option (list Z)).
Definition file_package_read (byte_count offset : Z) : option (list Z) :=
  if (package_size <? byte_count) || (u64 (package_size - byte_count) <? offset) then None
  else file_read byte_count offset.
Fixpoint file_hash_loop (fuel : nat) (start length so_far : Z) : bool * list (list Z) :=
  if length <=? so_far then (true, [])
  else match fuel with
  | O => (false, [])
  | S fuel =>
      let read_size := Z.min (length - so_far) (16 * MiB) in
      match file_package_read read_size (start + so_far) with
      | None => (false, [])
      | Some buffer =>
          let '(ok, rest) := file_hash_loop fuel start length (so_far + read_size) in
          (ok, buffer :: rest)
      end
  end.
Definition file_package_hash (start length : Z) : bool * list (list Z) :=
  if (package_size <? length) || (u64 (package_size - length) <? start) then (false, [])
  else file_hash_loop (Z.to_nat length) start length 0.
Definition FilePackage : Package := MkPackage package_size file_package_read file_package_hash.
End FilePackage.

(** ** Certificates *)
Inductive KeyType := KEY_TYPE_RSA | KEY_TYPE_EC.
Definition SHA_DIGEST_LENGTH : Z := 20.
Definition SHA256_DIGEST_LENGTH : Z := 32.
Record Certificate `{PublicKeys} := MkCert {
  hash_len : Z; key_type : KeyType; rsa : option rsa_key; ec : option ec_key }.
Arguments MkCert {_} _ _ _ _.

Section Keys.
Context `{PublicKeys}.
Definition CheckRSAKey (k : option rsa_key) : bool :=
  match k with
  | None => false
  | Some k =>
      if negb (modulus_bits k =? 2048) && negb (modulus_bits k =? 4096) then false
      else if negb (public_exponent k =? 3) && negb (public_exponent k =? 65537) then false
      else true
  end.
Definition CheckECKey (k : option ec_key) : bool :=
  match k with
  | None => false
  | Some k => match group_degree k with Some degree => degree =? 256 | None => false end
  end.
Definition nid_hash_len (nid : SignatureNid) : option Z :=
  match nid with
  | NID_md5WithRSA | NID_md5WithRSAEncryption | NID_sha1WithRSA | NID_sha1WithRSAEncryption =>
      Some SHA_DIGEST_LENGTH
  | NID_sha256WithRSAEncryption | NID_ecdsa_with_SHA256 => Some SHA256_DIGEST_LENGTH
  | OtherNid => None
  end.
Definition LoadCertificateFromBuffer `{!Pem} (pem_content : list Z) : option Certificate :=
  x509 ← PEM_read_bio_X509 pem_content;
  hash_len ← nid_hash_len (signature_nid x509);
  public_key ← pubkey x509;
  match public_key with
  | PKeyRSA k => if CheckRSAKey k then Some (MkCert hash_len KEY_TYPE_RSA k None) else None
  | PKeyEC k => if CheckECKey k then Some (MkCert hash_len KEY_TYPE_EC None k) else None
  | PKeyOther => None
  end.

(** The entries a ZIP iteration over "x509.pem" yields, and how it ends. *)
Record ZipEntry := MkZipEntry { uncompressed_length : Z; extract : option (list Z) }.
Record Zip := MkZip { start_status : Z; entries : list ZipEntry; end_status : Z }.
Fixpoint load_entries `{!Pem} (es : list ZipEntry) : option (list Certificate) :=
  match es with
  | [] => Some []
  | e :: es =>
      if SIZE_MAX <? uncompressed_length e then None
      else
      pem_content ← extract e;
      cert ← LoadCertificateFromBuffer pem_content;
      rest ← load_entries es;
      Some (cert :: rest)
  end.
Definition IterateZipEntriesAndSearchForKeys `{!Pem} (handle : Zip) : list Certificate :=
  if negb (start_status handle =? 0) then []
  else match load_entries (entries handle) with
  | None => []
  | Some result => if negb (end_status handle =? -1) then [] else result
  end.
(** [None] when OpenArchive fails. *)
Definition LoadKeysFromZipfile `{!Pem} (archive : option Zip) : list Certificate :=
  match archive with
  | None => []
  | Some handle => IterateZipEntriesAndSearchForKeys handle
  end.
End Keys.

(** ** verify_file *)
Definition VERIFY_SUCCESS : Z := 0.
Definition VERIFY_FAILURE : Z := 1.
Definition FOOTER_SIZE : Z := 6.
Definition EOCD_HEADER_SIZE : Z := 22.
Definition eocd_marker : list Z := [0x50; 0x4b; 0x05; 0x06].

(** The comment size and signature start; [None] inside is a failure. *)
Definition read_footer (package : Package) : option (option (Z * Z)) :=
  let length := GetPackageSize package in
  if length <? FOOTER_SIZE then Some None
  else match ReadFullyAtOffset package FOOTER_SIZE (length - FOOTER_SIZE) with
  | None => Some None
  | Some footer =>
      f0 ← rd8 footer 0; f1 ← rd8 footer 1; f2 ← rd8 footer 2;
      f3 ← rd8 footer 3; f4 ← rd8 footer 4; f5 ← rd8 footer 5;
      if negb (f2 =? 0xff) || negb (f3 =? 0xff) then Some None
      else
      let comment_size := f4 + Z.shiftl f5 8 in
      let signature_start := f0 + Z.shiftl f1 8 in
      if comment_size <? signature_start then Some None
      else if signature_start <=? FOOTER_SIZE then Some None
      else Some (Some (comment_size, signature_start))
  end.
Fixpoint later_marker (n : nat) (i : Z) (eocd : list Z) : option bool :=
  match n with
  | O => Some false
  | S n =>
      found ← bytes_eq eocd i eocd_marker;
      if found : bool then Some true else later_marker n (i + 1) eocd
  end.
(** The end-of-central-directory record with the comment. *)
Definition read_eocd (package : Package) (comment_size : Z) : option (option (list Z)) :=
  let length := GetPackageSize package in
  let eocd_size := comment_size + EOCD_HEADER_SIZE in
  if length <? eocd_size then Some None
  else match ReadFullyAtOffset package eocd_size (length - eocd_size) with
  | None => Some None
  | Some eocd =>
      magic ← bytes_eq eocd 0 eocd_marker;
      if negb magic then Some None
      else
      later ← later_marker (Z.to_nat (eocd_size - 3 - 4)) 4 eocd;
      if later : bool then Some None else Some (Some eocd)
  end.
(** Everything the hashers are given; the result of each
    UpdateHashAtOffset is not looked at. *)
Fixpoint hash_loop (fuel : nat) (package : Package) (so_far signed_len : Z) : list (list Z) :=
  if signed_len <=? so_far then []
  else match fuel with
  | O => []
  | S fuel =>
      let read_size := Z.min (signed_len - so_far) (16 * MiB) in
      (UpdateHashAtOffset package so_far read_size).2 ++
      hash_loop fuel package (so_far + read_size) signed_len
  end.
Definition hash_fuel (signed_len : Z) : nat := S (Z.to_nat (signed_len / (16 * MiB))).

Section Verify.
Context `{PublicKeys} `{Sha256} `{ShaStream} `{Sha1}.
Definition needs (len : Z) (keys : list Certificate) : bool :=
  existsb (fun key => hash_len key =? len) keys.
Definition sha1_of (keys : list Certificate) (pieces : list (list Z)) : list Z :=
  SHA1_Final (if needs SHA_DIGEST_LENGTH keys then foldl SHA1_Update SHA1_Init pieces else SHA1_Init).
Definition sha256_of (keys : list Certificate) (pieces : list (list Z)) : list Z :=
  SHA256_Final (if needs SHA256_DIGEST_LENGTH keys then foldl SHA256_Update SHA256_Init pieces
                else SHA256_Init).
(** Does this key verify the signature? *)
Definition try_key (key : Certificate) (sha1 sha256 sig_der : list Z) : option bool :=
  let hash := if hash_len key =? SHA_DIGEST_LENGTH then Some (sha1, NID_sha1)
              else if hash_len key =? SHA256_DIGEST_LENGTH then Some (sha256, NID_sha256)
              else None in
  match hash with
  | None => Some false
  | Some (hash, hash_nid) =>
      match key_type key with
      | KEY_TYPE_RSA => k ← rsa key; Some (RSA_verify hash_nid hash sig_der k)
      | KEY_TYPE_EC =>
          if hash_len key =? SHA256_DIGEST_LENGTH
          then k ← ec key; Some (ECDSA_verify hash sig_der k)
          else Some false
      end
  end.
Fixpoint try_keys (keys : list Certificate) (sha1 sha256 sig_der : list Z) : option Z :=
  match keys with
  | [] => Some VERIFY_FAILURE
  | key :: keys =>
      ok ← try_key key sha1 sha256 sig_der;
      if ok : bool then Some VERIFY_SUCCESS else try_keys keys sha1 sha256 sig_der
  end.
Definition verify_file (package : Package) (keys : list Certificate) : option Z :=
  footer ← read_footer package;
  match footer with
  | None => Some VERIFY_FAILURE
  | Some (comment_size, signature_start) =>
  eocd ← read_eocd package comment_size;
  match eocd with
  | None => Some VERIFY_FAILURE
  | Some eocd =>
      let length := GetPackageSize package in
      let eocd_size := comment_size + EOCD_HEADER_SIZE in
      let signed_len := length - eocd_size + EOCD_HEADER_SIZE - 2 in
      let pieces := hash_loop (hash_fuel signed_len) package 0 signed_len in
      let signature := drop (Z.to_nat (eocd_size - signature_start)) eocd in
      let signature_size := signature_start - FOOTER_SIZE in
      sig_der ← read_pkcs7 signature signature_size;
      match sig_der with
      | None => Some VERIFY_FAILURE
      | Some sig_der => try_keys keys (sha1_of keys pieces) (sha256_of keys pieces) sig_der
      end
  end end.
End Verify.

(** ** What the verifier relies on *)
(** Reads that succeed return the package's bytes. *)
Class Serves (p : Package) (data : list Z) : Prop := {
  serves_size : GetPackageSize p = blen data;
  serves_read n off bs : 0 <= n -> 0 <= off -> ReadFullyAtOffset p n off = Some bs ->
    off + n <= blen data /\ bs = slice off n data
}.
(** Reads in bounds never fail. *)
Class Readable (p : Package) (data : list Z) : Prop := {
  reliable_read off n : 0 <= off -> 0 <= n -> off + n <= blen data ->
    ReadFullyAtOffset p n off = Some (slice off n data)
}.
(** Hashing covers the bytes asked for. *)
Class Reliable (p : Package) (data : list Z) : Prop := {
  reliable_hash off n : 0 <= off -> 0 <= n -> off + n <= blen data ->
    concat (UpdateHashAtOffset p off n).2 = slice off n data
}.

Lemma memory_read_spec data n off bs : 0 <= n -> 0 <= off -> blen data < 2 ^ 63 ->
  memory_read data n off = Some bs <-> off + n <= blen data /\ bs = slice off n data.
Proof.
  intros Hn Ho Hl. unfold memory_read. pose proof (blen_nonneg data). destruct (_ || _) eqn:Hc.
  - split; [done|]. intros [Hb _]. apply orb_true_iff in Hc as [Hc|Hc]; bool_facts; [lia|].
    unwrap_in Hc. lia.
  - bool_facts. unwrap_all. split; [intros [= <-]; split; [lia|done]|]. by intros [_ ->].
Qed.
#[global] Instance memory_serves data : blen data < 2 ^ 63 -> Serves (MemoryPackage data) data.
Proof. intros Hl. split; [done|]. intros n off bs Hn Ho E. by apply memory_read_spec in E. Qed.
#[global] Instance memory_readable data : blen data < 2 ^ 63 -> Readable (MemoryPackage data) data.
Proof. intros Hl. split. intros off n Ho Hn Hb. simpl. by apply memory_read_spec. Qed.
#[global] Instance memory_reliable data : blen data < 2 ^ 63 -> Reliable (MemoryPackage data) data.
Proof.
  intros Hl. split. intros off n Ho Hn Hb. simpl.
  assert (memory_read data n off = Some (slice off n data)) as ->
    by (by apply memory_read_spec). simpl. by rewrite app_nil_r.
Qed.

(** A file that reads back its bytes, always or sometimes. *)
Section FileLemmas.
Variables (data : list Z) (file_read : Z -> Z -> option (list Z)).
Hypothesis Hlen : blen data < 2 ^ 63.
Hypothesis Hread : forall n off bs, 0 <= n -> 0 <= off -> off + n <= blen data ->
  file_read n off = Some bs -> bs = slice off n data.
Lemma file_read_spec n off bs : 0 <= n -> 0 <= off ->
  file_package_read (blen data) file_read n off = Some bs -> off + n <= blen data /\ bs = slice off n data.
Proof.
  intros Hn Ho. unfold file_package_read. pose proof (blen_nonneg data). destruct (_ || _) eqn:Hc; [done|].
  bool_facts. unwrap_all. intros E. split; [lia|]. apply Hread in E; [done|lia..].
Qed.
Lemma file_serves : Serves (FilePackage (blen data) file_read) data.
Proof. split; [done|]. intros n off bs. apply file_read_spec. Qed.
Hypothesis Hnever : forall n off, 0 <= n -> 0 <= off -> off + n <= blen data -> is_Some (file_read n off).
Lemma file_read_total n off : 0 <= n -> 0 <= off -> off + n <= blen data ->
  file_package_read (blen data) file_read n off = Some (slice off n data).
Proof.
  intros Hn Ho Hb. unfold file_package_read. destruct (_ || _) eqn:Hc.
  { apply orb_true_iff in Hc as [Hc|Hc]; bool_facts; [lia|]. unwrap_in Hc. lia. }
  destruct (Hnever n off) as [bs E]; [done..|]. rewrite E. f_equal. by apply Hread.
Qed.
Lemma file_hash_loop_spec fuel : forall start len so_far,
  0 <= start -> 0 <= so_far <= len -> start + len <= blen data -> len - so_far <= Z.of_nat fuel ->
  concat (file_hash_loop (blen data) file_read fuel start len so_far).2 =
  slice (start + so_far) (len - so_far) data.
Proof.
  induction fuel as [|fuel IH]; intros start len so_far Hs Hso Hl Hf; cbn [file_hash_loop];
    (destruct (Z.leb_spec len so_far); [replace (len - so_far) with 0 by lia; done|]); [lia|].
  set (n := Z.min (len - so_far) (16 * MiB)).
  assert (Hn : 0 < n <= len - so_far) by (unfold n, MiB; lia).
  rewrite file_read_total by lia. destruct (file_hash_loop _ _ fuel start len (so_far + n)) as [ok rest] eqn:Er.
  simpl. pose proof (IH start len (so_far + n)) as IH'. rewrite Er in IH'. simpl in IH'.
  rewrite IH' by lia.
  replace (start + (so_far + n)) with (start + so_far + n) by lia.
  rewrite slice_cat; [f_equal; lia|lia..|]. apply slice_inside_len; lia.
Qed.
Lemma file_readable : Readable (FilePackage (blen data) file_read) data.
Proof. split. intros off n Ho Hn Hb. by apply file_read_total. Qed.
Lemma file_reliable : Reliable (FilePackage (blen data) file_read) data.
Proof.
  split. intros off n Ho Hn Hb. simpl.
  unfold file_package_hash. pose proof (blen_nonneg data).
  destruct (_ || _) eqn:Hc.
  { apply orb_true_iff in Hc as [Hc|Hc]; bool_facts; [lia|]. unwrap_in Hc. lia. }
  rewrite file_hash_loop_spec by lia. f_equal; lia.
Qed.
End FileLemmas.

Lemma hash_loop_spec p data fuel : Reliable p data -> forall so_far len,
  0 <= so_far <= len -> len <= blen data -> len - so_far <= Z.of_nat fuel * (16 * MiB) ->
  concat (hash_loop fuel p so_far len) = slice so_far (len - so_far) data.
Proof.
  intros Hp. induction fuel as [|fuel IH]; intros so_far len Hs Hl Hf; cbn [hash_loop];
    (destruct (Z.leb_spec len so_far); [replace (len - so_far) with 0 by lia; done|]);
    [unfold MiB in *; lia|].
  set (n := Z.min (len - so_far) (16 * MiB)).
  assert (Hn : 0 < n <= len - so_far) by (unfold n, MiB; lia).
  rewrite concat_app, IH, (reliable_hash so_far n) by (unfold n, MiB in *; lia).
  rewrite slice_cat; [f_equal; lia|lia..|]. apply slice_inside_len; lia.
Qed.
Lemma hash_fuel_enough n : 0 <= n -> n <= Z.of_nat (hash_fuel n) * (16 * MiB).
Proof.
  intros Hn. unfold hash_fuel. assert (0 < 16 * MiB) by (unfold MiB; lia).
  pose proof (Z.div_pos n (16 * MiB) Hn ltac:(lia)).
  pose proof (Z.mul_succ_div_gt n (16 * MiB) ltac:(lia)). nia.
Qed.

(** The layout a signed package has: [cs] bytes of comment, a signature
    that starts [ss] bytes before the end, one end-of-central-directory
    marker in front of the comment and none after it. *)
Record layout (data : list Z) (cs ss : Z) : Prop := MkLayout {
  lay_start : rd16 data (blen data - 6) = Some ss;
  lay_ffff : rd16 data (blen data - 4) = Some 0xffff;
  lay_comment : rd16 data (blen data - 2) = Some cs;
  lay_order : FOOTER_SIZE < ss <= cs;
  lay_fits : cs + EOCD_HEADER_SIZE <= blen data;
  lay_eocd : slice (blen data - cs - EOCD_HEADER_SIZE) 4 data = eocd_marker;
  lay_last i : blen data - cs - EOCD_HEADER_SIZE < i -> i + 4 <= blen data ->
    slice i 4 data ≠ eocd_marker
}.

Lemma rd16_bytes data i a b : rd8 data i = Some a -> rd8 data (i + 1) = Some b -> 0 <= a < 256 ->
  rd16 data i = Some (a + Z.shiftl b 8).
Proof.
  intros Ha Hb Hr. unfold rd16. rewrite Ha, Hb. simpl. f_equal.
  rewrite lor_shiftl_add, Z.shiftl_mul_pow2; lia.
Qed.

Ltac nothing := eexists; split; [reflexivity | by intros].
Lemma read_footer_ok p data : Serves p data -> bytes_ok data ->
  exists r, read_footer p = Some r /\ forall cs ss, r = Some (cs, ss) ->
    rd16 data (blen data - 6) = Some ss /\ rd16 data (blen data - 4) = Some 0xffff /\
    rd16 data (blen data - 2) = Some cs /\ FOOTER_SIZE < ss <= cs /\ cs < 65536.
Proof.
  intros Hp Hb. unfold read_footer, FOOTER_SIZE. rewrite serves_size.
  branch; [nothing|].
  destruct (ReadFullyAtOffset p 6 (blen data - 6)) as [footer|] eqn:E; [|nothing].
  apply serves_read in E as [_ ->]; [|lia..].
  assert (bytes_ok (slice (blen data - 6) 6 data)) by auto with aera.
  assert (blen (slice (blen data - 6) 6 data) = 6) by (apply slice_inside_len; lia).
  do 6 rd_step. branch; [nothing|]. branch; [nothing|]. branch; [nothing|].
  eexists. split; [done|]. intros cs ss [= <- <-].
  repeat match goal with H : rd8 (slice _ _ _) _ = _ |- _ => rewrite rd8_slice in H by lia end.
  subst v1 v2.
  rewrite (rd16_bytes _ _ v v0); [|by replace (blen data - 6) with (blen data - 6 + 0) by lia|by replace (blen data - 6 + 1) with (blen data - 6 + 1) by lia|lia].
  rewrite (rd16_bytes data (blen data - 4) 255 255);
    [|by replace (blen data - 4) with (blen data - 6 + 2) by lia|
      by replace (blen data - 4 + 1) with (blen data - 6 + 3) by lia|lia].
  rewrite (rd16_bytes data (blen data - 2) v3 v4);
    [|by replace (blen data - 2) with (blen data - 6 + 4) by lia|
      by replace (blen data - 2 + 1) with (blen data - 6 + 5) by lia|lia].
  split_and!; try done; try lia. rewrite Z.shiftl_mul_pow2 by lia. lia.
Qed.

Lemma later_marker_ok n : forall i eocd, 0 <= i -> i + Z.of_nat n + 3 <= blen eocd ->
  exists r, later_marker n i eocd = Some r /\
    (r = false <-> forall j, i <= j < i + Z.of_nat n -> slice j 4 eocd ≠ eocd_marker).
Proof.
  induction n as [|n IH]; intros i eocd Hi Hl; cbn [later_marker].
  { exists false. split; [done|]. split; [|done]. intros _ j Hj. lia. }
  unfold bytes_eq. change (blen eocd_marker) with 4. rewrite bytes_at_Some, some_bind by lia.
  destruct (bool_decide _) eqn:Hd; rewrite some_bind; bool_facts.
  { exists true. split; [done|]. split; [done|]. intros Hall. by destruct (Hall i ltac:(lia)). }
  destruct (IH (i + 1) eocd) as (r & -> & Hr); [lia..|]. exists r. split; [done|]. rewrite Hr. split.
  - intros Hf j Hj. destruct (decide (j = i)) as [->|]; [done|]. apply Hf. lia.
  - intros Hf j Hj. apply Hf. lia.
Qed.
Lemma slice_nth off n (data : list Z) x k : slice off n data = x -> 0 <= off -> 0 <= k < n ->
  data !! Z.to_nat (off + k) = x !! Z.to_nat k.
Proof.
  intros <- Ho Hk. unfold slice. rewrite lookup_take_lt by lia. rewrite lookup_drop. f_equal. lia.
Qed.
(** The marker cannot overlap itself. *)
Lemma marker_overlap data off k : 0 <= off -> slice off 4 data = eocd_marker -> 1 <= k <= 3 ->
  slice (off + k) 4 data ≠ eocd_marker.
Proof.
  intros Ho Hm Hk Hm2.
  pose proof (slice_nth _ _ _ _ 0 Hm2 ltac:(lia) ltac:(lia)) as E2. rewrite Z.add_0_r in E2.
  pose proof (slice_nth _ _ _ _ k Hm ltac:(lia) ltac:(lia)) as E1. rewrite E1 in E2.
  assert (k = 1 \/ k = 2 \/ k = 3) as [->|[->| ->]] by lia; discriminate E2.
Qed.
Lemma read_eocd_ok p data cs : Serves p data -> FOOTER_SIZE < cs ->
  exists r, read_eocd p cs = Some r /\ forall eocd, r = Some eocd ->
    cs + EOCD_HEADER_SIZE <= blen data /\
    eocd = slice (blen data - cs - EOCD_HEADER_SIZE) (cs + EOCD_HEADER_SIZE) data /\
    slice (blen data - cs - EOCD_HEADER_SIZE) 4 data = eocd_marker /\
    forall i, blen data - cs - EOCD_HEADER_SIZE < i -> i + 4 <= blen data -> slice i 4 data ≠ eocd_marker.
Proof.
  intros Hp Hcs. unfold read_eocd, FOOTER_SIZE, EOCD_HEADER_SIZE in *. rewrite serves_size.
  branch; [nothing|].
  destruct (ReadFullyAtOffset p (cs + 22) (blen data - (cs + 22))) as [eocd|] eqn:E; [|nothing].
  apply serves_read in E as [_ ->]; [|lia..].
  replace (blen data - (cs + 22)) with (blen data - cs - 22) by lia.
  set (off := blen data - cs - 22) in *. set (eocd := slice off (cs + 22) data).
  assert (Hel : blen eocd = cs + 22) by (apply slice_inside_len; lia).
  unfold bytes_eq. change (blen eocd_marker) with 4. rewrite bytes_at_Some, some_bind by lia.
  destruct (bool_decide _) eqn:Hm; rewrite some_bind; [|nothing]. bool_facts. cbn [negb].
  change (slice 0 4 eocd = eocd_marker) in Hm. unfold eocd in Hm.
  rewrite slice_slice, Z.add_0_r in Hm by lia.
  destruct (later_marker_ok (Z.to_nat (cs + 22 - 3 - 4)) 4 eocd) as (r & -> & Hr); [lia..|].
  rewrite some_bind. destruct r; [nothing|]. eexists. split; [done|]. intros x [= <-].
  split; [lia|]. split; [done|]. split; [done|]. intros i Hi Hi4.
  destruct (Z.le_gt_cases (i - off) 3).
  - replace i with (off + (i - off)) by lia. apply marker_overlap; [lia|done|lia].
  - pose proof (proj1 Hr eq_refl (i - off) ltac:(lia)) as Hr'. unfold eocd in Hr'. rewrite slice_slice in Hr' by lia.
    by replace (off + (i - off)) with i in Hr' by lia.
Qed.

(** Conversely, a package with the layout is parsed as such. *)
Lemma read_footer_complete p data cs ss : Serves p data -> Readable p data -> bytes_ok data ->
  layout data cs ss -> read_footer p = Some (Some (cs, ss)).
Proof.
  intros Hp Hrel Hb [H1 H2 H3 H4 H5 _ _]. unfold EOCD_HEADER_SIZE, FOOTER_SIZE in *.
  unfold read_footer, FOOTER_SIZE. rewrite serves_size. branch; [lia|].
  rewrite (reliable_read (blen data - 6) 6) by lia.
  assert (bytes_ok (slice (blen data - 6) 6 data)) by auto with aera.
  assert (blen (slice (blen data - 6) 6 data) = 6) by (apply slice_inside_len; lia).
  do 6 rd_step.
  repeat match goal with H : rd8 (slice _ _ _) _ = _ |- _ => rewrite rd8_slice in H by lia end.
  rewrite Z.add_0_r in *.
  rewrite (rd16_bytes data (blen data - 6) v v0) in H1 by (done || lia).
  rewrite (rd16_bytes data (blen data - 4) v1 v2) in H2
    by (done || lia || (by replace (blen data - 4) with (blen data - 6 + 2) by lia) ||
        (by replace (blen data - 4 + 1) with (blen data - 6 + 3) by lia)).
  rewrite (rd16_bytes data (blen data - 2) v3 v4) in H3
    by (done || lia || (by replace (blen data - 2) with (blen data - 6 + 4) by lia) ||
        (by replace (blen data - 2 + 1) with (blen data - 6 + 5) by lia)).
  injection H1 as H1. injection H2 as H2. injection H3 as H3.
  rewrite !Z.shiftl_mul_pow2 in * by lia. branch; [impossible|]. branch; [lia|]. branch; [lia|].
  do 3 f_equal; lia.
Qed.
Lemma read_eocd_complete p data cs ss : Serves p data -> Readable p data -> layout data cs ss ->
  read_eocd p cs = Some (Some (slice (blen data - cs - EOCD_HEADER_SIZE) (cs + EOCD_HEADER_SIZE) data)).
Proof.
  intros Hp Hrel [_ _ _ H4 H5 H6 H7]. unfold read_eocd, FOOTER_SIZE, EOCD_HEADER_SIZE in *.
  rewrite serves_size. branch; [lia|]. rewrite (reliable_read (blen data - (cs + 22)) (cs + 22)) by lia.
  replace (blen data - (cs + 22)) with (blen data - cs - 22) by lia.
  set (off := blen data - cs - 22) in *. set (eocd := slice off (cs + 22) data).
  assert (Hel : blen eocd = cs + 22) by (apply slice_inside_len; lia).
  unfold bytes_eq at 1. change (blen eocd_marker) with 4. rewrite bytes_at_Some, some_bind by lia.
  change (take (Z.to_nat 4) (drop (Z.to_nat 0) eocd)) with (slice 0 4 eocd).
  assert (Hm : slice 0 4 eocd = eocd_marker) by (unfold eocd; rewrite slice_slice, Z.add_0_r by lia; done).
  rewrite (bool_decide_eq_true_2 _ Hm), some_bind.
  cbn [negb]. destruct (later_marker_ok (Z.to_nat (cs + 22 - 3 - 4)) 4 eocd) as (r & -> & Hr); [lia..|].
  rewrite some_bind. replace r with false; [done|]. symmetry. apply Hr. intros j Hj.
  unfold eocd. rewrite slice_slice by lia. apply H7; lia.
Qed.

Section VerifySound.
Context `{PublicKeys} `{ShaStreamLaws} `{Sha1Laws}.
(** A certificate that holds the key its type promises. *)
Definition cert_ok (c : Certificate) : Prop :=
  match key_type c with KEY_TYPE_RSA => is_Some (rsa c) | KEY_TYPE_EC => is_Some (ec c) end.
(** What it means for a key to vouch for [signed]. *)
Definition vouches (c : Certificate) (signed sig : list Z) : Prop :=
  match key_type c with
  | KEY_TYPE_RSA => exists k, rsa c = Some k /\
      ((hash_len c = SHA_DIGEST_LENGTH /\ RSA_verify NID_sha1 (SHA1 signed) sig k = true) \/
       (hash_len c = SHA256_DIGEST_LENGTH /\ RSA_verify NID_sha256 (SHA256 signed) sig k = true))
  | KEY_TYPE_EC => exists k, ec c = Some k /\ hash_len c = SHA256_DIGEST_LENGTH /\
      ECDSA_verify (SHA256 signed) sig k = true
  end.
Lemma try_key_spec key keys pieces sig : cert_ok key -> key ∈ keys ->
  exists b, try_key key (sha1_of keys pieces) (sha256_of keys pieces) sig = Some b /\
    (b = true <-> vouches key (concat pieces) sig).
Proof.
  intros Hk Hin. unfold try_key, vouches, cert_ok in *.
  assert (forall len, hash_len key = len -> needs len keys = true) as Hn.
  { intros len <-. unfold needs. apply existsb_exists. exists key. split; [by apply list_elem_of_In|].
    apply Z.eqb_refl. }
  assert (hash_len key = SHA_DIGEST_LENGTH -> sha1_of keys pieces = SHA1 (concat pieces)) as Hs1.
  { intros E. unfold sha1_of. rewrite (Hn _ E). apply sha1_pieces. }
  assert (hash_len key = SHA256_DIGEST_LENGTH -> sha256_of keys pieces = SHA256 (concat pieces)) as H256.
  { intros E. unfold sha256_of. rewrite (Hn _ E). apply sha_pieces. }
  destruct (Z.eqb_spec (hash_len key) SHA_DIGEST_LENGTH) as [E|E];
    [|destruct (Z.eqb_spec (hash_len key) SHA256_DIGEST_LENGTH) as [E'|E']].
  - rewrite (Hs1 E), E. destruct (key_type key); destruct Hk as [k Ek]; rewrite Ek; simpl.
    + eexists. split; [done|]. split; [intros Hv; exists k; split; [done|]; by left|].
      by intros (k' & [= <-] & [[_ ?]|[[=] _]]).
    + exists false. split; [done|]. split; [done|]. by intros (k' & _ & [=] & _).
  - rewrite (H256 E'), E'. destruct (key_type key); destruct Hk as [k Ek]; rewrite Ek; simpl.
    + eexists. split; [done|]. split; [intros Hv; exists k; split; [done|]; by right|].
      by intros (k' & [= <-] & [[[=] _]|[_ ?]]).
    + eexists. split; [done|]. split; [intros Hv; by exists k|]. by intros (k' & [= <-] & _ & ?).
  - exists false. split; [done|]. split; [done|].
    destruct (key_type key); [by intros (k & _ & [[? _]|[? _]])|by intros (k & _ & ? & _)].
Qed.
Lemma try_keys_spec sub keys pieces sig : Forall cert_ok sub -> sub ⊆ keys ->
  exists r, try_keys sub (sha1_of keys pieces) (sha256_of keys pieces) sig = Some r /\
    (r = VERIFY_SUCCESS <-> Exists (fun c => vouches c (concat pieces) sig) sub).
Proof.
  intros Hok. induction Hok as [|key sub Hk _ IH]; intros Hsub; cbn [try_keys].
  { exists VERIFY_FAILURE. split; [done|]. split; [done|]. by intros ?%Exists_nil. }
  destruct (try_key_spec key keys pieces sig Hk) as (b & -> & Hb); [apply Hsub; by left|].
  rewrite some_bind. destruct b.
  - exists VERIFY_SUCCESS. split; [done|]. split; [|done]. intros _. left. by apply Hb.
  - destruct IH as (r & -> & Hr); [intros x Hx; apply Hsub; by right|].
    exists r. split; [done|]. rewrite Exists_cons, Hr. split; [by right|].
    intros [Hv|?]; [|done]. apply Hb in Hv. done.
Qed.

(** The bytes the hashers saw, and where the signature starts. *)
Lemma signed_bytes p data cs : Reliable p data -> 0 <= cs -> cs + 22 <= blen data ->
  concat (hash_loop (hash_fuel (blen data - (cs + 22) + 22 - 2)) p 0 (blen data - (cs + 22) + 22 - 2)) =
  slice 0 (blen data - cs - 2) data.
Proof.
  intros Hrel Hcs Hl. rewrite (hash_loop_spec p data); [f_equal; lia|done|lia|lia|].
  rewrite Z.sub_0_r. apply hash_fuel_enough. lia.
Qed.
Lemma signature_pointer data cs ss : 6 < ss <= cs -> cs + 22 <= blen data ->
  drop (Z.to_nat (cs + 22 - ss)) (slice (blen data - cs - 22) (cs + 22) data) =
  slice (blen data - ss) ss data.
Proof.
  intros. unfold slice. rewrite skipn_firstn_comm, drop_drop. f_equal; [lia|]. f_equal. lia.
Qed.
Lemma verify_file_total p data keys :
  Serves p data -> Reliable p data -> bytes_ok data -> Forall cert_ok keys ->
  exists r, verify_file p keys = Some r /\
    (r = VERIFY_SUCCESS -> exists cs ss sig key, layout data cs ss /\ key ∈ keys /\
       read_pkcs7 (slice (blen data - ss) ss data) (ss - FOOTER_SIZE) = Some (Some sig) /\
       vouches key (slice 0 (blen data - cs - 2) data) sig).
Proof.
  intros Hp Hrel Hb Hkeys. unfold verify_file.
  destruct (read_footer_ok p data Hp Hb) as (f & -> & Hf). rewrite some_bind.
  destruct f as [[cs ss]|]; [|by eexists].
  destruct (Hf _ _ eq_refl) as (Hss & Hff & Hcs & Horder & Hw).
  destruct (read_eocd_ok p data cs Hp) as (e & -> & He); [lia|]. rewrite some_bind.
  destruct e as [eocd|]; [|by eexists]. destruct (He _ eq_refl) as (Hfit & -> & Hm & Hlast).
  rewrite serves_size. unfold EOCD_HEADER_SIZE, FOOTER_SIZE in *.
  rewrite signature_pointer by lia.
  assert (blen (slice (blen data - ss) ss data) = ss) by (apply slice_inside_len; lia).
  destruct (read_pkcs7_ok (slice (blen data - ss) ss data) (ss - 6)) as [s Es];
    [auto with aera|lia|lia|].
  rewrite Es, some_bind. destruct s as [sig|]; [|by eexists].
  destruct (try_keys_spec keys keys (hash_loop (hash_fuel (blen data - (cs + 22) + 22 - 2)) p 0
    (blen data - (cs + 22) + 22 - 2)) sig Hkeys) as (r & -> & Hr); [done|].
  exists r. split; [done|]. intros (key & Hin & Hv)%Hr%Exists_exists.
  rewrite (signed_bytes p data) in Hv by (done || lia).
  exists cs, ss, sig, key. split; [by split|]. split; [done|]. split; done.
Qed.

Lemma verify_file_accepts p data keys cs ss sig :
  Serves p data -> Readable p data -> bytes_ok data -> Forall cert_ok keys -> layout data cs ss ->
  read_pkcs7 (slice (blen data - ss) ss data) (ss - FOOTER_SIZE) = Some (Some sig) ->
  let n := blen data - (cs + 22) + 22 - 2 in
  Exists (fun key => vouches key (concat (hash_loop (hash_fuel n) p 0 n)) sig) keys ->
  verify_file p keys = Some VERIFY_SUCCESS.
Proof.
  intros Hp Hread Hb Hkeys Hlay Hpk n Hv. unfold verify_file.
  rewrite (read_footer_complete p data cs ss), some_bind by done.
  rewrite (read_eocd_complete p data cs ss), some_bind, serves_size by done.
  pose proof Hlay as [_ _ _ H4 H5 _ _]. unfold EOCD_HEADER_SIZE, FOOTER_SIZE in *.
  rewrite signature_pointer, Hpk, some_bind by lia.
  destruct (try_keys_spec keys keys (hash_loop (hash_fuel n) p 0 n) sig Hkeys) as (r & Er & Hr); [done|].
  unfold n in Er. rewrite Er. f_equal. by apply Hr.
Qed.


(** The result of UpdateHashAtOffset is ignored: on a package whose
    footer and comment read back but whose body cannot be read for hashing,
    so that not one byte reaches the hash functions, verify_file still
    succeeds if a key vouches for the empty string. *)
Theorem verify_file_ignores_read_errors p data keys cs ss sig key :
  Serves p data -> Readable p data -> bytes_ok data -> Forall cert_ok keys ->
  (forall off n, UpdateHashAtOffset p off n = (false, [])) ->
  layout data cs ss -> key ∈ keys ->
  read_pkcs7 (slice (blen data - ss) ss data) (ss - FOOTER_SIZE) = Some (Some sig) ->
  vouches key [] sig ->
  verify_file p keys = Some VERIFY_SUCCESS.
Proof.
  intros Hp Hread Hb Hkeys Hfail Hlay Hin Hpk Hv.
  apply (verify_file_accepts p data keys cs ss sig); [done..|].
  apply Exists_exists. exists key. split; [done|].
  assert (forall fuel so_far len, hash_loop fuel p so_far len = []) as ->; [|done].
  induction fuel as [|fuel IH]; intros so_far len; cbn [hash_loop]; destruct (len <=? so_far); try done.
  by rewrite Hfail, IH.
Qed.
End VerifySound.

(** The key store is all or nothing and only holds strong keys: every
    certificate has a SHA-1 or SHA-256 digest length and either an RSA key of
    2048 or 4096 bits with exponent 3 or 65537 or an EC key on a 256-bit
    curve, and a non-empty result means every entry of the archive was
    extracted and accepted, in order. *)
Theorem load_keys_sound `{Pem} archive :
  let ks := LoadKeysFromZipfile archive in
  Forall (fun c => (hash_len c = SHA_DIGEST_LENGTH \/ hash_len c = SHA256_DIGEST_LENGTH) /\
    match key_type c with
    | KEY_TYPE_RSA => exists k, rsa c = Some k /\ (modulus_bits k = 2048 \/ modulus_bits k = 4096) /\
        (public_exponent k = 3 \/ public_exponent k = 65537)
    | KEY_TYPE_EC => exists k, ec c = Some k /\ group_degree k = Some 256
    end) ks /\
  (ks ≠ [] -> exists z, archive = Some z /\
    Forall2 (fun e c => exists pem, extract e = Some pem /\ LoadCertificateFromBuffer pem = Some c)
      (entries z) ks).
Proof.
  cbn zeta.
  assert (forall es cs, load_entries es = Some cs ->
    Forall2 (fun e c => exists pem, extract e = Some pem /\ LoadCertificateFromBuffer pem = Some c) es cs) as Hl.
  { induction es as [|e es IH]; intros cs E; simpl in E; [injection E as <-; constructor|].
    destruct (_ <? _); [done|]. destruct (extract e) as [pem|] eqn:Ee; [|done]. simpl in E.
    destruct (LoadCertificateFromBuffer pem) as [c|] eqn:Ec; [|done]. simpl in E.
    destruct (load_entries es) as [rest|] eqn:Er; [|done]. injection E as <-.
    constructor; [by exists pem|by apply IH]. }
  unfold LoadKeysFromZipfile, IterateZipEntriesAndSearchForKeys.
  destruct archive as [z|]; [|by split]. destruct (negb _); [by split|].
  destruct (load_entries (entries z)) as [cs|] eqn:E; [|by split]. destruct (negb _); [by split|].
  apply Hl in E. split; [|intros _; by exists z].
  clear Hl. induction E as [|e c es cs (pem & _ & Ec) _ IH]; constructor; [|done].
  unfold LoadCertificateFromBuffer in Ec. destruct (PEM_read_bio_X509 pem) as [[nid pk]|]; [|done].
  simpl in Ec. destruct (nid_hash_len nid) as [len|] eqn:En; [|done]. simpl in Ec.
  assert (len = SHA_DIGEST_LENGTH \/ len = SHA256_DIGEST_LENGTH) as Hlen
    by (destruct nid; simpl in En; injection En as <- || done; auto).
  destruct pk as [[k|k|]|]; simpl in Ec; [| |done..].
  - destruct (CheckRSAKey k) eqn:Ek; [|done]. injection Ec as <-. split; [done|]. simpl.
    destruct k as [k|]; [|done]. exists k. split; [done|]. unfold CheckRSAKey in Ek.
    destruct (negb _ && _) eqn:E1 in Ek; [done|]. destruct (negb _ && _) eqn:E2 in Ek; [done|].
    apply andb_false_iff in E1, E2. split.
    + destruct E1; bool_facts; auto.
    + destruct E2; bool_facts; auto.
  - destruct (CheckECKey k) eqn:Ek; [|done]. injection Ec as <-. split; [done|]. simpl.
    destruct k as [k|]; [|done]. exists k. split; [done|]. unfold CheckECKey in Ek.
    destruct (group_degree k) as [d|]; [|done]. bool_facts. by subst.
Qed.

(** ** Concrete runs: a toy signature scheme where the signature is the hash. *)
#[local] Instance demo_sha : Sha256 := { SHA256 bytes := [u8 (foldr Z.add 0 bytes); 7] }.
#[local] Instance demo_stream : ShaStream := {
  sha_ctx := list (list Z); SHA256_Init := []; SHA256_Update c x := c ++ [x];
  SHA256_Final c := SHA256 (concat c) }.
#[local] Instance demo_stream_laws : ShaStreamLaws demo_sha demo_stream.
Proof.
  split. intros chunks. simpl. do 4 f_equal.
  assert (forall acc, foldl (fun c x => c ++ [x]) acc chunks = acc ++ chunks) as ->; [|done].
  induction chunks as [|c chunks IH]; intros acc; simpl; [by rewrite app_nil_r|].
  by rewrite IH, <- app_assoc.
Qed.
#[local] Instance demo_sha1 : Sha1 := {
  SHA1 bytes := []; sha1_ctx := unit; SHA1_Init := tt; SHA1_Update c x := tt; SHA1_Final c := [] }.
#[local] Instance demo_sha1_laws : Sha1Laws demo_sha1.
Proof. by split. Qed.
#[local] Instance demo_keys : PublicKeys := {
  rsa_key := unit; ec_key := unit;
  RSA_verify nid hash sig k := bool_decide (hash = sig);
  ECDSA_verify hash sig k := false; modulus_bits k := 2048; public_exponent k := 3;
  group_degree k := None }.
Definition demo_cert : Certificate := MkCert 32 KEY_TYPE_RSA (Some tt) None.
(** Three bytes of archive, the record, and a comment of 60 bytes that ends
    with the PKCS#7 block and the footer. *)
Definition demo_block (sig : list Z) : list Z := pkcs7 (MkSigned [1] [1] [] [] [] [1] [] [] [] sig).
Definition demo_package (sig : list Z) : list Z :=
  [1; 2; 3] ++ eocd_marker ++ replicate 16 0 ++ [blen (demo_block sig) + 6; 0] ++ demo_block sig ++
  [blen (demo_block sig) + 6; 0; 255; 255; blen (demo_block sig) + 6; 0].
Definition demo_good : list Z := demo_package [172; 7].


(** A signature of the empty string on the same body, and a device that
    fails every read made for hashing. *)
Definition demo_forged : list Z := demo_package [0; 7].
Definition failing_package : Package :=
  MkPackage (blen demo_forged) (memory_read demo_forged) (fun _ _ => (false, [])).
Lemma demo_forged_layout : layout demo_forged 39 39.
Proof.
  split; try (vm_compute; reflexivity); try (split; vm_compute; (reflexivity || discriminate)).
  - vm_compute. discriminate.
  - intros i Hi Hi4. change (blen demo_forged) with 64 in *. unfold EOCD_HEADER_SIZE in Hi.
    assert (Forall (fun i => slice i 4 demo_forged ≠ eocd_marker) (seqZ 4 57)) as H.
    { apply (bool_decide_unpack (Forall _ _)). vm_compute. exact I. }
    rewrite Forall_forall in H. apply H. apply elem_of_seqZ. lia.
Qed.
Lemma verify_file_ignores_read_errors_witness :
  verify_file failing_package [demo_cert] = Some VERIFY_SUCCESS /\
  verify_file (MemoryPackage demo_forged) [demo_cert] = Some VERIFY_FAILURE.
Proof.
  split; [|vm_compute; reflexivity].
  apply (verify_file_ignores_read_errors failing_package demo_forged [demo_cert] 39 39 [0; 7] demo_cert).
  - split; [reflexivity|]. intros n off bs Hn Ho E. apply memory_read_spec in E; [exact E|lia|lia|].
    vm_compute. reflexivity.
  - split. intros off n Ho Hn Hb. apply memory_read_spec; [lia|lia|vm_compute; reflexivity|].
    split; [exact Hb|reflexivity].
  - apply (bool_decide_unpack (Forall _ _)). vm_compute. exact I.
  - apply Forall_singleton. exists tt. reflexivity.
  - reflexivity.
  - exact demo_forged_layout.
  - left.
  - vm_compute. reflexivity.
  - exists tt. split; [reflexivity|]. right. split; [reflexivity|vm_compute; reflexivity].
Defined.
