(* ===== verification/FuseSideload.v ===== *)
(** fuse_sideload/fuse_sideload.cpp and fuse_provider.cpp: the FUSE file
    system that serves a package from an adb host, a file or a block map.

    Each request is handled by a function from the daemon's state to a
    result code, the reply written to the kernel, and the new state. The
    data provider is untrusted: a call reports success or failure and the
    bytes it left in the buffer. A read outside a buffer is [None]. *)
From stdpp Require Import base list strings gmap.
From Stdlib Require Import ZArith Lia.
From S2P Require Import Prelude Kernel Abl RangeSet.

Definition FUSE_ROOT_ID : Z := 1.
Definition PACKAGE_FILE_ID : Z := FUSE_ROOT_ID + 1.
Definition EXIT_FLAG_ID : Z := FUSE_ROOT_ID + 2.
Definition NO_STATUS : Z := 1.
Definition NO_STATUS_EXIT : Z := 2.
Definition EPERM : Z := 1.
Definition ENOENT : Z := 2.
Definition EIO : Z := 5.
Definition ENOSYS : Z := 38.

Record fuse_data := MkFuse {
  file_size : Z; block_size : Z; file_blocks : Z; uid : Z; gid : Z;
  curr_block : Z; block_data : list Z; hashes : list (list Z) }.
Definition NO_BLOCK : Z := u32 (-1).
(** ReadBlockAlignedData with fetch_size and start_block: the return value
    and the bytes left at the start of the buffer. *)
Definition Provider : Type := Z -> Z -> bool * list Z.

Record fuse_attr := MkAttr {
  a_ino : Z; a_size : Z; a_blocks : Z; a_mode : Z; a_nlink : Z; a_uid : Z; a_gid : Z; a_blksize : Z }.
(** What is written to /dev/fuse after the header. *)
Inductive Reply :=
| InitOut (major minor max_readahead flags max_background congestion max_write struct_size : Z)
| AttrOut (valid : Z) (attr : fuse_attr)
| EntryOut (nodeid generation valid : Z) (attr : fuse_attr)
| OpenOut (fh : Z)
| ReadOut (data : list Z).
Inductive Request :=
| Init (major minor max_readahead : Z)
| Lookup (filename : string)
| GetAttr | OpenFile | Flush | Release
| Read (offset size : Z)
| OtherOp.

Definition S_IFDIR : Z := 0x4000.
Definition S_IFREG : Z := 0x8000.
(** What the code takes from the kernel's header <linux/fuse.h>. *)
Record FuseHeader := MkFuseHeader {
  FUSE_KERNEL_VERSION : Z; FUSE_KERNEL_MINOR_VERSION : Z; sizeof_init_out : Z;
  FUSE_COMPAT_22_INIT_OUT_SIZE : option Z }.

Definition handle_init (h : FuseHeader) (major minor max_readahead : Z) : Z * option Reply :=
  if negb (major =? FUSE_KERNEL_VERSION h) || (minor <? 6) then (-1, None)
  else
  let fuse_struct_size := match FUSE_COMPAT_22_INIT_OUT_SIZE h with
    | Some compat => if minor <=? 22 then compat else sizeof_init_out h
    | None => sizeof_init_out h end in
  (NO_STATUS, Some (InitOut (FUSE_KERNEL_VERSION h) (Z.min minor (FUSE_KERNEL_MINOR_VERSION h))
                      max_readahead 0 32 32 4096 fuse_struct_size)).
Definition fill_attr (fd : fuse_data) (nodeid size mode : Z) : fuse_attr :=
  MkAttr nodeid size (if size =? 0 then 0 else (size - 1) / 4096 + 1) mode 1 (uid fd) (gid fd) 4096.
Definition handle_getattr (fd : fuse_data) (nodeid : Z) : Z * option Reply :=
  if nodeid =? FUSE_ROOT_ID
  then (NO_STATUS, Some (AttrOut 10 (fill_attr fd nodeid 4096 (Z.lor S_IFDIR 365))))
  else if nodeid =? PACKAGE_FILE_ID
  then (NO_STATUS, Some (AttrOut 10 (fill_attr fd PACKAGE_FILE_ID (file_size fd) (Z.lor S_IFREG 292))))
  else if nodeid =? EXIT_FLAG_ID
  then (NO_STATUS_EXIT, Some (AttrOut 10 (fill_attr fd EXIT_FLAG_ID 0 S_IFREG)))
  else (- ENOENT, None).
Definition handle_lookup (fd : fuse_data) (filename : string) : Z * option Reply :=
  if String.eqb filename "package.zip"
  then (NO_STATUS, Some (EntryOut PACKAGE_FILE_ID PACKAGE_FILE_ID 10
          (fill_attr fd PACKAGE_FILE_ID (file_size fd) (Z.lor S_IFREG 292))))
  else if String.eqb filename "exit"
  then (NO_STATUS_EXIT, Some (EntryOut EXIT_FLAG_ID EXIT_FLAG_ID 10 (fill_attr fd EXIT_FLAG_ID 0 S_IFREG)))
  else (- ENOENT, None).
Definition handle_open (nodeid : Z) : Z * option Reply :=
  if nodeid =? EXIT_FLAG_ID then (- EPERM, None)
  else if negb (nodeid =? PACKAGE_FILE_ID) then (- ENOENT, None)
  else (NO_STATUS, Some (OpenOut 10)).
Definition handle_flush : Z * option Reply := (0, None).
Definition handle_release : Z * option Reply := (0, None).

Definition set_block (fd : fuse_data) (curr : Z) (data : list Z) : fuse_data :=
  MkFuse (file_size fd) (block_size fd) (file_blocks fd) (uid fd) (gid fd) curr data (hashes fd).
Definition set_hash (fd : fuse_data) (block : Z) (hash : list Z) : fuse_data :=
  MkFuse (file_size fd) (block_size fd) (file_blocks fd) (uid fd) (gid fd) (curr_block fd)
    (block_data fd) (<[Z.to_nat block := hash]> (hashes fd)).
Definition all_zero (hash : list Z) : bool := forallb (fun i => i =? 0) hash.

Section Fetch.
Context `{Sha256}.
(** The comparison of the received block with the stored hash. *)
Definition check_block (fd : fuse_data) (block : Z) : option (Z * fuse_data) :=
  let hash := SHA256 (block_data fd) in
  blockhash ← hashes fd !! Z.to_nat block;
  if bool_decide (hash = blockhash) then Some (0, fd)
  else if negb (all_zero blockhash) then Some (- EIO, set_block fd NO_BLOCK (block_data fd))
  else Some (0, set_hash fd block hash).
Definition fetch_block (provider : Provider) (fd : fuse_data) (block : Z) : option (Z * fuse_data) :=
  if block =? curr_block fd then Some (0, fd)
  else if file_blocks fd <=? block
  then Some (0, set_block fd (u32 block) (replicate (Z.to_nat (block_size fd)) 0))
  else
  let start := u64 (block * block_size fd) in
  let partial := file_size fd <? u64 (start + block_size fd) in
  let fetch_size := if partial then u32 (file_size fd - start) else block_size fd in
  let data := if partial
              then overwrite fetch_size (replicate (Z.to_nat (block_size fd - fetch_size)) 0) (block_data fd)
              else block_data fd in
  let '(ok, bytes) := provider fetch_size (u32 block) in
  let data := overwrite 0 bytes data in
  if negb ok then Some (- EIO, set_block fd (curr_block fd) data)
  else check_block (set_block fd (u32 block) data) block.

(** The second case of a read: the rest of this block and the next one. *)
Definition read_across (provider : Provider) (fd : fuse_data) (block block_offset size : Z)
    : option (Z * option Reply * fuse_data) :=
  extra ← bytes_at (block_data fd) block_offset (block_size fd - block_offset);
  r ← fetch_block provider fd (u32 (block + 1));
  let '(result, fd) := r in
  if negb (result =? 0) then Some (result, None, fd)
  else
  rest ← bytes_at (block_data fd) 0 (size - (block_size fd - block_offset));
  Some (NO_STATUS, Some (ReadOut (extra ++ rest)), fd).
Definition handle_read (provider : Provider) (fd : fuse_data) (nodeid offset size : Z)
    : option (Z * option Reply * fuse_data) :=
  if negb (nodeid =? PACKAGE_FILE_ID) then Some (- ENOENT, None, fd)
  else
  let block := u32 (offset / block_size fd) in
  r ← fetch_block provider fd block;
  let '(result, fd) := r in
  if negb (result =? 0) then Some (result, None, fd)
  else
  let block_offset := u32 (u64 (offset - u32 (block * block_size fd))) in
  if u32 (size + block_offset) <=? block_size fd
  then
  bytes ← bytes_at (block_data fd) block_offset size;
  Some (NO_STATUS, Some (ReadOut bytes), fd)
  else read_across provider fd block block_offset size.

(** ** The daemon *)
(** Setting up: [inl] is the exit code, otherwise the initial state; the
    buffer comes from malloc and holds [garbage]. *)
Definition fuse_setup (size bsize uid gid : Z) (garbage : list Z) : Z + fuse_data :=
  if bsize <? 4096 then inl (-1)
  else if 2 ^ 22 <? bsize then inl (-1)
  else
  let blocks := if size =? 0 then 0 else u32 ((size - 1) / bsize + 1) in
  if 2 ^ 18 <? blocks then inl (-1)
  else inr (MkFuse size bsize blocks uid gid NO_BLOCK garbage
             (replicate (Z.to_nat blocks) (replicate 32 0))).
Definition pure_handler (r : Z * option Reply) (fd : fuse_data) : option (Z * option Reply * fuse_data) :=
  Some (r.1, r.2, fd).
Definition fuse_dispatch (h : FuseHeader) (provider : Provider) (nodeid : Z) (req : Request)
    (fd : fuse_data) : option (Z * option Reply * fuse_data) :=
  match req with
  | Init major minor ra => pure_handler (handle_init h major minor ra) fd
  | Lookup filename => pure_handler (handle_lookup fd filename) fd
  | GetAttr => pure_handler (handle_getattr fd nodeid) fd
  | OpenFile => pure_handler (handle_open nodeid) fd
  | Read offset size => handle_read provider fd nodeid offset size
  | Flush => pure_handler handle_flush fd
  | Release => pure_handler handle_release fd
  | OtherOp => pure_handler (- ENOSYS, None) fd
  end.
(** What a read of /dev/fuse returns. *)
Inductive Event :=
| ReadFailed (enodev : bool)
| ShortRequest
| Req (provider : Provider) (nodeid : Z) (req : Request).
(** The request loop: the replies and error headers written, and the exit
    code, absent when the requests ran out. *)
Inductive Written := Data (r : Reply) | ErrorHeader (code : Z).
Definition written_of (result : Z) (reply : option Reply) : list Written :=
  match reply with Some d => [Data d] | None => [] end ++
  (if (result =? NO_STATUS) || (result =? NO_STATUS_EXIT) then [] else [ErrorHeader result]).
Fixpoint fuse_loop (h : FuseHeader) (events : list Event) (fd : fuse_data)
    : option (list Written * option Z * fuse_data) :=
  match events with
  | [] => Some ([], None, fd)
  | ReadFailed true :: _ => Some ([], Some (-1), fd)
  | ReadFailed false :: rest | ShortRequest :: rest => fuse_loop h rest fd
  | Req provider nodeid req :: rest =>
      r ← fuse_dispatch h provider nodeid req fd;
      let '(result, reply, fd) := r in
      let out := written_of result reply in
      if result =? NO_STATUS_EXIT then Some (out, Some 0, fd)
      else
      more ← fuse_loop h rest fd;
      let '(written, code, fd) := more in
      Some (out ++ written, code, fd)
  end.
End Fetch.

(** ** Providers over a readable source *)
Section Providers.
(** android::base::ReadFullyAtOffset on the source: count, offset. *)
Variable read_fully : Z -> Z -> option (list Z).
Variables (psize pblock : Z).
Definition to_provider (r : option (list Z)) : bool * list Z :=
  match r with Some bs => (true, bs) | None => (false, []) end.
Definition file_provider_read (fetch_size start_block : Z) : option (list Z) :=
  let offset := u64 (start_block * pblock) in
  if (psize <? fetch_size) || (u64 (psize - fetch_size) <? offset) then None
  else read_fully fetch_size offset.

Variables (source_block : Z) (ranges : RangeSet).
Fixpoint read_ranges (rs : list Range) : option (list Z) :=
  match rs with
  | [] => Some []
  | (range_start, range_end) :: rs =>
      bytes ← read_fully (u64 (u64 (range_end - range_start) * source_block)) (u64 (range_start * source_block));
      rest ← read_ranges rs;
      Some (bytes ++ rest)
  end.
(** GetSubRanges and GetBlockNumber abort on a broken set: outer [None]. *)
Definition block_provider_read (fetch_size start_block : Z) : option (option (list Z)) :=
  let offset := u64 (start_block * pblock) in
  if (psize <? fetch_size) || (u64 (psize - fetch_size) <? offset) then Some None
  else
  sub ← GetSubRanges ranges (offset / source_block) (fetch_size / source_block);
  match sub with
  | None => Some None
  | Some sub =>
      match read_ranges (ranges_ sub) with
      | None => Some None
      | Some out =>
          let tailing_bytes := fetch_size mod source_block in
          if tailing_bytes =? 0 then Some (Some out)
          else
          tail_block ← match last (ranges_ sub) with
                       | Some r => Some r.2
                       | None => GetBlockNumber ranges (offset / source_block)
                       end;
          Some (match read_fully tailing_bytes (u64 (tail_block * source_block)) with
                | Some tail => Some (out ++ tail)
                | None => None
                end)
      end
  end.
End Providers.

(** ** Serving the file *)

(** Bytes [off, off+n) of a file that is followed by zeros without end: what
    a read of the package has to return. *)
Definition page (c : list Z) (off n : Z) : list Z := (fun i => nth (Z.to_nat i) c 0) <$> seqZ off n.
Definition block_page (c : list Z) (fd : fuse_data) (b : Z) : list Z :=
  page c (b * block_size fd) (block_size fd).
(** A source of the file [c]: each block is delivered, the last one cut at
    the end of the file. *)
Definition honest (c : list Z) (bs : Z) (provider : Provider) : Prop :=
  forall b, 0 <= b -> b * bs < blen c ->
    let n := Z.min bs (blen c - b * bs) in provider n b = (true, slice (b * bs) n c).

(** The geometry the daemon fixes when it starts. *)
Record shape (fd : fuse_data) : Prop := MkShape {
  sh_block : 4096 <= block_size fd <= 2 ^ 22;
  sh_size : 0 <= file_size fd;
  sh_blocks : file_blocks fd = (file_size fd + block_size fd - 1) / block_size fd;
  sh_max : file_blocks fd <= 2 ^ 18;
  sh_data : blen (block_data fd) = block_size fd;
  sh_hashes : Z.of_nat (length (hashes fd)) = file_blocks fd }.
Section Serving.
Context `{Sha256}.
(** Every cached byte and every stored hash is the file's. *)
Record serves (c : list Z) (fd : fuse_data) : Prop := MkServes {
  sv_shape : shape fd;
  sv_size : file_size fd = blen c;
  sv_cache : curr_block fd ≠ NO_BLOCK -> block_data fd = block_page c fd (curr_block fd);
  sv_hashes : forall b h, 0 <= b -> hashes fd !! Z.to_nat b = Some h ->
    all_zero h = true \/ h = SHA256 (block_page c fd b) }.

Lemma page_slice c off n : 0 <= off -> off + n <= blen c -> page c off n = slice off n c.
Proof.
  intros Ho Hn. apply list_eq. intros i. unfold page, slice.
  rewrite list_lookup_fmap. destruct (decide (Z.of_nat i < n)).
  - rewrite lookup_seqZ_lt by lia. simpl. rewrite lookup_take_lt, lookup_drop by lia.
    replace (Z.to_nat (off + Z.of_nat i)) with (Z.to_nat off + i)%nat by lia.
    symmetry. rewrite nth_lookup. unfold blen in Hn.
    destruct (lookup_lt_is_Some_2 c (Z.to_nat off + i)) as [x ->]; [lia|done].
  - rewrite lookup_seqZ_ge, lookup_take_ge by lia. done.
Qed.
Lemma page_app c off n m : 0 <= n -> 0 <= m -> page c off (n + m) = page c off n ++ page c (off + n) m.
Proof. intros. unfold page. by rewrite seqZ_app, fmap_app by lia. Qed.
Lemma page_beyond c off n : blen c <= off -> page c off n = replicate (Z.to_nat n) 0.
Proof.
  intros Hc. unfold blen in Hc. apply list_eq. intros i. unfold page. rewrite list_lookup_fmap.
  destruct (decide (Z.of_nat i < n)).
  - rewrite lookup_seqZ_lt by lia. simpl. rewrite lookup_replicate_2 by lia.
    by rewrite nth_overflow by lia.
  - rewrite lookup_seqZ_ge by lia. symmetry. apply lookup_replicate_None. lia.
Qed.
Lemma blen_page c off n : 0 <= n -> blen (page c off n) = n.
Proof. intros. unfold blen, page. rewrite length_fmap, length_seqZ. lia. Qed.
Lemma page_within c off m o n : 0 <= o -> 0 <= n -> o + n <= m ->
  slice o n (page c off m) = page c (off + o) n.
Proof.
  intros. replace m with (o + (n + (m - o - n))) by lia.
  rewrite !page_app by lia. unfold slice.
  rewrite drop_app_length'.
  - rewrite take_app_length'; [done|]. pose proof (blen_page c (off + o) n). unfold blen in *. lia.
  - pose proof (blen_page c off o). unfold blen in *. lia.
Qed.
Lemma overwrite_tail_first a b d : blen a + blen b = blen d ->
  overwrite 0 a (overwrite (blen a) b d) = a ++ b.
Proof.
  unfold blen, overwrite. intros Hl. rewrite Nat2Z.id. simpl. f_equal.
  rewrite drop_app_length' by (rewrite length_take; lia).
  rewrite (drop_ge d) by lia. by rewrite app_nil_r.
Qed.

Lemma NO_BLOCK_eq : NO_BLOCK = 4294967295.
Proof. done. Qed.

(** The state keeps its geometry. *)
Definition same_file (fd fd' : fuse_data) : Prop :=
  file_size fd' = file_size fd /\ block_size fd' = block_size fd /\
  file_blocks fd' = file_blocks fd /\ uid fd' = uid fd /\ gid fd' = gid fd.

Lemma blocks_start fd block : shape fd -> 0 <= block ->
  block < file_blocks fd <-> block * block_size fd < file_size fd.
Proof.
  intros [Hb Hs Hf _ _ _] H0. rewrite Hf. split; intros Hlt.
  - pose proof (Z.mul_div_le (file_size fd + block_size fd - 1) (block_size fd)). nia.
  - apply Z.lt_le_trans with (block + 1); [lia|]. apply Z.div_le_lower_bound; nia.
Qed.

(** The bytes an honest provider leaves in the buffer. *)
Lemma fetched_data c fd block : shape fd -> file_size fd = blen c -> 0 <= block < file_blocks fd ->
  let start := block * block_size fd in
  let rest := file_size fd - start in
  (if file_size fd <? start + block_size fd
   then overwrite 0 (slice start rest c)
          (overwrite rest (replicate (Z.to_nat (block_size fd - rest)) 0) (block_data fd))
   else overwrite 0 (slice start (block_size fd) c) (block_data fd)) = block_page c fd block.
Proof.
  intros Hsh Hc Hb start rest. pose proof Hsh as [Hbs Hs _ _ Hd _].
  destruct (blocks_start fd block) as [Hlt _]; [done..|lia|]. specialize (Hlt ltac:(lia)).
  unfold block_page. fold start. fold start in Hlt. assert (0 <= start) by (unfold start; nia).
  destruct (Z.ltb_spec (file_size fd) (start + block_size fd)).
  - assert (blen (slice start rest c) = rest) as Hl by (apply slice_inside_len; unfold rest; lia).
    rewrite <- Hl at 2. rewrite overwrite_tail_first.
    + replace (block_size fd) with (rest + (block_size fd - rest)) at 2 by lia.
      rewrite page_app, page_slice, (page_beyond _ (start + rest)) by (unfold rest; lia). done.
    + rewrite Hl, Hd. unfold blen. rewrite length_replicate. unfold rest. lia.
  - rewrite page_slice by lia. rewrite overwrite_all, drop_ge, app_nil_r; [done|].
    pose proof (slice_inside_len start (block_size fd) c). unfold blen in *. lia.
Qed.

Lemma check_block_serves c fd block :
  serves c fd -> 0 <= block < file_blocks fd -> curr_block fd = block ->
  exists fd', check_block fd block = Some (0, fd') /\ serves c fd' /\ same_file fd fd' /\
    curr_block fd' = block /\ block_data fd' = block_data fd.
Proof.
  intros [Hsh Hsz Hca Hha] Hb Hcur. pose proof Hsh as [? ? ? ? ? Hh].
  unfold check_block.
  destruct (lookup_lt_is_Some_2 (hashes fd) (Z.to_nat block)) as [bh Hbh]; [lia|]. rewrite Hbh. cbn -[SHA256].
  assert (block_data fd = block_page c fd block) as Hd.
  { rewrite <- Hcur. apply Hca. rewrite Hcur. rewrite NO_BLOCK_eq. lia. }
  case_bool_decide as He.
  { exists fd. by split_and!. }
  destruct (all_zero bh) eqn:Hz; simpl.
  - eexists. split; [done|]. split; [|by split_and!]. split; try done.
    + split; try done. simpl. by rewrite length_insert.
    + simpl. intros b h0 H0. destruct (decide (b = block)) as [->|Hne].
      * rewrite list_lookup_insert_eq by lia. intros [= <-]. right. rewrite Hd. done.
      * rewrite list_lookup_insert_ne by lia. apply Hha. done.
  - destruct (Hha block bh) as [E|E]; [lia|done|congruence|]. exfalso. apply He. rewrite Hd, E. done.
Qed.

Lemma fetch_block_serves c provider fd block :
  serves c fd -> honest c (block_size fd) provider -> 0 <= block < NO_BLOCK ->
  exists fd', fetch_block provider fd block = Some (0, fd') /\ serves c fd' /\ same_file fd fd' /\
    curr_block fd' = block /\ block_data fd' = block_page c fd block.
Proof.
  intros Hsv Hho Hb. pose proof Hsv as [Hsh Hsz Hca Hha]. pose proof Hsh as [Hbs Hs Hf Hm Hd Hh].
  rewrite NO_BLOCK_eq in Hb. unfold fetch_block. assert (u32 block = block) as Hu by (unwrap; done).
  destruct (Z.eqb_spec block (curr_block fd)) as [->|Hne].
  { exists fd. split_and!; try done. apply Hca. rewrite NO_BLOCK_eq. lia. }
  destruct (Z.leb_spec (file_blocks fd) block) as [Hge|Hlt].
  { eexists. split; [done|]. rewrite Hu.
    assert (replicate (Z.to_nat (block_size fd)) 0 = block_page c fd block) as Hz.
    { symmetry. apply page_beyond. destruct (blocks_start fd block); [done|lia|].
      rewrite <- Hsz. lia. }
    split; [|by split_and!]. split; try done. split; try done.
    simpl. unfold blen. rewrite length_replicate. lia. }
  rewrite Hu. destruct (blocks_start fd block) as [Hst _]; [done|lia|]. specialize (Hst Hlt).
  assert (0 <= block * block_size fd <= 2 ^ 18 * 2 ^ 22) by nia.
  assert (u64 (block * block_size fd) = block * block_size fd) as -> by (unwrap; done).
  assert (u64 (block * block_size fd + block_size fd) = block * block_size fd + block_size fd) as -> by (unwrap; done).
  pose proof (fetched_data c fd block Hsh Hsz ltac:(lia)) as Hfd. cbv zeta in Hfd.
  specialize (Hho block ltac:(lia) ltac:(lia)). cbv zeta in Hho. rewrite <- Hsz in Hho.
  match goal with |- context [ provider ?n block ] => assert (provider n block = (true, slice (block * block_size fd) n c)) as -> end.
  { destruct (Z.ltb_spec (file_size fd) (block * block_size fd + block_size fd)).
    - unwrap. by rewrite Z.min_r in Hho by lia.
    - by rewrite Z.min_l in Hho by lia. }
  cbn [negb].
  match goal with |- context [ set_block fd block ?d ] => assert (d = block_page c fd block) as -> end.
  { rewrite <- Hfd. destruct (Z.ltb_spec (file_size fd) (block * block_size fd + block_size fd)); [|done].
    unwrap. done. }
  destruct (check_block_serves c (set_block fd block (block_page c fd block)) block)
    as (fd' & E & Hsv' & Hsame & Hcur & Hdat); [|simpl; lia|done|].
  - split; try done. split; try done. simpl. unfold block_page. apply blen_page. lia.
  - exists fd'. done.
Qed.

Lemma block_offset_mod offset bs : 0 <= offset -> 0 < bs < 2 ^ 32 ->
  u32 (u64 (offset - u32 (u32 (offset / bs) * bs))) = offset mod bs.
Proof.
  intros Ho Hb. pose proof (Z.mod_pos_bound offset bs ltac:(lia)) as Hm.
  set (q := offset / bs). assert (offset = bs * q + offset mod bs) as Hq by (apply Z.div_mod; lia).
  set (r := offset mod bs) in *. unfold u32, u64. rewrite Z.mod_mod_divide by (exists (2 ^ 32); done).
  rewrite Zminus_mod_idemp_r, <- Zminus_mod_idemp_r, Zmult_mod_idemp_l, Zminus_mod_idemp_r.
  rewrite Hq at 1. replace (bs * q + r - q * bs) with r by lia. apply Z.mod_small. lia.
Qed.

Lemma bytes_at_slice bs i n : 0 <= i -> i + n <= blen bs -> bytes_at bs i n = Some (slice i n bs).
Proof. apply bytes_at_Some. Qed.
Lemma handle_read_serves c provider fd offset size :
  serves c fd -> honest c (block_size fd) provider ->
  0 <= offset < (NO_BLOCK - 1) * block_size fd -> 0 <= size <= block_size fd ->
  exists fd', handle_read provider fd PACKAGE_FILE_ID offset size =
      Some (NO_STATUS, Some (ReadOut (page c offset size)), fd') /\ serves c fd' /\ same_file fd fd'.
Proof.
  intros Hsv Hho Ho Hn. pose proof Hsv as [Hsh Hsz Hca Hha]. pose proof Hsh as [Hbs Hs Hf Hm Hd Hh].
  set (bs := block_size fd) in *. set (o := offset mod bs). set (b := offset / bs).
  assert (offset = b * bs + o) as Hoff by (unfold b, o; pose proof (Z.div_mod offset bs); lia).
  assert (0 <= o < bs) by (apply Z.mod_pos_bound; lia).
  assert (0 <= b < NO_BLOCK - 1) by (unfold b; rewrite NO_BLOCK_eq in *; split;
    [apply Z.div_pos; lia|apply Z.div_lt_upper_bound; lia]).
  rewrite NO_BLOCK_eq in *. assert (u32 b = b) as Hub by (unwrap; done).
  unfold handle_read. fold bs. fold b. rewrite Hub. cbn [negb PACKAGE_FILE_ID].
  destruct (fetch_block_serves c provider fd b) as (fd1 & -> & Hsv1 & Hsame1 & Hcur1 & Hdat1);
    [done|done|rewrite NO_BLOCK_eq; lia|]. simpl.
  pose proof Hsame1 as (_ & Hbs1 & _). rewrite Hbs1. fold bs. rewrite <- Hub.
  unfold b. rewrite block_offset_mod by lia. fold o. fold b. rewrite Hub.
  assert (u32 (size + o) = size + o) as -> by (unwrap; lia).
  assert (blen (block_data fd1) = bs) as Hl1 by (rewrite Hdat1; apply blen_page; lia).
  destruct (Z.leb_spec (size + o) bs).
  { rewrite bytes_at_slice by lia. rewrite some_bind. exists fd1. split; [|done]. do 4 f_equal.
    rewrite Hdat1. unfold block_page. fold bs.
    by rewrite page_within, <- Hoff by lia. }
  unfold read_across. rewrite Hbs1. fold bs. rewrite bytes_at_slice by lia. rewrite some_bind.
  assert (u32 (b + 1) = b + 1) as -> by (unwrap; lia).
  destruct (fetch_block_serves c provider fd1 (b + 1)) as (fd2 & -> & Hsv2 & Hsame2 & Hcur2 & Hdat2);
    [done|by rewrite Hbs1|rewrite NO_BLOCK_eq; lia|]. simpl.
  assert (blen (block_data fd2) = bs) as Hl2 by (rewrite Hdat2; unfold block_page; rewrite Hbs1; apply blen_page; lia).
  pose proof Hsame2 as (_ & Hbs2 & _). rewrite Hbs2, Hbs1. fold bs.
  rewrite bytes_at_slice by lia. rewrite some_bind.
  exists fd2. split.
  - do 4 f_equal. rewrite Hdat1, Hdat2. unfold block_page. rewrite Hbs1. fold bs.
    rewrite page_within by lia.
    replace size with ((bs - o) + (size - (bs - o))) at 2 by lia. rewrite page_app by lia.
    rewrite <- Hoff. f_equal.
    rewrite page_within by lia. by replace ((b + 1) * bs + 0) with (offset + (bs - o)) by (rewrite Hoff; ring).
  - split; [done|]. unfold same_file in *. intuition congruence.
Qed.

(** The file system without a cache: a package.zip with content [c]. *)
Definition ideal_dispatch (h : FuseHeader) (c : list Z) (fd : fuse_data) (nodeid : Z) (req : Request)
    : Z * option Reply :=
  match req with
  | Init major minor ra => handle_init h major minor ra
  | Lookup filename => handle_lookup fd filename
  | GetAttr => handle_getattr fd nodeid
  | OpenFile => handle_open nodeid
  | Read offset size =>
      if nodeid =? PACKAGE_FILE_ID then (NO_STATUS, Some (ReadOut (page c offset size))) else (- ENOENT, None)
  | Flush => handle_flush
  | Release => handle_release
  | OtherOp => (- ENOSYS, None)
  end.
Fixpoint ideal_loop (h : FuseHeader) (c : list Z) (fd : fuse_data) (events : list Event)
    : list Written * option Z :=
  match events with
  | [] => ([], None)
  | ReadFailed true :: _ => ([], Some (-1))
  | ReadFailed false :: rest | ShortRequest :: rest => ideal_loop h c fd rest
  | Req _ nodeid req :: rest =>
      let '(result, reply) := ideal_dispatch h c fd nodeid req in
      let out := written_of result reply in
      if result =? NO_STATUS_EXIT then (out, Some 0)
      else let '(written, code) := ideal_loop h c fd rest in (out ++ written, code)
  end.
(** The kernel honours max_read, asks inside the 2^32 - 2 blocks the daemon
    can number, and the host answers with the file's bytes. *)
Definition good_event (c : list Z) (bs : Z) (ev : Event) : Prop :=
  match ev with
  | Req provider _ (Read offset size) =>
      honest c bs provider /\ 0 <= offset < (NO_BLOCK - 1) * bs /\ 0 <= size <= bs
  | _ => True
  end.

Lemma same_file_attr fd fd' n sz m : same_file fd fd' -> fill_attr fd' n sz m = fill_attr fd n sz m.
Proof. intros (_ & _ & _ & Hu & Hg). unfold fill_attr. by rewrite Hu, Hg. Qed.
Lemma fuse_dispatch_ideal h c fd0 fd provider nodeid req :
  serves c fd -> same_file fd0 fd -> good_event c (block_size fd) (Req provider nodeid req) ->
  exists fd', fuse_dispatch h provider nodeid req fd =
      Some ((ideal_dispatch h c fd0 nodeid req).1, (ideal_dispatch h c fd0 nodeid req).2, fd') /\
    serves c fd' /\ same_file fd0 fd'.
Proof.
  intros Hsv Hsame Hgood. pose proof Hsame as (Hfs & _).
  assert (handle_getattr fd nodeid = handle_getattr fd0 nodeid) as Hga.
  { unfold handle_getattr. by rewrite !(same_file_attr fd0 fd), Hfs. }
  destruct req; simpl; unfold pure_handler; rewrite ?Hga; try (exists fd; by split_and!).
  - exists fd. split_and!; [|done..]. unfold handle_lookup. by rewrite !(same_file_attr fd0 fd), Hfs.
  - destruct Hgood as (Hho & Ho & Hn). destruct (Z.eqb_spec nodeid PACKAGE_FILE_ID) as [->|Hne].
    + destruct (handle_read_serves c provider fd offset size) as (fd' & E & Hsv' & Hs'); [done..|].
      exists fd'. split_and!; [done..|]. unfold same_file in *. intuition congruence.
    + exists fd. unfold handle_read. apply Z.eqb_neq in Hne. rewrite Hne. by split_and!.
Qed.
Lemma fuse_loop_ideal h c fd0 events : forall fd,
  serves c fd -> same_file fd0 fd -> Forall (good_event c (block_size fd)) events ->
  exists fd', fuse_loop h events fd =
      Some ((ideal_loop h c fd0 events).1, (ideal_loop h c fd0 events).2, fd').
Proof.
  induction events as [|[[]| |provider nodeid req] events IH]; intros fd Hsv Hsame Hall; simpl;
    try (eexists; done); try (apply IH; [done..|by inversion Hall]).
  apply Forall_cons_1 in Hall as [Hev Hrest].
  destruct (fuse_dispatch_ideal h c fd0 fd provider nodeid req Hsv Hsame Hev) as (fd1 & -> & Hsv1 & Hs1).
  simpl. destruct (ideal_dispatch h c fd0 nodeid req) as [result reply]. simpl.
  destruct (result =? NO_STATUS_EXIT); [eexists; done|].
  destruct (IH fd1 Hsv1 Hs1) as [fd2 ->].
  { destruct Hsame as (_ & E & _), Hs1 as (_ & E1 & _). by rewrite E1, <- E. }
  simpl. destruct (ideal_loop h c fd0 events). eexists. done.
Qed.
Lemma fuse_setup_serves c bsize u g garbage fd :
  fuse_setup (blen c) bsize u g garbage = inr fd -> blen garbage = bsize -> blen c <= NO_BLOCK * bsize ->
  serves c fd /\ block_size fd = bsize.
Proof.
  intros Hs Hg Hc. rewrite NO_BLOCK_eq in Hc. unfold fuse_setup in Hs.
  destruct (Z.ltb_spec bsize 4096); [done|]. destruct (Z.ltb_spec (2 ^ 22) bsize); [done|].
  pose proof (Zle_0_nat (length c)) as Hp. fold (blen c) in Hp.
  assert ((if blen c =? 0 then 0 else u32 ((blen c - 1) / bsize + 1)) = (blen c + bsize - 1) / bsize) as Hb.
  { destruct (Z.eqb_spec (blen c) 0) as [->|]; [symmetry; apply Z.div_small; lia|].
    replace (blen c + bsize - 1) with (blen c - 1 + 1 * bsize) by lia. rewrite Z.div_add by lia.
    assert (0 <= (blen c - 1) / bsize < 4294967295) by
      (split; [apply Z.div_pos; lia|apply Z.div_lt_upper_bound; lia]).
    unwrap. done. }
  rewrite Hb in Hs. assert (0 <= (blen c + bsize - 1) / bsize) by (apply Z.div_pos; lia).
  destruct (Z.ltb_spec (2 ^ 18) ((blen c + bsize - 1) / bsize)); [done|].
  injection Hs as <-. split; [|done]. split; try done.
  - split; try done. simpl. rewrite length_replicate. lia.
  - simpl. intros b hash _ Hl. apply lookup_replicate in Hl as [-> _]. by left.
Qed.

(** C9: with a host that sends the file's bytes, the daemon started on a
    package answers every sequence of kernel requests exactly as a file
    system without cache, block fetching or hashing: reads return the
    requested bytes of the package, zero-padded past its end, across block
    boundaries too, the attributes show its size, and the loop ends when the
    exit flag is touched. No buffer is read out of bounds. *)
Theorem fuse_session_refines h c bsize u g garbage fd events :
  fuse_setup (blen c) bsize u g garbage = inr fd -> blen garbage = bsize -> blen c <= NO_BLOCK * bsize ->
  Forall (good_event c bsize) events ->
  exists fd', fuse_loop h events fd =
      Some ((ideal_loop h c fd events).1, (ideal_loop h c fd events).2, fd').
Proof.
  intros Hs Hg Hc Hev. destruct (fuse_setup_serves c bsize u g garbage fd Hs Hg Hc) as [Hsv Hb].
  apply fuse_loop_ideal; [done|by split_and!|by rewrite Hb].
Qed.
End Serving.

(** ** Hosts that change their mind *)
Section Tampering.
Context `{Sha256}.
Hypothesis hash_nonzero : forall data, all_zero (SHA256 data) = false.

(** A block that has been accepted keeps its hash, and the cached block is
    the one the stored hash is of. *)
Record pinned (fd : fuse_data) : Prop := MkPinned {
  pin_max : file_blocks fd <= 2 ^ 18;
  pin_len : Z.of_nat (length (hashes fd)) = file_blocks fd;
  pin_cache : forall h, 0 <= curr_block fd < file_blocks fd ->
    hashes fd !! Z.to_nat (curr_block fd) = Some h -> h = SHA256 (block_data fd) }.
(** One fetch, by any host, in which the transfer itself did not fail. *)
Inductive fetch_step : fuse_data -> fuse_data -> Prop :=
| FetchStep provider fd block result fd' :
    0 <= block < 2 ^ 32 -> (forall n b, (provider n b).1 = true) ->
    fetch_block provider fd block = Some (result, fd') -> fetch_step fd fd'.
Definition keeps_hashes (fd fd' : fuse_data) : Prop :=
  file_blocks fd' = file_blocks fd /\
  forall b h, hashes fd !! b = Some h -> all_zero h = false -> hashes fd' !! b = Some h.

Lemma fetch_pinned provider fd block result fd' :
  pinned fd -> 0 <= block < 2 ^ 32 -> (forall n b, (provider n b).1 = true) ->
  fetch_block provider fd block = Some (result, fd') ->
  pinned fd' /\ keeps_hashes fd fd' /\
  (result = 0 -> curr_block fd' = block).
Proof.
  intros Hp Hb Hok. unfold fetch_block. pose proof Hp as [Hm Hlen Hc].
  assert (u32 block = block) as Hu by (unwrap; done).
  destruct (Z.eqb_spec block (curr_block fd)) as [->|Hne]; [intros [= <- <-]; by split_and!|].
  destruct (Z.leb_spec (file_blocks fd) block) as [Hge|Hlt].
  { intros [= <- <-]. rewrite Hu. split_and!; [|done..]. split; [done..|]. simpl. lia. }
  match goal with |- context [ provider ?n (u32 block) ] => specialize (Hok n (u32 block)) end.
  destruct (provider _ (u32 block)) as [ok bytes]. simpl in Hok. subst ok. cbn [negb]. rewrite Hu.
  unfold check_block.
  match goal with |- context [ set_block fd block ?d ] => generalize d; intros data end.
  simpl. destruct (hashes fd !! Z.to_nat block) as [bh|] eqn:Hbh; [simpl|done].
  case_bool_decide as He; [|destruct (all_zero bh) eqn:Hz; simpl].
  - intros [= <- <-]. split_and!; [|done..]. split; [done..|]. simpl. intros h _. congruence.
  - intros [= <- <-]. split_and!; [|split; [done|]|done].
    + split; [done|simpl; by rewrite length_insert|]. simpl. intros h _. rewrite list_lookup_insert_eq; [congruence|].
      by apply lookup_lt_Some in Hbh.
    + simpl. intros b h Hl Hnz. rewrite list_lookup_insert_ne; [done|]. congruence.
  - intros [= <- <-]. split_and!; [|done|done]. split; [done..|]. simpl. rewrite NO_BLOCK_eq. lia.
Qed.
Lemma steps_pinned fd fd' : rtc fetch_step fd fd' -> pinned fd -> pinned fd' /\ keeps_hashes fd fd'.
Proof.
  induction 1 as [fd|fd fd1 fd2 Hs _ IH]; intros Hp; [done|].
  destruct Hs as [provider fd block result fd1 Hb Hok Hf].
  destruct (fetch_pinned provider fd block result fd1) as (Hp1 & [Hfb Hk] & _); [done..|].
  destruct (IH Hp1) as [Hp2 [Hfb2 Hk2]]. split; [done|]. split; [congruence|]. eauto.
Qed.
Lemma setup_pinned size bsize u g garbage fd :
  fuse_setup size bsize u g garbage = inr fd -> pinned fd /\ 0 <= file_blocks fd.
Proof.
  unfold fuse_setup. destruct (bsize <? 4096); [done|]. destruct (2 ^ 22 <? bsize); [done|].
  assert (0 <= if size =? 0 then 0 else u32 ((size - 1) / bsize + 1)) as Hp.
  { destruct (size =? 0); [done|]. apply Z.mod_pos_bound. done. }
  revert Hp. generalize (if size =? 0 then 0 else u32 ((size - 1) / bsize + 1)). intros blocks Hp.
  destruct (Z.ltb_spec (2 ^ 18) blocks); [done|]. intros [= <-].
  split; [|done]. split; simpl; [lia|rewrite length_replicate; lia|rewrite NO_BLOCK_eq; lia].
Qed.
Lemma pinned_cache fd : pinned fd -> 0 <= curr_block fd < file_blocks fd ->
  hashes fd !! Z.to_nat (curr_block fd) = Some (SHA256 (block_data fd)).
Proof.
  intros [_ Hl Hc] Hb. destruct (lookup_lt_is_Some_2 (hashes fd) (Z.to_nat (curr_block fd))) as [h Hh]; [lia|].
  by rewrite Hh, (Hc h Hb Hh).
Qed.


(** The condition on failed transfers is needed: fetch_block leaves
    curr_block naming the old block when ReadBlockAlignedData fails after it
    has written to block_data. Whatever a failing transfer of another block
    left in the buffer is then served as the old block, with success and
    without a hash check. *)
Theorem failed_fetch_corrupts_cache fd evil block q :
  0 <= block < file_blocks fd -> block ≠ curr_block fd ->
  0 <= block_size fd < 2 ^ 32 -> (block + 1) * block_size fd <= file_size fd < 2 ^ 64 ->
  blen evil = block_size fd -> blen (block_data fd) = block_size fd ->
  exists fd', fetch_block (fun _ _ => (false, evil)) fd block = Some (- EIO, fd') /\
    fetch_block q fd' (curr_block fd) = Some (0, fd') /\
    block_data fd' = evil /\ hashes fd' = hashes fd.
Proof.
  intros Hb Hne Hbs Hfs He Hd. unfold fetch_block at 1.
  destruct (Z.eqb_spec block (curr_block fd)); [done|].
  destruct (Z.leb_spec (file_blocks fd) block); [lia|].
  assert (0 <= block * block_size fd) by nia.
  assert (u64 (block * block_size fd) = block * block_size fd) as -> by (apply u64_id; unfold_width; nia).
  assert (u64 (block * block_size fd + block_size fd) = block * block_size fd + block_size fd) as ->
    by (apply u64_id; unfold_width; nia).
  destruct (Z.ltb_spec (file_size fd) (block * block_size fd + block_size fd)); [lia|].
  eexists. split; [done|]. split_and!; [|simpl|done].
  - unfold fetch_block. simpl. by rewrite Z.eqb_refl.
  - rewrite overwrite_all, drop_ge, app_nil_r; [done|]. unfold blen in *. lia.
Qed.
End Tampering.

(** ** The providers *)
Section Sources.
(** The device the package lies on, and a read that succeeds inside it. *)
Variables (dev : list Z) (read_fully : Z -> Z -> option (list Z)).
Hypothesis dev_small : blen dev < 2 ^ 63.
Hypothesis read_fully_ok : forall n off, 0 <= n -> 0 <= off -> off + n <= blen dev ->
  read_fully n off = Some (slice off n dev).
Variable pblock : Z.
Hypothesis pblock_ok : 0 < pblock < 2 ^ 32.

Lemma file_provider_honest :
  honest dev pblock (fun n b => to_provider (file_provider_read read_fully (blen dev) pblock n b)).
Proof.
  intros b Hb Hlt n. assert (0 <= b * pblock) by nia. assert (0 <= n) by lia.
  unfold file_provider_read. assert (u64 (b * pblock) = b * pblock) as -> by (unwrap; done).
  assert (u64 (blen dev - n) = blen dev - n) as -> by (unwrap; done).
  destruct (Z.ltb_spec (blen dev) n); [lia|]. destruct (Z.ltb_spec (blen dev - n) (b * pblock)); [lia|].
  cbn [orb]. by rewrite read_fully_ok by lia.
Qed.

(** The blocks of the device a block map lists, one after the other. *)
Variable source_block : Z.
Hypothesis source_block_ok : 0 < source_block < 2 ^ 32.
Definition source_blk (b : Z) : list Z := slice (b * source_block) source_block dev.
Definition mapped (blocks : list Z) : list Z := blocks ≫= source_blk.
Definition on_device (r : Range) : Prop := 0 <= r.1 /\ r.2 * source_block <= blen dev.

Lemma mapped_app l k : mapped (l ++ k) = mapped l ++ mapped k.
Proof. apply bind_app. Qed.
Lemma mapped_run (n : nat) : forall b, 0 <= b -> (b + Z.of_nat n) * source_block <= blen dev ->
  mapped (seqZ b (Z.of_nat n)) = slice (b * source_block) (Z.of_nat n * source_block) dev.
Proof.
  induction n as [|n IH]; intros b Hb Hd; [done|].
  rewrite seqZ_cons by lia. simpl. fold (mapped (seqZ (Z.succ b) (Z.pred (Z.of_nat (S n))))).
  replace (Z.pred (Z.of_nat (S n))) with (Z.of_nat n) by lia.
  rewrite IH by lia. unfold source_blk.
  replace (Z.succ b * source_block) with (b * source_block + source_block) by lia.
  rewrite slice_cat; [f_equal; lia|nia..|]. apply slice_inside_len; nia.
Qed.
Definition block_inside (b : Z) : Prop := 0 <= b /\ (b + 1) * source_block <= blen dev.
Lemma blocks_inside l : Forall on_device l -> Forall block_inside (expand l).
Proof.
  intros Hl. apply Forall_forall. intros x Hx. apply elem_of_expand in Hx as (r & Hr & Hx).
  rewrite Forall_forall in Hl. apply Hl in Hr as [H0 H1]. unfold block_inside. nia.
Qed.
Lemma inside_on_device l : Forall range_ok l -> Forall block_inside (expand l) -> Forall on_device l.
Proof.
  rewrite !Forall_forall. intros Hok Hin r Hr. specialize (Hok r Hr). unfold range_ok in Hok.
  destruct (Hin (r.2 - 1)) as [? Hlast]; [apply elem_of_expand; exists r; split; [done|lia]|].
  unfold on_device. split; [lia|]. replace (r.2 - 1 + 1) with r.2 in Hlast by lia. done.
Qed.
Lemma length_mapped l : Forall block_inside l -> blen (mapped l) = Z.of_nat (length l) * source_block.
Proof.
  induction 1 as [|b l [H0 H1] Hl IH]; [done|]. change (mapped (b :: l)) with (source_blk b ++ mapped l).
  unfold blen in *. rewrite length_app, Nat2Z.inj_add, IH. unfold source_blk. simpl length.
  pose proof (slice_inside_len (b * source_block) source_block dev) as E. unfold blen in E. nia.
Qed.
Lemma mapped_slice l i n : Forall block_inside l -> 0 <= i -> 0 <= n -> i + n <= Z.of_nat (length l) ->
  slice (i * source_block) (n * source_block) (mapped l) = mapped (take (Z.to_nat n) (drop (Z.to_nat i) l)).
Proof.
  intros Hl Hi Hn Hle. rewrite <- (take_drop (Z.to_nat i) l) at 1.
  rewrite <- (take_drop (Z.to_nat n) (drop (Z.to_nat i) l)) at 1. rewrite !mapped_app. unfold slice.
  rewrite drop_app_length'; [apply take_app_length'|].
  - pose proof (length_mapped (take (Z.to_nat n) (drop (Z.to_nat i) l))
      ltac:(by apply Forall_take, Forall_drop)) as E.
    unfold blen in E. rewrite length_take, length_drop in E. nia.
  - pose proof (length_mapped (take (Z.to_nat i) l) ltac:(by apply Forall_take)) as E.
    unfold blen in E. rewrite length_take in E. nia.
Qed.
Lemma read_ranges_mapped l : Forall range_ok l -> Forall on_device l ->
  read_ranges read_fully source_block l = Some (mapped (expand l)).
Proof.
  induction l as [|[s e] l IH]; intros Hok Hdev; [done|].
  apply Forall_cons_1 in Hok as [Hr Hok]. apply Forall_cons_1 in Hdev as [[Hd0 Hd] Hdev].
  unfold range_ok in Hr. simpl in *.
  assert (0 <= (e - s) * source_block /\ 0 <= s * source_block /\ s * source_block + (e - s) * source_block <= blen dev) by nia.
  unwrap. rewrite read_fully_ok by lia. simpl. rewrite IH by done. simpl.
  rewrite expand_cons, mapped_app. unfold range_blocks. simpl.
  replace (e - s) with (Z.of_nat (Z.to_nat (e - s))) at 2 by lia. rewrite mapped_run by lia.
  by rewrite Z2Nat.id by lia.
Qed.
Lemma expand_last l r : Forall range_ok l -> last l = Some r -> last (expand l) = Some (r.2 - 1).
Proof.
  intros Hl Hr. apply last_Some in Hr as [k ->]. rewrite expand_app, last_app.
  apply Forall_app in Hl as [_ Hl]. apply Forall_cons_1 in Hl as [Hl _]. unfold range_ok in Hl.
  unfold expand. simpl. rewrite app_nil_r. unfold range_blocks.
  replace (r.2 - r.1) with (r.2 - r.1 - 1 + 1) by lia.
  rewrite seqZ_app by lia. rewrite last_app. simpl. f_equal. lia.
Qed.
Lemma mapped_part l k t b : Forall block_inside l -> 0 <= k -> l !! Z.to_nat k = Some b ->
  0 <= t <= source_block -> slice (k * source_block) t (mapped l) = slice (b * source_block) t dev.
Proof.
  intros Hl Hk Hb Ht. pose proof (lookup_lt_Some _ _ _ Hb).
  assert (block_inside b) as [Hb0 Hb1] by (by eapply Forall_lookup_1).
  rewrite <- (Z.add_0_r (k * source_block)), <- (slice_slice _ (1 * source_block)) by lia.
  rewrite mapped_slice by (done || lia).
  assert (take (Z.to_nat 1) (drop (Z.to_nat k) l) = [b]) as ->.
  { rewrite (drop_S l b) by done. done. }
  unfold mapped. simpl. rewrite app_nil_r. unfold source_blk. rewrite slice_slice by nia.
  by rewrite Z.add_0_r.
Qed.

Variables (psize : Z) (ranges : RangeSet).
Hypothesis ranges_wf : wf ranges.
Hypothesis ranges_dev : Forall on_device (ranges_ ranges).
Hypothesis aligned : pblock mod source_block = 0.
Hypothesis psize_u64 : is_u64 psize.
Hypothesis covered : psize <= blocks_ ranges * source_block.

(** The block that holds the last bytes of the request follows, on the
    device too, the last whole block before it. *)
Definition tail_adjacent (fetch_size start_block : Z) : Prop :=
  let i := start_block * pblock / source_block in
  let n := fetch_size / source_block in
  fetch_size mod source_block ≠ 0 -> 0 < n -> forall b b',
  block_list ranges !! Z.to_nat (i + n - 1) = Some b -> block_list ranges !! Z.to_nat (i + n) = Some b' ->
  b' = b + 1.

Lemma provider_tail sub i n t :
  wf sub -> block_list sub = take (Z.to_nat n) (drop (Z.to_nat i) (block_list ranges)) ->
  0 <= i -> 0 <= n -> i + n < blocks_ ranges -> 
  (0 < n -> forall b b', block_list ranges !! Z.to_nat (i + n - 1) = Some b ->
     block_list ranges !! Z.to_nat (i + n) = Some b' -> b' = b + 1) ->
  0 <= t <= source_block ->
  exists tail_block, match last (ranges_ sub) with
                     | Some r => Some r.2 | None => GetBlockNumber ranges i end = Some tail_block /\
    0 <= tail_block * source_block /\ tail_block * source_block + source_block <= blen dev /\
    slice ((i + n) * source_block) t (mapped (block_list ranges)) = slice (tail_block * source_block) t dev.
Proof.
  intros Hsub Hbl Hi Hn Hlt Hadj Ht. pose proof ranges_wf as [Hr Hc Hmax].
  pose proof (length_expand _ Hr) as Hlen. rewrite <- Hc in Hlen. fold (block_list ranges) in Hlen.
  assert (Forall block_inside (block_list ranges)) as Hin by (by apply blocks_inside).
  destruct (lookup_lt_is_Some_2 (block_list ranges) (Z.to_nat (i + n))) as [b Hb]; [lia|].
  exists b. assert (block_inside b) as [Hb0 Hb1] by (by eapply Forall_lookup_1).
  split_and!; [|nia..|apply mapped_part; done || lia].
  destruct Hsub as [Hrs _ _]. destruct (last (ranges_ sub)) as [r|] eqn:Hlast.
  - apply (expand_last _ _ Hrs) in Hlast. fold (block_list sub) in Hlast. rewrite Hbl, last_lookup in Hlast.
    pose proof (lookup_lt_Some _ _ _ Hlast) as Hl. rewrite length_take, length_drop in *.
    rewrite lookup_take_lt, lookup_drop in Hlast by lia.
    replace (Z.to_nat i + _)%nat with (Z.to_nat (i + n - 1)) in Hlast by lia.
    assert (b = r.2 - 1 + 1) as -> by (eapply Hadj; [lia|done..]). f_equal. lia.
  - apply last_None in Hlast. unfold block_list at 1 in Hbl. rewrite Hlast in Hbl. simpl in Hbl.
    apply (f_equal length) in Hbl. rewrite length_take, length_drop in Hbl. simpl in Hbl.
    assert (n = 0) as -> by lia. rewrite Z.add_0_r in Hb.
    unfold_width. rewrite GetBlockNumber_lookup; [done..|]. unfold_width. lia.
Qed.

Lemma block_provider_read_ok fetch_size start_block :
  0 <= fetch_size < 2 ^ 32 -> 0 <= start_block < 2 ^ 32 -> start_block * pblock + fetch_size <= psize ->
  tail_adjacent fetch_size start_block ->
  block_provider_read read_fully psize pblock source_block ranges fetch_size start_block =
    Some (Some (slice (start_block * pblock) fetch_size (mapped (block_list ranges)))).
Proof.
  intros Hf Hs Hin Hadj. unfold block_provider_read, tail_adjacent in *. pose proof ranges_wf as [Hr Hc Hmax].
  assert (0 <= start_block * pblock < 2 ^ 64) by nia. unfold is_u64 in psize_u64. unwrap.
  destruct (Z.ltb_spec psize fetch_size); [lia|].
  destruct (Z.ltb_spec (psize - fetch_size) (start_block * pblock)); [lia|]. cbn [orb].
  set (off := start_block * pblock) in *. set (i := off / source_block) in *.
  set (n := fetch_size / source_block) in *. set (t := fetch_size mod source_block) in *.
  assert (off = i * source_block) as Hoff.
  { unfold i. rewrite Z.mul_comm. apply Z.div_exact; [lia|]. unfold off.
    rewrite <- Zmult_mod_idemp_r, aligned, Z.mul_0_r. by apply Z.mod_0_l; lia. }
  assert (fetch_size = n * source_block + t) as Hft by (unfold n, t; pose proof (Z.div_mod fetch_size source_block); lia).
  assert (0 <= t < source_block) by (apply Z.mod_pos_bound; lia).
  assert (0 <= i) by (apply Z.div_pos; lia). assert (0 <= n) by (apply Z.div_pos; lia).
  assert (i + n <= blocks_ ranges) by nia.
  destruct (GetSubRanges_inside ranges i n) as (sub & -> & Hsub & Hbl); [done|unfold_width; nia..|]. simpl.
  assert (Forall block_inside (block_list ranges)) as Hbi by (by apply blocks_inside).
  rewrite read_ranges_mapped.
  2:{ by destruct Hsub. }
  2:{ destruct Hsub as [Hrs _ _]. apply inside_on_device; [done|]. fold (block_list sub). rewrite Hbl.
      by apply Forall_take, Forall_drop. }
  fold (block_list sub). rewrite Hbl, Hoff, Hft.
  assert (Z.of_nat (length (block_list ranges)) = blocks_ ranges) as Hlen
    by (rewrite Hc; apply length_expand; done).
  destruct (Z.eqb_spec t 0) as [->|Hne].
  { rewrite Z.add_0_r, mapped_slice by (done || lia). done. }
  destruct (provider_tail sub i n t) as (tb & -> & Htb0 & Htb1 & E); try done; [nia|auto|lia|].
  simpl. unwrap. rewrite read_fully_ok by lia. rewrite <- E. do 2 f_equal.
  rewrite <- mapped_slice by (done || lia).
  replace ((i + n) * source_block) with (i * source_block + n * source_block) by lia.
  apply slice_cat; [nia..|]. apply slice_inside_len; [nia..|]. rewrite length_mapped by done. nia.
Qed.
(** The block-map provider returns, for every request inside the file,
    the bytes of the file that the block map describes: the listed ranges of
    the device one after the other, across range boundaries, and the partial
    last block, when that block continues the last whole block of the
    request. The range set's CHECKs never fail. *)
Theorem block_provider_reads fetch_size start_block :
  0 <= fetch_size < 2 ^ 32 -> 0 <= start_block < 2 ^ 32 -> start_block * pblock + fetch_size <= psize ->
  tail_adjacent fetch_size start_block ->
  block_provider_read read_fully psize pblock source_block ranges fetch_size start_block =
    Some (Some (slice (start_block * pblock) fetch_size (mapped (block_list ranges)))).
Proof. apply block_provider_read_ok. Qed.

(** A block map whose ranges contain the file's last partial block
    contiguously is a source of the file. *)
Lemma block_provider_honest c :
  c = take (Z.to_nat psize) (mapped (block_list ranges)) -> psize <= 2 ^ 32 * pblock ->
  (forall b, 0 <= b -> b * pblock < psize -> tail_adjacent (Z.min pblock (psize - b * pblock)) b) ->
  honest c pblock (fun n b => to_provider (default None
    (block_provider_read read_fully psize pblock source_block ranges n b))).
Proof.
  intros -> Hp Hadj b Hb. pose proof ranges_wf as [Hr Hc Hmax].
  assert (blen (take (Z.to_nat psize) (mapped (block_list ranges))) = psize) as ->.
  { unfold blen. rewrite length_take. pose proof (length_mapped (block_list ranges) ltac:(by apply blocks_inside)) as E.
    unfold blen in E. rewrite Hc in covered. rewrite <- (length_expand _ Hr) in covered.
    unfold block_list in *. unfold is_u64 in psize_u64. lia. }
  intros Hlt n. assert (b < 2 ^ 32) by nia.
  rewrite block_provider_read_ok by (try apply Hadj; lia). simpl. f_equal.
  unfold slice. rewrite skipn_firstn_comm, take_take. f_equal. lia.
Qed.
End Sources.

(** When the last partial block of the file starts a range of its own,
    the block-map provider reads it from behind the last whole block of the
    request instead: of a file of five bytes mapped to blocks 0 and 2 of a
    device with 4-byte blocks, the fifth byte comes from block 1. *)
Theorem block_provider_wrong_tail :
  let dev := [10; 11; 12; 13; 20; 21; 22; 23; 30; 31; 32; 33] in
  let read n off := if off + n <=? blen dev then Some (slice off n dev) else None in
  let ranges := MkRangeSet [(0, 1); (2, 3)] 2 in
  wf ranges /\
  mapped dev 4 (block_list ranges) = [10; 11; 12; 13; 30; 31; 32; 33] /\
  block_provider_read read 5 8 4 ranges 5 0 = Some (Some [10; 11; 12; 13; 20]).
Proof.
  split_and!; [|done..]. split; [|done|done].
  repeat (apply Forall_cons; split; [unfold range_ok; simpl; lia|]). by apply Forall_nil.
Qed.

(** ** Witnesses *)
#[local] Instance demo_hash : Sha256 := { SHA256 data := 1 :: take 31 data }.
Definition demo_header : FuseHeader := MkFuseHeader 7 31 64 (Some 24).
Definition demo_file : list Z := [1; 2; 3].
Definition demo_host : Provider := fun n b => (true, slice (b * 4096) n demo_file).
Definition demo_events : list Event :=
  [Req demo_host 1 (Init 7 31 0); Req demo_host 2 (Read 4095 3); Req demo_host 2 (Read 1 4);
   ShortRequest; Req demo_host 1 (Lookup "exit")].
Lemma fuse_session_refines_witness : exists fd fd',
  fuse_setup 3 4096 0 0 (replicate (Z.to_nat 4096) 7) = inr fd /\
  fuse_loop demo_header demo_events fd =
    Some ((ideal_loop demo_header demo_file fd demo_events).1,
          (ideal_loop demo_header demo_file fd demo_events).2, fd').
Proof.
  eexists.
  destruct (fuse_session_refines demo_header demo_file 4096 0 0 (replicate (Z.to_nat 4096) 7) _
    demo_events eq_refl) as [fd' E].
  - unfold blen. rewrite length_replicate. lia.
  - done.
  - repeat (apply Forall_cons; split); try exact I; try (apply Forall_nil; exact I).
    + simpl. split; [intros b _ _; done|]. rewrite NO_BLOCK_eq. lia.
    + simpl. split; [intros b _ _; done|]. rewrite NO_BLOCK_eq. lia.
  - exists fd'. split; [reflexivity|exact E].
Defined.

Definition demo_fd : fuse_data :=
  MkFuse 8192 4096 2 0 0 0 (replicate (Z.to_nat 4096) 7) [SHA256 (replicate (Z.to_nat 4096) 7); replicate 32 0].
Lemma failed_fetch_corrupts_cache_witness : exists fd',
  fetch_block (fun _ _ => (false, replicate (Z.to_nat 4096) 9)) demo_fd 1 = Some (- EIO, fd') /\
  fetch_block demo_host fd' 0 = Some (0, fd') /\
  block_data fd' = replicate (Z.to_nat 4096) 9 /\ hashes fd' = hashes demo_fd.
Proof.
  apply (failed_fetch_corrupts_cache demo_fd (replicate (Z.to_nat 4096) 9) 1 demo_host);
    try (simpl; lia); done.
Defined.

Definition demo_s0 : fuse_data :=
  MkFuse 8192 4096 2 0 0 NO_BLOCK (replicate (Z.to_nat 4096) 7) (replicate 2 (replicate 32 0)).
Definition demo_sender : Provider := fun n b => (true, replicate (Z.to_nat n) b).
Definition demo_run (s : fuse_data) (block : Z) : fuse_data :=
  match fetch_block demo_sender s block with Some (_, s') => s' | None => s end.

Definition demo_dev : list Z := [10; 11; 12; 13; 20; 21; 22; 23; 30; 31; 32; 33].
Definition demo_read (n off : Z) : option (list Z) :=
  if off + n <=? blen demo_dev then Some (slice off n demo_dev) else None.
Definition demo_map : RangeSet := MkRangeSet [(2, 3); (0, 2)] 3.
Lemma demo_map_wf : wf demo_map.
Proof.
  split; [|done..]. unfold demo_map. cbn [ranges_]. repeat (apply Forall_cons; split; [unfold range_ok; simpl; lia|]). by apply Forall_nil.
Qed.
Lemma block_provider_reads_witness :
  block_provider_read demo_read 10 16 4 demo_map 10 0 =
    Some (Some (slice 0 10 (mapped demo_dev 4 (block_list demo_map)))) /\
  slice 0 10 (mapped demo_dev 4 (block_list demo_map)) = [30; 31; 32; 33; 10; 11; 12; 13; 20; 21].
Proof.
  split; [|reflexivity].
  apply (block_provider_reads demo_dev demo_read) with (pblock := 16) (psize := 10);
    [done| |done|done|apply demo_map_wf| |done|done|done|lia|lia|done|].
  - intros n off Hn Ho Hle. unfold demo_read. by apply Z.leb_le in Hle as ->.
  - unfold demo_map. cbn [ranges_]. repeat (apply Forall_cons; split; [split; done|]). by apply Forall_nil.
  - intros _ _ b b'. vm_compute. intros [= <-] [= <-]. reflexivity.
Defined.
