(* ===== verification/BlockMap.v ===== *)
(** otautil/sysutil.cpp: block map files, which list the device blocks a
    package lies on, and MemMapping, which maps them into one contiguous
    piece of address space. The address space is the history of the mmap and
    munmap calls, the newest first. *)
From stdpp Require Import base list strings gmap.
From Stdlib Require Import ZArith Lia Ascii.
From S2P Require Import Prelude CxxString Libbase RangeSet PayloadTargets.

(** ** The block map file *)
Record BlockMapData := MkBlockMap {
  path_ : string; file_size_ : Z; block_size_ : Z; block_ranges_ : RangeSet }.

(** One unsigned conversion of sscanf: white space, an optional sign and
    decimal digits, as strtoumax reads them: values beyond 2^64 - 1 become
    that limit. *)
Definition scan_uint (s : string) : option (Z * string) :=
  let s := skip_space s in
  let '(neg, s) := match s with
    | String "-" s' => (true, s') | String "+" s' => (false, s') | _ => (false, s) end in
  match digits s None with
  | (Some v, rest) => Some (if UINT64_MAX <? v then UINT64_MAX else if neg : bool then u64 (- v) else v, rest)
  | (None, _) => None
  end.
Definition scan_one (s : string) : option Z := r ← scan_uint s; Some r.1.
Definition scan_two (s : string) : option (Z * Z) :=
  r ← scan_uint s; r2 ← scan_uint r.2; Some (r.1, r2.1).

Section Parse.
Context `{AndroidBase}.
(** android::base::Trim. *)
Variable Trim : string -> string.

(** The loop over the range lines: the ranges and remaining_blocks. *)
Fixpoint parse_ranges (lines : list string) (ranges : RangeSet) (remaining_blocks : Z)
    : option (RangeSet * Z) :=
  match lines with
  | [] => Some (ranges, remaining_blocks)
  | line :: lines =>
      se ← scan_two line;
      let '(start, end_) := se in
      let range_blocks := u64 (end_ - start) in
      if (end_ <=? start) || (remaining_blocks <? range_blocks) then None
      else parse_ranges lines (PushBack ranges (start, end_)).1 (u64 (remaining_blocks - range_blocks))
  end.
(** The content of the file, absent when it cannot be read. *)
Definition ParseBlockMapFile (content : option string) : option BlockMapData :=
  content ← content;
  let lines := base_Split (Trim content) newline in
  if (length lines <? 4)%nat then None
  else
  block_dev ← lines !! 0%nat;
  line1 ← lines !! 1%nat;
  sizes ← scan_two line1;
  let '(file_size, blksize) := sizes in
  let blksize := u32 blksize in
  if (file_size =? 0) || (blksize =? 0) then None
  else
  line2 ← lines !! 2%nat;
  range_count ← scan_one line2;
  let blocks := u64 ((file_size - 1) / blksize + 1) in
  if (UINT32_MAX <? blocks) || (range_count =? 0) || negb (Z.of_nat (length lines) =? u64 (3 + range_count))
  then None
  else
  r ← parse_ranges (drop 3 lines) empty_rs blocks;
  let '(ranges, remaining_blocks) := r in
  if negb (remaining_blocks =? 0) then None
  else Some (MkBlockMap block_dev file_size blksize ranges).
End Parse.

(** ** Mapping it *)
Inductive Source := Reserved | FromDevice (offset : Z) | Unmapped.
Record Segment := MkSegment { seg_addr : Z; seg_len : Z; seg_source : Source }.
Definition Memory : Type := list Segment.
(** What address [a] shows: the newest call that covers it. *)
Fixpoint memory_at (m : Memory) (a : Z) : Source :=
  match m with
  | [] => Unmapped
  | MkSegment start len source :: m =>
      if (start <=? a) && (a <? start + len)
      then match source with FromDevice off => FromDevice (off + (a - start)) | s => s end
      else memory_at m a
  end.
Record MemMapping := MkMapping { addr : Z; length_ : Z; mapped_ranges : list (Z * Z) }.
Definition munmap (a len : Z) (m : Memory) : Memory := MkSegment a len Unmapped :: m.

(** The kernel's answers to the mmap calls of one MapBlockFile. *)
Record Answers := MkAnswers { reserve_at : option Z; open_ok : bool; fixed_ok : list bool }.
Definition INT64_MIN : Z := - 2 ^ 63.
Definition as_off_t (z : Z) : Z := if z <? 2 ^ 63 then z else z - 2 ^ 64.

(** The loop over the ranges, with the undo at its failures; signed overflow
    of the file offset is [None]. *)
Fixpoint map_ranges (blksize reserve total : Z) (ranges : list Range) (ok : list bool)
    (next remaining_size : Z) (mm : MemMapping) (m : Memory)
    : option (bool * MemMapping * Memory * Z) :=
  match ranges with
  | [] => Some (true, mm, m, remaining_size)
  | (start, end_) :: ranges =>
      let range_size := u64 (u64 (end_ - start) * blksize) in
      let offset := as_off_t start * blksize in
      if (offset <? INT64_MIN) || (INT64_MAX <? offset) then None
      else if negb (hd false ok) then Some (false, mm, munmap reserve total m, remaining_size)
      else map_ranges blksize reserve total ranges (tl ok) (next + range_size)
             (u64 (remaining_size - range_size))
             (MkMapping (addr mm) (length_ mm) (mapped_ranges mm ++ [(next, range_size)]))
             (MkSegment next range_size (FromDevice offset) :: m)
  end.
Definition MapBlockFile (k : Answers) (data : option BlockMapData) (mm : MemMapping) (m : Memory)
    : option (bool * MemMapping * Memory) :=
  match data with
  | None => Some (false, mm, m)
  | Some d =>
      if String.eqb (path_ d) "" then Some (false, mm, m)
      else if SIZE_MAX <? file_size_ d then Some (false, mm, m)
      else
      let blksize := block_size_ d in
      let blocks := u64 ((file_size_ d - 1) / blksize + 1) in
      let total := u64 (blocks * blksize) in
      match reserve_at k with
      | None => Some (false, mm, m)
      | Some reserve =>
          let m := MkSegment reserve total Reserved :: m in
          if negb (open_ok k) then Some (false, mm, munmap reserve total m)
          else
          r ← map_ranges blksize reserve total (ranges_ (block_ranges_ d)) (fixed_ok k) reserve total
                (MkMapping (addr mm) (length_ mm) []) m;
          let '(ok, mm, m, remaining_size) := r in
          if negb ok then Some (false, mm, m)
          else if negb (remaining_size =? 0) then Some (false, mm, munmap reserve total m)
          else Some (true, MkMapping reserve (file_size_ d) (mapped_ranges mm), m)
      end
  end.
(** fstat's size and mmap's answer for a regular file. *)
Definition MapFD (st_size : option Z) (mapped : option Z) (mm : MemMapping) (m : Memory)
    : bool * MemMapping * Memory :=
  match st_size, mapped with
  | Some size, Some a => (true, MkMapping a size [(a, size)], MkSegment a size (FromDevice 0) :: m)
  | _, _ => (false, mm, m)
  end.
Definition MapFile (fn : string) (block_map : string -> option BlockMapData) (k : Answers)
    (fd_open : bool) (st_size mapped : option Z) (mm : MemMapping) (m : Memory)
    : option (bool * MemMapping * Memory) :=
  match fn with
  | EmptyString => Some (false, mm, m)
  | String "@" path => MapBlockFile k (block_map path) mm m
  | _ => if negb fd_open then Some (false, mm, m) else Some (MapFD st_size mapped mm m)
  end.
(** ~MemMapping. *)
Definition destroy (mm : MemMapping) (m : Memory) : Memory :=
  foldl (fun m r => munmap r.1 r.2 m) m (mapped_ranges mm).

(** ** Accepted block maps *)
Lemma digits_nonneg s : forall acc v rest,
  (forall a, acc = Some a -> 0 <= a) -> digits s acc = (Some v, rest) -> 0 <= v.
Proof.
  induction s as [|c s IH]; intros acc v rest Ha; simpl; [intros [= -> _]; by apply Ha|].
  destruct (is_digit c) eqn:Hd; [|intros [= -> _]; by apply Ha]. apply IH. intros a [= <-].
  unfold is_digit in Hd. apply andb_true_iff in Hd as [Hd _]. apply Nat.leb_le in Hd.
  destruct acc as [a|]; simpl; [specialize (Ha a eq_refl)|]; lia.
Qed.
Lemma scan_uint_range s v rest : scan_uint s = Some (v, rest) -> is_u64 v.
Proof.
  unfold scan_uint. destruct (match skip_space s with | String "-" s' => _ | _ => _ end) as [neg s1].
  destruct (digits s1 None) as [[v1|] rest1] eqn:Hd; [|done]. intros [= <- _].
  apply digits_nonneg in Hd; [|done]. unfold_width. destruct (Z.ltb_spec (2 ^ 64 - 1) v1); [lia|].
  destruct neg; [apply Z.mod_pos_bound|]; lia.
Qed.
Lemma scan_two_range s a b : scan_two s = Some (a, b) -> is_u64 a /\ is_u64 b.
Proof.
  unfold scan_two. destruct (scan_uint s) as [[x r]|] eqn:E1; [|done]. simpl.
  destruct (scan_uint r) as [[y r2]|] eqn:E2; [|done]. simpl. intros [= <- <-].
  eauto using scan_uint_range.
Qed.
Lemma parse_ranges_sound lines : forall ranges remaining ranges' remaining',
  wf ranges -> 0 <= remaining -> blocks_ ranges + remaining < 2 ^ 32 ->
  parse_ranges lines ranges remaining = Some (ranges', remaining') ->
  wf ranges' /\ 0 <= remaining' /\ blocks_ ranges' + remaining' = blocks_ ranges + remaining.
Proof.
  induction lines as [|line lines IH]; intros ranges rem ranges' rem' Hwf Hrem Hb; cbn [parse_ranges].
  { intros [= <- <-]. done. }
  assert (0 <= blocks_ ranges) by (destruct Hwf as [Hr -> _]; by apply total_nonneg).
  destruct (scan_two line) as [[s e]|] eqn:Hs; [|done]. rewrite some_bind. apply scan_two_range in Hs as [Hs He].
  unfold is_u64 in Hs, He. destruct (Z.leb_spec e s) as [|Hlt]; [done|]. unwrap.
  destruct (Z.ltb_spec rem (e - s)) as [|Hle]; [done|]. cbn [orb]. unwrap. intros Hp.
  assert (PushBack ranges (s, e) = (MkRangeSet (ranges_ ranges ++ [(s, e)]) (blocks_ ranges + (e - s)), true)) as E.
  { unfold PushBack. destruct (Z.leb_spec e s); [lia|]. unwrap.
    destruct (Z.leb_spec (SIZE_MAX - (e - s)) (blocks_ ranges)) as [Hx|_]; [unfold_width; lia|done]. }
  rewrite E in Hp. apply IH in Hp as (Hw' & Hr' & Hb'); [simpl in Hb'; split; [done|lia]| |lia|simpl; lia].
  pose proof (PushBack_wf ranges (s, e)) as Hw. rewrite E in Hw. by apply Hw.
Qed.

Section Accepted.
Context `{AndroidBase}.
Variable Trim : string -> string.
(** A map that describes a whole file: every block of it is listed. *)
Record complete_map (d : BlockMapData) : Prop := MkComplete {
  cm_wf : wf (block_ranges_ d);
  cm_size : 0 < file_size_ d < 2 ^ 64;
  cm_block : 0 < block_size_ d < 2 ^ 32;
  cm_blocks : blocks_ (block_ranges_ d) = (file_size_ d - 1) / block_size_ d + 1;
  cm_max : blocks_ (block_ranges_ d) < 2 ^ 32 }.
Lemma parse_complete content d : ParseBlockMapFile Trim content = Some d -> complete_map d.
Proof.
  unfold ParseBlockMapFile. destruct content as [text|]; [|done]. rewrite some_bind. cbv zeta.
  generalize (base_Split (Trim text) newline). intros lines.
  destruct (length lines <? 4)%nat; [done|]. destruct (lines !! 0%nat) as [dev|]; [|done]. rewrite some_bind.
  destruct (lines !! 1%nat) as [line1|]; [|done]. rewrite some_bind.
  destruct (scan_two line1) as [[fs bs]|] eqn:Hs; [|done]. rewrite some_bind.
  apply scan_two_range in Hs as [Hfs _]. pose proof (u32_range bs) as Hbs. unfold is_u64, is_u32 in *.
  destruct (Z.eqb_spec fs 0); [done|]. destruct (Z.eqb_spec (u32 bs) 0); [done|]. cbn [orb].
  destruct (lines !! 2%nat) as [line2|]; [|done]. rewrite some_bind.
  destruct (scan_one line2) as [count|]; [|done]. rewrite some_bind.
  assert (0 <= (fs - 1) / u32 bs <= fs - 1) by (split; [apply Z.div_pos|apply Z.div_le_upper_bound]; nia).
  unwrap. destruct (Z.ltb_spec UINT32_MAX ((fs - 1) / u32 bs + 1)) as [|Hmax]; [done|]. cbn [orb].
  destruct ((count =? 0) || _); [done|].
  destruct (parse_ranges _ _ _) as [[rs rem]|] eqn:Hp; [|done]. rewrite some_bind.
  destruct (Z.eqb_spec rem 0) as [->|]; [|done]. intros [= <-].
  apply parse_ranges_sound in Hp as (Hwf & _ & Hbl); [|apply empty_wf|lia|simpl; unfold_width; lia].
  simpl in Hbl. unfold UINT32_MAX in Hmax. split; simpl; try done; lia.
Qed.

(** ** The mapping *)
Lemma map_ranges_view bs reserve size ranges : 0 < bs < 2 ^ 32 -> forall next mm m,
  Forall range_ok ranges -> Forall (fun r => r.2 * bs <= INT64_MAX) ranges ->
  total ranges * bs < 2 ^ 64 ->
  exists mm' m', map_ranges bs reserve size ranges (replicate (length ranges) true) next
      (total ranges * bs) mm m = Some (true, mm', m', 0) /\
    (forall a, a < next -> memory_at m' a = memory_at m a) /\
    forall j b o, expand ranges !! j = Some b -> 0 <= o < bs ->
      memory_at m' (next + Z.of_nat j * bs + o) = FromDevice (b * bs + o).
Proof.
  intros Hbs. induction ranges as [|[s e] ranges IH]; intros next mm m Hok Hoff Hsz.
  { exists mm, m. by split_and!. }
  apply Forall_cons_1 in Hok as [Hr Hok]. apply Forall_cons_1 in Hoff as [Ho Hoff].
  pose proof (total_nonneg _ Hok) as Hnn. pose proof (length_range_blocks _ Hr) as Hlen.
  unfold range_ok in Hr. cbn [total foldr fst snd] in *. fold (total ranges) in *.
  assert ((e - s + total ranges) * bs = (e - s) * bs + total ranges * bs) as Hdist by ring.
  assert (0 < (e - s) * bs /\ 0 <= total ranges * bs /\ 0 <= s * bs <= INT64_MAX) as (Hp1 & Hp2 & Hp3) by nia.
  assert (s < 2 ^ 63) by (unfold_width; nia).
  cbn [map_ranges length replicate hd tl negb]. unfold as_off_t, INT64_MIN.
  destruct (Z.ltb_spec s (2 ^ 63)); [|lia]. destruct (Z.ltb_spec (s * bs) (- 2 ^ 63)); [lia|].
  destruct (Z.ltb_spec INT64_MAX (s * bs)); [lia|]. cbn [orb]. rewrite Hdist.
  unwrap. replace ((e - s) * bs + total ranges * bs - (e - s) * bs) with (total ranges * bs) by ring.
  destruct (IH (next + (e - s) * bs) (MkMapping (addr mm) (length_ mm) (mapped_ranges mm ++ [(next, (e - s) * bs)]))
    (MkSegment next ((e - s) * bs) (FromDevice (s * bs)) :: m)) as (mm' & m' & E & Hlow & Hview); [done|done|lia|].
  exists mm', m'. unwrap. rewrite E. split; [done|]. split.
  - intros a Ha. rewrite Hlow by lia. simpl. destruct (Z.leb_spec next a); [lia|]. done.
  - intros j b o Hj Hob. rewrite expand_cons in Hj. apply lookup_app_Some in Hj as [Hj|[Hj1 Hj]].
    + unfold range_blocks in Hj. apply lookup_seqZ in Hj as [-> Hj]. simpl in *.
      rewrite Hlow by nia. simpl. destruct (Z.leb_spec next (next + Z.of_nat j * bs + o)); [|nia].
      destruct (Z.ltb_spec (next + Z.of_nat j * bs + o) (next + (e - s) * bs)); [|nia]. simpl. f_equal. ring.
    + simpl in *. rewrite <- (Hview _ b o Hj Hob). f_equal. rewrite Nat2Z.inj_sub by done. nia.
Qed.

(** A block map that ParseBlockMapFile accepts is mapped into one
    contiguous view of the file: its ranges are well formed and list exactly
    the blocks of file_size, no size computation wraps, and once the mmap
    calls succeed every byte o of the file appears at addr + o, read from
    the device block the map lists for it. *)
Theorem map_block_file_view content d k reserve mm m :
  ParseBlockMapFile Trim content = Some d -> path_ d ≠ ""%string ->
  reserve_at k = Some reserve -> open_ok k = true ->
  fixed_ok k = replicate (length (ranges_ (block_ranges_ d))) true ->
  Forall (fun r => r.2 * block_size_ d <= INT64_MAX) (ranges_ (block_ranges_ d)) ->
  exists mm' m', MapBlockFile k (Some d) mm m = Some (true, mm', m') /\
    addr mm' = reserve /\ length_ mm' = file_size_ d /\
    forall o, 0 <= o < file_size_ d -> exists b,
      block_list (block_ranges_ d) !! Z.to_nat (o / block_size_ d) = Some b /\
      memory_at m' (reserve + o) = FromDevice (b * block_size_ d + o mod block_size_ d).
Proof.
  intros Hparse Hpath Hres Hopen Hfix Hoff. apply parse_complete in Hparse as [[Hr Hc _] Hfs Hbs Hbl Hmax].
  unfold MapBlockFile. apply String.eqb_neq in Hpath. rewrite Hpath, Hres, Hopen, Hfix. cbn [negb].
  set (bs := block_size_ d) in *. set (rs := ranges_ (block_ranges_ d)) in *. set (fs := file_size_ d) in *.
  destruct (Z.ltb_spec SIZE_MAX fs); [unfold_width; lia|]. cbv zeta.
  assert (0 <= (fs - 1) / bs) by (apply Z.div_pos; lia).
  assert (0 <= ((fs - 1) / bs + 1) * bs < 2 ^ 64) by nia.
  unwrap. rewrite <- Hbl, Hc.
  destruct (map_ranges_view bs reserve (total rs * bs) rs Hbs reserve (MkMapping (addr mm) (length_ mm) [])
    (MkSegment reserve (total rs * bs) Reserved :: m)) as (mm' & m' & -> & _ & Hview); [done|done|nia|].
  rewrite some_bind. cbn [negb Z.eqb]. eexists _, m'. split_and!; [done..|].
  intros o Ho. assert (0 <= o / bs) by (apply Z.div_pos; lia).
  assert (o / bs <= (fs - 1) / bs) by (apply Z.div_le_mono; lia).
  destruct (lookup_lt_is_Some_2 (expand rs) (Z.to_nat (o / bs))) as [b Hb].
  { pose proof (length_expand _ Hr). fold rs in Hc. lia. }
  exists b. split; [done|].
  rewrite <- (Hview _ b (o mod bs) Hb) by (apply Z.mod_pos_bound; lia). f_equal.
  rewrite Z2Nat.id by lia. pose proof (Z.div_mod o bs). lia.
Qed.
End Accepted.

(** A map of two one-block ranges, and a kernel that refuses the second. *)
Definition demo_map2 : BlockMapData := MkBlockMap "/dev/block/sda" 8192 4096 (MkRangeSet [(5, 6); (9, 10)] 2).
Definition demo_mapping : MemMapping := MkMapping 0 0 [].

(** A MapBlockFile that fails at a later range unmaps the reserved
    region but keeps the ranges it had mapped in ranges_. The destructor
    unmaps them again, which takes away whatever was mapped at that address
    in the meantime. *)
Theorem failed_map_unmaps_twice :
  exists mm m, MapBlockFile (MkAnswers (Some 65536) true [true; false]) (Some demo_map2) demo_mapping []
      = Some (false, mm, m) /\
    memory_at m 65536 = Unmapped /\
    let other := MkSegment 65536 4096 (FromDevice 0) in
    memory_at (other :: m) 65536 = FromDevice 0 /\
    memory_at (destroy mm (other :: m)) 65536 = Unmapped.
Proof. eexists _, _. split; [reflexivity|]. by vm_compute. Qed.

(** ** Witness *)
Definition demo_map_text : string :=
  String.concat newline ["/dev/block/sda"; "5000 4096"; "2"; "5 6"; "9 10"]%string.
#[local] Instance demo_base : AndroidBase := { base_Split := ref_Split; base_ParseUint := ref_ParseUint }.
Lemma map_block_file_view_witness : exists d mm' m',
  ParseBlockMapFile (fun s => s) (Some demo_map_text) = Some d /\
  MapBlockFile (MkAnswers (Some 65536) true [true; true]) (Some d) demo_mapping [] = Some (true, mm', m') /\
  addr mm' = 65536 /\ length_ mm' = file_size_ d /\
  forall o, 0 <= o < file_size_ d -> exists b,
    block_list (block_ranges_ d) !! Z.to_nat (o / block_size_ d) = Some b /\
    memory_at m' (65536 + o) = FromDevice (b * block_size_ d + o mod block_size_ d).
Proof.
  exists (MkBlockMap "/dev/block/sda" 5000 4096 (MkRangeSet [(5, 6); (9, 10)] 2)).
  destruct (map_block_file_view (fun s => s) (Some demo_map_text)
    (MkBlockMap "/dev/block/sda" 5000 4096 (MkRangeSet [(5, 6); (9, 10)] 2))
    (MkAnswers (Some 65536) true [true; true]) 65536 demo_mapping []) as (mm' & m' & R).
  - vm_compute. reflexivity.
  - discriminate.
  - reflexivity.
  - reflexivity.
  - reflexivity.
  - cbn [block_ranges_ ranges_ block_size_]. repeat (apply Forall_cons; split; [unfold INT64_MAX; cbn; lia|]).
    apply Forall_nil. exact I.
  - exists mm', m'. split; [vm_compute; reflexivity|exact R].
Defined.
