(* ===== verification/BootloaderMessage.v ===== *)
(** bootloader_message/: the /misc partition, through which recovery, the
    system and the bootloader talk to each other: the bootloader message,
    the wipe package, the messages of the system space, and misctrl, which
    maintains one of them.

    The state holds the block devices, the fstab and the kernel's answers to
    the coming calls: an access can fail when it opens, seeks, transfers, in
    which case it has moved some bytes, or syncs. *)
From stdpp Require Import base list strings gmap.
From Stdlib Require Import ZArith Lia Ascii.
From S2P Require Import Prelude Kernel.

Inductive Answer := Completes | OpenFails | SeekFails | Breaks (after : Z) | SyncFails.
Inductive Error :=
| NoFstab | NoMisc | EmptyDevice | StatFailed | OpenFailed | SeekFailed | ReadFailed | WriteFailed | SyncFailed
| OutOfBound (offset size : Z) | PackageTooLarge (size : Z) | CommandPending.
#[global] Instance error_eq_dec : EqDecision Error.
Proof. solve_decision. Defined.
Record Misc := MkMisc {
  g_misc_device_for_test : option string;
  fstab : option (list (string * string));  (* mount_point, blk_device *)
  disks : gmap string (list Z);
  stats : list bool;
  replies : list Answer }.
Definition Res (A : Type) : Type := ((A + Error) * Misc)%type.

Definition BOOTLOADER_MESSAGE_OFFSET_IN_MISC : Z := 0.
Definition VENDOR_SPACE_OFFSET_IN_MISC : Z := 2 * 1024.
Definition WIPE_PACKAGE_OFFSET_IN_MISC : Z := 16 * 1024.
Definition SYSTEM_SPACE_OFFSET_IN_MISC : Z := 32 * 1024.
Definition SYSTEM_SPACE_SIZE_IN_MISC : Z := 32 * 1024.

(** ** Devices *)
Definition get_misc_blk_device (w : Misc) : string + Error :=
  match g_misc_device_for_test w with
  | Some (String _ _ as d) => inl d
  | _ =>
      match fstab w with
      | None => inr NoFstab
      | Some entries =>
          match List.find (fun e => String.eqb e.1 "/misc") entries with
          | Some e => inl e.2
          | None => inr NoMisc
          end
      end
  end.
(** At most [tries] calls of stat, a second apart. *)
Fixpoint stat_tries (tries : nat) (answers : list bool) : bool * list bool :=
  match tries with
  | O => (false, answers)
  | S tries => if hd false answers then (true, tl answers) else stat_tries tries (tl answers)
  end.
Definition wait_for_device (w : Misc) : bool * Misc :=
  let '(ok, rest) := stat_tries 10 (stats w) in
  (ok, MkMisc (g_misc_device_for_test w) (fstab w) (disks w) rest (replies w)).
Definition next_reply (w : Misc) : Answer * Misc :=
  (hd OpenFails (replies w),
   MkMisc (g_misc_device_for_test w) (fstab w) (disks w) (stats w) (tl (replies w))).
Definition set_disk (w : Misc) (dev : string) (bytes : list Z) : Misc :=
  MkMisc (g_misc_device_for_test w) (fstab w) (<[dev := bytes]> (disks w)) (stats w) (replies w).

Definition read_misc_partition (size : Z) (dev : string) (offset : Z) (w : Misc) : Res (list Z) :=
  let '(up, w) := wait_for_device w in
  if negb up then (inr StatFailed, w)
  else
  let '(reply, w) := next_reply w in
  match disks w !! dev, reply with
  | None, _ | _, OpenFails => (inr OpenFailed, w)
  | _, SeekFails => (inr SeekFailed, w)
  | _, Breaks _ => (inr ReadFailed, w)
  | Some disk, _ =>
      if offset + size <=? blen disk then (inl (slice offset size disk), w) else (inr ReadFailed, w)
  end.
Definition write_misc_partition (p : list Z) (dev : string) (offset : Z) (w : Misc) : Res () :=
  let '(reply, w) := next_reply w in
  match disks w !! dev, reply with
  | None, _ | _, OpenFails => (inr OpenFailed, w)
  | _, SeekFails => (inr SeekFailed, w)
  | Some disk, _ =>
      let room := Z.max 0 (blen disk - offset) in
      let moved := match reply with Breaks n => Z.min n (Z.min room (blen p)) | _ => Z.min room (blen p) end in
      let w := set_disk w dev (overwrite offset (take (Z.to_nat moved) p) disk) in
      match reply with
      | Breaks _ => (inr WriteFailed, w)
      | _ => if room <? blen p then (inr WriteFailed, w)
             else match reply with SyncFails => (inr SyncFailed, w) | _ => (inl (), w) end
      end
  end.
(** The callers' "the device, or return false". *)
Definition with_misc {A} (k : string -> Misc -> Res A) (w : Misc) : Res A :=
  match get_misc_blk_device w with
  | inl EmptyString => (inr EmptyDevice, w)
  | inl dev => k dev w
  | inr e => (inr e, w)
  end.
Definition get_bootloader_message_blk_device (w : Misc) : string * Misc :=
  match get_misc_blk_device w with
  | inl dev => if String.eqb dev "" then (""%string, w)
               else let '(up, w) := wait_for_device w in ((if up then dev else ""%string), w)
  | inr _ => (""%string, w)
  end.

(** ** The bootloader message *)
Record bootloader_message := MkBoot {
  command : list Z; status : list Z; recovery : list Z; stage : list Z; reserved : list Z }.
Definition zeros (n : Z) : list Z := replicate (Z.to_nat n) 0.
Definition empty_boot : bootloader_message :=
  MkBoot (zeros 32) (zeros 32) (zeros 768) (zeros 32) (zeros 1184).
Definition boot_bytes (b : bootloader_message) : list Z :=
  command b ++ status b ++ recovery b ++ stage b ++ reserved b.
Definition boot_of (bs : list Z) : bootloader_message :=
  MkBoot (slice 0 32 bs) (slice 32 32 bs) (slice 64 768 bs) (slice 832 32 bs) (slice 864 1184 bs).
Definition sizeof_boot : Z := 2048.

(** The bytes of a C string up to its terminator, and strlcpy into an array,
    whose bytes behind the terminator stay. *)
Fixpoint c_str (s : list Z) : list Z :=
  match s with [] => [] | c :: s => if c =? 0 then [] else c :: c_str s end.
Definition strlcpy (dst src : list Z) : list Z :=
  if blen dst =? 0 then dst
  else overwrite 0 (take (Z.to_nat (blen dst - 1)) (c_str src) ++ [0]) dst.
Definition chars (s : string) : list Z := (fun c => Z.of_nat (nat_of_ascii c)) <$> String.list_ascii_of_string s.

Definition read_bootloader_message_from (dev : string) (w : Misc) : Res bootloader_message :=
  match read_misc_partition sizeof_boot dev BOOTLOADER_MESSAGE_OFFSET_IN_MISC w with
  | (inl bs, w) => (inl (boot_of bs), w)
  | (inr e, w) => (inr e, w)
  end.
Definition read_bootloader_message : Misc -> Res bootloader_message := with_misc read_bootloader_message_from.
Definition write_bootloader_message_to (boot : bootloader_message) (dev : string) (w : Misc) : Res () :=
  write_misc_partition (boot_bytes boot) dev BOOTLOADER_MESSAGE_OFFSET_IN_MISC w.
Definition write_bootloader_message (boot : bootloader_message) : Misc -> Res () :=
  with_misc (write_bootloader_message_to boot).
Definition clear_bootloader_message : Misc -> Res () := write_bootloader_message empty_boot.

(** The recovery command line; back() of an empty string is undefined. *)
Fixpoint recovery_lines (options : list (list Z)) : option (list Z) :=
  match options with
  | [] => Some []
  | s :: options =>
      c ← last s;
      rest ← recovery_lines options;
      Some (s ++ (if c =? 10 then [] else [10]) ++ rest)
  end.
Definition update_bootloader_message_in_struct (boot : bootloader_message) (options : list (list Z))
    : option bootloader_message :=
  lines ← recovery_lines options;
  Some (MkBoot (strlcpy (zeros 32) (chars "boot-recovery")) (status boot)
          (strlcpy (zeros 768) (chars "recovery" ++ [10] ++ lines)) (stage boot) (reserved boot)).
Definition write_bootloader_options (options : list (list Z)) (w : Misc) : option (Res ()) :=
  boot ← update_bootloader_message_in_struct empty_boot options;
  Some (write_bootloader_message boot w).
Definition write_bootloader_options_to (options : list (list Z)) (dev : string) (w : Misc) : option (Res ()) :=
  boot ← update_bootloader_message_in_struct empty_boot options;
  Some (write_bootloader_message_to boot dev w).
Definition update_bootloader_message (options : list (list Z)) (w : Misc) : option (Res ()) :=
  match read_bootloader_message w with
  | (inr e, w) => Some (inr e, w)
  | (inl boot, w) =>
      boot ← update_bootloader_message_in_struct boot options;
      Some (write_bootloader_message boot w)
  end.
Definition write_reboot_bootloader (w : Misc) : Res () :=
  match read_bootloader_message w with
  | (inr e, w) => (inr e, w)
  | (inl boot, w) =>
      if negb (nth 0 (command boot) 0 =? 0) then (inr CommandPending, w)
      else write_bootloader_message
             (MkBoot (strlcpy (command boot) (chars "bootonce-bootloader")) (status boot)
                (recovery boot) (stage boot) (reserved boot)) w
  end.

(** ** The wipe package *)
Definition read_wipe_package (size : Z) : Misc -> Res (list Z) :=
  with_misc (fun dev => read_misc_partition size dev WIPE_PACKAGE_OFFSET_IN_MISC).
Definition kMaximumWipePackageSize : Z := SYSTEM_SPACE_OFFSET_IN_MISC - WIPE_PACKAGE_OFFSET_IN_MISC.
Definition write_wipe_package (package_data : list Z) : Misc -> Res () :=
  with_misc (fun dev w =>
    if kMaximumWipePackageSize <? blen package_data then (inr (PackageTooLarge (blen package_data)), w)
    else write_misc_partition package_data dev WIPE_PACKAGE_OFFSET_IN_MISC w).

(** ** The system space *)
Definition ValidateSystemSpaceRegion (offset size : Z) : bool :=
  (size <=? SYSTEM_SPACE_SIZE_IN_MISC) && (offset <=? u64 (SYSTEM_SPACE_SIZE_IN_MISC - size)).
Definition ReadMiscPartitionSystemSpace (size offset : Z) (w : Misc) : Res (list Z) :=
  if negb (ValidateSystemSpaceRegion offset size) then (inr (OutOfBound offset size), w)
  else with_misc (fun dev => read_misc_partition size dev (SYSTEM_SPACE_OFFSET_IN_MISC + offset)) w.
Definition WriteMiscPartitionSystemSpace (data : list Z) (offset : Z) (w : Misc) : Res () :=
  if negb (ValidateSystemSpaceRegion offset (blen data)) then (inr (OutOfBound offset (blen data)), w)
  else with_misc (fun dev => write_misc_partition data dev (SYSTEM_SPACE_OFFSET_IN_MISC + offset)) w.
(** misc_system_space_layout: four messages of 64 bytes. *)
Definition message_size : Z := 64.
Definition virtual_ab_offset : Z := 0.
Definition memtag_offset : Z := 64.
Definition kcmdline_offset : Z := 128.
Definition control_offset : Z := 192.
Definition sizeof_layout : Z := 256.
Definition ReadMiscVirtualAbMessage := ReadMiscPartitionSystemSpace message_size virtual_ab_offset.
Definition WriteMiscVirtualAbMessage (message : list Z) := WriteMiscPartitionSystemSpace message virtual_ab_offset.
Definition ReadMiscMemtagMessage := ReadMiscPartitionSystemSpace message_size memtag_offset.
Definition WriteMiscMemtagMessage (message : list Z) := WriteMiscPartitionSystemSpace message memtag_offset.
Definition ReadMiscKcmdlineMessage := ReadMiscPartitionSystemSpace message_size kcmdline_offset.
Definition WriteMiscKcmdlineMessage (message : list Z) := WriteMiscPartitionSystemSpace message kcmdline_offset.
Definition ReadMiscControlMessage := ReadMiscPartitionSystemSpace message_size control_offset.
Definition WriteMiscControlMessage (message : list Z) := WriteMiscPartitionSystemSpace message control_offset.
Definition kReservedSize : Z := SYSTEM_SPACE_SIZE_IN_MISC - sizeof_layout.
Definition CheckReservedSystemSpaceEmpty (w : Misc) : Res bool :=
  match ReadMiscPartitionSystemSpace kReservedSize sizeof_layout w with
  | (inr e, w) => (inr e, w)
  | (inl space, w) =>
      (inl ((nth 0 space 0 =? 0) && bool_decide (take (Z.to_nat (kReservedSize - 1)) space = drop 1 space)), w)
  end.

(** ** misctrl *)
Record misc_control_message := MkControl {
  mc_version : Z; mc_magic : Z; misctrl_flags : Z; mc_reserved : list Z }.
Definition MISC_CONTROL_MESSAGE_VERSION : Z := 1.
Definition MISC_CONTROL_MAGIC_HEADER : Z := 0x736d6f72.
Definition MISC_CONTROL_16KB_BEFORE : Z := 0x1.
(** The low [n] bytes of a value, least significant first. *)
Definition le_bytes (n z : Z) : list Z := (fun i => Z.land (Z.shiftr z (8 * i)) 255) <$> seqZ 0 n.
Definition control_of (bs : list Z) : option misc_control_message :=
  version ← rd8 bs 0;
  magic ← rd32 bs 1;
  flags ← rd64 bs 5;
  Some (MkControl version magic flags (slice 13 51 bs)).
Definition control_bytes (m : misc_control_message) : list Z :=
  [mc_version m] ++ le_bytes 4 (mc_magic m) ++ le_bytes 8 (misctrl_flags m) ++ mc_reserved m.
(** [set_property] is whether SetProperty succeeds; the result is the exit
    code, the value of ro.misctrl.16kb_before when it gets that far. *)
Definition check_control_message (page_size : Z) (set_property : bool) (w : Misc)
    : option (Z * option string * Misc) :=
  match ReadMiscControlMessage w with
  | (inr _, w) => Some (1, None, w)
  | (inl bs, w) =>
      m ← control_of bs;
      let m := if negb (mc_magic m =? MISC_CONTROL_MAGIC_HEADER) ||
                  negb (mc_version m =? MISC_CONTROL_MESSAGE_VERSION)
               then MkControl MISC_CONTROL_MESSAGE_VERSION MISC_CONTROL_MAGIC_HEADER 0 (zeros 51)
               else m in
      let res := if negb (page_size =? 4096) && negb (page_size =? 16384) then 1 else 0 in
      let flags := if page_size =? 16384 then Z.lor (misctrl_flags m) MISC_CONTROL_16KB_BEFORE
                   else misctrl_flags m in
      let m := MkControl (mc_version m) (mc_magic m) flags (mc_reserved m) in
      let before_16kb := negb (Z.land flags MISC_CONTROL_16KB_BEFORE =? 0) in
      let res := Z.lor res (if set_property then 1 else 0) in
      match WriteMiscControlMessage (control_bytes m) w with
      | (inr _, w) => Some (Z.lor res 1, Some (if before_16kb then "1" else "0")%string, w)
      | (inl _, w) => Some (res, Some (if before_16kb then "1" else "0")%string, w)
      end
  end.
Definition check_reserved_space (w : Misc) : Z * Misc :=
  match CheckReservedSystemSpaceEmpty w with
  | (inr _, w) => (1, w)
  | (inl empty, w) => ((if empty then 0 else 1), w)
  end.
Definition misctrl_main (page_size : Z) (set_property : bool) (w : Misc) : option (Z * Misc) :=
  r ← check_control_message page_size set_property w;
  let '(err, _, w) := r in
  let '(err2, w) := check_reserved_space w in
  Some (Z.lor err err2, w).

(** ** Every write stays in its region *)

(** The writing operations, the misc region each one owns (offset, size) and
    its call. *)
Inductive MiscWrite :=
| WriteMessage (boot : bootloader_message)
| ClearMessage
| WriteOptions (options : list (list Z))
| UpdateOptions (options : list (list Z))
| RebootBootloader
| WipePackage (data : list Z)
| VirtualAb (data : list Z) | Memtag (data : list Z) | Kcmdline (data : list Z) | Control (data : list Z).
Definition owned (op : MiscWrite) : Z * Z :=
  match op with
  | WipePackage _ => (WIPE_PACKAGE_OFFSET_IN_MISC, kMaximumWipePackageSize)
  | VirtualAb _ => (SYSTEM_SPACE_OFFSET_IN_MISC + virtual_ab_offset, message_size)
  | Memtag _ => (SYSTEM_SPACE_OFFSET_IN_MISC + memtag_offset, message_size)
  | Kcmdline _ => (SYSTEM_SPACE_OFFSET_IN_MISC + kcmdline_offset, message_size)
  | Control _ => (SYSTEM_SPACE_OFFSET_IN_MISC + control_offset, message_size)
  | _ => (BOOTLOADER_MESSAGE_OFFSET_IN_MISC, sizeof_boot)
  end.
Definition run (op : MiscWrite) (w : Misc) : option (Res ()) :=
  match op with
  | WriteMessage boot => Some (write_bootloader_message boot w)
  | ClearMessage => Some (clear_bootloader_message w)
  | WriteOptions options => write_bootloader_options options w
  | UpdateOptions options => update_bootloader_message options w
  | RebootBootloader => Some (write_reboot_bootloader w)
  | WipePackage data => Some (write_wipe_package data w)
  | VirtualAb data => Some (WriteMiscVirtualAbMessage data w)
  | Memtag data => Some (WriteMiscMemtagMessage data w)
  | Kcmdline data => Some (WriteMiscKcmdlineMessage data w)
  | Control data => Some (WriteMiscControlMessage data w)
  end.
(** The C++ types fix the sizes of the structures passed in. *)
Definition boot_ok (b : bootloader_message) : Prop :=
  blen (command b) = 32 /\ blen (status b) = 32 /\ blen (recovery b) = 768 /\
  blen (stage b) = 32 /\ blen (reserved b) = 1184.
Definition well_typed (op : MiscWrite) : Prop :=
  match op with
  | WriteMessage boot => boot_ok boot
  | VirtualAb data | Memtag data | Kcmdline data | Control data => blen data = message_size
  | _ => True
  end.
(** At most the bytes [off, off+n) of the misc device differ. *)
Definition confined (off n : Z) (w w' : Misc) : Prop :=
  forall dev, match disks w !! dev, disks w' !! dev with
    | Some a, Some b => if decide (get_misc_blk_device w = inl dev) then touched off n a b else a = b
    | None, None => True
    | _, _ => False
    end.

(** The fields that name the misc device. *)
Definition same_names (w w' : Misc) : Prop :=
  g_misc_device_for_test w' = g_misc_device_for_test w /\ fstab w' = fstab w.
Lemma same_names_device w w' : same_names w w' -> get_misc_blk_device w' = get_misc_blk_device w.
Proof. intros [Ht Hf]. unfold get_misc_blk_device. by rewrite Ht, Hf. Qed.

Lemma confined_same_disks off n w w' : disks w' = disks w -> confined off n w w'.
Proof. intros E dev. rewrite E. destruct (disks w !! dev); [|done]. by case_decide. Qed.
Lemma confined_after off n w w1 w2 :
  disks w1 = disks w -> same_names w w1 -> confined off n w1 w2 -> confined off n w w2.
Proof. intros E Hn Hc dev. specialize (Hc dev). by rewrite E, (same_names_device w w1) in Hc. Qed.
Lemma confined_mono off n off' n' w w' :
  0 <= off' -> off' <= off -> 0 <= n -> off + n <= off' + n' -> confined off n w w' -> confined off' n' w w'.
Proof.
  intros ???? Hc dev. specialize (Hc dev). destruct (disks w !! dev), (disks w' !! dev); try done.
  case_decide; [|done]. by eapply touched_mono.
Qed.

Lemma read_misc_state size dev off w r w' :
  read_misc_partition size dev off w = (r, w') -> disks w' = disks w /\ same_names w w'.
Proof.
  unfold read_misc_partition, wait_for_device, next_reply. destruct (stat_tries 10 (stats w)) as [[] rest]; simpl.
  - repeat case_match; intros [= _ <-]; done.
  - intros [= _ <-]. done.
Qed.
(** A read returns bytes only when all of them are there. *)
Lemma read_misc_data size dev off w bs w' :
  read_misc_partition size dev off w = (inl bs, w') ->
  exists disk, disks w !! dev = Some disk /\ off + size <= blen disk /\ bs = slice off size disk.
Proof.
  unfold read_misc_partition, wait_for_device, next_reply. destruct (stat_tries 10 (stats w)) as [[] rest]; simpl; [|done].
  destruct (disks w !! dev) as [disk|]; [|done].
  destruct (hd OpenFails (replies w)); try done; destruct (Z.leb_spec (off + size) (blen disk)); try done;
    intros [= <- _]; by exists disk.
Qed.
Lemma write_misc_confined p dev off w r w' :
  0 <= off -> get_misc_blk_device w = inl dev -> write_misc_partition p dev off w = (r, w') ->
  confined off (blen p) w w'.
Proof.
  intros Ho Hdev. unfold write_misc_partition, next_reply. cbv zeta. simpl disks.
  destruct (disks w !! dev) as [disk|] eqn:Hd; [|intros [= _ <-]; by apply confined_same_disks].
  assert (forall n w1, disks w1 = disks w -> n <= Z.max 0 (blen disk - off) -> n <= blen p ->
    confined off (blen p) w (set_disk w1 dev (overwrite off (take (Z.to_nat n) p) disk))) as Hw.
  { intros n w1 E Hn Hp d. simpl. rewrite E. destruct (decide (d = dev)) as [->|Hne].
    - rewrite lookup_insert_eq, Hd, decide_True by done. pose proof (length_take p (Z.to_nat n)). unfold blen in *.
      destruct (decide (n <= 0)).
      + replace (Z.to_nat n) with 0%nat by lia. rewrite take_0, overwrite_nil. apply touched_refl.
      + apply touched_overwrite; lia.
    - rewrite lookup_insert_ne by done. destruct (disks w !! d); [|done]. case_decide; [congruence|done]. }
  destruct (hd OpenFails (replies w)); simpl; repeat case_match; intros [= _ <-];
    try (by apply confined_same_disks); apply Hw; simpl; done || lia.
Qed.
Lemma write_misc_names p dev off w r w' : write_misc_partition p dev off w = (r, w') -> same_names w w'.
Proof.
  unfold write_misc_partition, next_reply. cbv zeta. repeat case_match; intros [= _ <-]; done.
Qed.
(** A write that reports success has put all its bytes. *)
Lemma write_misc_done p dev off w w' : 0 <= off -> 0 < blen p ->
  write_misc_partition p dev off w = (inl (), w') ->
  exists disk, disks w !! dev = Some disk /\ off + blen p <= blen disk /\
    disks w' = <[dev := overwrite off p disk]> (disks w).
Proof.
  intros Ho Hp. unfold write_misc_partition, next_reply. cbv zeta. simpl disks.
  destruct (disks w !! dev) as [disk|] eqn:Hd; [|done].
  destruct (hd OpenFails (replies w)); try done; simpl;
    destruct (Z.ltb_spec (Z.max 0 (blen disk - off)) (blen p)); try done; intros [= <-].
  exists disk. split_and!; [done|lia|]. simpl. do 2 f_equal. apply take_ge. unfold blen in *. lia.
Qed.
Lemma with_misc_confined {A} (k : string -> Misc -> Res A) off n w r w' :
  (forall dev r w', get_misc_blk_device w = inl dev -> k dev w = (r, w') -> confined off n w w') ->
  with_misc k w = (r, w') -> confined off n w w'.
Proof.
  intros Hk. unfold with_misc. destruct (get_misc_blk_device w) as [[|c d]|e] eqn:Hd;
    [intros [= _ <-]; by apply confined_same_disks| |intros [= _ <-]; by apply confined_same_disks].
  apply Hk. done.
Qed.

Lemma blen_boot b : boot_ok b -> blen (boot_bytes b) = sizeof_boot.
Proof.
  intros (Hc & Hs & Hr & Ht & Hv). unfold boot_bytes, sizeof_boot, blen in *.
  rewrite !length_app. lia.
Qed.
Lemma boot_of_ok bs : blen bs = sizeof_boot -> boot_ok (boot_of bs).
Proof. unfold sizeof_boot. intros. unfold boot_ok, boot_of. simpl. split_and!; apply slice_inside_len; lia. Qed.
Lemma blen_strlcpy dst src : blen (strlcpy dst src) = blen dst.
Proof.
  unfold strlcpy. destruct (Z.eqb_spec (blen dst) 0); [done|]. unfold blen in *.
  rewrite length_overwrite; [done|lia|]. rewrite length_app, length_take. simpl. lia.
Qed.
Lemma empty_boot_ok : boot_ok empty_boot.
Proof. done. Qed.
Lemma update_boot_ok b options b' :
  boot_ok b -> update_bootloader_message_in_struct b options = Some b' ->
  boot_ok b' /\ status b' = status b /\ stage b' = stage b /\ reserved b' = reserved b.
Proof.
  intros (Hc & Hs & Hr & Ht & Hv). unfold update_bootloader_message_in_struct.
  destruct (recovery_lines options); [|done]. intros [= <-]. unfold boot_ok. simpl. by rewrite !blen_strlcpy.
Qed.
Lemma read_boot_state w r w' : read_bootloader_message w = (r, w') -> disks w' = disks w /\ same_names w w'.
Proof.
  unfold read_bootloader_message, with_misc, read_bootloader_message_from.
  repeat case_match; intros [= _ <-]; try done; by eapply read_misc_state.
Qed.
Lemma read_boot_data w boot w' : read_bootloader_message w = (inl boot, w') ->
  exists dev disk, get_misc_blk_device w = inl dev /\ dev ≠ ""%string /\ disks w !! dev = Some disk /\
    sizeof_boot <= blen disk /\ boot = boot_of (slice 0 sizeof_boot disk).
Proof.
  unfold read_bootloader_message, with_misc, read_bootloader_message_from.
  destruct (get_misc_blk_device w) as [[|c d]|]; try done.
  destruct (read_misc_partition _ _ _ _) as [[bs|] w1] eqn:E; [|done]. intros [= <- _].
  apply read_misc_data in E as (disk & Hd & Hl & ->). by exists (String c d), disk.
Qed.
Lemma write_boot_confined boot w r w' : boot_ok boot -> write_bootloader_message boot w = (r, w') ->
  confined BOOTLOADER_MESSAGE_OFFSET_IN_MISC sizeof_boot w w'.
Proof.
  intros Hb. apply with_misc_confined. intros dev r' w1 Hdev Hw.
  rewrite <- (blen_boot boot Hb). by eapply write_misc_confined.
Qed.

Lemma read_boot_ok w boot w1 : read_bootloader_message w = (inl boot, w1) -> boot_ok boot.
Proof.
  intros Hr. apply read_boot_data in Hr as (dev & disk & _ & _ & _ & Hl & ->). apply boot_of_ok.
  apply slice_inside_len; unfold sizeof_boot in *; lia.
Qed.
Lemma read_write_confined w r0 w1 boot r w' :
  read_bootloader_message w = (r0, w1) -> boot_ok boot -> write_bootloader_message boot w1 = (r, w') ->
  confined BOOTLOADER_MESSAGE_OFFSET_IN_MISC sizeof_boot w w'.
Proof.
  intros Hr Hb Hw. apply read_boot_state in Hr as [Hd Hn].
  eapply confined_after; [done..|]. by eapply write_boot_confined.
Qed.
Lemma system_space_confined off data w r w' : blen data = message_size -> 0 <= off ->
  WriteMiscPartitionSystemSpace data off w = (r, w') ->
  confined (SYSTEM_SPACE_OFFSET_IN_MISC + off) message_size w w'.
Proof.
  intros Hl Ho. unfold WriteMiscPartitionSystemSpace. rewrite Hl.
  destruct (ValidateSystemSpaceRegion off message_size); cbn [negb]; [|intros [= _ <-]; by apply confined_same_disks].
  apply with_misc_confined. intros dev r1 w1 Hdev Hw. rewrite <- Hl.
  eapply write_misc_confined; [|done..]. unfold SYSTEM_SPACE_OFFSET_IN_MISC. lia.
Qed.
Lemma write_wipe_confined data w r w' : write_wipe_package data w = (r, w') ->
  confined WIPE_PACKAGE_OFFSET_IN_MISC kMaximumWipePackageSize w w'.
Proof.
  apply with_misc_confined. intros dev r1 w1 Hdev.
  destruct (Z.ltb_spec kMaximumWipePackageSize (blen data)); [intros [= _ <-]; by apply confined_same_disks|].
  intros Hw. eapply (confined_mono WIPE_PACKAGE_OFFSET_IN_MISC (blen data)); [done|done| |lia|].
  - unfold blen. lia.
  - by eapply write_misc_confined.
Qed.
Lemma write_options_confined options w r w' : write_bootloader_options options w = Some (r, w') ->
  confined BOOTLOADER_MESSAGE_OFFSET_IN_MISC sizeof_boot w w'.
Proof.
  unfold write_bootloader_options.
  destruct (update_bootloader_message_in_struct empty_boot options) as [b|] eqn:Hb; [|done]. intros [= Hw].
  apply update_boot_ok in Hb as [Hb _]; [|apply empty_boot_ok]. by eapply write_boot_confined.
Qed.
Lemma update_options_confined options w r w' : update_bootloader_message options w = Some (r, w') ->
  confined BOOTLOADER_MESSAGE_OFFSET_IN_MISC sizeof_boot w w'.
Proof.
  unfold update_bootloader_message. destruct (read_bootloader_message w) as [[boot|e] w1] eqn:Hr.
  - destruct (update_bootloader_message_in_struct boot options) as [b|] eqn:Hb; [|done]. intros [= Hw].
    apply update_boot_ok in Hb as [Hb _]; [|by eapply read_boot_ok]. by eapply read_write_confined.
  - intros [= _ <-]. apply confined_same_disks. by eapply read_boot_state.
Qed.
Lemma reboot_confined w r w' : write_reboot_bootloader w = (r, w') ->
  confined BOOTLOADER_MESSAGE_OFFSET_IN_MISC sizeof_boot w w'.
Proof.
  unfold write_reboot_bootloader. destruct (read_bootloader_message w) as [[boot|e] w1] eqn:Hr.
  - destruct (nth 0 (command boot) 0 =? 0); cbn [negb].
    + intros Hw. eapply read_write_confined; [done| |done].
      apply read_boot_ok in Hr as (Hc & Hs & Hv & Ht & Hx). unfold boot_ok. simpl. by rewrite blen_strlcpy.
    + intros [= _ <-]. apply confined_same_disks. by eapply read_boot_state.
  - intros [= _ <-]. apply confined_same_disks. by eapply read_boot_state.
Qed.

(** C24: every operation that writes the misc partition changes at most the
    bytes of its own region, also when it is refused or interrupted at any
    point: the bootloader message, the wipe package and the four system-space
    messages never reach into each other, into the vendor space, or into
    another device. *)
Theorem misc_writes_confined op w r w' :
  well_typed op -> run op w = Some (r, w') ->
  confined (owned op).1 (owned op).2 w w' /\
  forall op', owned op' = owned op \/ (owned op).1 + (owned op).2 <= (owned op').1 \/
    (owned op').1 + (owned op').2 <= (owned op).1.
Proof.
  intros Hty Hrun. split; [|intros []; destruct op; vm_compute; intuition congruence].
  destruct op; cbn [run well_typed owned fst snd] in *; try injection Hrun as Hrun.
  - by eapply write_boot_confined.
  - eapply write_boot_confined; [apply empty_boot_ok|exact Hrun].
  - by eapply write_options_confined.
  - by eapply update_options_confined.
  - by eapply reboot_confined.
  - by eapply write_wipe_confined.
  - by apply (system_space_confined virtual_ab_offset data w r w').
  - by apply (system_space_confined memtag_offset data w r w').
  - by apply (system_space_confined kcmdline_offset data w r w').
  - by apply (system_space_confined control_offset data w r w').
Qed.

(** ** The message itself *)
Lemma slice_first off n a b : off = 0 -> n = blen a -> slice off n (a ++ b) = a.
Proof. intros -> ->. unfold slice, blen. rewrite Nat2Z.id. by rewrite drop_0, take_app_length. Qed.
Lemma slice_skip off n a b : blen a <= off -> slice off n (a ++ b) = slice (off - blen a) n b.
Proof.
  intros Hk. unfold slice, blen in *. rewrite drop_app_ge by lia. do 2 f_equal. lia.
Qed.
Lemma boot_roundtrip b : boot_ok b -> boot_of (boot_bytes b) = b.
Proof.
  intros (Hc & Hs & Hr & Ht & Hv). destruct b as [c st r t v]. unfold boot_of, boot_bytes.
  cbn [command status recovery stage reserved] in *.
  rewrite <- (app_nil_r v) at 1 2 3 4 5.
  f_equal; repeat rewrite slice_skip by lia; apply slice_first; lia.
Qed.
Lemma c_str_prefix n s rest : c_str (take n (c_str s) ++ 0 :: rest) = take n (c_str s).
Proof.
  revert n. induction s as [|c s IH]; intros n; simpl; [by rewrite take_nil|].
  destruct (Z.eqb_spec c 0); [by rewrite take_nil|]. destruct n as [|n]; [done|]. simpl.
  destruct (Z.eqb_spec c 0); [done|]. by rewrite IH.
Qed.
Lemma strlcpy_c_str dst src : 0 < blen dst ->
  c_str (strlcpy dst src) = take (Z.to_nat (blen dst - 1)) (c_str src).
Proof.
  intros Hd. unfold strlcpy. destruct (Z.eqb_spec (blen dst) 0); [lia|].
  rewrite overwrite_all, <- app_assoc. apply c_str_prefix.
Qed.

(** Update_bootloader_message, when it reports success, has replaced
    exactly the bootloader message of the misc device by one that asks for
    recovery: the command reads boot-recovery, the recovery field is the
    NUL-terminated command line cut to 767 characters, and the status, stage
    and reserved fields, every byte behind the message and every other
    device are as before. Reading the message back gives it. *)
Theorem update_bootloader_message_exact options w w' :
  update_bootloader_message options w = Some (inl (), w') ->
  exists dev disk boot boot' lines,
    get_misc_blk_device w = inl dev /\ disks w !! dev = Some disk /\
    boot = boot_of (slice 0 sizeof_boot disk) /\
    disks w' = <[dev := boot_bytes boot' ++ drop (Z.to_nat sizeof_boot) disk]> (disks w) /\
    recovery_lines options = Some lines /\
    c_str (command boot') = chars "boot-recovery" /\
    c_str (recovery boot') = take 767 (c_str (chars "recovery" ++ [10] ++ lines)) /\
    status boot' = status boot /\ stage boot' = stage boot /\ reserved boot' = reserved boot /\
    boot_of (slice 0 sizeof_boot (boot_bytes boot' ++ drop (Z.to_nat sizeof_boot) disk)) = boot'.
Proof.
  unfold update_bootloader_message. destruct (read_bootloader_message w) as [[boot|e] w1] eqn:Hr; [|done].
  pose proof (read_boot_ok _ _ _ Hr) as Hbok. pose proof (read_boot_state _ _ _ Hr) as [Hd1 Hn1].
  apply read_boot_data in Hr as (dev & disk & Hdev & Hne & Hdisk & Hl & Hboot).
  destruct (update_bootloader_message_in_struct boot options) as [boot'|] eqn:Hu; [|done]. intros [= Hw].
  pose proof (update_boot_ok _ _ _ Hbok Hu) as (Hbok' & Hst & Hsg & Hrv).
  unfold update_bootloader_message_in_struct in Hu.
  destruct (recovery_lines options) as [lines|] eqn:Hlines; [|done].
  rewrite some_bind in Hu. injection Hu as Hu.
  unfold write_bootloader_message, with_misc in Hw. rewrite (same_names_device w w1), Hdev in Hw by done.
  destruct dev as [|c d]; [done|]. unfold write_bootloader_message_to in Hw.
  apply write_misc_done in Hw as (disk' & Hdisk' & _ & Hw); [|done|rewrite blen_boot; done].
  rewrite Hd1 in Hdisk', Hw. rewrite Hdisk in Hdisk'. injection Hdisk' as <-.
  exists (String c d), disk, boot, boot', lines. split_and!; try done.
  - rewrite Hw. f_equal. rewrite overwrite_all. f_equal. f_equal.
    pose proof (blen_boot boot' Hbok') as E. unfold blen in E. lia.
  - rewrite <- Hu. cbn [command]. by rewrite strlcpy_c_str.
  - rewrite <- Hu. cbn [recovery]. by rewrite strlcpy_c_str.
  - rewrite slice_first by (done || by rewrite blen_boot). by apply boot_roundtrip.
Qed.

(** ** misctrl's exit code *)
Lemma space_empty_spec space : 0 < blen space ->
  (nth 0 space 0 =? 0) && bool_decide (take (Z.to_nat (blen space - 1)) space = drop 1 space) = true <->
  space = zeros (blen space).
Proof.
  unfold zeros, blen. rewrite Nat2Z.id. destruct space as [|x space]; simpl length; [lia|]. intros _.
  replace (Z.to_nat (Z.of_nat (S (length space)) - 1)) with (length space) by lia.
  cbn [nth drop]. rewrite drop_0, andb_true_iff, Z.eqb_eq, bool_decide_eq_true. split.
  - intros [-> E]. simpl. f_equal. revert E. induction space as [|y space IH]; [done|].
    simpl. intros [= <- E]. f_equal. apply IH. done.
  - intros E. simpl in E. injection E as -> E. split; [done|]. rewrite E, length_replicate.
    change (0 :: replicate ?n 0) with (replicate (S n) 0). rewrite take_replicate. f_equal. lia.
Qed.

Definition demo_misc (n : Z) : Misc :=
  MkMisc None (Some [("/misc", "/dev/misc")]%string) {["/dev/misc"%string := zeros n]}
    [true; true] [Completes; Completes].

(** Misctrl takes SetProperty's success for an error: check_control_message
    returns 1 in every run in which the property was set, and 0 only when
    setting it failed. *)
Theorem misctrl_exit_code_inverted :
  (forall page_size w res value w',
     check_control_message page_size true w = Some (res, value, w') -> res = 1) /\
  match check_control_message 4096 false (demo_misc 33024) with
  | Some (res, value, _) => res = 0 /\ value = Some "0"%string
  | None => False
  end.
Proof.
  split; [|by vm_compute]. intros page_size w res value w'. unfold check_control_message.
  destruct (ReadMiscControlMessage w) as [[bs|e] w1]; [|by intros [= <- _ _]].
  destruct (control_of bs) as [m|]; [|done]. rewrite some_bind. cbv zeta.
  destruct (WriteMiscControlMessage _ w1) as [[u|e] w2];
    destruct (negb (page_size =? 4096) && negb (page_size =? 16384)); by intros [= <- _ _].
Qed.

(** ** Witnesses *)
Lemma misc_writes_confined_witness : exists r w',
  run (Memtag (zeros 64)) (demo_misc 33024) = Some (r, w') /\
  confined (SYSTEM_SPACE_OFFSET_IN_MISC + 64) 64 (demo_misc 33024) w'.
Proof.
  destruct (WriteMiscMemtagMessage (zeros 64) (demo_misc 33024)) as [r w'] eqn:E.
  exists r, w'. cbn [run]. rewrite E. split; [reflexivity|].
  apply (misc_writes_confined (Memtag (zeros 64)) (demo_misc 33024) r w'); [reflexivity|].
  cbn [run]. rewrite E. reflexivity.
Defined.
Lemma update_bootloader_message_exact_witness : exists w' dev disk boot boot' lines,
  update_bootloader_message [chars "--wipe_data"] (demo_misc 4096) = Some (inl (), w') /\
  get_misc_blk_device (demo_misc 4096) = inl dev /\ disks (demo_misc 4096) !! dev = Some disk /\
  boot = boot_of (slice 0 sizeof_boot disk) /\
  disks w' = <[dev := boot_bytes boot' ++ drop (Z.to_nat sizeof_boot) disk]> (disks (demo_misc 4096)) /\
  recovery_lines [chars "--wipe_data"] = Some lines /\
  c_str (recovery boot') = take 767 (c_str (chars "recovery" ++ [10] ++ lines)) /\
  boot_of (slice 0 sizeof_boot (boot_bytes boot' ++ drop (Z.to_nat sizeof_boot) disk)) = boot'.
Proof.
  destruct (update_bootloader_message [chars "--wipe_data"] (demo_misc 4096)) as [[[[]|e] w']|] eqn:E.
  - destruct (update_bootloader_message_exact [chars "--wipe_data"] (demo_misc 4096) w' E)
      as (dev & disk & boot & boot' & lines & R1 & R2 & R3 & R4 & R5 & _ & R7 & _ & _ & _ & R11).
    exists w', dev, disk, boot, boot', lines. tauto.
  - exfalso. assert (match update_bootloader_message [chars "--wipe_data"] (demo_misc 4096) with
      Some (inl _, _) => True | _ => False end) as Hc by (vm_compute; exact I). rewrite E in Hc. exact Hc.
  - exfalso. assert (match update_bootloader_message [chars "--wipe_data"] (demo_misc 4096) with
      Some (inl _, _) => True | _ => False end) as Hc by (vm_compute; exact I). rewrite E in Hc. exact Hc.
Defined.
