(* ===== verification/Rpc.v ===== *)
(** aera_rpc/: the line-oriented JSON command channel of the recovery.

    A client writes one request into a fifo and reads events from another.
    aera_channel.cpp assembles and answers requests on the UI thread,
    aera_dispatcher.cpp runs the accepted one on a worker thread under a
    global lock, aera_protocol.cpp parses requests and writes the events.
    Each block that runs under the lock, or on the UI thread without
    touching the session, is one step; threads interleave freely between
    steps. jsoncpp is the parameter [JsonCpp]; the operation a request
    executes is an arbitrary sequence of events with an arbitrary result. *)
From stdpp Require Import base list strings gmap relations.
From Stdlib Require Import ZArith Lia Ascii.
From S2P Require Import Prelude.

Class JsonCpp := {
  Value : Type;
  json_parse : string -> option Value;
  isObject : Value -> bool;
  isMember : Value -> string -> bool;
  field : Value -> string -> Value;
  isInt : Value -> bool;
  asInt : Value -> Z;
  isString : Value -> bool;
  asString : Value -> string;
  objectValue : Value }.

Section Rpc.
Context `{JsonCpp}.

(** ** aera_protocol *)
Record Request := MkRequest {
  version : Z; id : string; operation : string; arguments : Value; error : string }.
Definition valid (r : Request) : bool := String.eqb (error r) "".
Definition no_request : Request := MkRequest 0 "" "" objectValue "".
Definition failed (e : string) : Request := MkRequest 0 "" "" objectValue e.
Definition kMaximumRequestBytes : nat := Z.to_nat (1024 * 1024).

Definition ParseRequest (json : string) : Request :=
  if String.eqb json "" then failed "empty_request"
  else if (kMaximumRequestBytes <? String.length json)%nat then failed "request_too_large"
  else
  match json_parse json with
  | None => failed "invalid_json"
  | Some root =>
      if negb (isObject root) then failed "invalid_json"
      else if negb (isInt (field root "v")) || negb (asInt (field root "v") =? 1)
      then failed "unsupported_version"
      else if negb (isString (field root "op")) || String.eqb (asString (field root "op")) ""
      then failed "missing_operation"
      else if isMember root "args" && negb (isObject (field root "args"))
      then failed "invalid_arguments"
      else MkRequest 1 (if isString (field root "id") then asString (field root "id") else "")
             (asString (field root "op"))
             (if isMember root "args" then field root "args" else objectValue) ""
  end.

(** The objects written to the client; an empty id is left out. *)
Inductive Event :=
| LogEvent (eid text : string)
| DataEvent (eid name : string) (value : Value)
| ProgressEvent (eid phase : string) (percent : Z) (details : Value)
| ErrorEvent (eid code message : string)
| ResultEvent (eid : string) (code : Z).
(** A response stream: what was written, and whether it is still open. *)
Record Sink := MkSink { written : list Event; is_open : bool }.
Abbreviation Sinks := (list Sink).

(** Send; output is an index into the streams, absent for nullptr. *)
Definition Send (output : option nat) (e : Event) (s : Sinks) : Sinks :=
  match output with
  | None => s
  | Some o => alter (fun k => MkSink (written k ++ [e]) (is_open k)) o s
  end.
Definition fclose (o : nat) (s : Sinks) : Sinks := alter (fun k => MkSink (written k) false) o s.
Definition WriteLog (output : option nat) (rid text : string) : Sinks -> Sinks :=
  Send output (LogEvent rid text).
Definition WriteData (output : option nat) (rid name : string) (value : Value) : Sinks -> Sinks :=
  Send output (DataEvent rid name value).
Definition WriteProgress (output : option nat) (rid phase : string) (percent : Z) (details : Value)
    : Sinks -> Sinks :=
  Send output (ProgressEvent rid phase (Z.max 0 (Z.min percent 100))
                 (if isObject details then details else objectValue)).
Definition WriteError (output : option nat) (rid code message : string) : Sinks -> Sinks :=
  Send output (ErrorEvent rid code message).
Definition WriteResult (output : option nat) (rid : string) (code : Z) : Sinks -> Sinks :=
  Send output (ResultEvent rid code).

Record LogStream := MkLog { l_output : option nat; l_id : string; l_pending : string }.
(** The text up to the first newline, with it, and what follows. *)
Fixpoint cut_line (s : string) : option (string * string) :=
  match s with
  | EmptyString => None
  | String c s =>
      if (nat_of_ascii c =? 10)%nat then Some (String c "", s)
      else match cut_line s with Some (l, rest) => Some (String c l, rest) | None => None end
  end.
Fixpoint flush_loop (fuel : nat) (l : LogStream) (s : Sinks) : LogStream * Sinks :=
  match fuel with
  | O => (l, s)
  | S fuel =>
      match cut_line (l_pending l) with
      | None => (l, s)
      | Some (line, rest) =>
          flush_loop fuel (MkLog (l_output l) (l_id l) rest) (WriteLog (l_output l) (l_id l) line s)
      end
  end.
(** Each round takes at least the newline, so the length is enough fuel. *)
Definition FlushLines (l : LogStream) (flush_tail : bool) (s : Sinks) : LogStream * Sinks :=
  let '(l, s) := flush_loop (String.length (l_pending l)) l s in
  if flush_tail && negb (String.eqb (l_pending l) "")
  then (MkLog (l_output l) (l_id l) "", WriteLog (l_output l) (l_id l) (l_pending l) s)
  else (l, s).
Definition LogWrite (l : LogStream) (data : string) (s : Sinks) : LogStream * Sinks :=
  if String.eqb data "" then (l, s)
  else FlushLines (MkLog (l_output l) (l_id l) (l_pending l ++ data)) false s.
Definition LogClose (l : LogStream) (s : Sinks) : Sinks := (FlushLines l true s).2.
Definition OpenLogStream (output : option nat) (rid : string) (funopen_ok : bool) : option LogStream :=
  if funopen_ok then Some (MkLog output rid "") else None.

(** ** aera_dispatcher *)
(** RunPending on its thread: started, executing a request, the session
    closed, and done. *)
Inductive Worker := Spawned | Executing (request : Request) | Closed (result : Z) | Done (result : Z).
Record State := MkState {
  g_input : bool; g_cancel : bool; g_pending : string;
  g_output : option nat; g_log : option LogStream; g_request : Request;
  g_active : bool; g_cancelled : bool; gui_file : bool;
  sinks : Sinks; workers : list Worker }.
Definition with_sinks (st : State) (s : Sinks) : State :=
  MkState (g_input st) (g_cancel st) (g_pending st) (g_output st) (g_log st) (g_request st)
    (g_active st) (g_cancelled st) (gui_file st) s (workers st).
Definition with_workers (st : State) (ws : list Worker) : State :=
  MkState (g_input st) (g_cancel st) (g_pending st) (g_output st) (g_log st) (g_request st)
    (g_active st) (g_cancelled st) (gui_file st) (sinks st) ws.

(** SessionEvents: the stream is unbuffered, so FlushLog has nothing to do. *)
Inductive Emit := EmitLog (text : string) | EmitData (name : string) (value : Value)
  | EmitError (code message : string).
Definition emit (e : Emit) (st : State) : State :=
  with_sinks st (match e with
    | EmitLog text => WriteLog (g_output st) (id (g_request st)) text (sinks st)
    | EmitData name value => WriteData (g_output st) (id (g_request st)) name value (sinks st)
    | EmitError code message => WriteError (g_output st) (id (g_request st)) code message (sinks st)
    end).
Definition CloseSession (result : Z) (st : State) : State :=
  let s := match g_log st with Some l => LogClose l (sinks st) | None => sinks st end in
  let s := WriteResult (g_output st) (id (g_request st)) result s in
  let s := match g_output st with Some o => fclose o s | None => s end in
  MkState (g_input st) (g_cancel st) (g_pending st) None None no_request false false false s (workers st).
Definition Start (output : option nat) (request : Request) (funopen_ok : bool) (st : State) : bool * State :=
  if negb (bool_decide (is_Some output)) || negb (valid request) then (false, st)
  else if g_active st then (false, st)
  else
  match OpenLogStream output (id request) funopen_ok with
  | None => (false, MkState (g_input st) (g_cancel st) (g_pending st) None None no_request
                      (g_active st) (g_cancelled st) (gui_file st) (sinks st) (workers st))
  | Some l => (true, MkState (g_input st) (g_cancel st) (g_pending st) output (Some l) request
                       true false true (sinks st) (workers st ++ [Spawned]))
  end.
Definition Active (st : State) : bool := g_active st.
(** Cancel: the part before the lock, and the part under it. *)
Definition cancel_request (st : State) : State :=
  MkState (g_input st) (g_cancel st) (g_pending st) (g_output st) (g_log st) (g_request st)
    (g_active st) true (gui_file st) (sinks st) (workers st).
Definition cancel_log (st : State) : State :=
  with_sinks st (WriteLog (g_output st) (id (g_request st)) ("Cancellation requested" ++ newline) (sinks st)).
(** Progress under the lock; Active was checked before taking it. *)
Definition Progress (phase : string) (percent : Z) (details : Value) (st : State) : State :=
  with_sinks st (WriteProgress (g_output st) (id (g_request st)) phase percent details (sinks st)).
(** The recovery's console output, while gui_set_FILE points at the log. *)
Definition gui_print (text : string) (st : State) : State :=
  match g_log st with
  | Some l => if gui_file st
              then let '(l, s) := LogWrite l text (sinks st) in
                   MkState (g_input st) (g_cancel st) (g_pending st) (g_output st) (Some l) (g_request st)
                     (g_active st) (g_cancelled st) (gui_file st) s (workers st)
              else st
  | None => st
  end.

(** ** aera_channel *)
Definition set_input (st : State) (open : bool) (pending : string) : State :=
  MkState open (g_cancel st) pending (g_output st) (g_log st) (g_request st)
    (g_active st) (g_cancelled st) (gui_file st) (sinks st) (workers st).
Definition set_cancel (st : State) (open : bool) : State :=
  MkState (g_input st) open (g_pending st) (g_output st) (g_log st) (g_request st)
    (g_active st) (g_cancelled st) (gui_file st) (sinks st) (workers st).
(** [ok]: the fifos could be created and opened. *)
Definition OpenInput (ok : bool) (st : State) : State := set_input st ok (g_pending st).
Definition CloseInput (st : State) : State := set_input st false (g_pending st).
Definition OpenCancel (ok : bool) (st : State) : State := set_cancel st ok.
Definition Setup (input_ok cancel_ok : bool) (st : State) : State :=
  let st := if negb (g_input st) then OpenInput input_ok st else st in
  if negb (g_cancel st) then OpenCancel cancel_ok st else st.
Definition Shutdown (st : State) : State := set_cancel (set_input st false "") false.
Definition Rearm (ok : bool) (st : State) : State := OpenInput ok (set_input st (g_input st) "").

(** fopen of the output fifo: a new stream, when somebody reads it. *)
Definition fopen (ok : bool) (st : State) : option nat * State :=
  if ok then (Some (length (sinks st)), with_sinks st (sinks st ++ [MkSink [] true])) else (None, st).
Definition RespondFailure (request : Request) (code message : string) (result : Z) (fopen_ok : bool)
    (st : State) : State :=
  let '(output, st) := fopen fopen_ok st in
  match output with
  | None => st
  | Some o =>
      let s := WriteError output (id request) code message (sinks st) in
      let s := WriteResult output (id request) result s in
      with_sinks st (fclose o s)
  end.

(** The answers of read(2): bytes, end of file, EINTR, or another error. *)
Inductive ReadAnswer := Got (bytes : string) | Eof | Eintr | ReadError.
Fixpoint read_request (answers : list ReadAnswer) (pending : string) : bool * string :=
  match answers with
  | [] | ReadError :: _ => (false, pending)
  | Got bytes :: answers =>
      let pending := (pending ++ bytes)%string in
      if (kMaximumRequestBytes <? String.length pending)%nat then (true, pending)
      else read_request answers pending
  | Eof :: _ => (true, pending)
  | Eintr :: answers => read_request answers pending
  end.
Record Oracle := MkOracle {
  answers : list ReadAnswer; tw_busy : bool; fopen_ok : bool; funopen_ok : bool; rearm_ok : bool }.
Definition HandleInput (k : Oracle) (st : State) : State :=
  if negb (g_input st) then st
  else
  let '(complete, pending) := read_request (answers k) (g_pending st) in
  let st := set_input st (g_input st) pending in
  if negb complete then st
  else
  let st := CloseInput st in
  let request := ParseRequest (g_pending st) in
  let st := set_input st (g_input st) "" in
  if negb (valid request)
  then Rearm (rearm_ok k) (RespondFailure request (error request) "Invalid AERA RPC request" 2 (fopen_ok k) st)
  else if Active st || tw_busy k
  then Rearm (rearm_ok k) (RespondFailure request "busy" "Another recovery operation is active" 1 (fopen_ok k) st)
  else
  let '(output, st) := fopen (fopen_ok k) st in
  match output with
  | None => Rearm (rearm_ok k) st
  | Some o =>
      let '(started, st) := Start output request (funopen_ok k) st in
      if negb started
      then
      let s := WriteError output (id request) "dispatcher_unavailable"
                 "The AERA command dispatcher could not start" (sinks st) in
      let s := WriteResult output (id request) 1 s in
      Rearm (rearm_ok k) (with_sinks st (fclose o s))
      else st
  end.

(** ** The running system *)
(** RunPending, block by block. *)
Definition worker_begin (i : nat) (st : State) : State :=
  match workers st !! i with
  | Some Spawned =>
      with_workers st (<[i := if Active st then Executing (g_request st) else Done 2]> (workers st))
  | _ => st
  end.
Definition worker_emit (i : nat) (e : Emit) (st : State) : State :=
  match workers st !! i with Some (Executing _) => emit e st | _ => st end.
Definition worker_close (i : nat) (result : Z) (st : State) : State :=
  match workers st !! i with
  | Some (Executing _) => let st := CloseSession result st in with_workers st (<[i := Closed result]> (workers st))
  | _ => st
  end.
Definition worker_rearm (i : nat) (ok : bool) (st : State) : State :=
  match workers st !! i with
  | Some (Closed result) => let st := Rearm ok st in with_workers st (<[i := Done result]> (workers st))
  | _ => st
  end.
(** HandleCancel up to the lock: whether Cancel goes on to it. *)
Definition HandleCancel (got_bytes cancel_ok : bool) (st : State) : State * bool :=
  if negb (g_cancel st) then (st, false)
  else if negb got_bytes then (OpenCancel cancel_ok st, false)
  else if negb (Active st) then (OpenCancel cancel_ok st, false)
  else (cancel_request st, true).
Definition finish_cancel (cancel_ok : bool) (st : State) : State := OpenCancel cancel_ok (cancel_log st).

(** A state of the program: the globals, and whether the UI thread is inside
    Cancel, waiting for the lock. *)
Definition System : Type := (State * bool)%type.
Definition init : System :=
  (MkState false false "" None None no_request false false false [] [], false).
Inductive step : System -> System -> Prop :=
| StepSetup st a b : step (st, false) (Setup a b st, false)
| StepShutdown st : step (st, false) (Shutdown st, false)
| StepInput k st : step (st, false) (HandleInput k st, false)
| StepCancel a b st : step (st, false) (HandleCancel a b st)
| StepCancelLog b st : step (st, true) (finish_cancel b st, false)
| StepProgress phase percent details st ui : step (st, ui) (Progress phase percent details st, ui)
| StepPrint text st ui : step (st, ui) (gui_print text st, ui)
| StepBegin i st ui : step (st, ui) (worker_begin i st, ui)
| StepEmit i e st ui : step (st, ui) (worker_emit i e st, ui)
| StepClose i result st ui : step (st, ui) (worker_close i result st, ui)
| StepRearm i ok st ui : step (st, ui) (worker_rearm i ok st, ui).

(** ** The log stream *)
(** The complete lines of a text and its unfinished tail. *)
Fixpoint split_log (s : string) : list string * string :=
  match s with
  | EmptyString => ([], ""%string)
  | String c s =>
      let '(ls, t) := split_log s in
      if (nat_of_ascii c =? 10)%nat then (String c "" :: ls, t)
      else match ls with l :: ls => (String c l :: ls, t) | [] => ([], String c t) end
  end.
Definition log_lines (s : string) : list string :=
  let '(ls, t) := split_log s in ls ++ (if String.eqb t "" then [] else [t]).
Definition append_events (o : option nat) (es : list Event) (s : Sinks) : Sinks :=
  match o with None => s | Some o => alter (fun k => MkSink (written k ++ es) (is_open k)) o s end.

Lemma append_nil o s : append_events o [] s = s.
Proof.
  destruct o as [o|]; [|done]. simpl. apply list_eq. intros j. rewrite list_lookup_alter.
  destruct (decide (o = j)) as [->|]; [|done]. destruct (s !! j) as [[w b]|]; simpl; [|done].
  by rewrite app_nil_r.
Qed.
Lemma append_app o es es' s : append_events o es' (append_events o es s) = append_events o (es ++ es') s.
Proof.
  destruct o as [o|]; [|done]. simpl. apply list_eq. intros j. destruct (decide (o = j)) as [->|].
  - rewrite !list_lookup_alter_eq. destruct (s !! j) as [[w b]|]; simpl; [|done]. by rewrite app_assoc.
  - by rewrite !list_lookup_alter_ne.
Qed.
Lemma Send_append o e s : Send o e s = append_events o [e] s.
Proof. done. Qed.

Lemma split_log_cut s : split_log s =
  match cut_line s with
  | None => ([], s)
  | Some (l, rest) => (l :: (split_log rest).1, (split_log rest).2)
  end.
Proof.
  induction s as [|c s IH]; [done|]. simpl. destruct (nat_of_ascii c =? 10)%nat.
  - by destruct (split_log s).
  - rewrite IH. destruct (cut_line s) as [[l rest]|]; done.
Qed.
Lemma cut_line_length s l rest : cut_line s = Some (l, rest) -> (String.length rest < String.length s)%nat.
Proof.
  revert l rest. induction s as [|c s IH]; intros l rest; [done|]. simpl.
  destruct (nat_of_ascii c =? 10)%nat; [intros [= _ <-]; lia|].
  destruct (cut_line s) as [[l' rest']|]; [|done]. intros [= _ <-]. specialize (IH l' rest' eq_refl). lia.
Qed.
Lemma flush_loop_split fuel : forall l s, (String.length (l_pending l) <= fuel)%nat ->
  flush_loop fuel l s = (MkLog (l_output l) (l_id l) (split_log (l_pending l)).2,
    append_events (l_output l) (LogEvent (l_id l) <$> (split_log (l_pending l)).1) s).
Proof.
  induction fuel as [|fuel IH]; intros [o i p] s Hf; simpl in *.
  { destruct p; [|simpl in Hf; lia]. simpl. by rewrite append_nil. }
  rewrite (split_log_cut p). destruct (cut_line p) as [[line rest]|] eqn:Hc; simpl; [|by rewrite append_nil].
  apply cut_line_length in Hc. rewrite IH by (simpl; lia). simpl. f_equal.
  unfold WriteLog. by rewrite Send_append, append_app.
Qed.
Lemma append_empty s : ("" ++ s)%string = s.
Proof. done. Qed.
Lemma append_cons c a s : (String c a ++ s)%string = String c (a ++ s).
Proof. done. Qed.
Lemma append_empty_r s : (s ++ "")%string = s.
Proof. induction s as [|c s IH]; [done|]. by rewrite append_cons, IH. Qed.
Lemma append_assoc a b c : ((a ++ b) ++ c)%string = (a ++ (b ++ c))%string.
Proof. induction a as [|x a IH]; [done|]. by rewrite !append_cons, IH. Qed.
Lemma split_log_app a b : split_log (a ++ b) =
  ((split_log a).1 ++ (split_log ((split_log a).2 ++ b)).1, (split_log ((split_log a).2 ++ b)).2).
Proof.
  induction a as [|c a IH].
  { simpl. rewrite !append_empty. by destruct (split_log b). }
  rewrite append_cons. simpl. rewrite IH. destruct (split_log a) as [ls t]. simpl.
  destruct (nat_of_ascii c =? 10)%nat eqn:Hc; [done|]. destruct ls as [|l ls]; simpl; [|done].
  rewrite ?append_cons. simpl. rewrite ?Hc. destruct (split_log (t ++ b)) as [[|l ls] t']; done.
Qed.
Lemma split_log_tail s : split_log (split_log s).2 = ([], (split_log s).2).
Proof.
  induction s as [|c s IH]; [done|]. simpl. destruct (split_log s) as [ls t]. simpl in IH.
  destruct (nat_of_ascii c =? 10)%nat eqn:Hc; [done|]. destruct ls as [|l ls]; simpl; [|done].
  rewrite Hc, IH. done.
Qed.

Lemma FlushLines_spec l tail s :
  FlushLines l tail s =
    if tail then (MkLog (l_output l) (l_id l) "",
                  append_events (l_output l) (LogEvent (l_id l) <$> log_lines (l_pending l)) s)
    else (MkLog (l_output l) (l_id l) (split_log (l_pending l)).2,
          append_events (l_output l) (LogEvent (l_id l) <$> (split_log (l_pending l)).1) s).
Proof.
  unfold FlushLines. rewrite flush_loop_split by done. simpl. unfold log_lines.
  destruct (split_log (l_pending l)) as [ls t]. simpl.
  destruct tail; [|done]. destruct t as [|c t]; simpl; [by rewrite app_nil_r|].
  unfold WriteLog. rewrite Send_append, append_app. by rewrite fmap_app.
Qed.
Lemma LogWrite_spec l data s : (split_log (l_pending l)).1 = [] ->
  LogWrite l data s = (MkLog (l_output l) (l_id l) (split_log (l_pending l ++ data)).2,
    append_events (l_output l) (LogEvent (l_id l) <$> (split_log (l_pending l ++ data)).1) s).
Proof.
  intros Hp. unfold LogWrite. destruct (String.eqb_spec data "") as [->|]; [|by rewrite FlushLines_spec].
  rewrite append_empty_r, Hp. simpl. rewrite append_nil. f_equal. destruct l as [o i p]. simpl in *. f_equal.
  rewrite split_log_cut in Hp |- *. destruct (cut_line p) as [[]|]; done.
Qed.

(** The console output of a session: writes, then the close. *)
Definition log_session (o : option nat) (rid : string) (writes : list string) (s : Sinks) : Sinks :=
  let '(l, s) := foldl (fun r data => LogWrite r.1 data r.2) (MkLog o rid "", s) writes in LogClose l s.
Definition join (ss : list string) : string := foldr String.append ""%string ss.

Lemma join_snoc ss d : join (ss ++ [d]) = (join ss ++ d)%string.
Proof.
  induction ss as [|x ss IH]; simpl; [by rewrite append_empty_r|]. by rewrite IH, append_assoc.
Qed.
Lemma log_writes o rid s writes :
  foldl (fun r data => LogWrite r.1 data r.2) (MkLog o rid "", s) writes =
    (MkLog o rid (split_log (join writes)).2,
     append_events o (LogEvent rid <$> (split_log (join writes)).1) s).
Proof.
  induction writes as [|d writes IH] using rev_ind; [simpl; by rewrite append_nil|].
  rewrite foldl_app, IH. simpl. rewrite LogWrite_spec; simpl; [|by rewrite split_log_tail].
  rewrite append_app, <- fmap_app, join_snoc, (split_log_app (join writes) d). done.
Qed.

(** A piece of output as the client should see it: text without a newline,
    or with one as its last character. *)
Definition one_line (line : string) : Prop :=
  line ≠ ""%string /\ (cut_line line = None \/ cut_line line = Some (line, ""%string)).
Lemma log_lines_cut s : log_lines s =
  match cut_line s with
  | None => if String.eqb s "" then [] else [s]
  | Some (l, rest) => l :: log_lines rest
  end.
Proof.
  unfold log_lines. rewrite split_log_cut. destruct (cut_line s) as [[l rest]|]; [|done].
  by destruct (split_log rest).
Qed.
Lemma cut_line_line s l rest : cut_line s = Some (l, rest) ->
  s = (l ++ rest)%string /\ one_line l.
Proof.
  revert l rest. induction s as [|c s IH]; intros l rest; [done|]. simpl.
  destruct (nat_of_ascii c =? 10)%nat eqn:Hc.
  - intros [= <- <-]. split; [done|]. split; [done|]. right. simpl. by rewrite Hc.
  - destruct (cut_line s) as [[l' rest']|]; [|done]. intros [= <- <-].
    destruct (IH l' rest' eq_refl) as [-> [_ Hl]]. split; [done|]. split; [done|]. simpl. rewrite Hc.
    destruct Hl as [->| ->]; [by left|by right].
Qed.
Lemma log_lines_ok n : forall s, (String.length s <= n)%nat ->
  join (log_lines s) = s /\ Forall one_line (log_lines s).
Proof.
  induction n as [|n IH]; intros s Hn; rewrite log_lines_cut.
  { destruct s; [|simpl in Hn; lia]. by split. }
  destruct (cut_line s) as [[l rest]|] eqn:Hc.
  - pose proof (cut_line_length _ _ _ Hc). apply cut_line_line in Hc as [-> Hl].
    destruct (IH rest) as [Hj Hf]; [lia|]. simpl. rewrite Hj. split; [done|]. by apply Forall_cons.
  - destruct (String.eqb_spec s "") as [->|Hne]; [by split|]. simpl. rewrite append_empty_r. split; [done|].
    apply Forall_singleton. split; [done|]. by left.
Qed.

(** The log stream frames the console output by lines whatever the
    chunks it arrives in: after the stream is closed the client has received
    one log event per line of the whole output, in order, the last one also
    when it lacks its newline, and their texts joined are the output. *)
Theorem log_framing o rid writes s :
  log_session o rid writes s = append_events o (LogEvent rid <$> log_lines (join writes)) s /\
  join (log_lines (join writes)) = join writes /\ Forall one_line (log_lines (join writes)).
Proof.
  split; [|by apply (log_lines_ok (String.length (join writes)))].
  unfold log_session. rewrite log_writes. unfold LogClose. rewrite FlushLines_spec. simpl.
  rewrite append_app, <- fmap_app. f_equal. f_equal. unfold log_lines. rewrite split_log_tail.
  by destruct (split_log (join writes)).
Qed.

(** ** Sessions *)
Definition event_id (e : Event) : string :=
  match e with
  | LogEvent i _ | DataEvent i _ _ | ProgressEvent i _ _ _ | ErrorEvent i _ _ | ResultEvent i _ => i
  end.
Definition is_result (e : Event) : bool := match e with ResultEvent _ _ => true | _ => false end.
Definition interim (rid : string) (e : Event) : Prop := event_id e = rid /\ is_result e = false.
(** A stream that is still written, and one that has been answered: events
    of one request, then its only result, then the end. *)
Definition running (rid : string) (k : Sink) : Prop := is_open k = true /\ Forall (interim rid) (written k).
Definition finished (k : Sink) : Prop :=
  is_open k = false /\ exists events rid code,
    written k = events ++ [ResultEvent rid code] /\ Forall (interim rid) events.
Definition live (w : Worker) : bool := match w with Spawned | Executing _ => true | _ => false end.

(** What the globals say: nothing, or one session with its stream, its log,
    and the one worker that will answer it. *)
Definition idle (st : State) : Prop :=
  g_active st = false /\ g_output st = None /\ g_log st = None /\
  (forall o k, sinks st !! o = Some k -> finished k) /\
  (forall i w, workers st !! i = Some w -> live w = false).
Definition busy (st : State) (o i : nat) : Prop :=
  g_active st = true /\ g_output st = Some o /\
  (exists p, g_log st = Some (MkLog (Some o) (id (g_request st)) p)) /\
  (exists k, sinks st !! o = Some k /\ running (id (g_request st)) k) /\
  (forall o' k, o' ≠ o -> sinks st !! o' = Some k -> finished k) /\
  (workers st !! i = Some Spawned \/ workers st !! i = Some (Executing (g_request st))) /\
  (forall j w, j ≠ i -> workers st !! j = Some w -> live w = false).
Definition sessions_ok (st : State) : Prop := idle st \/ exists o i, busy st o i.

(** The fields the sessions are made of. *)
Definition same_session (st st' : State) : Prop :=
  g_output st' = g_output st /\ g_log st' = g_log st /\ g_request st' = g_request st /\
  g_active st' = g_active st /\ sinks st' = sinks st /\ workers st' = workers st.
Lemma same_session_ok st st' : same_session st st' -> sessions_ok st -> sessions_ok st'.
Proof.
  intros (E1 & E2 & E3 & E4 & E5 & E6). unfold sessions_ok, idle, busy.
  rewrite E1, E2, E3, E4, E5, E6. done.
Qed.

(** Events of the session, written by whoever holds the lock. *)
Lemma emitted_ok st st' es :
  Forall (interim (id (g_request st))) es ->
  g_output st' = g_output st -> g_request st' = g_request st -> g_active st' = g_active st ->
  workers st' = workers st -> sinks st' = append_events (g_output st) es (sinks st) ->
  (g_log st' = g_log st \/ exists l p, g_log st = Some l /\ g_log st' = Some (MkLog (l_output l) (l_id l) p)) ->
  sessions_ok st -> sessions_ok st'.
Proof.
  intros Hes E1 E2 E3 E4 E5 Hlog [(Ha & Ho & Hl & Hs & Hw)|(o & i & Ha & Ho & (p & Hl) & (k & Hk & Hr) & Hs & Hw & Hj)].
  - left. unfold idle. rewrite E1, E3, E4, E5, Ho. split_and!; try done.
    destruct Hlog as [->|(l & q & E & _)]; congruence.
  - right. exists o, i. unfold busy. rewrite E1, E2, E3, E4, E5, Ho. simpl. split_and!; try done.
    + destruct Hlog as [->|(l & q & E & ->)]; [by exists p|]. rewrite Hl in E. injection E as <-. by exists q.
    + exists (MkSink (written k ++ es) (is_open k)). rewrite list_lookup_alter_eq, Hk. split; [done|].
      destruct Hr as [Hop Hev]. split; [done|]. by apply Forall_app.
    + intros o' k' Hne. rewrite list_lookup_alter_ne by done. by apply Hs.
Qed.
Lemma send_ok st e : interim (id (g_request st)) e -> sessions_ok st ->
  sessions_ok (with_sinks st (Send (g_output st) e (sinks st))).
Proof. intros He. apply (emitted_ok st _ [e]); try done; [by apply Forall_singleton|by left]. Qed.
Lemma gui_print_ok text st : sessions_ok st -> sessions_ok (gui_print text st).
Proof.
  intros Hok. unfold gui_print. destruct (g_log st) as [l|] eqn:Hl; [|done]. destruct (gui_file st); [|done].
  unfold LogWrite. destruct (String.eqb text "").
  - by apply (same_session_ok st).
  - rewrite FlushLines_spec. cbn [l_output l_id l_pending].
    assert (l_output l = g_output st /\ l_id l = id (g_request st)) as [Ho Hi].
    { destruct Hok as [(_ & _ & E & _)|(o & i & _ & Ho & (p & E) & _)]; [congruence|].
      rewrite Hl in E. injection E as ->. by rewrite Ho. }
    apply (emitted_ok st _ (LogEvent (l_id l) <$> (split_log (l_pending l ++ text)).1)); cbn; try done.
    + rewrite Hi. apply Forall_fmap, Forall_true. done.
    + by rewrite Ho.
    + right. by eexists l, _.
Qed.

Lemma append_last s w b es :
  append_events (Some (length s)) es (s ++ [MkSink w b]) = s ++ [MkSink (w ++ es) b].
Proof.
  simpl. apply list_eq. intros j. destruct (decide (length s = j)) as [<-|Hne].
  - rewrite list_lookup_alter_eq, !lookup_app_r, Nat.sub_diag by done. done.
  - rewrite list_lookup_alter_ne by done. destruct (decide (j < length s)%nat).
    + by rewrite !lookup_app_l by done.
    + rewrite !lookup_ge_None_2 by (rewrite length_app; simpl; lia). done.
Qed.
Lemma fclose_last s w b : fclose (length s) (s ++ [MkSink w b]) = s ++ [MkSink w false].
Proof.
  unfold fclose. apply list_eq. intros j. destruct (decide (length s = j)) as [<-|Hne].
  - rewrite list_lookup_alter_eq, !lookup_app_r, Nat.sub_diag by done. done.
  - rewrite list_lookup_alter_ne by done. destruct (decide (j < length s)%nat).
    + by rewrite !lookup_app_l by done.
    + rewrite !lookup_ge_None_2 by (rewrite length_app; simpl; lia). done.
Qed.
(** A refused request: its stream is complete at once. *)
Definition refusal (rid code message : string) (result : Z) : Sink :=
  MkSink [ErrorEvent rid code message; ResultEvent rid result] false.
Lemma refusal_finished rid code message result : finished (refusal rid code message result).
Proof.
  split; [done|]. exists [ErrorEvent rid code message], rid, result. split; [done|]. by apply Forall_singleton.
Qed.
Lemma refused_sinks s rid code message result :
  fclose (length s) (WriteResult (Some (length s)) rid result
    (WriteError (Some (length s)) rid code message (s ++ [MkSink [] true]))) =
  s ++ [refusal rid code message result].
Proof.
  unfold WriteResult, WriteError. rewrite !Send_append, append_app, append_last. apply fclose_last.
Qed.
Lemma add_finished_ok st st' k : finished k ->
  g_output st' = g_output st -> g_log st' = g_log st -> g_request st' = g_request st ->
  g_active st' = g_active st -> sinks st' = sinks st ++ [k] -> workers st' = workers st ->
  sessions_ok st -> sessions_ok st'.
Proof.
  intros Hf E1 E2 E3 E4 E5 E6 [(Ha & Ho & Hl & Hs & Hw)|(o & i & Ha & Ho & Hl & (k0 & Hk & Hr) & Hs & Hw & Hj)].
  - left. unfold idle. rewrite E1, E2, E4, E5, E6. split_and!; try done.
    intros o k'. rewrite lookup_snoc_Some. intros [[_ Hk]|[_ <-]]; eauto.
  - right. exists o, i. unfold busy. rewrite E1, E2, E3, E4, E5, E6. split_and!; try done.
    + exists k0. split; [|done]. apply lookup_app_l_Some. done.
    + intros o' k' Hne. rewrite lookup_snoc_Some. intros [[_ Hk']|[_ <-]]; eauto.
Qed.
Lemma respond_ok request code message result ok st :
  sessions_ok st -> sessions_ok (RespondFailure request code message result ok st).
Proof.
  intros Hok. unfold RespondFailure, fopen. destruct ok; [|done]. cbn [sinks with_sinks].
  rewrite refused_sinks. eapply add_finished_ok; [apply refusal_finished|..|exact Hok]; done.
Qed.
Lemma started_ok st st' request p :
  idle st -> g_active st' = true -> g_output st' = Some (length (sinks st)) -> g_request st' = request ->
  g_log st' = Some (MkLog (Some (length (sinks st))) (id request) p) ->
  sinks st' = sinks st ++ [MkSink [] true] -> workers st' = workers st ++ [Spawned] -> sessions_ok st'.
Proof.
  intros (_ & _ & _ & Hs & Hw) E1 E2 E3 E4 E5 E6. right. exists (length (sinks st)), (length (workers st)).
  unfold busy. rewrite E1, E2, E3, E4, E5, E6. split_and!; try done.
  - by exists p.
  - eexists. split; [by apply list_lookup_middle|]. split; [done|]. by apply Forall_nil.
  - intros o k Hne. rewrite lookup_snoc_Some. intros [[_ Hk]|[Hk _]]; [by eapply Hs|lia].
  - left. by apply list_lookup_middle.
  - intros j w Hne. rewrite lookup_snoc_Some. intros [[_ Hk]|[Hk _]]; [by eapply Hw|lia].
Qed.
Lemma idle_of st : sessions_ok st -> g_active st = false -> idle st.
Proof. intros [Hi|(o & i & Ha & _)]; [done|congruence]. Qed.
Lemma HandleInput_ok k st : sessions_ok st -> sessions_ok (HandleInput k st).
Proof.
  intros Hok. unfold HandleInput. destruct (g_input st); [|done]. cbn [negb].
  destruct (read_request (answers k) (g_pending st)) as [[] pending]; [|by apply (same_session_ok st)].
  cbv zeta. cbn [negb]. match goal with |- context [ ParseRequest ?p ] => set (request := ParseRequest p) end.
  match goal with |- context [ Active ?s || _ ] => set (st1 := s) end. assert (same_session st st1) as Hsame by done.
  assert (sessions_ok st1) as Hok1 by (by apply (same_session_ok st)).
  destruct (valid request) eqn:Hv; cbn [negb].
  2:{ eapply same_session_ok; [|by apply respond_ok]. done. }
  destruct (Active st1 || tw_busy k) eqn:Hact.
  { eapply same_session_ok; [|by apply respond_ok]. done. }
  apply orb_false_iff in Hact as [Hact _]. unfold Active in Hact.
  unfold fopen. destruct (fopen_ok k); [|by apply (same_session_ok st)].
  unfold Start. rewrite Hv, bool_decide_true by done. cbn [negb orb g_active with_sinks]. rewrite Hact.
  pose proof (idle_of st1 Hok1 Hact) as Hidle. destruct (funopen_ok k); cbn [OpenLogStream negb].
  - by eapply (started_ok st1).
  - cbn [sinks with_sinks]. rewrite refused_sinks.
    destruct Hidle as (Ha & Ho & Hl & Hs & Hw). left. unfold idle. cbn. split_and!; try done.
    intros o sk. rewrite lookup_snoc_Some. intros [[_ Hsk]|[_ <-]]; [by eapply Hs|apply refusal_finished].
Qed.

Lemma worker_begin_ok j st : sessions_ok st -> sessions_ok (worker_begin j st).
Proof.
  intros Hok. unfold worker_begin. destruct (workers st !! j) as [[]|] eqn:Hj; try done. unfold Active.
  destruct Hok as [(_ & _ & _ & _ & Hw)|(o & i & Ha & Ho & Hl & Hk & Hs & Hwi & Hwj)].
  { specialize (Hw _ _ Hj). done. }
  destruct (decide (j = i)) as [->|Hne]; [|specialize (Hwj _ _ Hne Hj); done].
  right. exists o, i. rewrite Ha. unfold busy. cbn. split_and!; try done.
  - right. rewrite list_lookup_insert_eq; [done|]. by eapply lookup_lt_Some.
  - intros j' w Hne. rewrite list_lookup_insert_ne by done. by apply Hwj.
Qed.
Lemma worker_emit_ok j e st : sessions_ok st -> sessions_ok (worker_emit j e st).
Proof.
  intros Hok. unfold worker_emit. destruct (workers st !! j) as [[]|]; try done.
  destruct e; by apply send_ok.
Qed.
(** What CloseSession leaves of the session's stream. *)
Lemma closed_sinks st o i result : busy st o i ->
  exists k, sinks (CloseSession result st) = <[o := k]> (sinks st) /\ finished k /\
    last (written k) = Some (ResultEvent (id (g_request st)) result).
Proof.
  intros (Ha & Ho & (p & Hl) & (k & Hk & Hop & Hev) & _). unfold CloseSession. rewrite Hl, Ho.
  unfold LogClose. rewrite FlushLines_spec. cbn [snd l_output l_id l_pending sinks].
  unfold WriteResult. rewrite Send_append, append_app. set (es := _ <$> log_lines p).
  exists (MkSink (written k ++ es ++ [ResultEvent (id (g_request st)) result]) false). split_and!.
  - unfold fclose. simpl. apply list_eq. intros j. destruct (decide (o = j)) as [<-|Hne].
    + rewrite !list_lookup_alter_eq, Hk. simpl. rewrite list_lookup_insert_eq; [done|]. by eapply lookup_lt_Some.
    + by rewrite !list_lookup_alter_ne, list_lookup_insert_ne.
  - split; [done|]. exists (written k ++ es), (id (g_request st)), result. split; [by rewrite app_assoc|].
    apply Forall_app. split; [done|]. apply Forall_fmap, Forall_true. done.
  - simpl. by rewrite app_assoc, last_snoc.
Qed.
Lemma worker_close_ok j result st : sessions_ok st -> sessions_ok (worker_close j result st).
Proof.
  intros Hok. unfold worker_close. destruct (workers st !! j) as [[|r| |]|] eqn:Hj; try done.
  destruct Hok as [(_ & _ & _ & _ & Hw)|(o & i & Hb)]; [specialize (Hw _ _ Hj); done|].
  destruct (closed_sinks st o i result Hb) as (k & Hk & Hf & _).
  destruct Hb as (Ha & Ho & Hl & _ & Hs & Hwi & Hwj).
  destruct (decide (j = i)) as [->|Hne]; [|specialize (Hwj _ _ Hne Hj); done].
  left. unfold idle. split_and!; try done.
  - intros o' k'. change (sinks (with_workers ?a ?b)) with (sinks a). rewrite Hk.
    destruct (decide (o = o')) as [<-|Hne].
    + intros Hl'. pose proof (lookup_lt_Some _ _ _ Hl') as Hlt. rewrite length_insert in Hlt.
      rewrite list_lookup_insert_eq in Hl' by done. by injection Hl' as <-.
    + rewrite list_lookup_insert_ne by done. intros Hk'. by apply (Hs o').
  - intros j' w. cbn. destruct (decide (i = j')) as [<-|Hne].
    + rewrite list_lookup_insert_eq by (by eapply lookup_lt_Some). by intros [= <-].
    + rewrite list_lookup_insert_ne by done. apply Hwj. congruence.
Qed.
Lemma worker_rearm_ok j ok st : sessions_ok st -> sessions_ok (worker_rearm j ok st).
Proof.
  intros Hok. unfold worker_rearm. destruct (workers st !! j) as [[| |r|]|] eqn:Hj; try done.
  pose proof (lookup_lt_Some _ _ _ Hj) as Hlt.
  destruct Hok as [(Ha & Ho & Hl & Hs & Hw)|(o & i & Ha & Ho & Hl & Hk & Hs & Hwi & Hwj)].
  - left. unfold idle. cbn. split_and!; try done. intros j' w. destruct (decide (j = j')) as [<-|Hne].
    + rewrite list_lookup_insert_eq by done. by intros [= <-].
    + rewrite list_lookup_insert_ne by done. apply Hw.
  - right. exists o, i. unfold busy. cbn.
    assert (j ≠ i) as Hji by (intros ->; rewrite Hj in Hwi; destruct Hwi; congruence).
    split_and!; try done.
    + by rewrite list_lookup_insert_ne.
    + intros j' w Hne. destruct (decide (j = j')) as [<-|Hne'].
      * rewrite list_lookup_insert_eq by done. by intros [= <-].
      * rewrite list_lookup_insert_ne by done. by apply Hwj.
Qed.
Lemma system_step_ok x y : step x y -> sessions_ok x.1 -> sessions_ok y.1.
Proof.
  intros [] Hok; cbn [fst] in *;
    eauto using HandleInput_ok, gui_print_ok, worker_begin_ok, worker_emit_ok, worker_close_ok, worker_rearm_ok.
  - unfold Setup. repeat case_match; by apply (same_session_ok st).
  - unfold HandleCancel. repeat case_match; by apply (same_session_ok st).
  - apply (same_session_ok (cancel_log st)); [done|]. by apply send_ok.
  - by apply send_ok.
Qed.
Lemma steps_ok x y : rtc step x y -> sessions_ok x.1 -> sessions_ok y.1.
Proof. induction 1 as [|x y z Hs _ IH]; [done|]. intros Hok. by apply IH, (system_step_ok x). Qed.
Lemma init_ok : sessions_ok init.1.
Proof. left. unfold idle, init. cbn. split_and!; try done; intros o k; by rewrite lookup_nil. Qed.

(** Starting, if needed, and finishing the worker answers the session. *)
Lemma session_answered st ui o i result : busy st o i -> exists st' k,
  rtc step (st, ui) (st', ui) /\ sinks st' !! o = Some k /\ finished k /\
  last (written k) = Some (ResultEvent (id (g_request st)) result).
Proof.
  intros Hb. pose proof Hb as (Ha & Ho & Hl & (k0 & Hk0 & _) & _ & Hwi & _).
  set (st1 := worker_begin i st). assert (busy st1 o i /\ workers st1 !! i = Some (Executing (g_request st)) /\
    g_request st1 = g_request st /\ sinks st1 = sinks st) as (Hb1 & Hw1 & Hr1 & Hs1).
  { unfold st1, worker_begin. destruct Hwi as [Hw|Hw]; rewrite Hw; [|by split_and!]. unfold Active. rewrite Ha.
    destruct Hb as (_ & _ & Hl' & Hk' & Hs' & _ & Hj'). pose proof (lookup_lt_Some _ _ _ Hw).
    cbn. rewrite list_lookup_insert_eq by done. split_and!; try done. unfold busy. cbn.
    rewrite list_lookup_insert_eq by done. split_and!; try done; [by right|].
    intros j w Hne. rewrite list_lookup_insert_ne by done. by apply Hj'. }
  destruct (closed_sinks st1 o i result Hb1) as (k & Hk & Hf & Hlast). rewrite Hr1 in Hlast.
  exists (worker_close i result st1), k. split_and!; [|unfold worker_close; rewrite Hw1|done..].
  - eapply rtc_l; [apply StepBegin|]. apply rtc_once, StepClose.
  - change (sinks (with_workers ?a ?b)) with (sinks a). rewrite Hk, Hs1.
    apply list_lookup_insert_eq. by eapply lookup_lt_Some.
Qed.

End Rpc.

(** ** Witness *)
(** Documents reduced to the string they hold. *)
#[local] Instance demo_json : JsonCpp := {
  Value := string; json_parse s := Some s; isObject _ := true; isMember _ _ := false;
  field s k := if String.eqb k "v" then "1"%string else s; isInt _ := true; asInt _ := 1;
  isString _ := true; asString s := s; objectValue := ""%string }.
Definition demo_oracle : Oracle := MkOracle [Got "ba"; Eintr; Got "ckup"; Eof] false true true true.
Definition demo_state : State := gui_print ("a" ++ newline ++ "b") (HandleInput demo_oracle (Setup true true init.1)).
