(* ===== verification/Gpt.v ===== *)
(** gpt/gpt.c, gpt.h and gptcrc32.c: reading a GUID partition table.

    Decrypt_Adopted asks [gpt_disk_get_partition_info] for the type and the
    identity of a partition of a removable disk. The disk is a list of bytes
    behind a descriptor with a position; a read may fail or be short, a seek
    may be refused, and the ioctls may fail. [None] is undefined behaviour:
    an access outside a heap block, a null block or memcpy of -1 bytes. *)
From stdpp Require Import base list strings.
From Stdlib Require Import ZArith Lia Ascii.
From S2P Require Import Prelude CxxString Kernel PayloadTargets.

(** ** gptcrc32.c *)
Definition crc32_tab : list Z :=
  [0x00000000; 0x77073096; 0xee0e612c; 0x990951ba; 0x076dc419; 0x706af48f;
   0xe963a535; 0x9e6495a3; 0x0edb8832; 0x79dcb8a4; 0xe0d5e91e; 0x97d2d988;
   0x09b64c2b; 0x7eb17cbd; 0xe7b82d07; 0x90bf1d91; 0x1db71064; 0x6ab020f2;
   0xf3b97148; 0x84be41de; 0x1adad47d; 0x6ddde4eb; 0xf4d4b551; 0x83d385c7;
   0x136c9856; 0x646ba8c0; 0xfd62f97a; 0x8a65c9ec; 0x14015c4f; 0x63066cd9;
   0xfa0f3d63; 0x8d080df5; 0x3b6e20c8; 0x4c69105e; 0xd56041e4; 0xa2677172;
   0x3c03e4d1; 0x4b04d447; 0xd20d85fd; 0xa50ab56b; 0x35b5a8fa; 0x42b2986c;
   0xdbbbc9d6; 0xacbcf940; 0x32d86ce3; 0x45df5c75; 0xdcd60dcf; 0xabd13d59;
   0x26d930ac; 0x51de003a; 0xc8d75180; 0xbfd06116; 0x21b4f4b5; 0x56b3c423;
   0xcfba9599; 0xb8bda50f; 0x2802b89e; 0x5f058808; 0xc60cd9b2; 0xb10be924;
   0x2f6f7c87; 0x58684c11; 0xc1611dab; 0xb6662d3d; 0x76dc4190; 0x01db7106;
   0x98d220bc; 0xefd5102a; 0x71b18589; 0x06b6b51f; 0x9fbfe4a5; 0xe8b8d433;
   0x7807c9a2; 0x0f00f934; 0x9609a88e; 0xe10e9818; 0x7f6a0dbb; 0x086d3d2d;
   0x91646c97; 0xe6635c01; 0x6b6b51f4; 0x1c6c6162; 0x856530d8; 0xf262004e;
   0x6c0695ed; 0x1b01a57b; 0x8208f4c1; 0xf50fc457; 0x65b0d9c6; 0x12b7e950;
   0x8bbeb8ea; 0xfcb9887c; 0x62dd1ddf; 0x15da2d49; 0x8cd37cf3; 0xfbd44c65;
   0x4db26158; 0x3ab551ce; 0xa3bc0074; 0xd4bb30e2; 0x4adfa541; 0x3dd895d7;
   0xa4d1c46d; 0xd3d6f4fb; 0x4369e96a; 0x346ed9fc; 0xad678846; 0xda60b8d0;
   0x44042d73; 0x33031de5; 0xaa0a4c5f; 0xdd0d7cc9; 0x5005713c; 0x270241aa;
   0xbe0b1010; 0xc90c2086; 0x5768b525; 0x206f85b3; 0xb966d409; 0xce61e49f;
   0x5edef90e; 0x29d9c998; 0xb0d09822; 0xc7d7a8b4; 0x59b33d17; 0x2eb40d81;
   0xb7bd5c3b; 0xc0ba6cad; 0xedb88320; 0x9abfb3b6; 0x03b6e20c; 0x74b1d29a;
   0xead54739; 0x9dd277af; 0x04db2615; 0x73dc1683; 0xe3630b12; 0x94643b84;
   0x0d6d6a3e; 0x7a6a5aa8; 0xe40ecf0b; 0x9309ff9d; 0x0a00ae27; 0x7d079eb1;
   0xf00f9344; 0x8708a3d2; 0x1e01f268; 0x6906c2fe; 0xf762575d; 0x806567cb;
   0x196c3671; 0x6e6b06e7; 0xfed41b76; 0x89d32be0; 0x10da7a5a; 0x67dd4acc;
   0xf9b9df6f; 0x8ebeeff9; 0x17b7be43; 0x60b08ed5; 0xd6d6a3e8; 0xa1d1937e;
   0x38d8c2c4; 0x4fdff252; 0xd1bb67f1; 0xa6bc5767; 0x3fb506dd; 0x48b2364b;
   0xd80d2bda; 0xaf0a1b4c; 0x36034af6; 0x41047a60; 0xdf60efc3; 0xa867df55;
   0x316e8eef; 0x4669be79; 0xcb61b38c; 0xbc66831a; 0x256fd2a0; 0x5268e236;
   0xcc0c7795; 0xbb0b4703; 0x220216b9; 0x5505262f; 0xc5ba3bbe; 0xb2bd0b28;
   0x2bb45a92; 0x5cb36a04; 0xc2d7ffa7; 0xb5d0cf31; 0x2cd99e8b; 0x5bdeae1d;
   0x9b64c2b0; 0xec63f226; 0x756aa39c; 0x026d930a; 0x9c0906a9; 0xeb0e363f;
   0x72076785; 0x05005713; 0x95bf4a82; 0xe2b87a14; 0x7bb12bae; 0x0cb61b38;
   0x92d28e9b; 0xe5d5be0d; 0x7cdcefb7; 0x0bdbdf21; 0x86d3d2d4; 0xf1d4e242;
   0x68ddb3f8; 0x1fda836e; 0x81be16cd; 0xf6b9265b; 0x6fb077e1; 0x18b74777;
   0x88085ae6; 0xff0f6a70; 0x66063bca; 0x11010b5c; 0x8f659eff; 0xf862ae69;
   0x616bffd3; 0x166ccf45; 0xa00ae278; 0xd70dd2ee; 0x4e048354; 0x3903b3c2;
   0xa7672661; 0xd06016f7; 0x4969474d; 0x3e6e77db; 0xaed16a4a; 0xd9d65adc;
   0x40df0b66; 0x37d83bf0; 0xa9bcae53; 0xdebb9ec5; 0x47b2cf7f; 0x30b5ffe9;
   0xbdbdf21c; 0xcabac28a; 0x53b39330; 0x24b4a3a6; 0xbad03605; 0xcdd70693;
   0x54de5729; 0x23d967bf; 0xb3667a2e; 0xc4614ab8; 0x5d681b02; 0x2a6f2b94;
   0xb40bbe37; 0xc30c8ea1; 0x5a05df1b; 0x2d02ef8d].
(** One round of the loop of [gptcrc32]. *)
Definition crc_round (crc32val s : Z) : Z :=
  Z.lxor (nth (Z.to_nat (Z.land (Z.lxor crc32val s) 0xff)) crc32_tab 0) (Z.shiftr crc32val 8).
Definition gptcrc32 (buf : list Z) (seed : Z) : Z := fold_left crc_round buf (u32 seed).
(** [len] bytes of [buf]; reading past its end is undefined. *)
Definition efi_crc32 (buf : list Z) (len : Z) : option Z :=
  if blen buf <? len then None
  else Some (u32 (Z.lxor (gptcrc32 (take (Z.to_nat len) buf) (2 ^ 64 - 1)) (2 ^ 64 - 1))).

(** ** The disk and its descriptor *)
Record Disk := MkDisk {
  blkssz : option Z;              (* BLKSSZGET, absent when the ioctl fails *)
  uname_release : option string;
  blkgetsize64 : option Z;
  blkgetsize : option Z;
  stat_blk : option bool;         (* fstat, and S_ISBLK of its mode *)
  blkgetlastsect : option (list Z);
  malloc_ok : Z -> bool;
  disk_bytes : list Z
}.
(** The position of the descriptor and the kernel's answers to the next
    reads; once they are used up, reads are complete. *)
Record Desc := MkDesc { pos : Z; reads : list Answer }.

Section Disk.
Variable d : Disk.

Definition get_sector_size : Z := match blkssz d with Some n => n | None => 512 end.

(** sscanf's %d: the value as stored in an int, and the rest of the text. *)
Definition scan_int (s : string) : option (Z * string) :=
  let s := skip_space s in
  let '(neg, s) := match s with
    | String "-" s' => (true, s') | String "+" s' => (false, s') | _ => (false, s) end in
  match digits s None with
  | (Some v, rest) =>
      let v := if neg : bool then Z.max (- 2 ^ 63) (- v) else Z.min INT64_MAX v in
      Some ((v + 2 ^ 31) mod 2 ^ 32 - 2 ^ 31, rest)
  | (None, _) => None
  end.
Definition scan_dot (s : string) : option string :=
  match s with String "." s' => Some s' | _ => None end.
Definition scan_version (s : string) : option (Z * Z * Z) :=
  a ← scan_int s; s1 ← scan_dot a.2;
  b ← scan_int s1; s2 ← scan_dot b.2;
  c ← scan_int s2; Some (a.1, b.1, c.1).
Definition kernel_has_blkgetsize64 : bool :=
  match uname_release d with
  | None => false
  | Some release =>
      match scan_version release with
      | None => false
      | Some (major, minor, patch) =>
          (2 <? major) || ((major =? 2) && (5 <? minor)) ||
          ((major =? 2) && (minor =? 5) && (4 <=? patch)) ||
          ((major =? 2) && (minor =? 4) && (18 <=? patch))
      end
  end.
Definition _get_num_sectors : Z :=
  match if kernel_has_blkgetsize64 then blkgetsize64 d else None with
  | Some bytes => bytes / get_sector_size
  | None => match blkgetsize d with Some sectors => sectors | None => 0 end
  end.
Definition last_lba : Z :=
  match stat_blk d with
  | None => 0
  | Some blk => u64 ((if blk then _get_num_sectors else 1) - 1)
  end.

(** lseek(SEEK_SET) on a block device: refused outside the device. *)
Definition lseek (offset : Z) (s : Desc) : Desc :=
  if (offset <? 0) || (blen (disk_bytes d) <? offset) then s else MkDesc offset (reads s).
(** read: -1, or the bytes delivered. *)
Definition read (bytes : Z) (s : Desc) : option (list Z) * Desc :=
  let deliver n rest :=
    let got := slice (pos s) (Z.min n bytes) (disk_bytes d) in
    (Some got, MkDesc (pos s + blen got) rest) in
  match reads s with
  | [] => deliver bytes []
  | (Intr | Fail) :: rest => (None, MkDesc (pos s) rest)
  | (Upto n | Lost n) :: rest => deliver n rest
  end.
Definition EINVAL : Z := 22.
Definition to_off_t (z : Z) : Z := (z + 2 ^ 63) mod 2 ^ 64 - 2 ^ 63.

(** The result of the call and the caller's buffer. *)
Definition read_lastoddsector (buffer : list Z) (count : Z) : Z * list Z :=
  match blkgetlastsect d with
  | Some contents => (1, overwrite 0 (take (Z.to_nat count) contents) buffer)
  | None => (0, buffer)
  end.
Definition read_lba (lba : Z) (buffer : list Z) (bytes : Z) (s : Desc)
    : option (Z * list Z * Desc) :=
  let sector_size := get_sector_size in
  let offset := to_off_t (u64 (lba * sector_size)) in
  if negb (bytes mod sector_size =? 0) then Some (EINVAL, buffer, s)
  else if negb (malloc_ok d (u64 (bytes + sector_size - 1))) then None
  else
  match read bytes (lseek offset s) with
  | (None, _) => None
  | (Some got, s) =>
      if blen buffer <? blen got then None
      else
      let buffer := overwrite 0 got buffer in
      if (blen got =? 0) && Z.even last_lba && (lba =? last_lba)
      then let '(rc, buffer) := read_lastoddsector buffer bytes in Some (rc, buffer, s)
      else Some (blen got, buffer, s)
  end.
End Disk.

(** ** gpt.h *)
Definition GPT_HEADER_SIGNATURE : Z := 0x5452415020494645.
Definition GPT_PRIMARY_PARTITION_TABLE_LBA : Z := 1.
Definition GPT_BLOCK_SIZE : Z := 512.
Definition sizeof_gpt_entry : Z := 128.
(** The fields of the packed struct that the code reads. *)
Record gpt_header := MkHeader {
  signature : Z; header_size : Z; header_crc32 : Z; my_lba : Z; alternate_lba : Z;
  first_usable_lba : Z; last_usable_lba : Z; disk_guid : list Z; partition_entry_lba : Z;
  num_partition_entries : Z; sizeof_partition_entry : Z; partition_entry_array_crc32 : Z }.
Definition header_of (gpt : list Z) : option gpt_header :=
  sig ← rd64 gpt 0; size ← rd32 gpt 12; crc ← rd32 gpt 16; my ← rd64 gpt 24; alt ← rd64 gpt 32;
  first ← rd64 gpt 40; last ← rd64 gpt 48; guid ← bytes_at gpt 56 16; lba ← rd64 gpt 72;
  num ← rd32 gpt 80; entry ← rd32 gpt 84; array ← rd32 gpt 88;
  Some (MkHeader sig size crc my alt first last guid lba num entry array).

(** ** gpt.c *)
Definition MSDOS_MBR_SIGNATURE : Z := 0xaa55.
Definition EFI_PMBR_OSTYPE_EFI_GPT : Z := 0xEE.
(** Some partition record, 16 bytes each from byte 446, has the type 0xEE. *)
Fixpoint pmbr_partition (n : nat) (mbr : list Z) (i : Z) : option bool :=
  match n with
  | O => Some false
  | S n =>
      os_type ← rd8 mbr (446 + 16 * i + 4);
      if os_type =? EFI_PMBR_OSTYPE_EFI_GPT then Some true else pmbr_partition n mbr (i + 1)
  end.
Definition is_pmbr_valid (mbr : list Z) : option bool :=
  sig ← rd16 mbr 510;
  if sig =? MSDOS_MBR_SIGNATURE then pmbr_partition 4 mbr 0 else Some false.

Definition zeros (n : Z) : list Z := replicate (Z.to_nat n) 0.
Definition entries_bytes (gpt : gpt_header) : Z :=
  u32 (num_partition_entries gpt * sizeof_partition_entry gpt).
Section Gpt.
Variable d : Disk.

Definition alloc_read_gpt_entries (gpt : gpt_header) (s : Desc) : option (option (list Z) * Desc) :=
  let count := entries_bytes gpt in
  if count =? 0 then Some (None, s)
  else if negb (malloc_ok d count) then Some (None, s)
  else
  r ← read_lba d (partition_entry_lba gpt) (zeros count) count s;
  let '(rc, pte, s) := r in
  Some (if rc =? 0 then None else Some pte, s).
Definition alloc_read_gpt_header (lba : Z) (s : Desc) : option (option (list Z) * Desc) :=
  if negb (malloc_ok d GPT_BLOCK_SIZE) then Some (None, s)
  else
  r ← read_lba d lba (zeros GPT_BLOCK_SIZE) GPT_BLOCK_SIZE s;
  let '(rc, gpt, s) := r in
  Some (if rc =? 0 then None else Some gpt, s).

(** A header with its entries, when both are valid. *)
Definition is_gpt_valid (lba : Z) (s : Desc) : option (option (gpt_header * list Z) * Desc) :=
  r ← alloc_read_gpt_header lba s;
  let '(raw, s) := r in
  match raw with
  | None => Some (None, s)
  | Some raw =>
      gpt ← header_of raw;
      if negb (signature gpt =? GPT_HEADER_SIGNATURE) then Some (None, s)
      else
      crc ← efi_crc32 (overwrite 16 [0; 0; 0; 0] raw) (header_size gpt);
      if negb (crc =? header_crc32 gpt) then Some (None, s)
      else if negb (my_lba gpt =? lba) then Some (None, s)
      else
      r ← alloc_read_gpt_entries gpt s;
      let '(ptes, s) := r in
      match ptes with
      | None => Some (None, s)
      | Some ptes =>
          crc ← efi_crc32 ptes (entries_bytes gpt);
          if negb (crc =? partition_entry_array_crc32 gpt) then Some (None, s)
          else Some (Some (gpt, ptes), s)
      end
  end.

(** printf's %0<n>x, and %x without padding. *)
Definition hex_digit (z : Z) : ascii :=
  default "0"%char (String.get (Z.to_nat z) "0123456789abcdef").
Fixpoint hex_fixed (n : nat) (z : Z) : string :=
  match n with
  | O => ""
  | S n => String (hex_digit (Z.land (Z.shiftr z (4 * Z.of_nat n)) 15)) (hex_fixed n z)
  end.
Fixpoint strip_zeros (s : string) : string :=
  match s with
  | String "0" (String _ _ as rest) => strip_zeros rest
  | _ => s
  end.
Definition hex (z : Z) : string := strip_zeros (hex_fixed 16 z).
Definition mismatch_line (what : string) (a b : Z) : list string :=
  [what; ("GPT:0x" ++ hex a ++ " != 0x" ++ hex b)%string].
Definition compare_gpts (pgpt agpt : option gpt_header) (lastlba : Z) : list string :=
  match pgpt, agpt with
  | Some p, Some a =>
      let lines :=
        (if my_lba p =? alternate_lba a then []
         else mismatch_line "GPT:Primary header LBA != Alt. header alternate_lba" (my_lba p) (alternate_lba a)) ++
        (if alternate_lba p =? my_lba a then []
         else mismatch_line "GPT:Primary header alternate_lba != Alt. header my_lba" (alternate_lba p) (my_lba a)) ++
        (if first_usable_lba p =? first_usable_lba a then []
         else mismatch_line "GPT:first_usable_lbas don't match." (first_usable_lba p) (first_usable_lba a)) ++
        (if last_usable_lba p =? last_usable_lba a then []
         else mismatch_line "GPT:last_usable_lbas don't match." (last_usable_lba p) (last_usable_lba a)) ++
        (if bool_decide (disk_guid p = disk_guid a) then [] else ["GPT:disk_guids don't match."]) ++
        (if num_partition_entries p =? num_partition_entries a then []
         else [("GPT:num_partition_entries don't match: 0x" ++ hex (num_partition_entries p) ++
                " != 0x" ++ hex (num_partition_entries a))%string]) ++
        (if sizeof_partition_entry p =? sizeof_partition_entry a then []
         else [("GPT:sizeof_partition_entry values don't match: 0x" ++ hex (sizeof_partition_entry p) ++
                " != 0x" ++ hex (sizeof_partition_entry a))%string]) ++
        (if partition_entry_array_crc32 p =? partition_entry_array_crc32 a then []
         else [("GPT:partition_entry_array_crc32 values don't match: 0x" ++
                hex (partition_entry_array_crc32 p) ++ " != 0x" ++ hex (partition_entry_array_crc32 a))%string]) ++
        (if alternate_lba p =? lastlba then []
         else mismatch_line "GPT:Primary header thinks Alt. header is not at the end of the disk."
                (alternate_lba p) lastlba) ++
        (if my_lba a =? lastlba then []
         else mismatch_line "GPT:Alternate GPT header not at the end of the disk." (my_lba a) lastlba) in
      if bool_decide (lines = []) then []
      else lines ++ ["GPT: Use GNU Parted to correct GPT errors."]
  | _, _ => []
  end.

(** The table chosen, and what is printed on stderr. *)
Definition find_valid_gpt (s : Desc) : option (option (gpt_header * list Z) * list string * Desc) :=
  let lastlba := last_lba d in
  p ← is_gpt_valid GPT_PRIMARY_PARTITION_TABLE_LBA s;
  let '(pgpt, s) := p in
  a ← match pgpt with
      | Some (gpt, _) =>
          a ← is_gpt_valid (alternate_lba gpt) s;
          match a with
          | (None, s) => is_gpt_valid lastlba s
          | _ => Some a
          end
      | None => is_gpt_valid lastlba s
      end;
  let '(agpt, s) := a in
  match pgpt, agpt with
  | None, None => Some (None, [], s)
  | _, _ =>
      m ← if malloc_ok d 512 then
            r ← read_lba d 0 (zeros 512) 512 s;
            let '(_, mbr, s) := r in
            good ← is_pmbr_valid mbr; Some (good, s)
          else Some (false, s);
      let '(good_pmbr, s) := m in
      if negb good_pmbr then
        Some (None, ["  Warning: Disk has a valid GPT signature but invalid PMBR.";
                     "  Assuming this disk is *not* a GPT disk anymore.";
                     "  Use gpt kernel option to override.  Use GNU Parted to correct disk."], s)
      else
      let printed := compare_gpts (fst <$> pgpt) (fst <$> agpt) lastlba in
      match pgpt, agpt with
      | Some t, Some _ => Some (Some t, printed, s)
      | Some t, None => Some (Some t, printed ++ ["Alternate GPT is invalid, using primary GPT."], s)
      | None, _ => Some (agpt, printed ++ ["Primary GPT is invalid, using alternate GPT."], s)
      end
  end.

(** The 16 bytes at [guid] of the buffer, as 32 hexadecimal digits. *)
Definition guid_to_ascii (buf : list Z) (guid : Z) : option string :=
  p1 ← rd32 buf guid; p2 ← rd16 buf (guid + 4); p3 ← rd16 buf (guid + 6);
  p4 ← bytes_at buf (guid + 8) 8;
  Some (hex_fixed 8 p1 ++ hex_fixed 4 p2 ++ hex_fixed 4 p3 ++
        foldr (fun b s => hex_fixed 2 b ++ s) "" p4)%string.
(** The return code with the two texts on success. *)
Definition gpt_disk_get_partition_info (num : Z) (s : Desc) : option (Z * option (string * string)) :=
  r ← find_valid_gpt s;
  match r.1.1 with
  | None => Some (1, None)
  | Some (gpt, ptes) =>
      if (0 <? num) && (num <=? num_partition_entries gpt) then
        let p := (num - 1) * sizeof_gpt_entry in
        type ← guid_to_ascii ptes p;
        part ← guid_to_ascii ptes (p + 16);
        Some (0, Some (type, part))
      else Some (1, None)
  end.
End Gpt.

(** ** The checksum is the CRC-32 of its polynomial

    Reference: one bit at a time, feeding back 0xedb88320. *)
Definition crc_bit (x : Z) : Z :=
  Z.lxor (Z.shiftr x 1) (if Z.odd x then 0xedb88320 else 0).
Definition crc_byte (crc b : Z) : Z := Nat.iter 8 crc_bit (Z.lxor crc b).
Definition crc32_reference (bs : list Z) (seed : Z) : Z := fold_left crc_byte bs seed.

Lemma odd_lxor x y : Z.odd (Z.lxor x y) = xorb (Z.odd x) (Z.odd y).
Proof. by rewrite <- !Z.bit0_odd, Z.lxor_spec. Qed.
Lemma crc_bit_lxor x y : crc_bit (Z.lxor x y) = Z.lxor (crc_bit x) (crc_bit y).
Proof.
  unfold crc_bit. rewrite odd_lxor, Z.shiftr_lxor. apply Z.bits_inj'. intros n Hn.
  rewrite !Z.lxor_spec. destruct (Z.odd x), (Z.odd y); simpl;
    rewrite ?Z.bits_0; destruct (Z.testbit (Z.shiftr x 1) n), (Z.testbit (Z.shiftr y 1) n),
      (Z.testbit 0xedb88320 n); done.
Qed.
Lemma crc_iter_lxor k x y :
  Nat.iter k crc_bit (Z.lxor x y) = Z.lxor (Nat.iter k crc_bit x) (Nat.iter k crc_bit y).
Proof. induction k as [|k IH]; simpl; [done|]. by rewrite IH, crc_bit_lxor. Qed.
Lemma crc_bit_shiftl x : crc_bit (Z.shiftl x 1) = x.
Proof.
  unfold crc_bit. rewrite <- Z.bit0_odd, Z.shiftl_spec_low by lia.
  rewrite Z.shiftr_shiftl_l by lia. simpl. by rewrite Z.lxor_0_r.
Qed.
Lemma crc_iter_shiftl k x : Nat.iter k crc_bit (Z.shiftl x (Z.of_nat k)) = x.
Proof.
  induction k as [|k IH]; [apply Z.shiftl_0_r|].
  rewrite Nat.iter_succ_r, Nat2Z.inj_succ, <- Z.add_1_r, <- Z.shiftl_shiftl, crc_bit_shiftl by lia.
  apply IH.
Qed.
Lemma low_high x : x = Z.lxor (Z.shiftl (Z.shiftr x 8) 8) (Z.land x 0xff).
Proof.
  apply Z.bits_inj'. intros n Hn. rewrite Z.lxor_spec, Z.land_spec.
  change 0xff with (Z.ones 8). rewrite Z.testbit_ones_nonneg by lia.
  destruct (Z.ltb_spec n 8).
  - rewrite Z.shiftl_spec_low by lia. by rewrite andb_true_r, xorb_false_l.
  - rewrite Z.shiftl_spec, Z.shiftr_spec by lia. rewrite andb_false_r, xorb_false_r. f_equal. lia.
Qed.
(** The table holds the feedback of every byte. *)
Lemma crc32_tab_spec i : 0 <= i < 256 -> nth (Z.to_nat i) crc32_tab 0 = Nat.iter 8 crc_bit i.
Proof.
  intros Hi. assert (H : forallb (fun k => nth k crc32_tab 0 =? Nat.iter 8 crc_bit (Z.of_nat k)) (seq 0 256) = true)
    by (vm_compute; reflexivity).
  rewrite forallb_forall in H. specialize (H (Z.to_nat i)). rewrite in_seq in H.
  specialize (H ltac:(lia)). apply Z.eqb_eq in H. rewrite H. f_equal. lia.
Qed.
Lemma land_byte x : 0 <= Z.land x 0xff < 256.
Proof. change 0xff with (Z.ones 8). rewrite Z.land_ones by lia. apply Z.mod_pos_bound. lia. Qed.
Lemma shiftr_byte b : is_byte b -> Z.shiftr b 8 = 0.
Proof. intros Hb. unfold is_byte in Hb. rewrite Z.shiftr_div_pow2 by lia. apply Z.div_small. lia. Qed.
Lemma crc_byte_unfold crc b : crc_byte crc b = Nat.iter 8 crc_bit (Z.lxor crc b).
Proof. done. Qed.
Lemma crc_bit_unfold x : crc_bit x = Z.lxor (Z.shiftr x 1) (if Z.odd x then 0xedb88320 else 0).
Proof. done. Qed.
Lemma crc_round_unfold crc s : crc_round crc s =
  Z.lxor (nth (Z.to_nat (Z.land (Z.lxor crc s) 0xff)) crc32_tab 0) (Z.shiftr crc 8).
Proof. done. Qed.
#[local] Opaque crc_byte crc_bit crc_round.
Lemma crc_round_byte crc b : is_byte b -> crc_round crc b = crc_byte crc b.
Proof.
  intros Hb. rewrite crc_byte_unfold. rewrite crc_round_unfold, crc32_tab_spec by apply land_byte.
  rewrite (low_high (Z.lxor crc b)) at 2.
  rewrite crc_iter_lxor, (crc_iter_shiftl 8), Z.shiftr_lxor, (shiftr_byte b), Z.lxor_0_r by done.
  apply Z.lxor_comm.
Qed.
Lemma fold_left_cons {A B} (f : A -> B -> A) b bs a : fold_left f (b :: bs) a = fold_left f bs (f a b).
Proof. done. Qed.
Lemma crc32_reference_cons b bs crc : crc32_reference (b :: bs) crc = crc32_reference bs (crc_byte crc b).
Proof. exact (fold_left_cons crc_byte b bs crc). Qed.
Lemma crc_fold_byte bs : bytes_ok bs -> forall crc, fold_left crc_round bs crc = crc32_reference bs crc.
Proof.
  induction 1 as [|b bs Hb _ IH]; intros crc; [done|].
  by rewrite crc32_reference_cons, fold_left_cons, crc_round_byte, IH.
Qed.

(** The table-driven checksum of a GPT equals the bit-by-bit CRC-32 of
    its polynomial, for every buffer and seed. *)
Theorem gptcrc32_reference buf seed :
  bytes_ok buf -> gptcrc32 buf seed = crc32_reference buf (u32 seed).
Proof. intros Hb. by apply crc_fold_byte. Qed.
Lemma gptcrc32_reference_witness : gptcrc32 [49; 50; 51] 0 = crc32_reference [49; 50; 51] 0.
Proof. apply (gptcrc32_reference [49; 50; 51] 0). repeat constructor; lia. Defined.

(** ** What the checksum detects *)
Lemma lxor_u32 x y : is_u32 x -> is_u32 y -> is_u32 (Z.lxor x y).
Proof.
  unfold is_u32. intros Hx Hy. split; [apply Z.lxor_nonneg; lia|].
  destruct (Z.eq_dec (Z.lxor x y) 0) as [->|Hne]; [lia|].
  apply Z.log2_lt_pow2; [assert (0 <= Z.lxor x y) by (apply Z.lxor_nonneg; lia); lia|].
  eapply Z.le_lt_trans; [apply Z.log2_lxor; lia|].
  apply Z.max_lub_lt; (destruct (Z.eq_dec x 0) as [->|], (Z.eq_dec y 0) as [->|]; simpl; try lia;
    apply Z.log2_lt_pow2; lia).
Qed.
Lemma u32_testbit_high x n : is_u32 x -> 32 <= n -> Z.testbit x n = false.
Proof. intros Hx Hn. rewrite <- (u32_id x Hx). unfold u32. apply Z.mod_pow2_bits_high. lia. Qed.
Lemma crc_bit_u32 x : is_u32 x -> is_u32 (crc_bit x).
Proof.
  intros Hx. rewrite crc_bit_unfold. apply lxor_u32; unfold is_u32 in *.
  - rewrite Z.shiftr_div_pow2 by lia. split; [apply Z.div_pos; lia|apply Z.div_lt_upper_bound; lia].
  - destruct (Z.odd x); lia.
Qed.
(** Nothing but zero is fed back to zero, so the bit step loses nothing. *)
Lemma crc_bit_zero x : is_u32 x -> crc_bit x = 0 -> x = 0.
Proof.
  unfold is_u32. intros Hx E. rewrite crc_bit_unfold in E. apply Z.lxor_eq in E.
  rewrite Z.shiftr_div_pow2 in E by lia. change (2 ^ 1) with 2 in E.
  pose proof (Z.div_mod x 2 ltac:(lia)). pose proof (Zmod_odd x) as Hodd.
  destruct (Z.odd x); lia.
Qed.
Lemma crc_iter_u32 k x : is_u32 x -> is_u32 (Nat.iter k crc_bit x).
Proof. intros Hx. induction k as [|k IH]; simpl; [done|]. by apply crc_bit_u32. Qed.
Lemma crc_iter_zero k x : is_u32 x -> Nat.iter k crc_bit x = 0 -> x = 0.
Proof.
  intros Hx. induction k as [|k IH]; simpl; [done|]. intros E. apply IH, crc_bit_zero; [|done].
  by apply crc_iter_u32.
Qed.
Lemma byte_u32 b : is_byte b -> is_u32 b.
Proof. unfold is_byte, is_u32. lia. Qed.
Lemma crc_byte_u32 crc b : is_u32 crc -> is_byte b -> is_u32 (crc_byte crc b).
Proof.
  intros. rewrite crc_byte_unfold. apply crc_iter_u32, lxor_u32; [done|]. by apply byte_u32.
Qed.
Lemma crc_byte_inj c1 c2 b1 b2 : is_u32 c1 -> is_u32 c2 -> is_byte b1 -> is_byte b2 ->
  crc_byte c1 b1 = crc_byte c2 b2 -> Z.lxor c1 b1 = Z.lxor c2 b2.
Proof.
  intros H1 H2 Hb1%byte_u32 Hb2%byte_u32 E. apply Z.lxor_eq.
  apply (crc_iter_zero 8); [by repeat apply lxor_u32|].
  rewrite crc_iter_lxor, <- !crc_byte_unfold, E. apply Z.lxor_nilpotent.
Qed.
Lemma crc32_reference_inj bs : bytes_ok bs -> forall c1 c2, is_u32 c1 -> is_u32 c2 ->
  crc32_reference bs c1 = crc32_reference bs c2 -> c1 = c2.
Proof.
  induction 1 as [|b bs Hb _ IH]; intros c1 c2 H1 H2 E; [done|].
  rewrite !crc32_reference_cons in E.
  apply IH, crc_byte_inj in E; try done; try by apply crc_byte_u32.
  apply (f_equal (fun z => Z.lxor z b)) in E.
  by rewrite !Z.lxor_assoc, Z.lxor_nilpotent, !Z.lxor_0_r in E.
Qed.
Lemma crc32_reference_u32 bs : bytes_ok bs -> forall c, is_u32 c -> is_u32 (crc32_reference bs c).
Proof.
  induction 1 as [|b bs Hb _ IH]; intros c Hc; [done|].
  rewrite crc32_reference_cons. by apply IH, crc_byte_u32.
Qed.
Lemma crc32_reference_app a b c : crc32_reference (a ++ b) c = crc32_reference b (crc32_reference a c).
Proof. apply fold_left_app. Qed.
Lemma crc32_one_byte pre post x y c : bytes_ok pre -> bytes_ok post -> is_byte x -> is_byte y ->
  is_u32 c -> crc32_reference (pre ++ x :: post) c = crc32_reference (pre ++ y :: post) c -> x = y.
Proof.
  intros Hpre Hpost Hx Hy Hc. rewrite !crc32_reference_app, !crc32_reference_cons.
  assert (is_u32 (crc32_reference pre c)) by by apply crc32_reference_u32.
  intros E%crc32_reference_inj; [|done|by apply crc_byte_u32..].
  apply crc_byte_inj in E; [|done..].
  apply (f_equal (Z.lxor (crc32_reference pre c))) in E.
  by rewrite <- !Z.lxor_assoc, Z.lxor_nilpotent, !Z.lxor_0_l in E.
Qed.
Lemma efi_crc32_Some buf len : 0 <= len <= blen buf -> bytes_ok buf -> exists crc,
  efi_crc32 buf len = Some crc /\ is_u32 crc /\
  crc = Z.lxor (crc32_reference (take (Z.to_nat len) buf) UINT32_MAX) UINT32_MAX.
Proof.
  intros Hl Hb. unfold efi_crc32. destruct (Z.ltb_spec (blen buf) len); [lia|].
  eexists. split; [done|]. split; [apply u32_range|].
  unfold gptcrc32. rewrite crc_fold_byte by by apply Forall_take.
  change (u32 (2 ^ 64 - 1)) with UINT32_MAX.
  set (c := crc32_reference _ _). assert (Hc : is_u32 c)
    by (apply crc32_reference_u32; [by apply Forall_take|unfold_width; lia]).
  unfold u32. rewrite <- !Z.land_ones by lia. apply Z.bits_inj'. intros n Hn.
  rewrite Z.land_spec, !Z.lxor_spec. change (2 ^ 64 - 1) with (Z.ones 64).
  change UINT32_MAX with (Z.ones 32). rewrite !Z.testbit_ones_nonneg by lia.
  destruct (Z.ltb_spec n 32), (Z.ltb_spec n 64); try lia; rewrite ?andb_true_r, ?andb_false_r; try done;
    by rewrite xorb_false_r, u32_testbit_high by (done || lia).
Qed.

(** ** Reading sectors

    What a buffer of [n] zeroes holds after [read_lba] of [lba]. *)
Inductive Loaded (d : Disk) (lba n : Z) : list Z -> Prop :=
  | loaded_unaligned : n mod get_sector_size d ≠ 0 -> Loaded d lba n (zeros n)
  | loaded_read off k :
      (0 <= lba * get_sector_size d <= blen (disk_bytes d) -> off = lba * get_sector_size d) ->
      k <= n -> Loaded d lba n (overwrite 0 (slice off k (disk_bytes d)) (zeros n))
  | loaded_last contents :
      blkgetlastsect d = Some contents -> lba = last_lba d ->
      Loaded d lba n (overwrite 0 (take (Z.to_nat n) contents) (zeros n)).
(** Bytes are bytes, and positions on the disk are an off_t. *)
Definition disk_ok (d : Disk) : Prop :=
  bytes_ok (disk_bytes d) /\ blen (disk_bytes d) < 2 ^ 63 /\
  forall contents, blkgetlastsect d = Some contents -> bytes_ok contents.

Lemma to_off_t_id z : 0 <= z < 2 ^ 63 -> to_off_t (u64 z) = z.
Proof. intros Hz. unwrap. unfold to_off_t. rewrite Z.mod_small; lia. Qed.
Lemma blen_zeros n : 0 <= n -> blen (zeros n) = n.
Proof. intros. unfold blen, zeros. rewrite length_replicate. lia. Qed.
Lemma zeros_ok n : bytes_ok (zeros n).
Proof. apply Forall_replicate. unfold is_byte. lia. Qed.
Lemma read_Some d bytes s got s' : read d bytes s = (Some got, s') ->
  exists k, k <= bytes /\ got = slice (pos s) k (disk_bytes d).
Proof.
  unfold read. destruct (reads s) as [|[| |n|n] rest]; intros E; simplify_eq; eexists; (split; [|done]); lia.
Qed.
Lemma lseek_pos d offset s : 0 <= offset <= blen (disk_bytes d) -> pos (lseek d offset s) = offset.
Proof.
  intros. unfold lseek. destruct (Z.ltb_spec offset 0); [lia|].
  destruct (Z.ltb_spec (blen (disk_bytes d)) offset); [lia|done].
Qed.
Lemma overwrite_nil_zeros n : overwrite 0 [] (zeros n) = zeros n.
Proof. apply overwrite_nil. Qed.
Lemma read_lba_loaded d lba n s rc buf s' : disk_ok d -> 0 <= n ->
  read_lba d lba (zeros n) n s = Some (rc, buf, s') -> Loaded d lba n buf.
Proof.
  intros (_ & Hlen & _) Hn. unfold read_lba. destruct (Z.eqb_spec (n mod get_sector_size d) 0); simpl.
  2:{ intros [= <- <- <-]. by apply loaded_unaligned. }
  destruct (malloc_ok d _); simpl; [|done].
  destruct (read d n _) as [[got|] s1] eqn:Hr; [|done].
  apply read_Some in Hr as (k & Hk & ->).
  destruct (blen (zeros n) <? _); [done|].
  set (off := pos (lseek d _ s)). assert (Hoff : 0 <= lba * get_sector_size d <= blen (disk_bytes d) ->
    off = lba * get_sector_size d).
  { intros Hin. unfold off. rewrite to_off_t_id by lia. by apply lseek_pos. }
  destruct (_ && _) eqn:Hlast; [|intros [= <- <- <-]; by apply loaded_read].
  bool_facts. unfold read_lastoddsector. destruct (blkgetlastsect d) as [contents|] eqn:Hc.
  - intros [= <- <- <-]. replace (slice off k (disk_bytes d)) with (@nil Z).
    + rewrite overwrite_nil. by eapply loaded_last.
    + symmetry. apply length_zero_iff_nil. unfold blen in *. lia.
  - intros [= <- <- <-]. by apply loaded_read.
Qed.
Lemma overwrite_0_ok a b : bytes_ok a -> bytes_ok b -> bytes_ok (overwrite 0 a b).
Proof. intros. rewrite overwrite_all. apply Forall_app. split; [done|]. by apply Forall_drop. Qed.
Lemma blen_overwrite_0 a b : blen a <= blen b -> blen (overwrite 0 a b) = blen b.
Proof. intros. unfold blen in *. rewrite length_overwrite; lia. Qed.
Lemma loaded_ok d lba n buf : disk_ok d -> 0 <= n -> Loaded d lba n buf -> bytes_ok buf /\ blen buf = n.
Proof.
  intros (Hb & _ & Hc) Hn []; [split; [apply zeros_ok|by apply blen_zeros]|..].
  - split; [apply overwrite_0_ok; [by apply slice_ok|apply zeros_ok]|].
    pose proof (slice_length off k (disk_bytes d)). rewrite blen_overwrite_0, blen_zeros;
      try rewrite blen_zeros; unfold blen; lia.
  - split; [apply overwrite_0_ok; [apply Forall_take; by apply Hc|apply zeros_ok]|].
    rewrite blen_overwrite_0, blen_zeros; try rewrite blen_zeros; unfold blen; rewrite ?length_take; lia.
Qed.
Lemma read_lba_ok d lba n s rc buf s' : disk_ok d -> 0 <= n ->
  read_lba d lba (zeros n) n s = Some (rc, buf, s') -> bytes_ok buf /\ blen buf = n.
Proof. intros. eapply loaded_ok; [done..|]. by eapply read_lba_loaded. Qed.

(** ** Which table is accepted *)
Definition crc_of (bs : list Z) : Z := Z.lxor (crc32_reference bs UINT32_MAX) UINT32_MAX.
Definition sealed_header (raw : list Z) (gpt : gpt_header) : Prop :=
  header_of raw = Some gpt /\ signature gpt = GPT_HEADER_SIGNATURE /\ header_size gpt <= 512 /\
  header_crc32 gpt = crc_of (take (Z.to_nat (header_size gpt)) (overwrite 16 [0; 0; 0; 0] raw)).
Definition accepted (d : Disk) (lba : Z) (gpt : gpt_header) (ptes : list Z) : Prop :=
  (exists raw, Loaded d lba 512 raw /\ sealed_header raw gpt) /\ my_lba gpt = lba /\
  Loaded d (partition_entry_lba gpt) (entries_bytes gpt) ptes /\
  partition_entry_array_crc32 gpt = crc_of ptes.

Lemma alloc_header_loaded d lba s raw s' : disk_ok d ->
  alloc_read_gpt_header d lba s = Some (Some raw, s') -> Loaded d lba 512 raw.
Proof.
  intros Hd. unfold alloc_read_gpt_header. destruct (malloc_ok d _); simpl; [|done].
  destruct (read_lba d lba _ _ s) as [[[rc buf] s1]|] eqn:Hr; simpl; [|done].
  apply read_lba_loaded in Hr; [|done..]. destruct (rc =? 0); [done|]. by intros [= <- <-].
Qed.
Lemma entries_bytes_range gpt : is_u32 (entries_bytes gpt).
Proof. apply u32_range. Qed.
Lemma alloc_entries_loaded d gpt s ptes s' : disk_ok d ->
  alloc_read_gpt_entries d gpt s = Some (Some ptes, s') ->
  Loaded d (partition_entry_lba gpt) (entries_bytes gpt) ptes.
Proof.
  intros Hd. pose proof (entries_bytes_range gpt) as Hn. unfold is_u32 in Hn.
  unfold alloc_read_gpt_entries. destruct (_ =? 0); [done|]. destruct (malloc_ok d _); simpl; [|done].
  destruct (read_lba d _ _ _ s) as [[[rc buf] s1]|] eqn:Hr; simpl; [|done].
  apply read_lba_loaded in Hr; [|done|lia]. destruct (rc =? 0); [done|]. by intros [= <- <-].
Qed.
Lemma efi_crc32_crc_of buf len crc : bytes_ok buf -> 0 <= len -> efi_crc32 buf len = Some crc ->
  len <= blen buf /\ crc = crc_of (take (Z.to_nat len) buf).
Proof.
  intros Hb Hl E. assert (len <= blen buf).
  { unfold efi_crc32 in E. destruct (Z.ltb_spec (blen buf) len); [done|lia]. }
  split; [done|]. destruct (efi_crc32_Some buf len) as (c & E' & _ & ->); [lia|done|].
  rewrite E in E'. by injection E'.
Qed.
(** The reads of the header's fields, in range for their widths. *)
Lemma header_of_Some raw : bytes_ok raw -> 92 <= blen raw -> exists gpt, header_of raw = Some gpt /\
  is_u32 (header_size gpt) /\ is_u32 (header_crc32 gpt) /\ is_u64 (my_lba gpt) /\
  is_u64 (alternate_lba gpt) /\ is_u64 (partition_entry_lba gpt) /\
  is_u32 (num_partition_entries gpt) /\ is_u32 (sizeof_partition_entry gpt).
Proof.
  intros Hb Hl. unfold header_of. do 7 rd_step. rewrite bytes_at_Some by lia. rewrite some_bind.
  do 4 rd_step. eexists. split; [done|]. simpl. unfold_width. lia.
Qed.
Lemma is_gpt_valid_accepted d lba s gpt ptes s' : disk_ok d ->
  is_gpt_valid d lba s = Some (Some (gpt, ptes), s') -> accepted d lba gpt ptes.
Proof.
  intros Hd. unfold is_gpt_valid.
  destruct (alloc_read_gpt_header d lba s) as [[[raw|] s1]|] eqn:Hh; simpl; try done.
  apply alloc_header_loaded in Hh; [|done]. destruct (loaded_ok d lba 512 raw Hd) as [Hok Hlen]; [lia|done|].
  destruct (header_of_Some raw) as (g & Hg & Hsz & _); [done|lia|]. rewrite Hg. simpl.
  destruct (Z.eqb_spec (signature g) GPT_HEADER_SIGNATURE); simpl; [|done].
  destruct (efi_crc32 _ (header_size g)) as [crc|] eqn:Hc; simpl; [|done].
  assert (Hz : bytes_ok (overwrite 16 [0; 0; 0; 0] raw)).
  { apply Forall_app; split; [by apply Forall_take|]. apply Forall_app; split; [|by apply Forall_drop].
    repeat constructor; lia. }
  apply efi_crc32_crc_of in Hc as [Hle ->]; [|done|unfold_width; lia].
  match goal with |- context [?c =? header_crc32 g] => destruct (Z.eqb_spec c (header_crc32 g)) as [Hcrc|] end;
    simpl; [|done].
  destruct (Z.eqb_spec (my_lba g) lba); simpl; [|done].
  destruct (alloc_read_gpt_entries d g s1) as [[[es|] s2]|] eqn:He; simpl; try done.
  apply alloc_entries_loaded in He; [|done]. pose proof (entries_bytes_range g) as Hn. unfold is_u32 in Hn.
  destruct (loaded_ok d (partition_entry_lba g) (entries_bytes g) es Hd) as [Heok Helen]; [lia|done|].
  destruct (efi_crc32 es _) as [crc|] eqn:Hc; simpl; [|done].
  apply efi_crc32_crc_of in Hc as [_ ->]; [|done|lia].
  match goal with |- context [?c =? partition_entry_array_crc32 g] =>
    destruct (Z.eqb_spec c (partition_entry_array_crc32 g)) as [Hacrc|] end; simpl; [|done].
  intros [= <- <- <-]. split.
  - exists raw. split; [done|]. split_and!; [done..| |congruence].
    unfold blen in Hle, Hlen. rewrite length_overwrite in Hle by (simpl; lia). lia.
  - split_and!; [done..|]. rewrite <- Hacrc, <- Helen. unfold blen. by rewrite Nat2Z.id, firstn_all.
Qed.
Lemma pmbr_read d s mbr rc s' : disk_ok d -> read_lba d 0 (zeros 512) 512 s = Some (rc, mbr, s') ->
  Loaded d 0 512 mbr.
Proof. intros Hd. by apply read_lba_loaded. Qed.

(** A partition table is used only when it is sealed: its header comes
    from the block it names, carries the signature and the CRC-32 of its
    own bytes, its entries have the CRC-32 the header states, and the disk
    has a protective MBR. It is the primary one unless that one is invalid,
    and then the one in the last block. *)
Theorem find_valid_gpt_sound d s gpt ptes printed s' : disk_ok d ->
  find_valid_gpt d s = Some (Some (gpt, ptes), printed, s') ->
  (accepted d 1 gpt ptes \/
   (accepted d (last_lba d) gpt ptes /\ exists s1, is_gpt_valid d 1 s = Some (None, s1))) /\
  exists mbr, Loaded d 0 512 mbr /\ is_pmbr_valid mbr = Some true.
Proof.
  intros Hd. unfold find_valid_gpt, GPT_PRIMARY_PARTITION_TABLE_LBA.
  destruct (is_gpt_valid d 1 s) as [[pgpt s1]|] eqn:Hp; simpl; [|done].
  destruct (match pgpt with Some _ => _ | None => _ end) as [[agpt s2]|] eqn:Ha; simpl; [|done].
  assert (Halt : pgpt = None -> is_gpt_valid d (last_lba d) s1 = Some (agpt, s2)) by (by intros ->).
  intros E. assert (Hm : exists good s3,
    (if malloc_ok d 512 then r ← read_lba d 0 (zeros 512) 512 s2;
       let '(_, mbr, s) := r in good ← is_pmbr_valid mbr; Some (good, s) else Some (false, s2)) = Some (good, s3) /\
    good = true).
  { destruct (if malloc_ok d 512 then _ else _) as [[[] s3]|] eqn:Em; simpl in E;
      [by exists true, s3|destruct pgpt, agpt; simplify_eq|destruct pgpt, agpt; simplify_eq]. }
  destruct Hm as (good & s3 & Em & ->). rewrite Em in E. simpl in E. split.
  - destruct pgpt as [[g es]|].
    + left. apply is_gpt_valid_accepted in Hp; [|done]. destruct agpt; simplify_eq; done.
    + right. specialize (Halt eq_refl). destruct agpt as [[g es]|]; [|done].
      apply is_gpt_valid_accepted in Halt; [|done]. simplify_eq. eauto.
  - destruct (malloc_ok d 512); [|done].
    destruct (read_lba d 0 _ _ s2) as [[[rc mbr] s4]|] eqn:Hr; simpl in Em; [|done].
    apply pmbr_read in Hr; [|done]. exists mbr. split; [done|].
    destruct (is_pmbr_valid mbr); simpl in Em; [|done]. by simplify_eq.
Qed.

(** ** A healthy disk

    512-byte sectors, memory to spare, and reads that deliver what there is. *)
Record stable (d : Disk) : Prop := MkStable {
  h_disk : disk_ok d;
  h_sector : get_sector_size d = 512;
  h_malloc n : malloc_ok d n = true;
  h_last : blkgetlastsect d = None }.
(** Moreover, no block that carries the signature claims a header larger than
    the 512 bytes that were read. *)
Record healthy (d : Disk) : Prop := MkHealthy {
  h_stable : stable d;
  h_sizes off gpt :
    header_of (overwrite 0 (slice off 512 (disk_bytes d)) (zeros 512)) = Some gpt ->
    signature gpt = GPT_HEADER_SIGNATURE -> header_size gpt <= 512 }.
(** The table that block 1 of the disk describes. *)
Definition primary_table (data : list Z) (gpt : gpt_header) (ptes : list Z) : Prop :=
  1024 <= blen data /\ sealed_header (slice 512 512 data) gpt /\ my_lba gpt = 1 /\
  0 < entries_bytes gpt /\ entries_bytes gpt mod 512 = 0 /\
  0 <= partition_entry_lba gpt /\ partition_entry_lba gpt * 512 + entries_bytes gpt <= blen data /\
  ptes = slice (partition_entry_lba gpt * 512) (entries_bytes gpt) data /\
  partition_entry_array_crc32 gpt = crc_of ptes.

Lemma overwrite_full a b : blen a = blen b -> overwrite 0 a b = a.
Proof.
  intros H. rewrite overwrite_all, drop_ge, app_nil_r; [done|]. unfold blen in H. lia.
Qed.
Lemma blen_slice_le off k data : 0 <= k -> blen (slice off k data) <= k.
Proof. intros. pose proof (slice_length off k data). unfold blen. lia. Qed.
Lemma read_lba_stable d lba n s : stable d -> reads s = [] -> 0 <= n < 2 ^ 32 ->
  exists rc buf p, read_lba d lba (zeros n) n s = Some (rc, buf, MkDesc p []) /\
    (n mod 512 ≠ 0 -> buf = zeros n) /\
    (n mod 512 = 0 -> exists off, buf = overwrite 0 (slice off n (disk_bytes d)) (zeros n)) /\
    (0 <= lba -> lba * 512 + n <= blen (disk_bytes d) -> 0 < n -> n mod 512 = 0 ->
       rc = n /\ buf = slice (lba * 512) n (disk_bytes d)).
Proof.
  intros [[Hb [Hlen _]] Hs Hm Hl] Hr Hn. unfold read_lba. rewrite Hs, Hm. simpl.
  destruct (Z.eqb_spec (n mod 512) 0) as [E|E]; simpl.
  2:{ exists EINVAL, (zeros n), (pos s). destruct s as [p rs]. simpl in *. subst rs. by split_and!. }
  set (s1 := lseek d _ s). assert (Hr1 : reads s1 = [])
    by (unfold s1, lseek; destruct (_ || _); done).
  unfold read. rewrite Hr1. cbn [fst snd]. rewrite Z.min_id.
  pose proof (blen_slice_le (pos s1) n (disk_bytes d) ltac:(lia)) as Hgl.
  rewrite blen_zeros by lia. destruct (Z.ltb_spec n (blen (slice (pos s1) n (disk_bytes d)))); [lia|].
  unfold read_lastoddsector. rewrite Hl.
  assert (Hexact : 0 <= lba -> lba * 512 + n <= blen (disk_bytes d) -> pos s1 = lba * 512 /\
    blen (slice (pos s1) n (disk_bytes d)) = n).
  { intros H0 H1. assert (Hp : pos s1 = lba * 512)
      by (unfold s1; rewrite to_off_t_id by lia; apply lseek_pos; lia).
    split; [done|]. rewrite Hp. unfold blen in *. apply slice_inside_len; unfold blen; lia. }
  destruct (_ && _) eqn:Hc; eexists _, _, _; (split; [reflexivity|]);
    (split; [done|]); (split; [intros _; by eexists|]); intros H0 H1 H2 _;
    destruct (Hexact H0 H1) as [Hp Hg].
  - bool_facts. lia.
  - split; [done|]. rewrite overwrite_full; [by rewrite Hp|]. rewrite Hg, blen_zeros; lia.
Qed.
Lemma is_gpt_valid_total d lba s : healthy d -> reads s = [] ->
  exists r p, is_gpt_valid d lba s = Some (r, MkDesc p []).
Proof.
  intros Hh Hr. pose proof (h_stable d Hh) as Hst. pose proof (h_disk d Hst) as Hd.
  unfold is_gpt_valid, alloc_read_gpt_header. rewrite (h_malloc d Hst). cbn [negb].
  unfold GPT_BLOCK_SIZE.
  destruct (read_lba_stable d lba 512 s Hst Hr) as (rc & raw & p & E & _ & Hraw & _); [lia|].
  pose proof E as [Hok Hlen]%read_lba_ok; [|done..].
  destruct Hraw as [off ->]; [done|]. rewrite E, some_bind.
  destruct (rc =? 0); rewrite some_bind; [by eauto|].
  destruct (header_of_Some _ Hok) as (g & Hg & Hsz & _); [lia|]. rewrite Hg, some_bind.
  destruct (Z.eqb_spec (signature g) GPT_HEADER_SIGNATURE) as [Hsig|]; cbn [negb]; [|by eauto].
  pose proof (h_sizes d Hh off g Hg Hsig) as Hsize.
  destruct (efi_crc32 _ (header_size g)) as [crc|] eqn:Hc; rewrite ?some_bind.
  2:{ exfalso. unfold efi_crc32 in Hc. destruct (Z.ltb_spec (blen (overwrite 16 [0; 0; 0; 0]
        (overwrite 0 (slice off 512 (disk_bytes d)) (zeros 512)))) (header_size g)) as [Hlt|]; [|done].
      unfold blen in Hlt, Hlen. rewrite length_overwrite in Hlt by (simpl; lia). lia. }
  destruct (crc =? header_crc32 g); cbn [negb]; [|by eauto].
  destruct (my_lba g =? lba); cbn [negb]; [|by eauto].
  unfold alloc_read_gpt_entries. rewrite (h_malloc d Hst). cbn [negb].
  pose proof (entries_bytes_range g) as Hn. unfold is_u32 in Hn.
  destruct (entries_bytes g =? 0); [by eauto|].
  destruct (read_lba_stable d (partition_entry_lba g) (entries_bytes g) (MkDesc p []) Hst eq_refl Hn)
    as (rc2 & es & p2 & E2 & _). pose proof E2 as [Hok2 Hlen2]%read_lba_ok; [|done|lia].
  rewrite E2, !some_bind. destruct (rc2 =? 0); [by eauto|].
  destruct (efi_crc32_Some es (entries_bytes g)) as (c & -> & _); [lia|done|]. rewrite some_bind.
  destruct (_ =? _); by eauto.
Qed.
Lemma is_gpt_valid_primary d s gpt ptes : stable d -> reads s = [] ->
  primary_table (disk_bytes d) gpt ptes ->
  exists p, is_gpt_valid d 1 s = Some (Some (gpt, ptes), MkDesc p []).
Proof.
  intros Hh Hr (Hlen & (Hg & Hsig & Hsz & Hcrc) & Hmy & Hn0 & Hnm & _ & Hin & Hptes & Hacrc).
  pose proof (h_disk d Hh) as Hd. pose proof Hd as (Hb & _ & _).
  assert (Hrok : bytes_ok (slice 512 512 (disk_bytes d))) by by apply slice_ok.
  assert (Hrl : blen (slice 512 512 (disk_bytes d)) = 512) by (unfold blen; apply slice_inside_len; lia).
  destruct (header_of_Some _ Hrok) as (g & Hg' & Hs1 & _ & _ & _ & Hl1 & _); [lia|].
  rewrite Hg in Hg'. injection Hg' as <-. unfold is_u32, is_u64 in *.
  unfold is_gpt_valid, alloc_read_gpt_header, alloc_read_gpt_entries. rewrite !(h_malloc d Hh). cbn [negb].
  unfold GPT_BLOCK_SIZE.
  destruct (read_lba_stable d 1 512 s Hh Hr) as (rc & raw & p & E & _ & _ & Hraw); [lia|].
  destruct Hraw as [-> ->]; [lia..|done|]. rewrite E, some_bind. cbn [Z.eqb].
  rewrite some_bind. change (1 * 512) with 512. rewrite Hg, some_bind, Hsig, Z.eqb_refl. cbn [negb].
  destruct (efi_crc32_Some (overwrite 16 [0; 0; 0; 0] (slice 512 512 (disk_bytes d))) (header_size gpt))
    as (c & -> & _ & Hc).
  { unfold blen in *. rewrite length_overwrite; simpl; lia. }
  { apply Forall_app; split; [by apply Forall_take|]. apply Forall_app; split; [|by apply Forall_drop].
    repeat constructor; lia. }
  rewrite some_bind. fold (crc_of (take (Z.to_nat (header_size gpt))
    (overwrite 16 [0; 0; 0; 0] (slice 512 512 (disk_bytes d))))) in Hc.
  rewrite <- Hcrc in Hc. rewrite Hc, Z.eqb_refl, Hmy. cbn [negb Z.eqb Pos.eqb].
  destruct (Z.eqb_spec (entries_bytes gpt) 0); [lia|].
  pose proof (entries_bytes_range gpt) as Hn. unfold is_u32 in Hn.
  destruct (read_lba_stable d (partition_entry_lba gpt) (entries_bytes gpt) (MkDesc p []) Hh eq_refl Hn)
    as (rc2 & es & p2 & E2 & _ & _ & Hes). destruct Hes as [-> ->]; [lia..|done|].
  pose proof E2 as [Hok2 Hlen2]%read_lba_ok; [|done|lia].
  rewrite <- Hptes in E2, Hok2, Hlen2.
  rewrite E2, !some_bind. destruct (Z.eqb_spec (entries_bytes gpt) 0); [lia|].
  rewrite (h_malloc d Hh). cbn [negb]. rewrite some_bind.
  destruct (efi_crc32_Some ptes (entries_bytes gpt)) as (c2 & -> & _ & Hc2); [lia|done|].
  rewrite some_bind. rewrite <- Hlen2 in Hc2. unfold blen in Hc2. rewrite Nat2Z.id, firstn_all in Hc2.
  fold (crc_of ptes) in Hc2. rewrite <- Hacrc in Hc2. rewrite Hc2, Z.eqb_refl. by exists p2.
Qed.

(** The text of a GUID always has 32 digits: with its terminator it fits the
    80 bytes that Decrypt_Adopted provides. *)
Lemma length_hex_fixed n z : String.length (hex_fixed n z) = n.
Proof. induction n as [|n IH]; simpl; [done|]. by rewrite IH. Qed.
Lemma length_hex_pairs l : String.length (foldr (fun b s => hex_fixed 2 b ++ s)%string "" l) = (2 * length l)%nat.
Proof.
  induction l as [|b l IH]; [done|]. cbn [foldr length].
  rewrite string_length_app, length_hex_fixed, IH. lia.
Qed.
Lemma guid_to_ascii_Some buf guid : bytes_ok buf -> 0 <= guid -> guid + 16 <= blen buf ->
  exists text, guid_to_ascii buf guid = Some text /\ String.length text = 32%nat.
Proof.
  intros Hb H0 H1. unfold guid_to_ascii. do 3 rd_step. rewrite bytes_at_Some by lia. rewrite some_bind.
  eexists. split; [done|]. rewrite !string_length_app, !length_hex_fixed, length_hex_pairs, length_take, length_drop.
  unfold blen in *. lia.
Qed.

(** Reading inside a slice. *)
Lemma rd16_slice off n bs i : 0 <= off -> 0 <= i -> i + 2 <= n -> rd16 (slice off n bs) i = rd16 bs (off + i).
Proof. intros. unfold rd16. by rewrite !rd8_slice, Z.add_assoc by lia. Qed.
Lemma rd32_slice off n bs i : 0 <= off -> 0 <= i -> i + 4 <= n -> rd32 (slice off n bs) i = rd32 bs (off + i).
Proof. intros. unfold rd32. by rewrite !rd16_slice, Z.add_assoc by lia. Qed.
Lemma bytes_at_of_slice off n bs i k : 0 <= off -> 0 <= i -> 0 <= k -> i + k <= n -> off + n <= blen bs ->
  bytes_at (slice off n bs) i k = bytes_at bs (off + i) k.
Proof.
  intros. assert (Hl : blen (slice off n bs) = n) by (apply slice_inside_len; lia).
  rewrite !bytes_at_Some by lia. f_equal. apply (slice_slice off n i k bs); lia.
Qed.
Lemma guid_to_ascii_slice off n bs i : 0 <= off -> 0 <= i -> i + 16 <= n -> off + n <= blen bs ->
  guid_to_ascii (slice off n bs) i = guid_to_ascii bs (off + i).
Proof.
  intros. unfold guid_to_ascii. by rewrite rd32_slice, !rd16_slice, bytes_at_of_slice, !Z.add_assoc by lia.
Qed.

(** On a healthy disk with a valid primary table of 128-byte entries
    and a protective MBR, every partition number of the table yields the
    type and the identity of that entry, read inside the entry array; each
    text is 32 digits long. *)
Theorem gpt_partition_info_exact d s gpt ptes num : healthy d -> reads s = [] ->
  primary_table (disk_bytes d) gpt ptes -> is_pmbr_valid (slice 0 512 (disk_bytes d)) = Some true ->
  sizeof_partition_entry gpt = 128 -> num_partition_entries gpt * 128 < 2 ^ 32 ->
  1 <= num <= num_partition_entries gpt ->
  exists type part, gpt_disk_get_partition_info d num s = Some (0, Some (type, part)) /\
    guid_to_ascii (slice ((num - 1) * 128) 128 ptes) 0 = Some type /\
    guid_to_ascii (slice ((num - 1) * 128) 128 ptes) 16 = Some part /\
    String.length type = 32%nat /\ String.length part = 32%nat.
Proof.
  intros Hh Hr Ht Hm Hsz Hnum Hin. pose proof (h_stable d Hh) as Hst. pose proof (h_disk d Hst) as Hd.
  destruct (is_gpt_valid_primary d s gpt ptes Hst Hr Ht) as [p Ep].
  unfold gpt_disk_get_partition_info, find_valid_gpt, GPT_PRIMARY_PARTITION_TABLE_LBA.
  rewrite Ep, some_bind.
  destruct (is_gpt_valid_total d (alternate_lba gpt) (MkDesc p []) Hh eq_refl) as (r1 & p1 & E1).
  rewrite E1, some_bind.
  assert (exists agpt p2, match r1 with
     | Some _ => Some (r1, MkDesc p1 []) | None => is_gpt_valid d (last_lba d) (MkDesc p1 []) end
     = Some (agpt, MkDesc p2 [])) as (agpt & p2 & E2).
  { destruct r1; [by eauto|]. by apply is_gpt_valid_total. }
  replace (match r1 with Some _ => _ | None => _ end) with (Some (agpt, MkDesc p2 [])) by (by destruct r1).
  rewrite some_bind, (h_malloc d Hst).
  destruct (read_lba_stable d 0 512 (MkDesc p2 []) Hst eq_refl) as (rc & mbr & p3 & E3 & _ & _ & Hmbr); [lia|].
  destruct Hmbr as [-> ->]; [lia| |lia|done|]; [destruct Ht; lia|].
  rewrite E3, some_bind. change (0 * 512) with 0. rewrite Hm, !some_bind. cbn [negb].
  set (x := match agpt with Some _ => _ | None => _ end).
  assert (exists printed, x = Some (Some (gpt, ptes), printed, MkDesc p3 [])) as [printed ->]
    by (unfold x; destruct agpt; by eexists).
  rewrite some_bind. cbn [fst]. destruct (Z.ltb_spec 0 num); [|lia].
  destruct (Z.leb_spec num (num_partition_entries gpt)); [|lia]. cbn [andb].
  destruct Ht as (_ & _ & _ & _ & _ & Hlba & Hbound & -> & _).
  assert (Hn : entries_bytes gpt = num_partition_entries gpt * 128).
  { unfold entries_bytes. rewrite Hsz. unwrap. done. }
  set (ptes := slice _ (entries_bytes gpt) _). assert (Hpl : blen ptes = entries_bytes gpt).
  { pose proof (entries_bytes_range gpt). unfold is_u32 in *. apply slice_inside_len; lia. }
  assert (Hpok : bytes_ok ptes) by (destruct Hd; by apply slice_ok).
  unfold sizeof_gpt_entry. rewrite !guid_to_ascii_slice by lia. rewrite Z.add_0_r.
  destruct (guid_to_ascii_Some ptes ((num - 1) * 128)) as (type & -> & ?); [done|lia..|].
  destruct (guid_to_ascii_Some ptes ((num - 1) * 128 + 16)) as (part & -> & ?); [done|lia..|].
  exists type, part. done.
Qed.

(** ** A disk for concrete runs: MBR, header and four entries in one block *)
Definition le (n : nat) (z : Z) : list Z := (fun i => Z.land (Z.shiftr z (8 * Z.of_nat i)) 0xff) <$> seq 0 n.
Definition demo_entries : list Z := (Z.of_nat <$> seq 1 32) ++ zeros 480.
Definition demo_header (crc size : Z) : list Z :=
  le 8 GPT_HEADER_SIGNATURE ++ le 4 0x10000 ++ le 4 size ++ le 4 crc ++ zeros 4 ++ le 8 1 ++ le 8 3 ++
  le 8 3 ++ le 8 3 ++ zeros 16 ++ le 8 2 ++ le 4 4 ++ le 4 128 ++ le 4 4160201612 ++ zeros 420.
Definition demo_mbr : list Z := zeros 450 ++ [0xee] ++ zeros 59 ++ [0x55; 0xaa].
Definition demo_disk (sector : Z) (header : list Z) : Disk :=
  MkDisk (Some sector) (Some "4.14.0") (Some 2048) None (Some true) None (fun _ => true)
    (demo_mbr ++ header ++ demo_entries ++ zeros 512).
Definition good_disk : Disk := demo_disk 512 (demo_header 2368808301 92).
Definition demo_gpt : gpt_header :=
  MkHeader GPT_HEADER_SIGNATURE 92 2368808301 1 3 3 3 (zeros 16) 2 4 128 4160201612.
Lemma demo_stable h : blen h = 512 -> bytes_ok h -> stable (demo_disk 512 h).
Proof.
  intros Hl Hh. split; [|done..]. split_and!; [| |done].
  - cbn [demo_disk disk_bytes]. repeat (apply Forall_app; split); (done || (apply bytes_ok_check; by vm_compute)).
  - cbn [demo_disk disk_bytes]. unfold blen in *. rewrite !length_app.
    assert (length demo_mbr = 512%nat) by by vm_compute. assert (length demo_entries = 512%nat) by by vm_compute.
    assert (length (zeros 512) = 512%nat) by by vm_compute. lia.
Qed.
Definition size_fine (data : list Z) (k : nat) : bool :=
  match header_of (overwrite 0 (slice (Z.of_nat k) 512 data) (zeros 512)) with
  | Some gpt => negb (signature gpt =? GPT_HEADER_SIGNATURE) || (header_size gpt <=? 512)
  | None => true
  end.
Lemma good_disk_healthy : healthy good_disk.
Proof.
  split; [apply demo_stable; [by vm_compute|apply bytes_ok_check; by vm_compute]|].
  intros off gpt Hg Hsig.
  assert (Hall : forallb (size_fine (disk_bytes good_disk)) (seq 0 2049) = true) by (vm_compute; reflexivity).
  rewrite forallb_forall in Hall. specialize (Hall (Nat.min (Z.to_nat off) 2048)).
  rewrite in_seq in Hall. specialize (Hall ltac:(lia)). unfold size_fine in Hall.
  assert (Heq : slice (Z.of_nat (Nat.min (Z.to_nat off) 2048)) 512 (disk_bytes good_disk) =
                slice off 512 (disk_bytes good_disk)).
  { unfold slice. rewrite Nat2Z.id. destruct (Nat.le_gt_cases (Z.to_nat off) 2048).
    - by rewrite Nat.min_l.
    - assert (length (disk_bytes good_disk) = 2048%nat) by by vm_compute.
      rewrite Nat.min_r, !drop_ge by lia. done. }
  rewrite Heq, Hg, Hsig, Z.eqb_refl in Hall. simpl in Hall. bool_facts. done.
Qed.
Lemma find_valid_gpt_sound_witness : exists ptes,
  accepted good_disk 1 demo_gpt ptes \/
  (accepted good_disk (last_lba good_disk) demo_gpt ptes /\
   exists s1, is_gpt_valid good_disk 1 (MkDesc 0 []) = Some (None, s1)).
Proof.
  eexists. destruct (find_valid_gpt_sound good_disk (MkDesc 0 []) demo_gpt
    demo_entries ["Alternate GPT is invalid, using primary GPT."] (MkDesc 512 [])) as [H _]; [| |exact H].
  - apply h_disk, h_stable, good_disk_healthy.
  - vm_compute. reflexivity.
Defined.
Lemma gpt_partition_info_exact_witness : exists type part,
  gpt_disk_get_partition_info good_disk 1 (MkDesc 0 []) = Some (0, Some (type, part)).
Proof.
  destruct (gpt_partition_info_exact good_disk (MkDesc 0 []) demo_gpt demo_entries 1) as (t & p & H & _);
    [apply good_disk_healthy|done|..|by exists t, p]; try (vm_compute; done).
Defined.

(** ** Deviations *)
Lemma read_lba_unaligned d lba n s : n mod get_sector_size d ≠ 0 ->
  read_lba d lba (zeros n) n s = Some (EINVAL, zeros n, s).
Proof. intros H. unfold read_lba. by destruct (Z.eqb_spec (n mod get_sector_size d) 0). Qed.
Lemma is_gpt_valid_4k d lba s : get_sector_size d = 4096 -> is_gpt_valid d lba s = Some (None, s).
Proof.
  intros Hs. unfold is_gpt_valid, alloc_read_gpt_header, GPT_BLOCK_SIZE.
  destruct (malloc_ok d 512); cbn [negb]; [|done].
  rewrite read_lba_unaligned by by rewrite Hs. rewrite !some_bind. by vm_compute.
Qed.
(** On a disk with 4096-byte sectors no partition table is ever found:
    read_lba refuses the 512 bytes of a header with EINVAL, which its
    callers take for a success. *)
Theorem gpt_unreadable_on_4k_sectors d num s : get_sector_size d = 4096 ->
  gpt_disk_get_partition_info d num s = Some (1, None).
Proof.
  intros Hs. unfold gpt_disk_get_partition_info, find_valid_gpt.
  by rewrite is_gpt_valid_4k, some_bind, is_gpt_valid_4k, some_bind.
Qed.
Lemma gpt_unreadable_on_4k_sectors_witness :
  gpt_disk_get_partition_info (demo_disk 4096 (demo_header 2368808301 92)) 1 (MkDesc 0 []) = Some (1, None).
Proof. apply gpt_unreadable_on_4k_sectors. reflexivity. Defined.

Lemma is_gpt_valid_oversized d s gpt : stable d -> reads s = [] ->
  1024 <= blen (disk_bytes d) -> header_of (slice 512 512 (disk_bytes d)) = Some gpt ->
  signature gpt = GPT_HEADER_SIGNATURE -> 512 < header_size gpt -> is_gpt_valid d 1 s = None.
Proof.
  intros Hst Hr Hlen Hg Hsig Hsz. unfold is_gpt_valid, alloc_read_gpt_header, GPT_BLOCK_SIZE.
  rewrite (h_malloc d Hst). cbn [negb].
  destruct (read_lba_stable d 1 512 s Hst Hr) as (rc & raw & p & E & _ & _ & Hraw); [lia|].
  destruct Hraw as [-> ->]; [lia..|done|]. rewrite E, some_bind. cbn [Z.eqb]. rewrite some_bind.
  change (1 * 512) with 512. rewrite Hg, some_bind, Hsig, Z.eqb_refl. cbn [negb].
  assert (Hl : Z.of_nat (length (slice 512 512 (disk_bytes d))) = 512) by (apply slice_inside_len; lia).
  unfold efi_crc32. destruct (Z.ltb_spec (blen (overwrite 16 [0; 0; 0; 0] (slice 512 512 (disk_bytes d))))
    (header_size gpt)) as [|Hge]; [done|].
  unfold blen in Hge. rewrite length_overwrite in Hge by (simpl; lia). lia.
Qed.
(** A header that carries the signature and claims more than 512 bytes
    makes the checksum read past the end of the 512 bytes allocated for it. *)
Theorem gpt_header_size_unchecked d num s gpt : stable d -> reads s = [] ->
  1024 <= blen (disk_bytes d) -> header_of (slice 512 512 (disk_bytes d)) = Some gpt ->
  signature gpt = GPT_HEADER_SIGNATURE -> 512 < header_size gpt ->
  gpt_disk_get_partition_info d num s = None.
Proof.
  intros. unfold gpt_disk_get_partition_info, find_valid_gpt. by erewrite is_gpt_valid_oversized.
Qed.
Lemma gpt_header_size_unchecked_witness :
  gpt_disk_get_partition_info (demo_disk 512 (demo_header 0 513)) 1 (MkDesc 0 []) = None.
Proof.
  apply (gpt_header_size_unchecked _ _ _ (MkHeader GPT_HEADER_SIGNATURE 513 0 1 3 3 3 (zeros 16) 2 4 128 4160201612));
    [apply demo_stable; [by vm_compute|apply bytes_ok_check; by vm_compute]|vm_compute; done..].
Defined.
