(* ===== verification/PayloadExtract.v ===== *)
(** aeraui/features/update/payload_extract.cpp: which images of a payload can
    be rebuilt without a source image, and rebuilding the selected ones into
    new files of a directory, or handing the checked package to a writer.

    ziparchive, protobuf, SHA-256 and the decoders are other projects' code.
    The kernel is that of [Kernel]; the extraction directory maps names to
    the files behind descriptors. Progress and timing output are not
    modelled. *)
From stdpp Require Import base list strings gmap sorting.
From Stdlib Require Import ZArith Lia Ascii.
From S2P Require Import Prelude CxxString Kernel RawDevice Abl PayloadTargets PayloadArb BlockMap.

(** ** ExtractionError *)
Definition kOperationLimit : Z := 64 * 1024 * 1024.
Definition SHA256_DIGEST_LENGTH : Z := 32.
Definition valid_name (nm : string) : bool :=
  negb (String.eqb nm "" || (128 <? String.length nm)%nat || negb (all_chars is_alnum_dash nm)).
(** The operations that need no source image. *)
Definition full_type (type : Z) : bool :=
  (type =? 0) || (type =? 1) || (type =? 6) || (type =? 7) || (type =? 8) || (type =? 14).
Definition zero_type (type : Z) : bool := (type =? 6) || (type =? 7).

(** The order of std::pair, and std::sort. *)
Definition pair_le (a b : Z * Z) : Prop := a.1 < b.1 \/ (a.1 = b.1 /\ a.2 <= b.2).
#[global] Instance pair_le_dec : RelDecision pair_le.
Proof. intros a b. unfold pair_le. apply _. Defined.
Definition sort_ranges : list (Z * Z) -> list (Z * Z) := merge_sort pair_le.

(** One operation's extents: the message, or its bytes and the ranges so far. *)
Fixpoint check_extents (es : list Extent) (size block bytes : Z) (ranges : list (Z * Z))
    : string + Z * list (Z * Z) :=
  match es with
  | [] => inr (bytes, ranges)
  | e :: es =>
      if (num_blocks e =? 0) || (size / block <=? start_block e) ||
         (u64 (size / block - start_block e) <? num_blocks e)
      then inl "Invalid destination extent"%string
      else
      let length := u64 (num_blocks e * block) in
      if u64 (size - bytes) <? length then inl "Operation size overflow"%string
      else
      let ranges := ranges ++ [(u64 (start_block e * block),
                                u64 (u64 (start_block e + num_blocks e) * block))] in
      if 1000000 <? Z.of_nat (List.length ranges) then inl "Too many image extents"%string
      else check_extents es size block (u64 (bytes + length)) ranges
  end.
Fixpoint check_operations (ops : list Operation) (size block data_size : Z) (ranges : list (Z * Z))
    : string + list (Z * Z) :=
  match ops with
  | [] => inr ranges
  | op :: ops =>
      let type := op_type op in
      if negb (full_type type) || negb (src_extents_size op =? 0) || has_src_sha256_hash op
      then inl "Requires an incremental update operation"%string
      else match check_extents (dst_extents op) size block 0 ranges with
      | inl e => inl e
      | inr (bytes, ranges) =>
          if bytes =? 0 then inl "Empty destination operation"%string
          else if zero_type type then
            if negb (data_length op =? 0) then inl "Unexpected data in a zero operation"%string
            else check_operations ops size block data_size ranges
          else if (kOperationLimit <? bytes) || (data_length op =? 0) || (kOperationLimit <? data_length op)
          then inl "Operation exceeds the bounded extraction buffer"%string
          else if (data_size <? data_offset op) || (u64 (data_size - data_offset op) <? data_length op)
          then inl "Operation data is outside the payload"%string
          else if negb (blen (default [] (data_sha256_hash op)) =? SHA256_DIGEST_LENGTH)
          then inl "Missing operation SHA-256"%string
          else check_operations ops size block data_size ranges
      end
  end.
(** The scan over the sorted ranges: where they end. *)
Fixpoint contiguous (ranges : list (Z * Z)) (end_ : Z) : option Z :=
  match ranges with
  | [] => Some end_
  | r :: ranges => if negb (r.1 =? end_) then None else contiguous ranges r.2
  end.
Definition ExtractionError (p : PartitionUpdate) (block data_size : Z) : string :=
  if negb (valid_name (partition_name p)) then "Invalid partition name"
  else if (block =? 0) || (1024 * 1024 <? block) || negb (Z.land block (block - 1) =? 0)
  then "Unsupported block size"
  else if has_old_partition_info p then "Requires an existing source image"
  else
  let size := new_size p in
  if (size =? 0) || (INT64_MAX <? size) || negb (size mod block =? 0) ||
     negb (blen (new_hash p) =? SHA256_DIGEST_LENGTH)
  then "Missing or unsupported image size / SHA-256"
  else match check_operations (operations p) size block data_size [] with
  | inl e => e
  | inr ranges =>
      match contiguous (sort_ranges ranges) 0 with
      | None => "Image has overlapping or incomplete extents"
      | Some end_ => if negb (end_ =? size) then "Image requires additional generated data" else ""
      end
  end.

(** ** What an accepted partition looks like *)
Definition op_extents (p : PartitionUpdate) : list Extent := concat (dst_extents <$> operations p).
Definition extent_in (blocks : Z) (e : Extent) : Prop :=
  0 <= start_block e /\ 0 < num_blocks e /\ start_block e + num_blocks e <= blocks.
Definition blocks_of (es : list Extent) : Z := foldr (fun e n => num_blocks e + n) 0 es.
Definition op_blocks (op : Operation) : Z := blocks_of (dst_extents op).
(** One operation on its own. *)
Definition op_fits (blocks block data_size : Z) (op : Operation) : Prop :=
  full_type (op_type op) = true /\ src_extents_size op = 0 /\ has_src_sha256_hash op = false /\
  Forall (extent_in blocks) (dst_extents op) /\ 0 < op_blocks op <= blocks /\
  if zero_type (op_type op) then data_length op = 0
  else op_blocks op * block <= kOperationLimit /\ 0 < data_length op <= kOperationLimit /\
       data_offset op + data_length op <= data_size /\
       exists h, data_sha256_hash op = Some h /\ blen h = 32.
(** The extents, in some order, follow one another from block 0 to the end. *)
Fixpoint chain (from : Z) (es : list Extent) (to : Z) : Prop :=
  match es with
  | [] => from = to
  | e :: es => start_block e = from /\ chain (from + num_blocks e) es to
  end.
(** An unsigned integer stays one: the fields of the protobuf message. *)
Definition fields_ok (p : PartitionUpdate) : Prop :=
  is_u64 (new_size p) /\
  Forall (fun op => is_u64 (data_offset op) /\ is_u64 (data_length op) /\
    Forall (fun e => is_u64 (start_block e) /\ is_u64 (num_blocks e)) (dst_extents op)) (operations p).

(** ** Arithmetic of the checks *)
Lemma pow2_of_land n : 0 < n -> Z.land n (n - 1) = 0 -> n = 2 ^ Z.log2 n.
Proof.
  intros Hn Hl. pose proof (Z.log2_spec n Hn) as [Hlo Hhi]. pose proof (Z.log2_nonneg n).
  destruct (Z.eq_dec n (2 ^ Z.log2 n)); [done|]. exfalso.
  assert (Z.log2 (n - 1) = Z.log2 n) as Hlog by (apply Z.log2_unique; lia).
  assert (Z.testbit (Z.land n (n - 1)) (Z.log2 n) = true) as Hb.
  { rewrite Z.land_spec, Z.bit_log2 by done. rewrite <- Hlog, Z.bit_log2; [done|lia]. }
  by rewrite Hl, Z.bits_0 in Hb.
Qed.
Lemma land_of_pow2 k : 0 <= k -> Z.land (2 ^ k) (2 ^ k - 1) = 0.
Proof.
  intros Hk. rewrite Z.sub_1_r, <- Z.ones_equiv, Z.land_ones by done.
  apply Z.mod_same. lia.
Qed.
Definition to_range (block : Z) (e : Extent) : Z * Z :=
  (start_block e * block, (start_block e + num_blocks e) * block).
Lemma blocks_of_cons e es : blocks_of (e :: es) = num_blocks e + blocks_of es.
Proof. done. Qed.
Lemma blocks_of_nonneg blocks es : Forall (extent_in blocks) es -> 0 <= blocks_of es.
Proof. induction 1 as [|e es He _ IH]; simpl; [lia|]. unfold extent_in in He. lia. Qed.

(** Split the condition evaluated first on the left of an equivalence. *)
Ltac head_if E := match goal with
  | |- (if ?c then _ else _) = _ <-> _ => destruct c eqn:E
  end.

Section Checks.
Context (block size data_size : Z) (Hblock : 0 < block <= 1024 * 1024).
Context (Hsize : 0 < size <= INT64_MAX) (Hmod : size mod block = 0) (Hdata : is_u64 data_size).
Let blocks := size / block.

Lemma size_blocks : size = blocks * block.
Proof. pose proof (Z.div_mod size block ltac:(lia)). unfold blocks. lia. Qed.
Lemma blocks_pos : 0 < blocks.
Proof. pose proof size_blocks. destruct (Z.le_gt_cases blocks 0); [nia|done]. Qed.
(** The arithmetic of one extent does not wrap. *)
Lemma extent_arith e n : extent_in blocks e -> 0 <= n <= blocks ->
  u64 (num_blocks e * block) = num_blocks e * block /\ u64 (size - n * block) = (blocks - n) * block /\
  u64 (start_block e * block) = start_block e * block /\
  u64 (u64 (start_block e + num_blocks e) * block) = (start_block e + num_blocks e) * block.
Proof.
  intros (H1 & H2 & H3) Hn. pose proof size_blocks as Hs. unfold_width.
  assert (num_blocks e * block <= size) by (rewrite Hs; apply Z.mul_le_mono_nonneg_r; lia).
  assert (start_block e * block <= size) by (rewrite Hs; apply Z.mul_le_mono_nonneg_r; lia).
  assert ((start_block e + num_blocks e) * block <= size) by (rewrite Hs; apply Z.mul_le_mono_nonneg_r; lia).
  assert (n * block <= size) by (rewrite Hs; apply Z.mul_le_mono_nonneg_r; lia).
  assert (blocks <= size) by (rewrite Hs; nia).
  assert (0 <= num_blocks e * block) by nia. assert (0 <= start_block e * block) by nia.
  assert (0 <= n * block) by nia.
  rewrite (u64_id (start_block e + num_blocks e)) by (unfold_width; lia).
  rewrite !u64_id by (unfold_width; lia). split_and!; try done. nia.
Qed.
Lemma extent_guard e : is_u64 (start_block e) -> is_u64 (num_blocks e) ->
  (num_blocks e =? 0) || (blocks <=? start_block e) || (u64 (blocks - start_block e) <? num_blocks e) = false
  <-> extent_in blocks e.
Proof.
  intros Hs Hn. pose proof size_blocks. pose proof blocks_pos. unfold extent_in. unfold_width.
  assert (blocks <= size) by nia. split.
  - intros Hg. bool_facts. unwrap_all. lia.
  - intros (He1 & He2 & He3). unwrap. rewrite !orb_false_iff, Z.eqb_neq, Z.leb_gt, Z.ltb_ge. lia.
Qed.
Lemma check_extents_spec es : forall n ranges b' r',
  Forall (fun e => is_u64 (start_block e) /\ is_u64 (num_blocks e)) es ->
  0 <= n <= blocks -> Z.of_nat (length ranges) <= 1000000 ->
  check_extents es size block (n * block) ranges = inr (b', r') <->
  Forall (extent_in blocks) es /\ n + blocks_of es <= blocks /\
  Z.of_nat (length ranges) + Z.of_nat (length es) <= 1000000 /\
  b' = (n + blocks_of es) * block /\ r' = ranges ++ (to_range block <$> es).
Proof.
  induction es as [|e es IH]; intros n ranges b' r' Hf Hn Hr; cbn [check_extents].
  { simpl. rewrite app_nil_r, !Z.add_0_r. split; [intros [= <- <-]; split_and!; [constructor|lia..|done|done]|].
    by intros (_ & _ & _ & -> & ->). }
  apply Forall_cons in Hf as [[Hfs Hfn] Hf]. pose proof (extent_guard e Hfs Hfn) as Hg. fold blocks.
  destruct (_ || _) eqn:Hc.
  { split; [done|]. intros (He%Forall_cons & _). destruct He as [He _]. by apply Hg in He. }
  assert (He : extent_in blocks e) by by apply Hg.
  destruct (extent_arith e n He Hn) as (-> & -> & -> & ->).
  destruct (Z.ltb_spec ((blocks - n) * block) (num_blocks e * block)) as [Hlt|Hge].
  { split; [done|]. intros (Hes%Forall_cons & Hsum & _). simpl in Hsum. destruct Hes as [_ Hes].
    apply blocks_of_nonneg in Hes. nia. }
  assert (Hle : num_blocks e <= blocks - n) by nia.
  assert (Hw : u64 (n * block + num_blocks e * block) = (n + num_blocks e) * block).
  { pose proof size_blocks. rewrite u64_id; [lia|]. unfold_width. destruct He. nia. }
  rewrite Hw, length_app. cbn [length].
  destruct (Z.ltb_spec 1000000 (Z.of_nat (length ranges + 1))).
  { split; [done|]. intros (_ & _ & Hlen & _). simpl in Hlen. lia. }
  rewrite IH; [|done|destruct He; lia|rewrite length_app; simpl; lia].
  rewrite length_app, blocks_of_cons. cbn [length fmap list_fmap].
  rewrite <- app_assoc. change ([?x] ++ ?l) with (x :: l).
  split.
  - intros (H1 & H2 & H3 & H4 & H5). split_and!; [by constructor|lia|lia|subst; f_equal; lia|done].
  - intros (H1%Forall_cons & H2 & H3 & H4 & H5). split_and!; [apply H1|lia|lia|subst; f_equal; lia|done].
Qed.
(** What is left of one operation once its extents fit. *)
Lemma operation_guard op : is_u64 (data_offset op) -> is_u64 (data_length op) ->
  full_type (op_type op) = true -> src_extents_size op = 0 -> has_src_sha256_hash op = false ->
  Forall (extent_in blocks) (dst_extents op) -> op_blocks op <= blocks -> op_blocks op ≠ 0 ->
  op_fits blocks block data_size op <->
  if zero_type (op_type op) then data_length op = 0
  else op_blocks op * block <= kOperationLimit /\ data_length op ≠ 0 /\ data_length op <= kOperationLimit /\
       data_offset op <= data_size /\ data_length op <= u64 (data_size - data_offset op) /\
       blen (default [] (data_sha256_hash op)) = 32.
Proof.
  intros Ho Hl Ht Hs Hh He Hb Hne. apply blocks_of_nonneg in He as Hnn. fold (op_blocks op) in Hnn.
  unfold op_fits. destruct (zero_type (op_type op)).
  - split; [by intros (_ & _ & _ & _ & _ & ?)|]. intros. split_and!; try done; lia.
  - assert (Hdef : blen (default [] (data_sha256_hash op)) = 32 <->
      exists h, data_sha256_hash op = Some h /\ blen h = 32).
    { destruct (data_sha256_hash op) as [h|]; simpl; [|by split; [|intros (?&?&?)]].
      split; [by eauto|]. by intros (? & [= <-] & ?). }
    unfold_width. split.
    + intros (_ & _ & _ & _ & _ & H1 & H2 & H3 & H4). unwrap. rewrite Hdef. split_and!; try done; lia.
    + intros (H1 & H2 & H3 & H4 & H5 & H6). unwrap_all. split_and!; try done; try lia. by apply Hdef.
Qed.
Lemma check_operations_spec ops : forall ranges r',
  Forall (fun op => is_u64 (data_offset op) /\ is_u64 (data_length op) /\
    Forall (fun e => is_u64 (start_block e) /\ is_u64 (num_blocks e)) (dst_extents op)) ops ->
  Z.of_nat (length ranges) <= 1000000 ->
  check_operations ops size block data_size ranges = inr r' <->
  Forall (op_fits blocks block data_size) ops /\
  Z.of_nat (length ranges) + Z.of_nat (length (concat (dst_extents <$> ops))) <= 1000000 /\
  r' = ranges ++ (to_range block <$> concat (dst_extents <$> ops)).
Proof.
  pose proof blocks_pos as Hpos.
  induction ops as [|op ops IH]; intros ranges r' Hf Hr; cbn [check_operations fmap list_fmap concat].
  { cbn [length fmap list_fmap]. rewrite app_nil_r. split; [intros [= <-]; split_and!; [constructor|simpl; lia|done]|].
    by intros (_ & _ & ->). }
  apply Forall_cons in Hf as [(Hfo & Hfl & Hfe) Hf].
  destruct (_ || _) eqn:Hc.
  { split; [done|]. intros (Hop%Forall_cons & _). destruct Hop as [(H1 & H2 & H3 & _) _].
    by rewrite H1, H2, H3 in Hc. }
  bool_facts.
  pose proof (fun b' r' => check_extents_spec (dst_extents op) 0 ranges b' r' Hfe ltac:(lia) Hr) as Hx.
  rewrite Z.mul_0_l in Hx.
  destruct (check_extents (dst_extents op) size block 0 ranges) as [e|[b r]] eqn:Ee.
  { split; [done|]. intros (Hop%Forall_cons & Hlen & ->). destruct Hop as [(_ & _ & _ & He & Hb & _) _].
    rewrite length_app in Hlen. unfold op_blocks in Hb.
    destruct (Hx ((0 + blocks_of (dst_extents op)) * block) (ranges ++ (to_range block <$> dst_extents op)))
      as [_ Habs]. 
    assert (Hl' : Z.of_nat (length ranges) + Z.of_nat (length (dst_extents op)) <= 1000000) by lia.
    discriminate (Habs (conj He (conj (proj2 Hb) (conj Hl' (conj eq_refl eq_refl))))). }
  destruct (Hx b r) as [Hx1 _]. destruct (Hx1 eq_refl) as (He & Hb & Hlen & -> & ->). clear Hx Hx1 Ee.
  fold (op_blocks op) in *. rewrite Z.add_0_l in *.
  assert (Hrest : check_operations ops size block data_size (ranges ++ (to_range block <$> dst_extents op)) = inr r' <->
    Forall (op_fits blocks block data_size) ops /\
    Z.of_nat (length ranges) + Z.of_nat (length (dst_extents op ++ concat (dst_extents <$> ops))) <= 1000000 /\
    r' = ranges ++ (to_range block <$> dst_extents op ++ concat (dst_extents <$> ops))).
  { rewrite IH by (done || (rewrite length_app, length_fmap; lia)).
    rewrite !length_app, length_fmap, fmap_app, <- app_assoc. intuition lia. }
  clear IH. pose proof (operation_guard op Hfo Hfl) as Hg.
  rewrite Forall_cons.
  destruct (Z.eqb_spec (op_blocks op * block) 0) as [Hz|Hnz].
  { split; [done|]. intros ([Hop _] & _). destruct Hop as (_ & _ & _ & _ & Hpos' & _). nia. }
  specialize (Hg ltac:(done) ltac:(done) ltac:(done) He ltac:(lia) ltac:(intros E0; rewrite E0 in Hnz; lia)).
  destruct (zero_type (op_type op)).
  { destruct (Z.eqb_spec (data_length op) 0); cbn [negb]; rewrite Hg.
    - rewrite Hrest. intuition.
    - split; [done|]. by intros ([? _] & _). }
  head_if C1; [|head_if C2; [|head_if C3]]; rewrite Hg.
  1-3: split; [done|]; intros ([(G1 & G2 & G3 & G4 & G5 & G6) _] & _); exfalso.
  - rewrite (proj2 (Z.ltb_ge _ _) G1), (proj2 (Z.ltb_ge _ _) G3), (proj2 (Z.eqb_neq _ _) G2) in C1. done.
  - rewrite (proj2 (Z.ltb_ge _ _) G4), (proj2 (Z.ltb_ge _ _) G5) in C2. done.
  - unfold SHA256_DIGEST_LENGTH in C3. by rewrite G6 in C3.
  - bool_facts. rewrite Hrest. unfold SHA256_DIGEST_LENGTH in *. intuition.
Qed.
End Checks.

(** ** Sorting and tiling *)
#[global] Instance pair_le_trans : Transitive pair_le.
Proof. intros [a b] [c d] [e f]. unfold pair_le. simpl. lia. Qed.
#[global] Instance pair_le_total : Total pair_le.
Proof. intros [a b] [c d]. unfold pair_le. simpl. lia. Qed.
#[global] Instance pair_le_antisymm : AntiSymm (=) pair_le.
Proof. intros [a b] [c d]. unfold pair_le. simpl. intros. f_equal; lia. Qed.

Lemma contiguous_chain block es from to : 0 < block ->
  contiguous (to_range block <$> es) (from * block) = Some (to * block) <-> chain from es to.
Proof.
  intros Hb. revert from. induction es as [|e es IH]; intros from; simpl.
  - split; [intros [= H]; nia|by intros ->].
  - destruct (Z.eqb_spec (start_block e * block) (from * block)) as [E|E]; simpl.
    + assert (start_block e = from) as -> by nia. rewrite IH. tauto.
    + split; [done|]. intros [<- _]. done.
Qed.
Lemma contiguous_multiple block es from end_ : 0 < block ->
  contiguous (to_range block <$> es) (from * block) = Some end_ -> exists to, end_ = to * block.
Proof.
  intros Hb. revert from. induction es as [|e es IH]; intros from; simpl; [intros [= <-]; by eexists|].
  destruct (Z.eqb_spec (start_block e * block) (from * block)); simpl; [|done]. apply IH.
Qed.
Lemma chain_bounds blocks es from to : Forall (extent_in blocks) es -> chain from es to ->
  from <= to /\ Forall (fun e => from <= start_block e /\ start_block e + num_blocks e <= to) es.
Proof.
  intros Hes. revert from. induction Hes as [|e es He Hes IH]; intros from; simpl; [by intros ->|].
  intros [<- Hc]. destruct (IH _ Hc) as [Hle Hall]. destruct He as (? & ? & ?). split; [lia|].
  constructor; [lia|]. eapply Forall_impl; [exact Hall|]. simpl. lia.
Qed.
Lemma chain_sorted blocks block es from to : 0 < block -> Forall (extent_in blocks) es -> chain from es to ->
  StronglySorted pair_le (to_range block <$> es).
Proof.
  intros Hb Hes. revert from. induction Hes as [|e es He Hes IH]; intros from; simpl; [constructor|].
  intros [<- Hc]. constructor; [by eapply IH|]. destruct (chain_bounds _ _ _ _ Hes Hc) as [_ Hall].
  apply Forall_fmap. eapply Forall_impl; [exact Hall|]. intros e' [Hlo _]. destruct He as (_ & He & _).
  left. simpl in *. nia.
Qed.
(** How many extents hold a block. *)
Definition holds (b : Z) (e : Extent) : bool := (start_block e <=? b) && (b <? start_block e + num_blocks e).
Definition holders (b : Z) (es : list Extent) : nat := length (filter (fun e => holds b e = true) es).
Lemma holders_Permutation b es es' : es ≡ₚ es' -> holders b es = holders b es'.
Proof. intros H. unfold holders. by rewrite H. Qed.
Lemma chain_holders blocks es from to b : Forall (extent_in blocks) es -> chain from es to ->
  holders b es = if (from <=? b) && (b <? to) then 1%nat else 0%nat.
Proof.
  intros Hes. revert from. induction Hes as [|e es He Hes IH]; intros from; simpl.
  - intros ->. unfold holders. simpl. repeat zcase; simpl; try done; lia.
  - intros [<- Hc]. specialize (IH _ Hc). unfold holders in *. rewrite filter_cons.
    destruct (chain_bounds _ _ _ _ Hes Hc) as [Hle _]. destruct He as (_ & He & _).
    unfold holds in *. revert IH. case_decide as Hd; simpl; intros IH; rewrite IH;
      repeat match goal with
      | H : _ && _ = true |- _ => apply andb_true_iff in H as [??]
      | H : ~ (_ && _ = true) |- _ => apply not_true_iff_false, andb_false_iff in H as [?|?]
      end; bool_facts; repeat zcase; simpl; try done; lia.
Qed.

Lemma sorted_tiles block blocks exts : 0 < block -> Forall (extent_in blocks) exts ->
  contiguous (sort_ranges (to_range block <$> exts)) 0 = Some (blocks * block) <->
  exists es, es ≡ₚ exts /\ chain 0 es blocks /\
    forall b, holders b exts = if (0 <=? b) && (b <? blocks) then 1%nat else 0%nat.
Proof.
  intros Hb Hex. split.
  - intros Hc. destruct (Permutation_map_inv (to_range block) exts (merge_sort_Permutation pair_le _))
      as (es & Hs & Hp). unfold sort_ranges in Hc. setoid_rewrite Hs in Hc.
    rewrite <- (Z.mul_0_l block) in Hc. apply contiguous_chain in Hc; [|done].
    exists es. split; [done|]. split; [done|]. intros b. rewrite (holders_Permutation b _ _ Hp).
    eapply chain_holders; [|done]. by rewrite <- Hp.
  - intros (es & Hp & Hc & _). assert (Hes : Forall (extent_in blocks) es) by by rewrite Hp.
    assert (sort_ranges (to_range block <$> exts) = to_range block <$> es) as ->.
    { apply (StronglySorted_unique pair_le).
      - apply Sorted_StronglySorted; [apply _|]. apply Sorted_merge_sort. apply _.
      - by eapply chain_sorted.
      - unfold sort_ranges. by rewrite merge_sort_Permutation, Hp. }
    rewrite <- (Z.mul_0_l block). by apply contiguous_chain.
Qed.
(** Every refusal has a message. *)
Lemma check_extents_message es size block bytes ranges e :
  check_extents es size block bytes ranges = inl e -> e ≠ ""%string.
Proof.
  revert bytes ranges. induction es as [|x es IH]; intros bytes ranges; simpl; [done|].
  repeat (destruct (_ : bool); [by intros [= <-]|]). apply IH.
Qed.
Lemma check_operations_message ops size block data_size ranges e :
  check_operations ops size block data_size ranges = inl e -> e ≠ ""%string.
Proof.
  revert ranges. induction ops as [|op ops IH]; intros ranges; simpl; [done|].
  destruct (_ || _); [by intros [= <-]|].
  destruct (check_extents _ _ _ _ _) as [m|[b r]] eqn:Ee; [intros [= <-]; by eapply check_extents_message|].
  destruct (b =? 0); [by intros [= <-]|]. destruct (zero_type _).
  - destruct (negb _); [by intros [= <-]|apply IH].
  - repeat (match goal with |- (if ?c then _ else _) = _ -> _ => destruct c; [by intros [= <-]|] end). apply IH.
Qed.
Lemma block_guard block : is_u64 block ->
  (block =? 0) || (1024 * 1024 <? block) || negb (Z.land block (block - 1) =? 0) = false <->
  exists k, 0 <= k <= 20 /\ block = 2 ^ k.
Proof.
  unfold is_u64. intros Hb. split.
  - intros H. bool_facts. exists (Z.log2 block). split; [|apply pow2_of_land; lia].
    split; [apply Z.log2_nonneg|]. assert (Z.log2 block < 21) by (apply Z.log2_lt_pow2; lia). lia.
  - intros (k & Hk & ->). rewrite land_of_pow2 by lia.
    assert (2 ^ k <= 2 ^ 20) by (apply Z.pow_le_mono_r; lia). assert (0 < 2 ^ k) by lia.
    rewrite !orb_false_iff, Z.eqb_neq, Z.ltb_ge. split_and!; [lia|lia|done].
Qed.

Lemma extraction_error_iff p block data_size :
  fields_ok p -> is_u64 block -> is_u64 data_size ->
  let size := new_size p in let blocks := size / block in
  ExtractionError p block data_size = ""%string <->
  valid_name (partition_name p) = true /\ (exists k, 0 <= k <= 20 /\ block = 2 ^ k) /\
  has_old_partition_info p = false /\ 0 < size <= INT64_MAX /\ size mod block = 0 /\
  blen (new_hash p) = 32 /\ Forall (op_fits blocks block data_size) (operations p) /\
  Z.of_nat (length (op_extents p)) <= 1000000 /\
  exists es, es ≡ₚ op_extents p /\ chain 0 es blocks /\
    forall b, holders b (op_extents p) = if (0 <=? b) && (b <? blocks) then 1%nat else 0%nat.
Proof.
  intros [Hsz Hf] Hb Hd size blocks. unfold ExtractionError. fold size.
  destruct (valid_name (partition_name p)); cbn [negb]; [|split; [done|by intros (?&_)]].
  pose proof (block_guard block Hb) as Hg.
  destruct ((block =? 0) || (1024 * 1024 <? block) || negb (Z.land block (block - 1) =? 0)) eqn:C0.
  { split; [done|]. intros (_ & Hk%Hg & _). done. }
  destruct (has_old_partition_info p); [split; [done|by intros (_&_&?&_)]|].
  head_if C1.
  { split; [done|]. intros (_ & _ & _ & G1 & G2 & G3 & _). exfalso. unfold SHA256_DIGEST_LENGTH in C1.
    rewrite G2, G3, (proj2 (Z.eqb_neq size 0)), (proj2 (Z.ltb_ge _ _)) in C1 by lia. done. }
  bool_facts. unfold is_u64 in Hsz. fold size in Hsz. assert (Hblock : 0 < block <= 1024 * 1024) by (unfold is_u64 in *; lia).
  assert (Hsize : 0 < size <= INT64_MAX) by lia.
  assert (Hmod : size mod block = 0) by done.
  pose proof (fun r => check_operations_spec block size data_size Hblock Hsize Hmod Hd (operations p) [] r Hf) as Hops.
  destruct (check_operations (operations p) size block data_size []) as [m|ranges] eqn:Ec.
  { apply check_operations_message in Ec. split; [done|]. intros (_ & _ & _ & _ & _ & _ & Hfit & Hlen & _). exfalso.
    destruct (Hops (to_range block <$> op_extents p)) as [_ Habs]; [simpl; lia|].
    unfold op_extents in *. discriminate (Habs (conj Hfit (conj Hlen eq_refl))). }
  destruct (Hops ranges) as [Hx _]; [simpl; lia|]. destruct (Hx eq_refl) as (Hfit & Hlen & ->). clear Hops Hx.
  cbn [length app] in *. fold (op_extents p) in *. fold blocks in Hfit.
  assert (Hin : Forall (extent_in blocks) (op_extents p)).
  { unfold op_extents. rewrite Forall_concat, Forall_fmap. eapply Forall_impl; [exact Hfit|]. by intros op (_&_&_&?&_). }
  pose proof (sorted_tiles block blocks (op_extents p) ltac:(lia) Hin) as Ht.
  assert (Hs : size = blocks * block) by by apply size_blocks.
  split.
  - destruct (contiguous _ 0) as [end_|] eqn:Ee; [|done]. destruct (Z.eqb_spec end_ size) as [->|]; [|done].
    intros _. split_and!; try done; try (by apply Hg); try lia. apply Ht. by rewrite <- Hs.
  - intros (_ & _ & _ & _ & _ & _ & _ & _ & Hes). apply Ht in Hes. rewrite Hes, <- Hs, Z.eqb_refl. done.
Qed.

(** C18: ExtractionError accepts a partition exactly when it can be rebuilt
    from the payload alone within the limits: a safe name, a power-of-two
    block size, a declared size and digest, operations without a source whose
    data lie inside the payload, and extents that tile the image, each block
    of it belonging to exactly one extent. None of its sums wraps. *)
Theorem extraction_error_exact p block data_size :
  fields_ok p -> is_u64 block -> is_u64 data_size ->
  let size := new_size p in let blocks := size / block in
  ExtractionError p block data_size = ""%string <->
  valid_name (partition_name p) = true /\ (exists k, 0 <= k <= 20 /\ block = 2 ^ k) /\
  has_old_partition_info p = false /\ 0 < size <= INT64_MAX /\ size mod block = 0 /\
  blen (new_hash p) = 32 /\ Forall (op_fits blocks block data_size) (operations p) /\
  Z.of_nat (length (op_extents p)) <= 1000000 /\
  exists es, es ≡ₚ op_extents p /\ chain 0 es blocks /\
    forall b, holders b (op_extents p) = if (0 <=? b) && (b <? blocks) then 1%nat else 0%nat.
Proof. apply extraction_error_iff. Qed.

(** ** The package

    What the code uses of libziparchive and of the protobuf parser. *)
Record ZipEntry := MkZipEntry {
  z_method : Z; z_offset : Z; z_crc32 : Z; z_compressed : Z; z_uncompressed : Z;
  z_gpbf : Z; z_unix_mode : Z }.
Class Packages := {
  archive : Type;
  OpenArchiveFd : list Z -> option archive;       (* of the bytes behind the descriptor *)
  FindEntry : archive -> string -> option ZipEntry;
  ParseManifest : list Z -> option Manifest
}.
(** The fields of a parsed message are unsigned integers of their width. *)
Class PackagesLaws `(P : Packages) : Prop := {
  parse_fields bytes m : ParseManifest bytes = Some m ->
    is_u64 (block_size m) /\ Forall fields_ok (partitions m)
}.
Definition kCompressStored : Z := 0.
(** The extraction directory: what each name refers to, the next free file
    number, and whether the next openat and ftruncate calls succeed. *)
Record Dir := MkDir {
  entries_ : gmap string Z; fresh_ : Z; creates_ : list bool; truncates_ : list bool }.
Definition X (A : Type) : Type := Dir * World -> option (A * (Dir * World)).
#[global] Instance X_ret : MRet X := fun A x s => Some (x, s).
#[global] Instance X_bind : MBind X := fun A B k m s =>
  match m s with Some (x, s') => k x s' | None => None end.
Definition lift {A} (m : M A) : X A := fun s =>
  match m s.2 with Some (x, w) => Some (x, (s.1, w)) | None => None end.
(** openat(O_CREAT | O_EXCL): a new empty file, never an existing one. *)
Definition create_file (nm : string) : X (option Z) := fun '(d, w) =>
  match creates_ d with
  | [] => None
  | ok :: rest =>
      if negb ok || bool_decide (is_Some (entries_ d !! nm))
      then Some (None, (MkDir (entries_ d) (fresh_ d) rest (truncates_ d), w))
      else Some (Some (fresh_ d),
             (MkDir (<[nm := fresh_ d]> (entries_ d)) (fresh_ d + 1) rest (truncates_ d),
              set_content w (fresh_ d) []))
  end.
Definition ftruncate64 (fd size : Z) : X bool := fun '(d, w) =>
  match truncates_ d with
  | [] => None
  | ok :: rest =>
      let d := MkDir (entries_ d) (fresh_ d) (creates_ d) rest in
      Some (ok, (d, if ok then set_content w fd (replicate (Z.to_nat size) 0) else w))
  end.
Definition unlink_all (nms : list string) : X () := fun '(d, w) =>
  Some ((), (MkDir (foldr delete (entries_ d) nms) (fresh_ d) (creates_ d) (truncates_ d), w)).

(** One attempt to run the Otaripper executable with its arguments: a step
    before the start failed, or it printed text, its pipe ended well or not,
    and its exit status was zero or not. It may change anything in the
    directory. *)
Inductive Launch :=
  | NoDescriptor | NoPipe | NoTarget
  | NotStarted (why : string)
  | Ran (printed : string) (pipe_ok exited_zero : bool).
Inductive Ripper :=
  | Absent
  | Unexecutable
  | Program (run : list string -> Dir * World -> Launch * (Dir * World)).
(** The surroundings of the extraction: free bytes, the directory listing,
    the kind and link count of a file, the program and its thread count. *)
Record Env := MkEnv {
  space_ : option Z; opendir_ok : bool; readdir_ok : bool;
  regular_ : Z -> bool; nlink_ : Z -> Z; ripper_ : Ripper; threads_ : Z }.

Section Process.
Context `{Packages} `{Decoders} `{Sha256} `{ShaStream}.

(** SHA256 and memcmp. *)
Definition Hash (data expected : list Z) : bool := HashMatches data expected.
Definition Big (p : list Z) (bytes : nat) : Z :=
  foldl (fun value b => u64 (Z.lor (Z.shiftl value 8) b)) 0 (take bytes p).
(** The same code as in payload_arb.cpp, on vectors of this file. *)
Definition DecodeOperation (type : Z) (input : list Z) (room : Z) : option (list Z) :=
  Decode type input room.

(** Lines 159 to 183: the package is opened, and its manifest is the one that
    was reviewed. The entry, the manifest and where the data start. *)
Definition read_header (fd : Z) (entry : ZipEntry) (file_size : Z) : M (option (list Z)) :=
  if negb (z_method entry =? kCompressStored) || (z_offset entry <? 0) ||
     (z_uncompressed entry <? 24) || (file_size <? z_offset entry) ||
     (u64 (file_size - z_offset entry) <? z_uncompressed entry)
  then mret None
  else read_exactly fd 24 (z_offset entry).
Definition open_payload (package : option (Z * Node)) (manifest_hash : list Z)
    : M (string + (Z * ZipEntry * Manifest * Z)) :=
  match package with
  | None => mret (inl "Cannot open package"%string)
  | Some (fd, node) =>
      match node_stat node with
      | None => mret (inl "Cannot open package"%string)
      | Some st =>
          if negb (st_reg st) then mret (inl "Cannot open package"%string)
          else
          file ← get_content fd;
          match OpenArchiveFd file with
          | None => mret (inl "Invalid ZIP package"%string)
          | Some zip =>
              match FindEntry zip "payload.bin" with
              | None => mret (inl "Unsupported or truncated payload"%string)
              | Some entry =>
                  header ← read_header fd entry (st_size st);
                  match header with
                  | None => mret (inl "Unsupported or truncated payload"%string)
                  | Some header =>
                      if negb (bool_decide (take 4 header = [67; 114; 65; 85])) ||
                         negb (Big (drop 4 header) 8 =? 2)
                      then mret (inl "Unsupported or truncated payload"%string)
                      else
                      let manifest_size := Big (drop 12 header) 8 in
                      let data_start := u64 (24 + manifest_size + Big (drop 20 header) 4) in
                      if (manifest_size =? 0) || (kOperationLimit <? manifest_size) ||
                         (z_uncompressed entry <? data_start)
                      then mret (inl "Invalid payload header"%string)
                      else
                      bytes ← read_exactly fd manifest_size (u64 (z_offset entry + 24));
                      mret match bytes with
                           | None => inl "Package changed since review; open it again"%string
                           | Some bytes =>
                               if negb (Hash bytes manifest_hash)
                               then inl "Package changed since review; open it again"%string
                               else match ParseManifest bytes with
                               | None => inl "Invalid payload manifest"%string
                               | Some manifest =>
                                   if 512 <? Z.of_nat (length (partitions manifest))
                                   then inl "Invalid payload manifest"%string
                                   else inr (fd, entry, manifest, data_start)
                               end
                           end
                  end
              end
          end
      end
  end.

(** Lines 184 to 201: the selected partitions and the sum of their sizes. *)
Definition needs_source (p : PartitionUpdate) (op : Operation) : bool :=
  has_old_partition_info p || negb (src_extents_size op =? 0) || has_src_sha256_hash op ||
  negb (full_type (op_type op)).
Fixpoint select_partitions (ps : list PartitionUpdate) (selected unique : gset string)
    (block data_size total : Z) (chosen : list PartitionUpdate) : string + (list PartitionUpdate * Z) :=
  match ps with
  | [] => inr (chosen, total)
  | p :: ps =>
      if bool_decide (partition_name p ∈ unique) then inl "Duplicate partition in manifest"%string
      else if existsb (needs_source p) (operations p)
      then inl "Incremental payloads are not supported by Advanced extraction"%string
      else
      let unique := {[partition_name p]} ∪ unique in
      if negb (bool_decide (partition_name p ∈ selected))
      then select_partitions ps selected unique block data_size total chosen
      else
      let reason := ExtractionError p block data_size in
      if negb (String.eqb reason "") then inl (partition_name p ++ ": " ++ reason)%string
      else if UINT64_MAX / 2 - total <? new_size p then inl "Selected sizes overflow"%string
      else select_partitions ps selected unique block data_size (total + new_size p) (chosen ++ [p])
  end.
(** The part of ProcessImages that precedes any change: lines 156 to 202. *)
Record Validated := MkValidated {
  v_fd : Z; v_base : Z; v_block : Z; v_partitions : list PartitionUpdate; v_total : Z }.
Definition validate (package : option (Z * Node)) (manifest_hash : list Z) (names : list string)
    : M (string + Validated) :=
  if bool_decide (names = []) || (512 <? Z.of_nat (length names))
  then mret (inl "No valid partition selection"%string)
  else
  let selected : gset string := list_to_set names in
  if negb (Z.of_nat (base.size selected) =? Z.of_nat (length names))
  then mret (inl "Duplicate partition selection"%string)
  else
  opened ← open_payload package manifest_hash;
  mret match opened with
       | inl e => inl e
       | inr (fd, entry, manifest, data_start) =>
           match select_partitions (partitions manifest) selected ∅ (block_size manifest)
                   (u64 (z_uncompressed entry - data_start)) 0 [] with
           | inl e => inl e
           | inr (chosen, total) =>
               if negb (Z.of_nat (length chosen) =? Z.of_nat (length names))
               then inl "Selected partition is missing from payload"%string
               else inr (MkValidated fd (u64 (z_offset entry + data_start)) (block_size manifest) chosen total)
           end
       end.

(** The extents of one decoded operation, written one after another. *)
Fixpoint write_extents (image : Z) (es : list Extent) (block : Z) (decoded : list Z) (offset : Z)
    : M (option bool) :=
  match es with
  | [] => mret (Some true)
  | e :: es =>
      let length := u64 (num_blocks e * block) in
      if blen decoded <? offset + length then mret None
      else
      ok ← write_exactly image (slice offset length decoded) (u64 (start_block e * block));
      if negb ok then mret (Some false)
      else write_extents image es block decoded (offset + length)
  end.
Definition op_count (op : Operation) (block : Z) : Z :=
  foldl (fun count e => u64 (count + u64 (num_blocks e * block))) 0 (dst_extents op).
(** The operations of one image: [Done ()], the message, or a fault. *)
Fixpoint extract_operations (fd base block : Z) (image : Z) (filename : string) (ops : list Operation)
    : M (Outcome ()) :=
  match ops with
  | [] => mret (Done ())
  | op :: ops =>
      let count := op_count op block in
      if zero_type (op_type op) then extract_operations fd base block image filename ops
      else
      input ← read_exactly fd (data_length op) (u64 (base + data_offset op));
      let decoded :=
        input ← input;
        if negb (Hash input (default [] (data_sha256_hash op))) then None
        else DecodeOperation (op_type op) input count in
      match decoded with
      | None => mret (Refused ("Cannot decode or verify " ++ filename)%string)
      | Some decoded =>
          ok ← write_extents image (dst_extents op) block decoded 0;
          match ok with
          | None => mret Fault
          | Some false => mret (Refused ("Cannot write " ++ filename)%string)
          | Some true => extract_operations fd base block image filename ops
          end
      end
  end.
Definition verify_size : Z := 256 * 1024.
Fixpoint hash_image (fuel : nat) (image size offset : Z) (ctx : sha_ctx) : M (option sha_ctx) :=
  if size <=? offset then mret (Some ctx)
  else match fuel with
  | O => out_of_answers
  | S fuel =>
      let length := Z.min verify_size (size - offset) in
      bytes ← read_exactly image length offset;
      match bytes with
      | None => mret None
      | Some bytes => hash_image fuel image size (offset + length) (SHA256_Update ctx bytes)
      end
  end.
Definition image_file (p : PartitionUpdate) : string := (partition_name p ++ ".img")%string.
(** The read-back of one image, whichever program wrote it. *)
Definition verify_image (image : Z) (p : PartitionUpdate) : M (option string) :=
  ctx ← hash_image (Z.to_nat (new_size p)) image (new_size p) 0 SHA256_Init;
  match ctx with
  | None => mret (Some ("Cannot verify " ++ image_file p)%string)
  | Some ctx =>
      let bad := ("Image hash or storage verification failed: " ++ image_file p)%string in
      if negb (bool_decide (SHA256_Final ctx = take 32 (new_hash p))) then mret (Some bad)
      else
      ok ← sync image;
      mret (if negb ok then Some bad else None)
  end.
(** One image without Otaripper: the files created, and the outcome. *)
Definition extract_image (v : Validated) (p : PartitionUpdate) (created : list string)
    : X (list string * Outcome ()) :=
  let filename := image_file p in
  f ← create_file filename;
  match f with
  | None => mret (created, Refused ("Cannot create " ++ filename ++ " (existing files are never overwritten)")%string)
  | Some image =>
      let created := created ++ [filename] in
      ok ← ftruncate64 image (new_size p);
      if negb ok then mret (created, Refused ("Cannot allocate " ++ filename)%string)
      else
      r ← lift (extract_operations (v_fd v) (v_base v) (v_block v) image filename (operations p));
      match r with
      | Done _ =>
          e ← lift (verify_image image p);
          mret (created, match e with None => Done () | Some e => Refused e end)
      | r => mret (created, r)
      end
  end.
(** One image that Otaripper has written: its type, size, link count, bytes. *)
Definition check_image (env : Env) (p : PartitionUpdate) : X (Outcome ()) := fun s =>
  let filename := image_file p in
  match entries_ s.1 !! filename with
  | None => Some (Refused ("Cannot create " ++ filename ++ " (existing files are never overwritten)")%string, s)
  | Some image =>
      if negb (regular_ env image) || negb (blen (content s.2 image) =? new_size p) || negb (nlink_ env image =? 1)
      then Some (Refused ("Otaripper output has invalid type or size: " ++ filename)%string, s)
      else (e ← lift (verify_image image p);
            mret match e with None => Done () | Some e => Refused e end) s
  end.
Fixpoint extract_images (v : Validated) (ps : list PartitionUpdate) (created : list string)
    : X (list string * Outcome ()) :=
  match ps with
  | [] => mret (created, Done ())
  | p :: ps =>
      r ← extract_image v p created;
      match r with
      | (created, Done _) => extract_images v ps created
      | r => mret r
      end
  end.
Fixpoint check_images (env : Env) (ps : list PartitionUpdate) : X (Outcome ()) :=
  match ps with
  | [] => mret (Done ())
  | p :: ps =>
      r ← check_image env p;
      match r with Done _ => check_images env ps | r => mret r end
  end.

(** *** payload_otaripper.hpp *)
Definition OtaripperExecutable : string := "/system/bin/aera-otaripper".
Fixpoint join_comma (names : list string) (selected : string) : string :=
  match names with
  | [] => selected
  | nm :: names =>
      join_comma names ((if String.eqb selected "" then "" else selected ++ ",") ++ nm)%string
  end.
(** The text is cut into lines of at most 4096 characters; what is not a
    plausible progress line is kept, at most the last 4096 characters. *)
Definition last_chars (n : nat) (s : string) : string :=
  String.substring (String.length s - n) (String.length s) s.
Definition progress_line (line : string) (total previous : Z) : option Z :=
  if negb (String.prefix "AERA_PROGRESS" line) then None
  else
  r ← scan_two (String.substring 13 (String.length line) line);
  let '(done, expected) := r in
  if (expected =? total) && (done <=? total) && (previous <=? done) then Some done else None.
Fixpoint read_output (text line diagnostic : string) (total previous : Z) : string :=
  match text with
  | EmptyString => (diagnostic ++ line)%string
  | String c text =>
      if Ascii.eqb c (ascii_of_nat 10) then
        match progress_line line total previous with
        | Some done => read_output text "" diagnostic total done
        | None => read_output text "" (last_chars 4096 (diagnostic ++ line ++ newline)) total previous
        end
      else read_output text
             (if (String.length line <? 4096)%nat then line ++ String c "" else line)%string
             diagnostic total previous
  end.
Definition hex_text (bs : list Z) : string :=
  foldr (fun c s => String (default "0"%char (String.get (Z.to_nat (Z.shiftr c 4)) "0123456789abcdef"))
                      (String (default "0"%char (String.get (Z.to_nat (Z.land c 15)) "0123456789abcdef")) s)) "" bs.
(** [inherited] is the number of the package's descriptor in the child; for a
    direct flash, that of the block device with the manifest's hash. *)
Definition RunOtaripper (run : list string -> Dir * World -> Launch * (Dir * World)) (threads : Z)
    (names : list string) (directory : string) (total inherited : Z) (direct : option (Z * list Z))
    : X (option string) := fun s =>
  let valid := match direct with
    | Some (_, manifest_hash) => (length names =? 1)%nat && (blen manifest_hash =? 32)
    | None => true
    end in
  if negb valid then Some (Some "Invalid direct-flash request"%string, s)
  else
  let args := [OtaripperExecutable; "--aera"; "--strict"; "--no-open"; "--threads"; to_string threads;
      "--partitions"; join_comma names ""; "--output-dir"; directory;
      ("/proc/self/fd/" ++ to_string inherited)%string] ++
    match direct with
    | Some (target, manifest_hash) => ["--aera-block-fd"; to_string target; "--aera-manifest"; hex_text manifest_hash]
    | None => []
    end in
  let '(launch, s) := run args s in
  Some (match launch with
        | NoDescriptor => Some "Cannot retain package descriptor"%string
        | NoPipe => Some "Cannot create extractor progress pipe"%string
        | NoTarget => Some "Cannot retain direct target descriptor"%string
        | NotStarted why => Some ("Cannot start otaripper: " ++ why)%string
        | Ran printed pipe_ok exited_zero =>
            if negb pipe_ok || negb exited_zero then
              Some (match direct with
                    | Some _ => "Direct flash failed; target may be incomplete: "
                    | None => "Otaripper extraction failed (no partitions flashed): "
                    end ++
                    read_output printed "" "" total 0)%string
            else None
        end, s).

(** *** ProcessImages *)
Definition fail_cleanup (created : list string) (message : string) : X (Outcome ()) :=
  _ ← unlink_all created; mret (Refused message).
(** Lines 205 to 294. *)
Definition extract_all (env : Env) (v : Validated) (names : list string) (directory : string)
    : X (Outcome ()) :=
  match space_ env with
  | None => mret (Refused "Cannot access extraction storage")
  | Some available =>
      if available <? v_total v + 16 * 1024 * 1024
      then mret (Refused "Not enough free storage for selected images")
      else match ripper_ env with
      | Unexecutable => mret (Refused "Otaripper exists but cannot be executed")
      | Absent =>
          r ← extract_images v (v_partitions v) [];
          match r with
          | (created, Refused e) => fail_cleanup created e
          | (_, r) => mret r
          end
      | Program run =>
          if negb (opendir_ok env) then mret (Refused "Cannot inspect extraction directory")
          else
          empty ← (fun s => Some (bool_decide (entries_ s.1 = ∅), s));
          if negb empty || negb (readdir_ok env)
          then mret (Refused "Otaripper requires an empty extraction directory")
          else
          let created := image_file <$> v_partitions v in
          e ← RunOtaripper run (threads_ env) names directory (v_total v) (v_fd v) None;
          match e with
          | Some e => fail_cleanup created e
          | None =>
              r ← check_images env (v_partitions v);
              match r with
              | Refused e => fail_cleanup created e
              | r => mret r
              end
          end
      end
  end.
(** The writer that takes the package's descriptor in a direct transaction. *)
Definition Writer : Type := Z -> X (option string).
Definition ProcessImages (env : Env) (package : option (Z * Node)) (manifest_hash : list Z)
    (names : list string) (directory : string) (direct : option Writer) : X (Outcome ()) :=
  checked ← lift (validate package manifest_hash names);
  match checked with
  | inl e => mret (Refused e)
  | inr v =>
      match direct with
      | Some write =>
          e ← write (v_fd v);
          mret match e with None => Done () | Some e => Refused e end
      | None => extract_all env v names directory
      end
  end.
Definition ExtractImages (env : Env) (package : option (Z * Node)) (hash : list Z)
    (names : list string) (directory : string) : X (Outcome ()) :=
  ProcessImages env package hash names directory None.
Definition WithValidatedPayload (env : Env) (package : option (Z * Node)) (hash : list Z)
    (names : list string) (write : option Writer) : X (Outcome ()) :=
  match write with
  | None => mret (Refused "Missing direct writer")
  | Some write => ProcessImages env package hash names "" (Some write)
  end.
End Process.


(** ** The selection *)
Lemma select_sound ps : forall selected unique block ds total chosen r total',
  select_partitions ps selected unique block ds total chosen = inr (r, total') ->
  exists added, r = chosen ++ added /\ NoDup (partition_name <$> added) /\
    Forall (fun p => p ∈ ps /\ partition_name p ∈ selected /\ (partition_name p ∉ unique) /\
      ExtractionError p block ds = ""%string) added.
Proof.
  induction ps as [|p ps IH]; intros selected unique block ds total chosen r total'; cbn [select_partitions].
  { intros [= <- <-]. exists []. rewrite app_nil_r. split; [done|]. split; constructor. }
  case_bool_decide as Hu; [done|]. destruct (existsb _ _); [done|].
  assert (Hmono : forall (u : gset string) added, Forall (fun q => q ∈ ps /\ partition_name q ∈ selected /\
      (partition_name q ∉ {[partition_name p]} ∪ u) /\ ExtractionError q block ds = ""%string) added ->
    Forall (fun q => q ∈ p :: ps /\ partition_name q ∈ selected /\ (partition_name q ∉ u) /\
      ExtractionError q block ds = ""%string) added).
  { intros u added Ha. eapply Forall_impl; [exact Ha|]. set_solver. }
  case_bool_decide as Hs; cbn [negb].
  2:{ intros (added & -> & Hnd & Hall)%IH. exists added. split; [done|]. split; [done|]. by apply Hmono. }
  destruct (String.eqb_spec (ExtractionError p block ds) ""); cbn [negb]; [|done].
  destruct (_ <? _); [done|]. intros (added & -> & Hnd & Hall)%IH. exists (p :: added).
  split; [by rewrite <- app_assoc|]. split.
  - cbn [fmap list_fmap]. constructor; [|done]. rewrite list_elem_of_fmap. intros (q & E & Hq).
    rewrite Forall_forall in Hall. destruct (Hall q Hq) as (_ & _ & Hn & _). set_solver.
  - constructor; [set_solver|]. by apply Hmono.
Qed.
(** As many distinct selected names as there are names: every name is there. *)
Lemma names_covered (names : list string) (chosen : list PartitionUpdate) :
  Z.of_nat (base.size (list_to_set names : gset string)) = Z.of_nat (length names) ->
  length chosen = length names -> NoDup (partition_name <$> chosen) ->
  Forall (fun p => partition_name p ∈ (list_to_set names : gset string)) chosen ->
  forall nm, nm ∈ names -> exists p, p ∈ chosen /\ partition_name p = nm.
Proof.
  intros Hsz Hlen Hnd Hall nm Hnm.
  assert (Hsub : (list_to_set (partition_name <$> chosen) : gset string) ⊆ list_to_set names).
  { intros x Hx. apply elem_of_list_to_set, list_elem_of_fmap in Hx as (p & -> & Hp).
    rewrite Forall_forall in Hall. by apply Hall. }
  assert (Heq : (list_to_set (partition_name <$> chosen) : gset string) = list_to_set names).
  { apply leibniz_equiv, set_subseteq_size_equiv; [done|].
    rewrite (size_list_to_set (partition_name <$> chosen)) by done. rewrite length_fmap. lia. }
  assert (Hin : nm ∈ (list_to_set (partition_name <$> chosen) : gset string))
    by (rewrite Heq; by apply elem_of_list_to_set).
  apply elem_of_list_to_set, list_elem_of_fmap in Hin as (p & -> & Hp). eauto.
Qed.

Section Sound.
Context `{PackagesLaws} `{DecodersLaws} `{ShaStreamLaws}.

Lemma Big_nonneg p n : 0 <= Big p n.
Proof.
  unfold Big. induction (take n p) as [|b l _] using rev_ind; [simpl; lia|].
  rewrite foldl_snoc. apply u64_range.
Qed.
(** What validation establishes about the package behind the descriptor. *)
Definition reviewed (package : option (Z * Node)) (manifest_hash : list Z) (names : list string)
    (w : World) (v : Validated) (manifest : Manifest) (data_size : Z) : Prop :=
  (exists node, package = Some (v_fd v, node)) /\
  (exists bytes, SHA256 bytes = manifest_hash /\ ParseManifest bytes = Some manifest /\
     exists off, 0 <= off /\ bytes = slice off (blen bytes) (content w (v_fd v))) /\
  v_block v = block_size manifest /\
  Forall (fun p => p ∈ partitions manifest /\
    ExtractionError p (block_size manifest) data_size = ""%string) (v_partitions v) /\
  NoDup (partition_name <$> v_partitions v) /\
  length (v_partitions v) = length names /\
  forall nm, nm ∈ names -> exists p, p ∈ v_partitions v /\ partition_name p = nm.
Lemma open_payload_sound package manifest_hash w r w' :
  open_payload package manifest_hash w = Some (r, w') ->
  files w' = files w /\ forall fd entry manifest data_start, r = inr (fd, entry, manifest, data_start) ->
    (exists node, package = Some (fd, node)) /\
    (exists bytes, SHA256 bytes = manifest_hash /\ ParseManifest bytes = Some manifest /\
       exists off, 0 <= off /\ bytes = slice off (blen bytes) (content w fd)).
Proof.
  unfold open_payload. destruct package as [[fd node]|]; [|by intros [= <- <-]].
  destruct (node_stat node) as [st|]; [|by intros [= <- <-]].
  destruct (st_reg st); cbn [negb]; [|by intros [= <- <-]].
  intros (file & w1 & E1 & E)%mbind_Some. injection E1 as <- <-.
  destruct (OpenArchiveFd _) as [zip|]; [|by injection E as <- <-].
  destruct (FindEntry zip _) as [entry|]; [|by injection E as <- <-].
  apply mbind_Some in E as (header & w2 & E2 & E).
  assert (Hf2 : files w2 = files w).
  { revert E2. unfold read_header. destruct (_ || _) eqn:C; [by intros [= <- <-]|].
    intros E2. by apply read_only_read_exactly in E2. }
  destruct header as [header|]; [|by injection E as <- <-].
  if_in E C1; [by injection E as <- <-|]. if_in E C2; [by injection E as <- <-|].
  apply mbind_Some in E as (bytes & w3 & E3 & E).
  apply read_exactly_sound in E3 as [Hf3 Hb]; [|apply Big_nonneg|apply u64_range].
  injection E as <- <-. split; [congruence|]. intros fd' entry' manifest data_start.
  destruct bytes as [bytes|]; [|done]. destruct (Hash bytes manifest_hash) eqn:Hh; cbn [negb]; [|done].
  destruct (ParseManifest bytes) as [m|] eqn:Hm; [|done].
  destruct (512 <? Z.of_nat (length (partitions m))); [discriminate|]. intros [= <- <- <- <-].
  split; [by eexists|]. exists bytes. unfold Hash, HashMatches in Hh. bool_facts. split; [done|]. split; [done|].
  destruct (Hb bytes eq_refl) as [Hs Hl]. exists (u64 (z_offset entry + 24)).
  split; [apply u64_range|]. rewrite Hl, Hs at 1. f_equal. by apply content_files.
Qed.
Lemma validate_sound package manifest_hash names w r w' :
  validate package manifest_hash names w = Some (r, w') ->
  files w' = files w /\ forall v, r = inr v ->
    exists manifest data_size, is_u64 data_size /\
      reviewed package manifest_hash names w v manifest data_size.
Proof.
  unfold validate. intros E. if_in E C1; [by injection E as <- <-|]. if_in E C2; [by injection E as <- <-|].
  bool_facts. apply mbind_Some in E as (o & w1 & E1 & E). injection E as <- <-.
  apply open_payload_sound in E1 as [Hf Ho]. split; [done|].
  destruct o as [e|[[[fd entry] manifest] data_start]]; [done|].
  destruct (Ho _ _ _ _ eq_refl) as (Hp & Hb).
  destruct (select_partitions _ _ _ _ _ _ _) as [e|[chosen total]] eqn:Es; [done|].
  destruct (Z.eqb_spec (Z.of_nat (length chosen)) (Z.of_nat (length names))) as [Hl|]; cbn [negb]; [|done].
  intros v [= <-]. apply select_sound in Es as (added & Ha & Hnd & Hall). cbn [app] in Ha. subst added.
  exists manifest, (u64 (z_uncompressed entry - data_start)). split; [apply u64_range|].
  split_and!; cbn [v_fd v_block v_partitions]; try done.
  - eapply Forall_impl; [exact Hall|]. by intros p (? & _ & _ & ?).
  - lia.
  - apply names_covered; [done|lia|done|]. eapply Forall_impl; [exact Hall|]. by intros p (_ & ? & _).
Qed.

(** ** One image *)
Lemma op_count_spec op block blocks : 0 < block -> Forall (extent_in blocks) (dst_extents op) ->
  op_blocks op * block < 2 ^ 64 -> op_count op block = op_blocks op * block.
Proof.
  intros Hb He Hlt. unfold op_count, op_blocks in *.
  enough (G : forall n, 0 <= n -> n * block + blocks_of (dst_extents op) * block < 2 ^ 64 ->
    foldl (fun count e => u64 (count + u64 (num_blocks e * block))) (n * block) (dst_extents op) =
    n * block + blocks_of (dst_extents op) * block) by (specialize (G 0); rewrite !Z.mul_0_l in G; apply G; lia).
  clear Hlt. induction He as [|e es He Hes IH]; intros n Hn Hlt; [simpl; lia|].
  rewrite blocks_of_cons in *. pose proof (blocks_of_nonneg _ _ Hes). destruct He as (_ & He & _).
  cbn [foldl]. assert (0 <= num_blocks e * block) by nia. assert (0 <= n * block) by nia.
  assert (0 <= blocks_of es * block) by nia.
  rewrite (u64_id (num_blocks e * block)) by (unfold_width; nia).
  rewrite u64_id by (unfold_width; nia). rewrite <- Z.mul_add_distr_r, IH by nia. nia.
Qed.
Lemma write_extents_frame image es block blocks decoded : 0 < block -> blocks * block < 2 ^ 64 ->
  Forall (extent_in blocks) es -> forall offset w r w',
  0 <= offset -> offset + blocks_of es * block <= blen decoded ->
  write_extents image es block decoded offset w = Some (r, w') ->
  blen (content w image) = blocks * block ->
  only image w w' /\ blen (content w' image) = blocks * block /\ r ≠ None.
Proof.
  intros Hb Hsz. induction 1 as [|e es He Hes IH]; intros offset w r w' Ho Hd E Hlen; cbn [write_extents] in E.
  { injection E as <- <-. split; [apply only_refl|done]. }
  rewrite blocks_of_cons in Hd. pose proof (blocks_of_nonneg _ _ Hes).
  destruct He as (He1 & He2 & He3). assert (0 <= num_blocks e * block) by nia.
  assert (start_block e * block + num_blocks e * block <= blocks * block) by nia.
  assert (0 <= start_block e * block) by nia. assert (0 <= blocks_of es * block) by nia.
  rewrite (u64_id (num_blocks e * block)), (u64_id (start_block e * block)) in E by (unfold_width; lia).
  if_in E C; [bool_facts; lia|]. clear C.
  apply mbind_Some in E as (ok & w1 & E1 & E).
  apply write_loop_sound in E1 as (Ho1 & Ht & _); [|unfold blen in *; lia].
  assert (Hl1 : blen (content w1 image) = blocks * block) by (unfold blen in *; destruct Ht; lia).
  destruct ok; cbn [negb] in E; [|by injection E as <- <-].
  apply IH in E as (Ho2 & Hl2 & Hr); [|lia|lia|done]. split; [by eapply only_trans|done].
Qed.
Lemma extract_operations_frame fd base block image fn ops blocks data_size :
  0 < block -> blocks * block < 2 ^ 64 -> fd ≠ image ->
  Forall (op_fits blocks block data_size) ops -> forall w r w',
  bytes_ok (content w fd) -> blen (content w image) = blocks * block ->
  extract_operations fd base block image fn ops w = Some (r, w') ->
  only image w w' /\ blen (content w' image) = blocks * block /\ r ≠ Fault.
Proof.
  intros Hb Hsz Hne. induction 1 as [|op ops Hop Hops IH]; intros w r w' Hok Hlen E; cbn [extract_operations] in E.
  { injection E as <- <-. split; [apply only_refl|done]. }
  destruct Hop as (_ & _ & _ & Hex & Hbl & Hdata).
  destruct (zero_type (op_type op)); [by eapply IH|].
  destruct Hdata as (Hlim & Hdl & _ & _).
  apply mbind_Some in E as (input & w1 & E1 & E).
  apply read_exactly_sound in E1 as [Hf Hin]; [|lia|apply u64_range].
  assert (Hlen1 : blen (content w1 image) = blocks * block) by (by rewrite (content_files w w1)).
  destruct (input ≫= _) as [decoded|] eqn:Ed.
  2:{ injection E as <- <-. split; [eauto with aera|done]. }
  destruct input as [input|]; [|done]. destruct (Hin input eq_refl) as [Hi _].
  cbn in Ed. destruct (negb _); [done|]. unfold DecodeOperation in Ed.
  assert (Hc : op_count op block = op_blocks op * block)
    by (eapply op_count_spec; [done|done|unfold kOperationLimit in *; lia]).
  rewrite Hc in Ed. apply decode_ok in Ed as [Hdl' _]; [|nia|rewrite Hi; by apply slice_ok].
  apply mbind_Some in E as (ok & w2 & E2 & E).
  eapply write_extents_frame in E2 as (Ho2 & Hl2 & Hr2); [|done|done|exact Hex|lia|
    unfold op_blocks in *; lia|done].
  assert (Ho : only image w w2) by (eapply only_trans; [|done]; eauto with aera).
  destruct ok as [[]|]; [|by injection E as <- <-|done].
  apply IH in E as (Ho3 & Hl3 & Hr3); [|by rewrite Ho|done].
  split; [by eapply only_trans|done].
Qed.
Lemma hash_image_sound fuel : forall image n off ctx w r w',
  hash_image fuel image n off ctx w = Some (r, w') -> 0 <= off <= n ->
  files w' = files w /\
  forall ctx', r = Some ctx' -> exists chunks, ctx' = foldl SHA256_Update ctx chunks /\
    concat chunks = slice off (n - off) (content w image) /\ blen (concat chunks) = n - off.
Proof.
  induction fuel as [|fuel IH]; intros image n off ctx w r w' E Ho; cbn [hash_image] in E;
    destruct (Z.leb_spec n off); try discriminate E;
    try (injection E as <- <-; split; [done|]; intros ctx' [= <-]; exists []; simpl;
         replace (n - off) with 0 by lia; done).
  set (len := Z.min verify_size (n - off)) in *. assert (Hlen : 0 < len <= n - off) by (unfold len, verify_size; lia).
  apply mbind_Some in E as (bytes & w1 & E1 & E). apply read_exactly_sound in E1 as [Hf Hb]; [|lia..].
  destruct bytes as [bytes|]; [|by injection E as <- <-]. destruct (Hb bytes eq_refl) as [Hs Hl].
  apply IH in E as [Hf2 Hr]; [|lia]. split; [congruence|]. intros ctx' Hctx.
  destruct (Hr _ Hctx) as (chunks & -> & Hcat & Hlen2). rewrite (content_files w w1 image Hf) in Hcat.
  exists (bytes :: chunks). split; [done|]. cbn [concat].
  split; [|unfold blen in *; rewrite length_app; lia].
  rewrite Hcat, Hs. rewrite slice_cat; [f_equal; lia|lia..|]. by rewrite <- Hs.
Qed.
(** An image that passes the read-back has the manifest's digest. *)
Lemma verify_extracted_sound image p w r w' : 0 <= new_size p -> blen (new_hash p) = 32 ->
  verify_image image p w = Some (r, w') ->
  files w' = files w /\ (r = None -> new_size p <= blen (content w image) /\
    SHA256 (take (Z.to_nat (new_size p)) (content w image)) = new_hash p).
Proof.
  intros Hn Hh (ctx & w1 & E1 & E)%mbind_Some. apply hash_image_sound in E1 as [Hf Hx]; [|lia].
  destruct ctx as [ctx|]; [|by injection E as <- <-].
  destruct (Hx ctx eq_refl) as (chunks & -> & Hcat & Hlen). rewrite sha_pieces in E.
  case_bool_decide as Hd; cbn [negb] in E; [|by injection E as <- <-].
  apply mbind_Some in E as (ok & w2 & E2 & E). apply sync_Some in E2 as [Hf2 _].
  injection E as <- <-. split; [congruence|]. destruct ok; cbn [negb]; [|done]. intros _.
  rewrite Z.sub_0_r, slice_0 in *. rewrite Hcat in Hd, Hlen.
  rewrite (take_ge (new_hash p)) in Hd by (unfold blen in Hh; lia). split; [|done].
  unfold blen in *. rewrite length_take in Hlen. lia.
Qed.

(** ** The directory

    Every name refers to a file that existed before [fresh_]. *)
Definition dir_ok (d : Dir) : Prop := forall nm f, entries_ d !! nm = Some f -> f < fresh_ d.
(** [kept n w w']: the files numbered below [n] have kept their bytes. *)
Definition kept (n : Z) (w w' : World) : Prop := forall f, f < n -> content w' f = content w f.
Lemma kept_refl n w : kept n w w.
Proof. done. Qed.
Lemma kept_trans n m a b c : n <= m -> kept n a b -> kept m b c -> kept n a c.
Proof. intros Hle K1 K2 f Hf. rewrite K2, K1 by lia. done. Qed.
Lemma kept_only n f w w' : n <= f -> only f w w' -> kept n w w'.
Proof. intros Hle Ho g Hg. apply Ho. lia. Qed.
Lemma kept_files n w w' : files w' = files w -> kept n w w'.
Proof. intros Hf g _. by apply content_files. Qed.
Lemma xbind_Some {A B} (m : X A) (k : A -> X B) s b s' :
  (m ≫= k) s = Some (b, s') <-> exists a s1, m s = Some (a, s1) /\ k a s1 = Some (b, s').
Proof.
  unfold mbind, X_bind. destruct (m s) as [[a s1]|]; split.
  - intros E. by exists a, s1.
  - intros (? & ? & ? & ?). by simplify_eq.
  - done.
  - intros (? & ? & ? & ?). done.
Qed.
Lemma lift_Some {A} (m : M A) d w a d' w' :
  lift m (d, w) = Some (a, (d', w')) <-> d' = d /\ m w = Some (a, w').
Proof.
  unfold lift. cbn. destruct (m w) as [[x w1]|]; split; try (by intros [-> [= <- <-]]); try (by intros []).
  - by intros [= <- <- <-].
  - done.
Qed.

(** What one validated partition may rely on. *)
Definition extractable_in (block data_size : Z) (p : PartitionUpdate) : Prop :=
  0 < block /\ 0 < new_size p < 2 ^ 63 /\ new_size p = (new_size p / block) * block /\
  blen (new_hash p) = 32 /\ Forall (op_fits (new_size p / block) block data_size) (operations p).
Lemma extraction_error_extractable p block data_size :
  fields_ok p -> is_u64 block -> is_u64 data_size -> ExtractionError p block data_size = ""%string ->
  extractable_in block data_size p.
Proof.
  intros Hf Hb Hd He%extraction_error_iff; [|done..].
  destruct He as (_ & (k & Hk & ->) & _ & Hsz & Hmod & Hh & Hops & _).
  assert (0 < 2 ^ k) by lia. unfold INT64_MAX in Hsz.
  split_and!; try done; try lia. pose proof (Z.div_mod (new_size p) (2 ^ k) ltac:(lia)). lia.
Qed.
Definition good_image (w : World) (f : Z) (p : PartitionUpdate) : Prop :=
  blen (content w f) = new_size p /\ SHA256 (content w f) = new_hash p.
Lemma good_image_kept n w w' f p : kept n w w' -> f < n -> good_image w f p -> good_image w' f p.
Proof. intros Hk Hf [Hl Hs]. unfold good_image. by rewrite Hk. Qed.
Lemma create_file_Some nm d w r d' w' : dir_ok d -> create_file nm (d, w) = Some (r, (d', w')) ->
  dir_ok d' /\ kept (fresh_ d) w w' /\
  ((r = None /\ entries_ d' = entries_ d /\ fresh_ d' = fresh_ d) \/
   (r = Some (fresh_ d) /\ entries_ d !! nm = None /\
    entries_ d' = <[nm := fresh_ d]> (entries_ d) /\ fresh_ d' = fresh_ d + 1)).
Proof.
  intros Hd. unfold create_file. destruct (creates_ d) as [|ok rest]; [done|].
  destruct (negb ok || _) eqn:C; intros [= <- <- <-].
  - split; [done|]. split; [done|]. by left.
  - apply orb_false_iff in C as [_ C]. bool_facts. apply eq_None_not_Some in C. split.
    + intros n f. cbn [entries_ fresh_]. rewrite lookup_insert_Some. intros [[_ <-]|[_ Hl]]; [lia|].
      apply Hd in Hl. lia.
    + split; [intros f Hf; apply content_set_ne; lia|]. right. done.
Qed.
Lemma ftruncate64_Some fd n d w ok d' w' : 0 <= n -> ftruncate64 fd n (d, w) = Some (ok, (d', w')) ->
  entries_ d' = entries_ d /\ fresh_ d' = fresh_ d /\ only fd w w' /\ (ok = true -> blen (content w' fd) = n).
Proof.
  intros Hn. unfold ftruncate64. destruct (truncates_ d) as [|k rest]; [done|]. intros [= <- <- <-].
  split; [done|]. split; [done|]. destruct k; [|by split; [apply only_refl|]].
  split; [intros g Hg; by apply content_set_ne|]. intros _. rewrite content_set. unfold blen.
  rewrite length_replicate. lia.
Qed.

Section Extract.
Context (v : Validated) (data_size : Z).
Lemma extract_image_sound p created d w cr r d' w' :
  dir_ok d -> v_fd v < fresh_ d -> bytes_ok (content w (v_fd v)) ->
  extractable_in (v_block v) data_size p ->
  extract_image v p created (d, w) = Some ((cr, r), (d', w')) ->
  dir_ok d' /\ fresh_ d <= fresh_ d' /\ kept (fresh_ d) w w' /\ r ≠ Fault /\
  ((cr = created /\ entries_ d' = entries_ d /\ r ≠ Done ()) \/
   (cr = created ++ [image_file p] /\ entries_ d !! image_file p = None /\
    entries_ d' = <[image_file p := fresh_ d]> (entries_ d) /\ fresh_ d' = fresh_ d + 1 /\
    (r = Done () -> good_image w' (fresh_ d) p))).
Proof.
  intros Hd Hfd Hok (Hb & Hsz & Hmul & Hh & Hops) ([f|] & [d1 w1] & E1 & E)%xbind_Some;
    apply create_file_Some in E1 as (Hd1 & Hk1 & [(? & ? & ?)|(Hf & Hnone & He1 & Hf1)]); try done.
  2:{ injection E as <- <- <- <-. split_and!; try done; [lia|]. left. split_and!; congruence. }
  injection Hf as ->. apply xbind_Some in E as (ok & [d2 w2] & E2 & E).
  apply ftruncate64_Some in E2 as (He2 & Hf2 & Ho2 & Hlen); [|lia].
  assert (Hd2 : dir_ok d2) by (intros n g; rewrite He2, Hf2; apply Hd1).
  assert (Hk2 : kept (fresh_ d) w w2) by (eapply kept_trans; [|done|by eapply kept_only]; lia).
  destruct ok; cbn [negb] in E.
  2:{ injection E as <- <- <- <-. split_and!; try done; [lia|]. right. split_and!; try done; congruence. }
  specialize (Hlen eq_refl). apply xbind_Some in E as (x & [d3 w3] & E3 & E).
  apply lift_Some in E3 as [-> E3]. rewrite Hmul in Hlen.
  eapply (extract_operations_frame _ _ _ _ _ _ (new_size p / v_block v) data_size) in E3 as (Ho3 & Hl3 & Hx); [|done|lia|lia|exact Hops| |done].
  2:{ rewrite Hk2 by done. done. }
  assert (Hk3 : kept (fresh_ d) w w3) by (eapply kept_trans; [|done|by eapply kept_only]; lia).
  destruct x as [u|why|]; [|injection E as <- <- <- <-; split_and!; try done; [lia|]; right;
    split_and!; try done; congruence|done].
  apply xbind_Some in E as (e & [d4 w4] & E4 & E). apply lift_Some in E4 as [-> E4].
  apply verify_extracted_sound in E4 as [Hf4 Hgood]; [|lia|done]. injection E as <- <- <- <-.
  split_and!; try done; [lia|eapply kept_trans; [|done|by apply (kept_files (fresh_ d))]; lia|by destruct e|].
  right. split_and!; try done; [congruence|lia|]. intros Hr. destruct e; [done|].
  destruct (Hgood eq_refl) as [Hge Hsha]. unfold good_image. rewrite (content_files w3 w4) by done.
  rewrite <- Hmul in Hl3. split; [done|]. rewrite take_ge in Hsha; [done|]. unfold blen in Hl3. lia.
Qed.
Lemma foldr_delete_subseteq (m : gmap string Z) l : foldr delete m l ⊆ m.
Proof. induction l as [|x l IH]; simpl; [done|]. etrans; [apply delete_subseteq|done]. Qed.
Lemma extract_images_sound ps : Forall (extractable_in (v_block v) data_size) ps ->
  forall created d w cr r d' w',
  dir_ok d -> v_fd v < fresh_ d -> bytes_ok (content w (v_fd v)) ->
  extract_images v ps created (d, w) = Some ((cr, r), (d', w')) ->
  fresh_ d <= fresh_ d' /\ kept (fresh_ d) w w' /\ r ≠ Fault /\
  (exists added, cr = created ++ added /\ foldr delete (entries_ d') added = entries_ d) /\
  (r = Done () -> Forall (fun p => exists f, entries_ d' !! image_file p = Some f /\
     fresh_ d <= f < fresh_ d' /\ good_image w' f p) ps).
Proof.
  induction 1 as [|p ps Hp Hps IH]; intros created d w cr r d' w' Hd Hfd Hok E; cbn [extract_images] in E.
  { injection E as <- <- <- <-. split_and!; try done. exists []. by rewrite app_nil_r. }
  apply xbind_Some in E as ([cr1 r1] & [d1 w1] & E1 & E).
  eapply extract_image_sound in E1 as (Hd1 & Hle & Hk & Hnf & Hcase); [|done..].
  destruct r1 as [[]|why|]; [| |done].
  - destruct Hcase as [(_ & _ & ?)|(-> & Hnone & He & Hf & Hgood)]; [done|]. specialize (Hgood eq_refl).
    apply IH in E as (Hle' & Hk' & Hnf' & (added & -> & Hdel) & Hdone); [|done|lia|by rewrite Hk].
    split; [lia|]. split; [by eapply kept_trans|]. split; [done|]. split.
    + exists (image_file p :: added). split; [by rewrite <- app_assoc|]. cbn [foldr].
      rewrite Hdel, He. by apply delete_insert_id.
    + intros Hr. constructor.
      * exists (fresh_ d). split; [|split; [lia|]].
        -- eapply lookup_weaken; [|apply foldr_delete_subseteq with (l := added)].
           rewrite Hdel, He. apply lookup_insert_eq.
        -- eapply good_image_kept; [exact Hk'|lia|done].
      * eapply Forall_impl; [exact (Hdone Hr)|]. intros q (f & ? & ? & ?). exists f. split_and!; try done; lia.
  - injection E as <- <- <- <-. split_and!; try done.
    destruct Hcase as [(-> & He & _)|(-> & Hnone & He & Hf & _)].
    + exists []. by rewrite app_nil_r.
    + exists [image_file p]. split; [done|]. cbn [foldr]. rewrite He. by apply delete_insert_id.
Qed.
End Extract.

Lemma check_image_sound env p s r s' : 0 <= new_size p -> blen (new_hash p) = 32 ->
  check_image env p s = Some (r, s') ->
  s'.1 = s.1 /\ files s'.2 = files s.2 /\ r ≠ Fault /\
  (r = Done () -> exists f, entries_ s.1 !! image_file p = Some f /\ good_image s.2 f p).
Proof.
  intros Hn Hh. unfold check_image. destruct (entries_ s.1 !! image_file p) as [f|] eqn:Hf; [|by intros [= <- <-]].
  destruct (_ || _) eqn:C; [by intros [= <- <-]|]. bool_facts. destruct s as [d w], s' as [d' w']. cbn [fst snd] in *.
  intros (e & [d1 w1] & E1 & E)%xbind_Some. apply lift_Some in E1 as [-> E1].
  apply verify_extracted_sound in E1 as [Hfs Hgood]; [|done..]. injection E as <- <- <-.
  split; [done|]. split; [done|]. split; [by destruct e|]. destruct e; [done|]. intros _.
  exists f. split; [done|]. destruct (Hgood eq_refl) as [_ Hsha]. split; [done|].
  rewrite take_ge in Hsha; [done|]. unfold blen in *. lia.
Qed.
Lemma check_images_sound env ps : Forall (fun p => 0 <= new_size p /\ blen (new_hash p) = 32) ps ->
  forall s r s', check_images env ps s = Some (r, s') ->
  s'.1 = s.1 /\ files s'.2 = files s.2 /\ r ≠ Fault /\
  (r = Done () -> Forall (fun p => exists f, entries_ s.1 !! image_file p = Some f /\ good_image s.2 f p) ps).
Proof.
  induction 1 as [|p ps [Hn Hh] Hps IH]; intros s r s' E; cbn [check_images] in E; [by injection E as <- <-|].
  apply xbind_Some in E as (x & s1 & E1 & E). apply check_image_sound in E1 as (Hd & Hf & Hx & Hgood); [|done..].
  destruct x as [[]|why|]; [|by injection E as <- <-|done].
  apply IH in E as (Hd' & Hf' & Hr & Hall). split; [congruence|]. split; [congruence|]. split; [done|].
  intros Hdone. constructor; [by apply Hgood|]. eapply Forall_impl; [exact (Hall Hdone)|].
  intros q (f & Hl & Hg). rewrite Hd in Hl. exists f. split; [done|].
  unfold good_image in *. by rewrite <- (content_files s.2 s1.2 f Hf).
Qed.

Lemma reviewed_extractable package hash names w v manifest data_size : is_u64 data_size ->
  reviewed package hash names w v manifest data_size ->
  Forall (extractable_in (v_block v) data_size) (v_partitions v).
Proof.
  intros Hds (_ & (bytes & _ & Hm & _) & -> & Hall & _). destruct (parse_fields _ _ Hm) as [Hb Hf].
  eapply Forall_impl; [exact Hall|]. intros p [Hin He]. rewrite Forall_forall in Hf.
  apply extraction_error_extractable; auto.
Qed.
(** The selected images of a reviewed manifest, as files of a directory. *)
Definition images_present (hash : list Z) (names : list string) (d : Dir) (w : World) : Prop :=
  exists bytes manifest, SHA256 bytes = hash /\ ParseManifest bytes = Some manifest /\
    forall nm, nm ∈ names -> exists p f, p ∈ partitions manifest /\ partition_name p = nm /\
      entries_ d !! (nm ++ ".img")%string = Some f /\ good_image w f p.
Lemma images_present_intro package hash names w0 v manifest data_size d w :
  reviewed package hash names w0 v manifest data_size ->
  Forall (fun p => exists f, entries_ d !! image_file p = Some f /\ good_image w f p) (v_partitions v) ->
  images_present hash names d w.
Proof.
  intros (_ & (bytes & Hh & Hm & _) & _ & Hall & _ & _ & Hnames) Hgood. exists bytes, manifest.
  split; [done|]. split; [done|]. intros nm Hnm. destruct (Hnames nm Hnm) as (p & Hp & <-).
  rewrite Forall_forall in Hgood, Hall. destruct (Hgood p Hp) as (f & Hf & Hg).
  exists p, f. split; [by apply Hall|]. done.
Qed.
Lemma extract_all_native env v names directory d w r d' w' data_size :
  ripper_ env = Absent -> dir_ok d -> v_fd v < fresh_ d -> bytes_ok (content w (v_fd v)) ->
  Forall (extractable_in (v_block v) data_size) (v_partitions v) ->
  extract_all env v names directory (d, w) = Some (r, (d', w')) ->
  kept (fresh_ d) w w' /\ r ≠ Fault /\
  (forall e, r = Refused e -> entries_ d' = entries_ d) /\
  (r = Done () -> Forall (fun p => exists f, entries_ d' !! image_file p = Some f /\ good_image w' f p) (v_partitions v)).
Proof.
  intros Hr Hd Hfd Hok Hall. unfold extract_all. destruct (space_ env) as [available|]; [|by intros [= <- <- <-]].
  destruct (_ <? _); [by intros [= <- <- <-]|]. rewrite Hr.
  intros ([cr x] & [d1 w1] & E1 & E)%xbind_Some.
  eapply extract_images_sound in E1 as (_ & Hk & Hx & (added & Hcr & Hdel) & Hdone); [|done..].
  cbn [app] in Hcr. subst cr. destruct x as [[]|why|]; [| |done].
  - injection E as <- <- <-. split_and!; try done. intros _. eapply Forall_impl; [exact (Hdone eq_refl)|].
    intros p (f & ? & _ & ?). eauto.
  - apply xbind_Some in E as (u & [d2 w2] & E2 & E). injection E2 as _ <- <-. injection E as <- <- <-.
    split_and!; [done..| |done]. intros e _. exact Hdel.
Qed.
Lemma extract_all_verified env v names directory s r s' data_size :
  (ripper_ env = Absent -> dir_ok s.1 /\ v_fd v < fresh_ s.1 /\ bytes_ok (content s.2 (v_fd v))) ->
  Forall (extractable_in (v_block v) data_size) (v_partitions v) ->
  extract_all env v names directory s = Some (r, s') -> r = Done () ->
  Forall (fun p => exists f, entries_ s'.1 !! image_file p = Some f /\ good_image s'.2 f p) (v_partitions v).
Proof.
  intros Hnat Hall E Hdone. destruct (ripper_ env) as [| |run] eqn:Hr.
  - destruct (Hnat eq_refl) as (Hd & Hfd & Hok). destruct s as [d w], s' as [d' w'].
    eapply extract_all_native in E as (_ & _ & _ & H'); [by apply H'|done..].
  - unfold extract_all in E. destruct (space_ env); [|by injection E as <- <-].
    rewrite Hr in E. if_in E C; by injection E as <- <-.
  - unfold extract_all in E. destruct (space_ env); [|by injection E as <- <-].
    rewrite Hr in E. if_in E C; [by injection E as <- <-|]. if_in E C1; [by injection E as <- <-|].
    apply xbind_Some in E as (empty & s1 & _ & E). if_in E C2; [by injection E as <- <-|].
    apply xbind_Some in E as ([e|] & s2 & _ & E);
      [apply xbind_Some in E as (u & s3 & _ & E); injection E as <- <-; done|].
    apply xbind_Some in E as (x & s3 & E3 & E). apply check_images_sound in E3 as (Hd3 & Hf3 & Hx & Hgood).
    2:{ eapply Forall_impl; [exact Hall|]. intros p (_ & ? & _ & ? & _). split; [lia|done]. }
    destruct x as [[]|why|]; [| |done].
    + injection E as <- <-. rewrite Hd3. eapply Forall_impl; [exact (Hgood eq_refl)|].
      intros p (f & Hf & Hg). exists f. split; [done|]. unfold good_image in *.
      by rewrite (content_files s2.2 s3.2 f Hf3).
    + apply xbind_Some in E as (u & s4 & _ & E). injection E as <- <-. done.
Qed.

(** C27: when ExtractImages succeeds, the package's manifest has the reviewed
    digest and every selected partition is a file of the directory with the
    size and the SHA-256 that manifest states, whichever program wrote it,
    and even if the kernel lost writes. *)
Theorem extract_images_verified env package hash names directory d w d' w' :
  (ripper_ env = Absent -> dir_ok d /\ forall fd node, package = Some (fd, node) ->
     fd < fresh_ d /\ bytes_ok (content w fd)) ->
  ExtractImages env package hash names directory (d, w) = Some (Done (), (d', w')) ->
  images_present hash names d' w'.
Proof.
  intros Hnat (checked & [d1 w1] & E1 & E)%xbind_Some. apply lift_Some in E1 as [-> E1].
  apply validate_sound in E1 as [Hf Hv]. destruct checked as [e|v]; [by injection E as ?|].
  destruct (Hv v eq_refl) as (manifest & ds & Hds & Hrev).
  eapply images_present_intro; [exact Hrev|].
  eapply (extract_all_verified env v names directory (d, w1) (Done ()) (d', w') ds); [|by eapply reviewed_extractable|done..].
  intros Ha. destruct (Hnat Ha) as [Hd Hp]. destruct Hrev as [[node Hpk] _].
  destruct (Hp _ _ Hpk) as [Hlt Hok]. split; [done|]. split; [done|]. by rewrite (content_files w w1).
Qed.

(** Without Otaripper, extraction never faults and never touches a file
    that existed before, and when it fails the directory is as it was: every
    file it created is removed again. *)
Theorem extract_images_rollback env package hash names directory d w r d' w' :
  ripper_ env = Absent -> dir_ok d ->
  (forall fd node, package = Some (fd, node) -> fd < fresh_ d /\ bytes_ok (content w fd)) ->
  ExtractImages env package hash names directory (d, w) = Some (r, (d', w')) ->
  (forall f, f < fresh_ d -> content w' f = content w f) /\ r ≠ Fault /\
  (forall e, r = Refused e -> entries_ d' = entries_ d).
Proof.
  intros Ha Hd Hp (checked & [d1 w1] & E1 & E)%xbind_Some. apply lift_Some in E1 as [-> E1].
  apply validate_sound in E1 as [Hf Hv]. destruct checked as [e|v].
  { injection E as <- <- <-. split; [|done]. intros f _. by apply content_files. }
  destruct (Hv v eq_refl) as (manifest & ds & Hds & Hrev).
  pose proof (reviewed_extractable _ _ _ _ _ _ _ Hds Hrev) as Hx.
  destruct Hrev as [[node Hpk] _]. destruct (Hp _ _ Hpk) as [Hlt Hok].
  eapply extract_all_native in E as (Hk & Hr & Hrb & _); [|done..|by rewrite (content_files w w1)|done].
  split; [|done]. intros f Hfl. rewrite Hk by done. by apply content_files.
Qed.

(** C30: a direct transaction reaches the writer only after the complete
    check of the selection: otherwise nothing has changed; and then the
    writer gets the descriptor of the very package whose manifest has the
    reviewed digest, with every selected partition extractable. *)
Theorem with_validated_payload_gate env package hash names write d w r s' :
  WithValidatedPayload env package hash names (Some write) (d, w) = Some (r, s') ->
  (exists e w', r = Refused e /\ s' = (d, w') /\ files w' = files w) \/
  (exists v manifest data_size w1 e,
     is_u64 data_size /\ reviewed package hash names w v manifest data_size /\
     Forall (extractable_in (v_block v) data_size) (v_partitions v) /\ files w1 = files w /\
     write (v_fd v) (d, w1) = Some (e, s') /\ r = match e with None => Done () | Some e => Refused e end).
Proof.
  intros (checked & [d1 w1] & E1 & E)%xbind_Some. apply lift_Some in E1 as [-> E1].
  apply validate_sound in E1 as [Hf Hv]. destruct checked as [e|v].
  { injection E as <- <-. left. by exists e, w1. }
  destruct (Hv v eq_refl) as (manifest & ds & Hds & Hrev). right.
  apply xbind_Some in E as (e & s1 & E2 & E). injection E as <- <-.
  exists v, manifest, ds, w1, e. split_and!; try done. by eapply reviewed_extractable.
Qed.
End Sound.

(** ** Concrete runs: one partition of two blocks, the first one zero *)
#[local] Instance demo_decoders : Decoders := {
  bz2 _ _ := None; zstd _ _ := (false, []); xz_state := unit; xz_init := None;
  xz_run st _ _ := (XzError, 0, [], st) }.
#[local] Instance demo_decoders_laws : DecodersLaws demo_decoders.
Proof.
  split.
  - intros input room out _ [=].
  - intros input room Hr. split; [done|apply Forall_nil_2].
  - intros st input room r c p st' Hr [= <- <- <- <-]. pose proof (blen_nonneg input).
    split; [lia|]. split; [done|apply Forall_nil_2].
Qed.
#[local] Instance demo_sha : Sha256 := { SHA256 bytes := replicate 32 (u8 (foldr Z.add 0 bytes)) }.
#[local] Instance demo_stream : ShaStream := {
  sha_ctx := list Z; SHA256_Init := []; SHA256_Update ctx bs := ctx ++ bs; SHA256_Final ctx := SHA256 ctx }.
#[local] Instance demo_stream_laws : ShaStreamLaws demo_sha demo_stream.
Proof.
  split. intros chunks. change (SHA256_Final (foldl SHA256_Update [] chunks) = SHA256 (concat chunks)).
  enough (forall l : list Z, foldl SHA256_Update l chunks = l ++ concat chunks) as -> by done.
  induction chunks as [|c chunks IH]; intros l; simpl; [by rewrite app_nil_r|]. by rewrite IH, <- app_assoc.
Qed.
Definition demo_partition : PartitionUpdate := MkPartition "boot" 4 (replicate 32 15)
  [MkOperation 0 0 2 (Some (replicate 32 15)) [MkExtent 1 1] 0 false;
   MkOperation 6 0 0 None [MkExtent 0 1] 0 false] false.
Definition demo_manifest : Manifest := MkManifest 2 [demo_partition] (MkDetails 0 false 0 "" None).
#[local] Instance demo_packages : Packages := {
  archive := unit; OpenArchiveFd _ := Some tt;
  FindEntry _ _ := Some (MkZipEntry 0 0 0 27 27 0 0);
  ParseManifest _ := Some demo_manifest }.
Lemma demo_fields : fields_ok demo_partition.
Proof.
  split; [done|]. repeat constructor; simpl; lia.
Qed.
#[local] Instance demo_packages_laws : PackagesLaws demo_packages.
Proof.
  split. intros bytes m [= <-]. split; [done|]. apply Forall_cons. split; [apply demo_fields|by apply Forall_nil].
Qed.
(** Magic, version 2, a manifest of one byte, no signature, two data bytes. *)
Definition demo_package : list Z :=
  [67; 114; 65; 85] ++ replicate 7 0 ++ [2] ++ replicate 7 0 ++ [1] ++ replicate 4 0 ++ [9] ++ [7; 8].
Definition demo_world : World := MkWorld (replicate 8 (Upto 100)) [true] {[3 := demo_package]}.
Definition demo_dir : Dir := MkDir ∅ 10 [true] [true].
Definition demo_env : Env := MkEnv (Some (2 ^ 30)) true true (fun _ => true) (fun _ => 1) Absent 1.
Definition demo_pkg : option (Z * Node) := Some (3, MkNode (Some (MkStat false true 0 27)) None).
Lemma demo_bytes_ok fd node : demo_pkg = Some (fd, node) -> fd < 10 /\ bytes_ok (content demo_world fd).
Proof.
  intros [= <- _]. split; [lia|]. apply (bool_decide_unpack (Forall _ _)). vm_compute. exact I.
Qed.
Lemma demo_dir_ok d : entries_ d = ∅ -> dir_ok d.
Proof. intros E nm f. rewrite E. by rewrite lookup_empty. Qed.

Lemma extraction_error_exact_witness : ExtractionError demo_partition 2 2 = ""%string /\
  holders 0 (op_extents demo_partition) = 1%nat /\ holders 1 (op_extents demo_partition) = 1%nat.
Proof.
  assert (E : ExtractionError demo_partition 2 2 = ""%string) by (vm_compute; reflexivity).
  split; [exact E|].
  destruct (proj1 (extraction_error_exact demo_partition 2 2 demo_fields ltac:(split; [lia|reflexivity])
    ltac:(split; [lia|reflexivity])) E) as (_ & _ & _ & _ & _ & _ & _ & _ & es & _ & _ & Hh).
  split; apply Hh.
Defined.
Lemma extract_images_verified_witness : exists d' w',
  ExtractImages demo_env demo_pkg (replicate 32 9) ["boot"%string] "/x" (demo_dir, demo_world)
    = Some (Done (), (d', w')) /\ images_present (replicate 32 9) ["boot"%string] d' w'.
Proof.
  destruct (ExtractImages demo_env demo_pkg (replicate 32 9) ["boot"%string] "/x" (demo_dir, demo_world))
    as [[[[]|e|] [d' w']]|] eqn:E; [|vm_compute in E; discriminate E..].
  exists d', w'. split; [reflexivity|].
  apply (extract_images_verified demo_env demo_pkg (replicate 32 9) ["boot"%string] "/x" demo_dir demo_world d' w');
    [|exact E]. intros _. split; [apply demo_dir_ok; reflexivity|apply demo_bytes_ok].
Defined.
(** The digest of the image is not the one the manifest states. *)
Definition tampered_world : World :=
  MkWorld (replicate 8 (Upto 100)) [true] {[3 := take 25 demo_package ++ [7; 9]]}.
Lemma extract_images_rollback_witness : exists r d' w',
  ExtractImages demo_env demo_pkg (replicate 32 9) ["boot"%string] "/x" (demo_dir, tampered_world)
    = Some (r, (d', w')) /\ r ≠ Done () /\ entries_ d' = ∅.
Proof.
  destruct (ExtractImages demo_env demo_pkg (replicate 32 9) ["boot"%string] "/x" (demo_dir, tampered_world))
    as [[r [d' w']]|] eqn:E; [|vm_compute in E; discriminate E].
  exists r, d', w'. split; [reflexivity|].
  assert (Hr : exists e, r = Refused e) by (vm_compute in E; injection E as <- _ _; eexists; reflexivity).
  destruct Hr as [e ->]. split; [discriminate|].
  destruct (extract_images_rollback demo_env demo_pkg (replicate 32 9) ["boot"%string] "/x" demo_dir tampered_world
    (Refused e) d' w') as (_ & _ & H); [reflexivity|apply demo_dir_ok; reflexivity| |exact E|exact (H e eq_refl)].
  intros fd node [= <- _]. split; [reflexivity|]. apply (bool_decide_unpack (Forall _ _)). vm_compute. exact I.
Defined.
Lemma with_validated_payload_gate_witness : exists r s',
  WithValidatedPayload demo_env demo_pkg (replicate 32 9) ["boot"%string] (Some (fun _ s => Some (None, s)))
    (demo_dir, demo_world) = Some (r, s') /\
  ((exists e w', r = Refused e /\ s' = (demo_dir, w') /\ files w' = files demo_world) \/
   exists v manifest data_size, reviewed demo_pkg (replicate 32 9) ["boot"%string] demo_world v manifest data_size).
Proof.
  destruct (WithValidatedPayload demo_env demo_pkg (replicate 32 9) ["boot"%string] (Some (fun _ s => Some (None, s)))
    (demo_dir, demo_world)) as [[r s']|] eqn:E; [|vm_compute in E; discriminate E].
  exists r, s'. split; [reflexivity|].
  destruct (with_validated_payload_gate _ _ _ _ _ _ _ _ _ E) as [H|(v & m & ds & w1 & e & _ & H & _)];
    [left; exact H|right; exists v, m, ds; exact H].
Defined.
