(* ===== verification/SparseImage.v ===== *)
(** aeraui/features/update/image_zip.cpp, class ImageWriter: the streaming
    decoder that turns the entries of an image archive, raw or in Android's
    sparse format, into image files.

    The decoder receives its input in pieces of any size. It is written here
    over an abstract sink, so that it can be run both with the real sink (a
    file, SHA-256 and CRC-32) and with a plain list of bytes. zlib's crc32 is
    the class [Zlib]. *)
From stdpp Require Import base list strings.
From Stdlib Require Import ZArith Lia.
From S2P Require Import Prelude Kernel Abl PayloadTargets.

Class Zlib := { crc32 : Z -> list Z -> Z }.
(** The checksum of the whole is that of the parts, in order. *)
Class ZlibLaws `(L : Zlib) : Prop := {
  crc32_nil : crc32 0 [] = 0;
  crc32_app c a b : crc32 c (a ++ b) = crc32 (crc32 c a) b
}.

(** ** The parser's state *)
Inductive State := Raw | Header | SkipHeader | Chunk | SkipChunk | Data | Fill | Crc.
#[global] Instance State_eq_dec : EqDecision State.
Proof. solve_decision. Defined.
Record Parse := MkParse {
  state_ : State; need_ : Z; buffer_ : list Z; remaining_ : Z;
  chunk_bytes_ : Z; chunk_type_ : Z; chunk_header_ : Z;
  block_ : Z; total_chunks_ : Z; chunks_ : Z; image_crc_ : Z }.
Definition with_input (p : Parse) (st : State) (need : Z) (buffer : list Z) (remaining : Z) : Parse :=
  MkParse st need buffer remaining (chunk_bytes_ p) (chunk_type_ p) (chunk_header_ p)
    (block_ p) (total_chunks_ p) (chunks_ p) (image_crc_ p).
Definition with_chunk (p : Parse) (bytes type : Z) : Parse :=
  MkParse (state_ p) (need_ p) (buffer_ p) (remaining_ p) bytes type (chunk_header_ p)
    (block_ p) (total_chunks_ p) (chunks_ p) (image_crc_ p).
Definition with_header (p : Parse) (chunk_header block total crc : Z) : Parse :=
  MkParse (state_ p) (need_ p) (buffer_ p) (remaining_ p) (chunk_bytes_ p) (chunk_type_ p)
    chunk_header block total (chunks_ p) crc.
(** The constructor of ImageWriter. *)
Definition initial (sparse : bool) : Parse :=
  MkParse (if sparse then Header else Raw) (if sparse then 28 else 0) [] 0 0 0 0 0 0 0 0.
Definition NextChunk (p : Parse) : Parse :=
  MkParse Chunk 12 [] (remaining_ p) (chunk_bytes_ p) (chunk_type_ p) (chunk_header_ p)
    (block_ p) (total_chunks_ p) (u32 (chunks_ p + 1)) (image_crc_ p).

(** The array of Repeat: four bytes over and over. *)
Definition pattern (fill : list Z) (n : Z) : list Z :=
  (fun i => nth (i mod 4) fill 0) <$> seq 0 (Z.to_nat n).
Definition repeat_block : Z := 65536.

(** The bytes of a chunk after its header, by its type. *)
Definition chunk_payload (type chunk_bytes : Z) : option Z :=
  if type =? 0xcac1 then Some chunk_bytes
  else if (type =? 0xcac2) || (type =? 0xcac4) then Some 4
  else if type =? 0xcac3 then Some 0
  else None.

Section Decoder.
Context {Sink : Type}.
Variable Output : list Z -> Sink -> option Sink.   (* [None] when it returns false *)
Variable output_crc written : Sink -> Z.
Variable part_bytes : Z.

Fixpoint Repeat (fuel : nat) (bytes : Z) (fill : list Z) (s : Sink) : option Sink :=
  if bytes =? 0 then Some s
  else match fuel with
  | O => None
  | S fuel =>
      let n := Z.min bytes repeat_block in
      s ← Output (pattern fill n) s;
      Repeat fuel (bytes - n) fill s
  end.
Definition repeat_fuel (bytes : Z) : nat := Z.to_nat (bytes / repeat_block + 1).
Definition BeginData (p : Parse) (s : Sink) : option (Parse * Sink) :=
  let p := with_input p (state_ p) (need_ p) [] (remaining_ p) in
  if chunk_type_ p =? 0xcac1 then Some (with_input p Data (need_ p) [] (chunk_bytes_ p), s)
  else if chunk_type_ p =? 0xcac2 then Some (with_input p Fill 4 [] (remaining_ p), s)
  else if chunk_type_ p =? 0xcac3 then
    s ← Repeat (repeat_fuel (chunk_bytes_ p)) (chunk_bytes_ p) [0; 0; 0; 0] s;
    Some (NextChunk p, s)
  else if chunk_type_ p =? 0xcac4 then Some (with_input p Crc 4 [] (remaining_ p), s)
  else None.
(** What a complete buffer means, by state. *)
Definition header_complete (p : Parse) (b : list Z) : option Parse :=
  magic ← rd32 b 0; major ← rd16 b 4; file_hdr ← rd16 b 8; chunk_hdr ← rd16 b 10;
  block ← rd32 b 12; blocks ← rd32 b 16; chunks ← rd32 b 20; crc ← rd32 b 24;
  if negb (magic =? 0xed26ff3a) || negb (major =? 1) || (file_hdr <? 28) || (1024 <? file_hdr) ||
     (chunk_hdr <? 12) || (1024 <? chunk_hdr) then None
  else if (block =? 0) || negb (block mod 4 =? 0) || (2 ^ 20 <? block) || (chunks =? 0) ||
     (10000000 <? chunks) || negb (block * blocks =? part_bytes) then None
  else
  let remaining := file_hdr - 28 in
  Some (with_input (with_header p chunk_hdr block chunks crc)
          (if remaining =? 0 then Chunk else SkipHeader) 12 [] remaining).
Definition chunk_complete (p : Parse) (b : list Z) (s : Sink) : option (Parse * Sink) :=
  if total_chunks_ p <=? chunks_ p then None
  else
  type ← rd16 b 0; n ← rd32 b 4; size ← rd32 b 8;
  let chunk_bytes := n * block_ p in
  if u64 (part_bytes - written s) <? chunk_bytes then None
  else
  payload ← chunk_payload type chunk_bytes;
  if (if type =? 0xcac4 then negb (chunk_bytes =? 0) else chunk_bytes =? 0) ||
     negb (size =? chunk_header_ p + payload) then None
  else
  let remaining := chunk_header_ p - 12 in
  let p := with_chunk p chunk_bytes type in
  if negb (remaining =? 0) then Some (with_input p SkipChunk (need_ p) [] remaining, s)
  else BeginData (with_input p Chunk (need_ p) [] remaining) s.
Definition buffer_complete (p : Parse) (s : Sink) : option (Parse * Sink) :=
  let b := buffer_ p in
  match state_ p with
  | Header => p ← header_complete p b; Some (p, s)
  | Chunk => chunk_complete p b s
  | Fill =>
      s ← Repeat (repeat_fuel (chunk_bytes_ p)) (chunk_bytes_ p) b s;
      Some (NextChunk p, s)
  | Crc => v ← rd32 b 0; if negb (v =? output_crc s) then None else Some (NextChunk p, s)
  | _ => Some (p, s)
  end.
(** One round of the loop of Append on a non-empty input: how many bytes it
    takes, at least one. *)
Definition round (data : list Z) (p : Parse) (s : Sink) : option (nat * (Parse * Sink)) :=
  match state_ p with
  | Raw => s ← Output data s; Some (length data, (p, s))
  | Data =>
      let n := Z.to_nat (Z.min (blen data) (remaining_ p)) in
      s ← Output (take n data) s;
      let left := remaining_ p - Z.of_nat n in
      let p := with_input p Data (need_ p) (buffer_ p) left in
      Some (n, (if left =? 0 then NextChunk p else p, s))
  | SkipHeader | SkipChunk =>
      let n := Z.to_nat (Z.min (blen data) (remaining_ p)) in
      let left := remaining_ p - Z.of_nat n in
      let p := with_input p (state_ p) (need_ p) (buffer_ p) left in
      r ← (if negb (left =? 0) then Some (p, s)
           else if bool_decide (state_ p = SkipHeader) then Some (with_input p Chunk 12 (buffer_ p) left, s)
           else BeginData p s);
      Some (n, r)
  | Header | Chunk | Fill | Crc =>
      let n := Z.to_nat (Z.min (blen data) (need_ p - blen (buffer_ p))) in
      let p := with_input p (state_ p) (need_ p) (buffer_ p ++ take n data) (remaining_ p) in
      r ← (if negb (blen (buffer_ p) =? need_ p) then Some (p, s) else buffer_complete p s);
      Some (n, r)
  end.
Fixpoint append_loop (fuel : nat) (data : list Z) (p : Parse) (s : Sink) : option (Parse * Sink) :=
  match data with
  | [] => Some (p, s)
  | _ =>
      match fuel with
      | O => None
      | S fuel => r ← round data p s; append_loop fuel (drop r.1 data) r.2.1 r.2.2
      end
  end.
Definition decode (data : list Z) (p : Parse) (s : Sink) : option (Parse * Sink) :=
  append_loop (length data) data p s.
End Decoder.

(** ** The writer *)
Record FileSink `{ShaStream} := MkFileSink {
  written_ : Z; output_crc_ : Z; hash_ : sha_ctx; file_ : list Z;
  writes_ : list Answer                (* the kernel's answers to the next writes *) }.
(** The fields of Partition that the writer reads, and of the ZIP entry. *)
Record ImagePart := MkImagePart { part_size : Z; part_sparse : bool }.
Record ImageEntry := MkImageEntry { entry_length : Z; entry_crc32 : Z }.

Section Writer.
Context `{ShaStream} `{Zlib}.
Record ImageWriter := MkWriter {
  w_parse : Parse; w_sink : FileSink; encoded_ : Z; encoded_crc_ : Z }.
Definition Output (part : ImagePart) (data : list Z) (s : FileSink) : option FileSink :=
  if u64 (part_size part - written_ s) <? blen data then None
  else
  let hash := SHA256_Update (hash_ s) data in
  let crc := if part_sparse part then crc32 (output_crc_ s) data else output_crc_ s in
  r ← write_all (writes_ s) (file_ s) data;
  Some (MkFileSink _ (u64 (written_ s + blen data)) crc hash r.1 r.2).
Definition new_writer (part : ImagePart) (answers : list Answer) : ImageWriter :=
  MkWriter (initial (part_sparse part)) (MkFileSink _ 0 0 SHA256_Init [] answers) 0 0.
Definition Append (part : ImagePart) (data : list Z) (w : ImageWriter) : option ImageWriter :=
  r ← decode (Output part) output_crc_ written_ (part_size part) data (w_parse w) (w_sink w);
  Some (MkWriter r.1 r.2 (u64 (encoded_ w + blen data)) (crc32 (encoded_crc_ w) data)).
Definition Finish (part : ImagePart) (entry : ImageEntry) (w : ImageWriter) : option (list Z) :=
  let p := w_parse w in let s := w_sink w in
  if negb (encoded_ w =? entry_length entry) || negb (encoded_crc_ w =? entry_crc32 entry) ||
     negb (written_ s =? part_size part) ||
     (part_sparse part && (negb (bool_decide (state_ p = Chunk)) || negb (bool_decide (buffer_ p = [])) ||
       negb (chunks_ p =? total_chunks_ p) ||
       (negb (image_crc_ p =? 0) && negb (image_crc_ p =? output_crc_ s))))
  then None
  else Some (SHA256_Final (hash_ s)).
(** ProcessZipEntryContents hands over the entry piece by piece. *)
Fixpoint append_all (part : ImagePart) (pieces : list (list Z)) (w : ImageWriter) : option ImageWriter :=
  match pieces with
  | [] => Some w
  | d :: pieces => w ← Append part d w; append_all part pieces w
  end.
Definition write_image (part : ImagePart) (entry : ImageEntry) (pieces : list (list Z)) (answers : list Answer)
    : option (list Z * list Z) :=
  w ← append_all part pieces (new_writer part answers);
  digest ← Finish part entry w;
  Some (file_ (w_sink w), digest).
End Writer.

(** ** The sparse format, in one piece

    Reference: the image an encoded file stands for. *)
Section Reference.
Context `{Zlib}.
(** The data of a chunk: the image after it and the rest of the input. *)
Definition chunk_data (type len : Z) (body out : list Z) : option (list Z * list Z) :=
  if type =? 0xcac1 then
    if blen body <? len then None else Some (out ++ take (Z.to_nat len) body, drop (Z.to_nat len) body)
  else if type =? 0xcac2 then
    if blen body <? 4 then None else Some (out ++ pattern (take 4 body) len, drop 4 body)
  else if type =? 0xcac3 then Some (out ++ replicate (Z.to_nat len) 0, body)
  else crc ← rd32 body 0; if crc =? crc32 0 out then Some (out, drop 4 body) else None.
Definition sparse_chunk (hdr block total : Z) (bs out : list Z) : option (list Z * list Z) :=
  type ← rd16 bs 0; n ← rd32 bs 4; size ← rd32 bs 8;
  let len := n * block in
  payload ← chunk_payload type len;
  if (total <? blen out + len) || (if type =? 0xcac4 then negb (len =? 0) else len =? 0) ||
     negb (size =? hdr + payload) || (blen bs <? hdr) then None
  else chunk_data type len (drop (Z.to_nat hdr) bs) out.
Fixpoint sparse_chunks (n : nat) (hdr block total : Z) (bs out : list Z) : option (list Z) :=
  match n with
  | O => if bool_decide (bs = []) then Some out else None
  | S n => r ← sparse_chunk hdr block total bs out; sparse_chunks n hdr block total r.2 r.1
  end.
Definition unsparse (total : Z) (bs : list Z) : option (list Z) :=
  magic ← rd32 bs 0; major ← rd16 bs 4; file_hdr ← rd16 bs 8; hdr ← rd16 bs 10;
  block ← rd32 bs 12; blocks ← rd32 bs 16; chunks ← rd32 bs 20; crc ← rd32 bs 24;
  if negb (magic =? 0xed26ff3a) || negb (major =? 1) || (file_hdr <? 28) || (1024 <? file_hdr) ||
     (hdr <? 12) || (1024 <? hdr) || (block =? 0) || negb (block mod 4 =? 0) || (2 ^ 20 <? block) ||
     (chunks =? 0) || (10000000 <? chunks) || negb (block * blocks =? total) || (blen bs <? file_hdr) then None
  else
  out ← sparse_chunks (Z.to_nat chunks) hdr block total (drop (Z.to_nat file_hdr) bs) [];
  if negb (blen out =? total) || (negb (crc =? 0) && negb (crc =? crc32 0 out)) then None else Some out.
(** A raw entry is its own image. *)
Definition image_of (part : ImagePart) (bs : list Z) : option (list Z) :=
  if part_sparse part then unsparse (part_size part) bs
  else if blen bs =? part_size part then Some bs else None.
End Reference.

(** ** Fuel and pieces *)
Definition input_ok (p : Parse) : Prop :=
  match state_ p with
  | Raw => True
  | Header => need_ p = 28 /\ blen (buffer_ p) < 28
  | Chunk => need_ p = 12 /\ blen (buffer_ p) < 12
  | Fill | Crc => need_ p = 4 /\ blen (buffer_ p) < 4
  | SkipHeader => 0 < remaining_ p /\ buffer_ p = []
  | SkipChunk => 0 < remaining_ p /\ buffer_ p = [] /\ (chunk_type_ p = 0xcac1 -> 0 < chunk_bytes_ p)
  | Data => 0 < remaining_ p
  end.
(** Past the header: its block size and its chunk header size are known. *)
Definition header_ok (p : Parse) : Prop := 0 <= block_ p /\ 12 <= chunk_header_ p.
Definition parse_ok (p : Parse) : Prop :=
  bytes_ok (buffer_ p) /\ input_ok p /\ (state_ p ≠ Raw -> state_ p ≠ Header -> header_ok p).
Lemma initial_ok sparse : parse_ok (initial sparse).
Proof. split; [apply Forall_nil_2|]. destruct sparse; by split. Qed.
Lemma NextChunk_ok p : header_ok p -> parse_ok (NextChunk p).
Proof. split; [apply Forall_nil_2|by split]. Qed.

Section DecoderLemmas.
Context {Sink : Type} (Output : list Z -> Sink -> option Sink) (output_crc written : Sink -> Z) (part_bytes : Z).
#[local] Abbreviation BeginData := (BeginData Output).
#[local] Abbreviation chunk_complete := (chunk_complete Output written part_bytes).
#[local] Abbreviation buffer_complete := (buffer_complete Output output_crc written part_bytes).
#[local] Abbreviation round := (round Output output_crc written part_bytes).
#[local] Abbreviation append_loop := (append_loop Output output_crc written part_bytes).
#[local] Abbreviation decode := (decode Output output_crc written part_bytes).

Lemma BeginData_ok p s p' s' : header_ok p -> (chunk_type_ p = 0xcac1 -> 0 < chunk_bytes_ p) ->
  BeginData p s = Some (p', s') -> parse_ok p'.
Proof.
  intros Hb Ht. unfold SparseImage.BeginData. cbn [with_input chunk_type_ chunk_bytes_ need_ remaining_ state_].
  destruct (Z.eqb_spec (chunk_type_ p) 0xcac1).
  { intros [= <- <-]. split; [apply Forall_nil_2|]. split; [unfold input_ok; simpl; auto|done]. }
  destruct (chunk_type_ p =? 0xcac2); [intros [= <- <-]; split; [apply Forall_nil_2|done]|].
  destruct (chunk_type_ p =? 0xcac3).
  { destruct (Repeat _ _ _ _ _); [|done]. intros [= <- <-]. by apply NextChunk_ok. }
  destruct (chunk_type_ p =? 0xcac4); [|done]. intros [= <- <-]. split; [apply Forall_nil_2|done].
Qed.
Lemma header_complete_ok p b p' : bytes_ok b -> header_complete part_bytes p b = Some p' -> parse_ok p'.
Proof.
  intros Hb. unfold header_complete. intros E.
  destruct (rd32 b 0) as [magic|]; [|done]. destruct (rd16 b 4) as [major|]; [|done].
  destruct (rd16 b 8) as [fh|]; [|done]. destruct (rd16 b 10) as [ch|]; [|done].
  destruct (rd32 b 12) as [block|] eqn:Eb; [|done]. destruct (rd32 b 16) as [blocks|]; [|done].
  destruct (rd32 b 20) as [chunks|]; [|done]. destruct (rd32 b 24) as [crc|]; [|done].
  apply rd32_range in Eb; [|done]. rewrite !some_bind in E.
  if_step E; [done|]. if_step E; [done|]. injection E as <-. bool_facts.
  split; [apply Forall_nil_2|]. split; [|intros _ _; split; simpl; lia].
  unfold input_ok. cbn [with_input state_].
  destruct (Z.eqb_spec (fh - 28) 0); [done|]. cbn [with_input remaining_ buffer_]. split; [lia|done].
Qed.
Lemma chunk_complete_ok p b s p' s' : bytes_ok b -> header_ok p ->
  chunk_complete p b s = Some (p', s') -> parse_ok p'.
Proof.
  intros Hb [Hbl Hch]. unfold SparseImage.chunk_complete. destruct (_ <=? _); [done|].
  destruct (rd16 b 0) as [type|] eqn:Et; [|done]. destruct (rd32 b 4) as [n|] eqn:En; [|done].
  destruct (rd32 b 8) as [size|]; [|done]. rewrite !some_bind. apply rd32_range in En; [|done].
  destruct (_ <? _); [done|].
  destruct (chunk_payload type _) as [payload|]; [|done]. rewrite some_bind. intros E.
  if_step E; [done|]. apply orb_false_iff in Hc as [C _].
  assert (Hraw : type = 0xcac1 -> 0 < n * block_ p).
  { intros ->. cbn in C. apply Z.eqb_neq in C. nia. }
  destruct (Z.eqb_spec (chunk_header_ p - 12) 0) as [E0|E0]; cbn [negb] in E.
  - by apply BeginData_ok in E.
  - injection E as <- <-. split; [apply Forall_nil_2|]. split; [|done].
    unfold input_ok. simpl. split; [lia|done].
Qed.
Lemma buffer_complete_ok p s p' s' : bytes_ok (buffer_ p) -> (state_ p ≠ Header -> header_ok p) ->
  state_ p = Header \/ state_ p = Chunk \/ state_ p = Fill \/ state_ p = Crc ->
  buffer_complete p s = Some (p', s') -> parse_ok p'.
Proof.
  intros Hb Hh Hst. unfold SparseImage.buffer_complete. destruct (state_ p); try (by destruct Hst as [|[|[|]]]).
  - destruct (header_complete _ _ _) as [q|] eqn:E; [|done]. intros [= <- <-]. by eapply header_complete_ok.
  - apply chunk_complete_ok; auto.
  - destruct (Repeat _ _ _ _ _); [|done]. intros [= <- <-]. apply NextChunk_ok; auto.
  - destruct (rd32 _ _); [|done]. rewrite some_bind. destruct (negb _); [done|]. intros [= <- <-]. apply NextChunk_ok; auto.
Qed.
(** Filling the buffer of the states that collect a fixed number of bytes. *)
Definition buffered (st : State) : Prop := st = Header \/ st = Chunk \/ st = Fill \/ st = Crc.
Lemma buffer_round_ok data p s n p' s' : buffered (state_ p) -> bytes_ok (buffer_ p) -> bytes_ok data ->
  blen (buffer_ p) < need_ p -> 0 < blen data -> (state_ p ≠ Header -> header_ok p) -> input_ok p ->
  n = Z.to_nat (Z.min (blen data) (need_ p - blen (buffer_ p))) ->
  (let q := with_input p (state_ p) (need_ p) (buffer_ p ++ take n data) (remaining_ p) in
   if negb (blen (buffer_ q) =? need_ q) then Some (q, s) else buffer_complete q s) = Some (p', s') ->
  (0 < n <= length data)%nat /\ parse_ok p'.
Proof.
  intros Hst Hb Hd Hlt Hl Hh Hin Hn. set (q := with_input _ _ _ _ _). cbv zeta.
  assert (Hbq : bytes_ok (buffer_ q)) by (apply Forall_app; split; [done|by apply Forall_take]).
  assert (Hlq : blen (buffer_ q) <= need_ p).
  { cbn. unfold blen in *. rewrite length_app, length_take. lia. }
  intros E. split; [unfold blen in *; lia|].
  change (need_ q) with (need_ p) in E. destruct (Z.eqb_spec (blen (buffer_ q)) (need_ p)); cbn [negb] in E.
  - by apply buffer_complete_ok in E.
  - injection E as <- <-. split; [done|]. split; [|by intros _ Hne; apply Hh].
    unfold input_ok in *. change (state_ q) with (state_ p). change (need_ q) with (need_ p).
    destruct Hst as [Hst|[Hst|[Hst|Hst]]]; rewrite Hst in *; destruct Hin as [E0 _]; rewrite E0 in *; lia.
Qed.
(** A round takes at least one byte and leaves a well-formed state. *)
Lemma round_ok data p s n p' s' : parse_ok p -> bytes_ok data -> data ≠ [] ->
  round data p s = Some (n, (p', s')) -> (0 < n <= length data)%nat /\ parse_ok p'.
Proof.
  intros (Hbuf & Hin & Hhd) Hd Hne.
  assert (Hl : 0 < blen data) by (destruct data; [done|]; unfold blen; simpl; lia).
  unfold SparseImage.round. pose proof Hin as Hin'. unfold input_ok in Hin'.
  destruct (state_ p) eqn:Hs; cbv zeta.
  - destruct (Output data s); [|done]. intros [= <- <- <-]. unfold blen in Hl. split; [lia|]. by split_and!; rewrite ?Hs.
  - intros ([q s1] & E & [= <- <- <-])%bind_Some. eapply buffer_round_ok; rewrite ?Hs; try done; [by left|lia].
  - intros ([q s1] & E & [= <- <- <-])%bind_Some. destruct Hin' as [Hr Hb0]. split; [unfold blen in *; lia|].
    cbn [with_input state_] in E. rewrite bool_decide_eq_true_2 in E by done.
    destruct (Z.eqb_spec (remaining_ p - Z.of_nat (Z.to_nat (Z.min (blen data) (remaining_ p)))) 0);
      cbn [negb] in E; injection E as <- <-; (split; [done|]); (split; [|intros _ _; by apply Hhd]).
    + split; [done|]. cbn. by rewrite Hb0.
    + split; [|done]. cbn. lia.
  - intros ([q s1] & E & [= <- <- <-])%bind_Some. eapply buffer_round_ok; rewrite ?Hs; try done; [unfold buffered; tauto|lia|auto].
  - intros ([q s1] & E & [= <- <- <-])%bind_Some. destruct Hin' as (Hr & Hb0 & Hraw). split; [unfold blen in *; lia|].
    cbn [with_input state_] in E. rewrite bool_decide_eq_false_2 in E by done.
    destruct (Z.eqb_spec (remaining_ p - Z.of_nat (Z.to_nat (Z.min (blen data) (remaining_ p)))) 0); cbn [negb] in E.
    + apply BeginData_ok in E; [done|by apply Hhd|done].
    + injection E as <- <-. split; [done|]. split; [|intros _ _; by apply Hhd].
      split; [cbn; lia|done].
  - intros (s1 & E & [= <- <- <-])%bind_Some. split; [unfold blen in *; lia|].
    destruct (Z.eqb_spec (remaining_ p - Z.of_nat (Z.to_nat (Z.min (blen data) (remaining_ p)))) 0).
    + apply NextChunk_ok. by apply Hhd.
    + split; [done|]. split; [|intros _ _; by apply Hhd]. unfold input_ok. cbn. lia.
  - intros ([q s1] & E & [= <- <- <-])%bind_Some. eapply buffer_round_ok; rewrite ?Hs; try done; [unfold buffered; tauto|lia|auto].
  - intros ([q s1] & E & [= <- <- <-])%bind_Some. eapply buffer_round_ok; rewrite ?Hs; try done; [unfold buffered; tauto|lia|auto].
Qed.
Lemma append_loop_fuel f1 : forall f2 data p s, parse_ok p -> bytes_ok data ->
  (length data <= f1)%nat -> (length data <= f2)%nat -> append_loop f1 data p s = append_loop f2 data p s.
Proof.
  induction f1 as [|f1 IH]; intros f2 data p s Hp Hd H1 H2; destruct data as [|x b] eqn:Ed;
    try (by destruct f2); [simpl in H1; lia|].
  destruct f2 as [|f2]; [simpl in H2; lia|]. rewrite <- Ed in *.
  assert (Hne : data ≠ []) by by rewrite Ed.
  assert (forall f, append_loop (S f) data p s = r ← round data p s; append_loop f (drop r.1 data) r.2.1 r.2.2) as Hu
    by (intros f; by destruct data).
  rewrite !Hu. destruct (round data p s) as [[n [p' s']]|] eqn:Er; [|done]. rewrite !some_bind. cbn [fst snd].
  apply round_ok in Er as [Hn Hp']; [|done..]. apply IH; [done|by apply Forall_drop|rewrite length_drop; lia..].
Qed.
Lemma decode_step data p s : parse_ok p -> bytes_ok data -> data ≠ [] ->
  decode data p s = r ← round data p s; decode (drop r.1 data) r.2.1 r.2.2.
Proof.
  intros Hp Hd Hne. unfold SparseImage.decode at 1. destruct data as [|x b] eqn:Ed; [done|]. rewrite <- Ed in *.
  replace (length data) with (S (length b)) by (by rewrite Ed).
  transitivity (r ← round data p s; append_loop (length b) (drop r.1 data) r.2.1 r.2.2); [by rewrite Ed|].
  destruct (round data p s) as [[n [p' s']]|] eqn:Er; [|done]. rewrite !some_bind. cbn [fst snd].
  apply round_ok in Er as [Hn Hp']; [|done..]. unfold SparseImage.decode.
  apply append_loop_fuel; [done|by apply Forall_drop|rewrite length_drop, Ed; simpl; lia|lia].
Qed.
Lemma decode_nil p s : decode [] p s = Some (p, s).
Proof. done. Qed.
Lemma parse_decode_ok data : forall p s p' s', parse_ok p -> bytes_ok data ->
  decode data p s = Some (p', s') -> parse_ok p'.
Proof.
  induction data as [data IH] using (well_founded_induction (well_founded_ltof _ (@length Z))).
  intros p s p' s' Hp Hd E. destruct (decide (data = [])) as [->|Hne].
  { rewrite decode_nil in E. by injection E as <- <-. }
  rewrite decode_step in E by done. destruct (round data p s) as [[n [p1 s1]]|] eqn:Er; [|done].
  rewrite some_bind in E. apply round_ok in Er as [Hn Hp1]; [|done..].
  eapply IH in E; [done| |done|by apply Forall_drop]. unfold ltof. cbn [fst]. rewrite length_drop. lia.
Qed.

(** *** Sinks for which one piece is as good as two *)
Context (Output_app : forall a b s, Output (a ++ b) s = s1 ← Output a s; Output b s1).
Lemma min_cons x (b : list Z) k : 0 < k ->
  Z.to_nat (Z.min (blen (x :: b)) k) = S (Z.to_nat (Z.min (blen b) (k - 1))).
Proof. unfold blen. cbn [length]. lia. Qed.
Lemma min_one (x : Z) k : 0 < k -> Z.to_nat (Z.min (blen [x]) k) = 1%nat.
Proof. unfold blen. cbn [length]. lia. Qed.
(** The buffering states, whatever completes the buffer. *)
Lemma buffer_round_cons x b p (complete : Parse -> Sink -> option (Parse * Sink)) s st :
  blen (buffer_ p) < need_ p -> b ≠ [] -> state_ p = st ->
  let rnd data q :=
    (let n := Z.to_nat (Z.min (blen data) (need_ q - blen (buffer_ q))) in
     let q := with_input q st (need_ q) (buffer_ q ++ take n data) (remaining_ q) in
     r ← (if negb (blen (buffer_ q) =? need_ q) then Some (q, s) else complete q s);
     Some (n, r)) in
  rnd (x :: b) p = rnd [x] p \/
  exists q, state_ q = st /\ rnd [x] p = Some (1%nat, (q, s)) /\
    rnd (x :: b) p = r2 ← rnd b q; Some (S r2.1, r2.2).
Proof.
  intros Hlt Hne Hst rnd. unfold rnd. rewrite min_cons, min_one by lia. cbn [take with_input buffer_ need_].
  assert (Hl : forall l, blen (buffer_ p ++ x :: l) = blen (buffer_ p) + 1 + blen l)
    by (intros l; unfold blen; rewrite length_app; cbn [length]; lia).
  destruct (Z.eq_dec (blen (buffer_ p) + 1) (need_ p)) as [E|E].
  - left. replace (Z.to_nat (Z.min (blen b) _)) with 0%nat by lia. by rewrite take_0.
  - right. exists (with_input p st (need_ p) (buffer_ p ++ [x]) (remaining_ p)). split; [done|].
    rewrite !Hl. cbn [with_input buffer_ need_ remaining_]. change (blen (@nil Z)) with 0.
    destruct (Z.eqb_spec (blen (buffer_ p) + 1 + 0) (need_ p)); [lia|]. split; [done|].
    rewrite Hl. change (blen (@nil Z)) with 0.
    replace (need_ p - (blen (buffer_ p) + 1 + 0)) with (need_ p - blen (buffer_ p) - 1) by lia.
    rewrite <- app_assoc. cbn [app]. rewrite Hl. unfold with_input. cbn.
    destruct (negb _); [done|]. by destruct (complete _ s).
Qed.
Lemma round_cons x b p s : parse_ok p -> b ≠ [] ->
  round (x :: b) p s = round [x] p s \/
  round (x :: b) p s = r ← round [x] p s; r2 ← round b r.2.1 r.2.2; Some (S r2.1, r2.2).
Proof.
  intros (Hbuf & Hin & _) Hne. unfold SparseImage.round. unfold input_ok in Hin.
  destruct (state_ p) eqn:Hs; cbv zeta.
  2,4,7,8: (edestruct (buffer_round_cons x b p buffer_complete s) as [E|(q & Hq & E1 & E2)];
    [lia|done|exact Hs|by left|right]); cbv zeta in E1, E2; rewrite E2, E1, some_bind; cbn [fst snd]; by rewrite Hq.
  - right. change (x :: b) with ([x] ++ b). rewrite Output_app. destruct (Output [x] s) as [s1|]; [|done].
    rewrite !some_bind. cbn [fst snd]. rewrite Hs. by destruct (Output b s1).
  - destruct Hin as [Hr Hb0]. rewrite min_cons, min_one by lia. destruct (Z.eq_dec (remaining_ p) 1) as [E|E].
    + left. by replace (Z.to_nat (Z.min (blen b) (remaining_ p - 1))) with 0%nat by lia.
    + right. cbn [with_input state_]. destruct (Z.eqb_spec (remaining_ p - Z.of_nat 1) 0); [lia|].
      cbn [negb]. rewrite !some_bind. cbn [fst snd with_input state_ remaining_ buffer_ need_].
      change (Z.of_nat 1) with 1. rewrite Nat2Z.inj_succ.
      replace (remaining_ p - Z.succ (Z.of_nat (Z.to_nat (Z.min (blen b) (remaining_ p - 1)))))
        with (remaining_ p - 1 - Z.of_nat (Z.to_nat (Z.min (blen b) (remaining_ p - 1)))) by lia.
      unfold with_input. cbn. by destruct (negb _).
  - destruct Hin as [Hr Hb0]. rewrite min_cons, min_one by lia. destruct (Z.eq_dec (remaining_ p) 1) as [E|E].
    + left. by replace (Z.to_nat (Z.min (blen b) (remaining_ p - 1))) with 0%nat by lia.
    + right. cbn [with_input state_]. destruct (Z.eqb_spec (remaining_ p - Z.of_nat 1) 0); [lia|].
      cbn [negb]. rewrite !some_bind. cbn [fst snd with_input state_ remaining_ buffer_ need_].
      change (Z.of_nat 1) with 1. rewrite Nat2Z.inj_succ.
      replace (remaining_ p - Z.succ (Z.of_nat (Z.to_nat (Z.min (blen b) (remaining_ p - 1)))))
        with (remaining_ p - 1 - Z.of_nat (Z.to_nat (Z.min (blen b) (remaining_ p - 1)))) by lia.
      unfold with_input. cbn. destruct (negb _); [done|]. by destruct (SparseImage.BeginData _ _ _).
  - rewrite min_cons, min_one by lia. destruct (Z.eq_dec (remaining_ p) 1) as [E|E].
    + left. replace (Z.to_nat (Z.min (blen b) (remaining_ p - 1))) with 0%nat by lia. by cbn [take].
    + right. cbn [take]. set (n2 := Z.to_nat (Z.min (blen b) (remaining_ p - 1))).
      change (x :: take n2 b) with ([x] ++ take n2 b). rewrite Output_app.
      destruct (Output [x] s) as [s1|]; [|done]. rewrite !some_bind.
      destruct (Z.eqb_spec (remaining_ p - Z.of_nat 1) 0); [lia|].
      cbn [fst snd with_input state_ remaining_ buffer_ need_]. change (Z.of_nat 1) with 1.
      fold n2. destruct (Output (take n2 b) s1) as [s2|]; [|done]. rewrite !some_bind.
      replace (remaining_ p - Z.of_nat (S n2)) with (remaining_ p - 1 - Z.of_nat n2) by lia. done.
Qed.
Lemma decode_cons x b p s : parse_ok p -> bytes_ok (x :: b) ->
  decode (x :: b) p s = r ← decode [x] p s; decode b r.1 r.2.
Proof.
  intros Hp Hd. pose proof Hd as [Hx Hb]%Forall_cons. assert (bytes_ok [x]) by (by constructor).
  destruct (decide (b = [])) as [->|Hne].
  { destruct (decode [x] p s) as [[p' s']|]; [|done]. by rewrite some_bind, decode_nil. }
  rewrite (decode_step (x :: b)), (decode_step [x]) by done.
  assert (H1 : forall n p1 s1, round [x] p s = Some (n, (p1, s1)) -> n = 1%nat /\ parse_ok p1).
  { intros n p1 s1 E. apply round_ok in E as [Hn Hp1]; [|done..]. simpl in Hn. split; [lia|done]. }
  destruct (round_cons x b p s Hp Hne) as [E|E]; rewrite E; destruct (round [x] p s) as [[n [p1 s1]]|];
    try done; destruct (H1 _ _ _ eq_refl) as [-> Hp1]; rewrite !some_bind; cbn [fst snd drop];
    rewrite decode_nil, some_bind; cbn [fst snd]; [done|].
  rewrite (decode_step b) by done. destruct (round b p1 s1) as [[n2 [p2 s2]]|]; [|done].
  by rewrite !some_bind.
Qed.
(** The decoder does not see how its input is cut into pieces. *)
Lemma decode_app a b p s : parse_ok p -> bytes_ok a -> bytes_ok b ->
  decode (a ++ b) p s = r ← decode a p s; decode b r.1 r.2.
Proof.
  intros Hp Ha Hb. revert p s Hp. induction a as [|x a IH]; intros p s Hp; [done|].
  pose proof Ha as [Hx Ha']%Forall_cons. cbn [app].
  rewrite decode_cons, (decode_cons x a) by (done || (constructor; [done|by apply Forall_app])).
  destruct (decode [x] p s) as [[p1 s1]|] eqn:E; [|done]. rewrite !some_bind. cbn [fst snd].
  apply IH; [done|]. eapply parse_decode_ok; [exact Hp| |exact E]. by constructor.
Qed.
End DecoderLemmas.

(** ** Two sinks that agree

    If every accepted output of the first sink is one of the second, so is
    every accepted run of the decoder. *)
Section Simulation.
Context {S1 S2 : Type} (O1 : list Z -> S1 -> option S1) (O2 : list Z -> S2 -> option S2).
Context (crc1 w1 : S1 -> Z) (crc2 w2 : S2 -> Z) (part_bytes : Z) (R : S1 -> S2 -> Prop).
Context (HO : forall d s s' t, R s t -> O1 d s = Some s' -> exists t', O2 d t = Some t' /\ R s' t').
Context (Hcrc : forall s t, R s t -> crc1 s = crc2 t) (Hw : forall s t, R s t -> w1 s = w2 t).

Definition simulates {A} (m1 : option (A * S1)) (m2 : option (A * S2)) : Prop :=
  forall a s', m1 = Some (a, s') -> exists t', m2 = Some (a, t') /\ R s' t'.
Lemma Repeat_sim fuel n fill : forall s t s', R s t -> Repeat O1 fuel n fill s = Some s' ->
  exists t', Repeat O2 fuel n fill t = Some t' /\ R s' t'.
Proof.
  revert n. induction fuel as [|fuel IH]; intros n s t s' HR; simpl; destruct (n =? 0); try done;
    try (intros [= <-]; by eauto).
  intros (s1 & E1 & E)%bind_Some. destruct (HO _ _ _ _ HR E1) as (t1 & -> & HR1). rewrite some_bind. by eapply IH.
Qed.
Lemma BeginData_sim p s t : R s t -> simulates (BeginData O1 p s) (BeginData O2 p t).
Proof.
  intros HR p' s'. unfold BeginData. cbv zeta.
  repeat (match goal with |- (if ?c then _ else _) = _ -> _ => destruct c; [try (intros [= <- <-]; by eauto)|] end); [|done].
  intros (s1 & E1 & [= <- <-])%bind_Some. destruct (Repeat_sim _ _ _ _ _ _ HR E1) as (t1 & -> & HR1). eauto.
Qed.
Lemma chunk_complete_sim p b s t : R s t ->
  simulates (chunk_complete O1 w1 part_bytes p b s) (chunk_complete O2 w2 part_bytes p b t).
Proof.
  intros HR p' s'. unfold chunk_complete. rewrite (Hw _ _ HR). destruct (_ <=? _); [done|].
  destruct (rd16 b 0) as [type|]; [|done]. destruct (rd32 b 4) as [n|]; [|done].
  destruct (rd32 b 8) as [size|]; [|done]. rewrite !some_bind. destruct (_ <? _); [done|].
  destruct (chunk_payload type _) as [payload|]; [|done]. rewrite !some_bind.
  match goal with |- (if ?c then _ else _) = _ -> _ => destruct c; [done|] end.
  match goal with |- (if ?c then _ else _) = _ -> _ => destruct c; [intros [= <- <-]; by eauto|] end.
  by apply BeginData_sim.
Qed.
Lemma buffer_complete_sim p s t : R s t ->
  simulates (buffer_complete O1 crc1 w1 part_bytes p s) (buffer_complete O2 crc2 w2 part_bytes p t).
Proof.
  intros HR p' s'. unfold buffer_complete. rewrite (Hcrc _ _ HR). destruct (state_ p); try (intros [= <- <-]; by eauto).
  - intros (q & E & [= <- <-])%bind_Some. rewrite E. by eauto.
  - by apply chunk_complete_sim.
  - intros (s1 & E1 & [= <- <-])%bind_Some. destruct (Repeat_sim _ _ _ _ _ _ HR E1) as (t1 & -> & HR1). eauto.
  - intros (v & E & E')%bind_Some. rewrite E, some_bind. destruct (negb _); [done|]. injection E' as <- <-. eauto.
Qed.
Lemma round_sim data p s t n p' s' : R s t ->
  round O1 crc1 w1 part_bytes data p s = Some (n, (p', s')) ->
  exists t', round O2 crc2 w2 part_bytes data p t = Some (n, (p', t')) /\ R s' t'.
Proof.
  intros HR. unfold round. destruct (state_ p) eqn:Hs; cbv zeta.
  1,6: intros (s1 & E1 & [= <- <- <-])%bind_Some; destruct (HO _ _ _ _ HR E1) as (t1 & -> & HR1); by eauto.
  all: intros ([q s1] & E1 & [= <- <- <-])%bind_Some.
  all: repeat match type of E1 with (if ?c then _ else _) = _ => destruct c end;
    try (injection E1 as <- <-; rewrite some_bind; by eauto);
    (apply buffer_complete_sim with (t := t) in E1 as (t1 & -> & HR1) ||
     apply BeginData_sim with (t := t) in E1 as (t1 & -> & HR1)); try done; rewrite some_bind; by eauto.
Qed.
Lemma decode_sim data p s t : R s t ->
  simulates (decode O1 crc1 w1 part_bytes data p s) (decode O2 crc2 w2 part_bytes data p t).
Proof.
  unfold decode. generalize (length data). intros fuel. revert data p s t.
  induction fuel as [|fuel IH]; intros data p s t HR p' s'; destruct data as [|x data]; cbn [append_loop];
    try done; try (intros [= <- <-]; by eauto).
  intros ([n [q s1]] & E1 & E)%bind_Some. eapply round_sim in E1 as (t1 & -> & HR1); [|done].
  rewrite some_bind. by eapply IH.
Qed.
End Simulation.

(** ** The list sink *)
Section ListSink.
Context `{Zlib} (total : Z) (sparse : bool).
Definition list_output (data out : list Z) : option (list Z) :=
  if total <? blen (out ++ data) then None else Some (out ++ data).
Definition list_crc (out : list Z) : Z := if sparse then crc32 0 out else 0.
#[local] Abbreviation D := (decode list_output list_crc blen total).

Lemma list_output_app a b s : list_output (a ++ b) s = s1 ← list_output a s; list_output b s1.
Proof.
  unfold list_output. rewrite app_assoc. pose proof (blen_nonneg b).
  destruct (Z.ltb_spec total (blen (s ++ a))) as [Hlt|Hge].
  - destruct (Z.ltb_spec total (blen ((s ++ a) ++ b))) as [|Hge]; [done|]. rewrite blen_app in Hge. lia.
  - by rewrite some_bind.
Qed.
Lemma list_output_Some data out : blen out + blen data <= total -> list_output data out = Some (out ++ data).
Proof. intros Hle. unfold list_output. rewrite blen_app. destruct (Z.ltb_spec total (blen out + blen data)); [lia|done]. Qed.

Lemma length_pattern fill n : 0 <= n -> blen (pattern fill n) = n.
Proof. intros. unfold pattern, blen. rewrite length_fmap, length_seq. lia. Qed.
Lemma pattern_0 fill : pattern fill 0 = [].
Proof. done. Qed.
Lemma pattern_app fill m n : 0 <= m -> 0 <= n -> m mod 4 = 0 ->
  pattern fill (m + n) = pattern fill m ++ pattern fill n.
Proof.
  intros Hm Hn Hmod. unfold pattern. rewrite Z2Nat.inj_add, seq_app, fmap_app by done. f_equal.
  rewrite Nat.add_0_l. apply list_eq. intros i. rewrite !list_lookup_fmap.
  destruct (decide (i < Z.to_nat n)%nat).
  - rewrite !lookup_seq_lt by done. cbn [fmap option_fmap option_map]. do 2 f_equal.
    rewrite Nat.add_0_l, <- Nat.Div0.add_mod_idemp_l.
    assert ((Z.to_nat m mod 4)%nat = 0%nat) as ->; [|done].
    apply Nat2Z.inj. rewrite Nat2Z.inj_mod, Z2Nat.id by done. exact Hmod.
  - rewrite !lookup_seq_ge by lia. done.
Qed.
Lemma pattern_zero n : 0 <= n -> pattern [0; 0; 0; 0] n = replicate (Z.to_nat n) 0.
Proof.
  intros Hn. unfold pattern. apply list_eq. intros i. rewrite list_lookup_fmap.
  destruct (decide (i < Z.to_nat n)%nat).
  - rewrite lookup_seq_lt, lookup_replicate_2 by done. cbn [fmap option_fmap option_map]. f_equal.
    rewrite Nat.add_0_l. assert ((i mod 4 < 4)%nat) by (apply Nat.mod_upper_bound; lia).
    destruct (i mod 4)%nat as [|[|[|[|]]]]; [done..|lia].
  - rewrite lookup_seq_ge by lia. symmetry. apply lookup_replicate_None. lia.
Qed.
Lemma Repeat_list fuel : forall n fill out, 0 <= n -> n mod 4 = 0 -> n <= Z.of_nat fuel * repeat_block ->
  blen out + n <= total -> Repeat list_output fuel n fill out = Some (out ++ pattern fill n).
Proof.
  induction fuel as [|fuel IH]; intros n fill out Hn Hm Hf Hle; simpl;
    (destruct (Z.eqb_spec n 0) as [->|Hne]; [by rewrite pattern_0, app_nil_r|]); [lia|].
  set (m := Z.min n repeat_block). assert (0 < m <= n) by (unfold m, repeat_block; lia).
  rewrite list_output_Some by (rewrite length_pattern; lia). rewrite some_bind.
  assert (Hm4 : m mod 4 = 0 /\ (n - m) mod 4 = 0).
  { unfold m. destruct (Z.le_gt_cases n repeat_block) as [Hc|Hc].
    - rewrite Z.min_l, Z.sub_diag by done. done.
    - rewrite Z.min_r by lia. split; [done|]. unfold repeat_block. by rewrite Zminus_mod, Hm. }
  destruct Hm4 as [Hm1 Hm2].
  rewrite IH; [|lia|done|unfold m, repeat_block in *; lia|rewrite blen_app, length_pattern; lia].
  rewrite <- app_assoc, <- pattern_app by (done || lia). do 3 f_equal. lia.
Qed.
Lemma Repeat_list_all n fill out : 0 <= n -> n mod 4 = 0 -> blen out + n <= total ->
  Repeat list_output (repeat_fuel n) n fill out = Some (out ++ pattern fill n).
Proof.
  intros Hn Hm Hle. apply Repeat_list; [done..| |done]. unfold repeat_fuel, repeat_block.
  pose proof (Z.div_mod n 65536). pose proof (Z.mod_pos_bound n 65536). lia.
Qed.

(** What one state does with exactly the bytes it waits for, and with fewer. *)
Lemma rd8_take n bs i : i < Z.of_nat n -> rd8 (take n bs) i = rd8 bs i.
Proof. intros Hi. unfold rd8. destruct (Z.ltb_spec i 0); [done|]. apply lookup_take_lt. lia. Qed.
Lemma rd16_take n bs i : i + 2 <= Z.of_nat n -> rd16 (take n bs) i = rd16 bs i.
Proof. intros Hi. unfold rd16. by rewrite !rd8_take by lia. Qed.
Lemma rd32_take n bs i : i + 4 <= Z.of_nat n -> rd32 (take n bs) i = rd32 bs i.
Proof. intros Hi. unfold rd32. by rewrite !rd16_take by lia. Qed.
Lemma rd8_short bs i : blen bs <= i -> rd8 bs i = None.
Proof. intros Hi. unfold rd8, blen in *. destruct (i <? 0); [done|]. apply lookup_ge_None. lia. Qed.
Lemma rd32_short bs i : blen bs < i + 4 -> rd32 bs i = None.
Proof.
  intros Hi. unfold rd32, rd16. rewrite (rd8_short bs (i + 2 + 1)) by lia.
  destruct (rd8 bs i), (rd8 bs (i + 1)), (rd8 bs (i + 2)); done.
Qed.

(** What a state does with the bytes it waits for, and with fewer. *)
Lemma decode_collect bs p out : parse_ok p -> buffered (state_ p) -> buffer_ p = [] -> bytes_ok bs ->
  D bs p out = if blen bs <? need_ p then Some (with_input p (state_ p) (need_ p) bs (remaining_ p), out)
    else r ← buffer_complete list_output list_crc blen total
               (with_input p (state_ p) (need_ p) (take (Z.to_nat (need_ p)) bs) (remaining_ p)) out;
         D (drop (Z.to_nat (need_ p)) bs) r.1 r.2.
Proof.
  intros Hp Hst Hbuf Hb. assert (Hneed : 0 < need_ p).
  { destruct Hp as (_ & Hin & _). unfold input_ok in Hin.
    destruct Hst as [E|[E|[E|E]]]; rewrite E in Hin; lia. }
  destruct (decide (bs = [])) as [->|Hne].
  { rewrite decode_nil. replace (blen [] <? need_ p) with true; [|by symmetry; apply Z.ltb_lt].
    destruct p; cbn in *. by subst. }
  assert (Hround : round list_output list_crc blen total bs p out =
    let n := Z.to_nat (Z.min (blen bs) (need_ p)) in
    let q := with_input p (state_ p) (need_ p) (take n bs) (remaining_ p) in
    r ← (if negb (blen (buffer_ q) =? need_ q) then Some (q, out)
         else buffer_complete list_output list_crc blen total q out);
    Some (n, r)).
  { unfold round. rewrite Hbuf. cbn [app]. replace (need_ p - blen []) with (need_ p) by (unfold blen; simpl; lia).
    by destruct Hst as [E|[E|[E|E]]]; rewrite E. }
  rewrite decode_step, Hround by done. clear Hround. cbv zeta. cbn [with_input buffer_ need_].
  destruct (Z.ltb_spec (blen bs) (need_ p)) as [Hlt|Hge].
  - rewrite Z.min_l by lia. replace (take (Z.to_nat (blen bs)) bs) with bs
      by (unfold blen; rewrite Nat2Z.id; by rewrite firstn_all).
    destruct (Z.eqb_spec (blen bs) (need_ p)); [lia|]. cbn [negb]. rewrite !some_bind. cbn [fst snd].
    replace (drop (Z.to_nat (blen bs)) bs) with (@nil Z) by (unfold blen; by rewrite Nat2Z.id, drop_all).
    apply decode_nil.
  - rewrite Z.min_r by lia. rewrite blen_take, Z.eqb_refl by lia. cbn [negb].
    by destruct (buffer_complete _ _ _ _ _ _) as [[p' s']|].
Qed.
Lemma decode_skip bs p out : parse_ok p -> state_ p = SkipHeader \/ state_ p = SkipChunk -> bytes_ok bs ->
  D bs p out = if blen bs <? remaining_ p
    then Some (with_input p (state_ p) (need_ p) [] (remaining_ p - blen bs), out)
    else r ← (if bool_decide (state_ p = SkipHeader) then Some (with_input p Chunk 12 [] 0, out)
              else BeginData list_output (with_input p (state_ p) (need_ p) [] 0) out);
         D (drop (Z.to_nat (remaining_ p)) bs) r.1 r.2.
Proof.
  intros Hp Hst Hb.
  assert (Hr : 0 < remaining_ p /\ buffer_ p = []).
  { destruct Hp as (_ & Hin & _). unfold input_ok in Hin. destruct Hst as [E|E]; rewrite E in Hin; tauto. }
  destruct Hr as [Hr Hbuf]. destruct (decide (bs = [])) as [->|Hne].
  { rewrite decode_nil. replace (blen [] <? remaining_ p) with true; [|by symmetry; apply Z.ltb_lt].
    destruct p; cbn in *. subst. by rewrite Z.sub_0_r. }
  assert (Hround : round list_output list_crc blen total bs p out =
    let n := Z.to_nat (Z.min (blen bs) (remaining_ p)) in
    let left := remaining_ p - Z.of_nat n in
    let q := with_input p (state_ p) (need_ p) [] left in
    r ← (if negb (left =? 0) then Some (q, out)
         else if bool_decide (state_ p = SkipHeader) then Some (with_input q Chunk 12 [] left, out)
         else BeginData list_output q out);
    Some (n, r)).
  { unfold round. rewrite Hbuf. by destruct Hst as [E|E]; rewrite E. }
  rewrite decode_step, Hround by done. clear Hround. cbv zeta.
  pose proof (blen_nonneg bs). rewrite Z2Nat.id by lia.
  destruct (Z.ltb_spec (blen bs) (remaining_ p)) as [Hlt|Hge].
  - rewrite Z.min_l by lia. destruct (Z.eqb_spec (remaining_ p - blen bs) 0); [lia|]. cbn [negb].
    rewrite !some_bind. cbn [fst snd].
    replace (drop (Z.to_nat (blen bs)) bs) with (@nil Z) by (unfold blen; by rewrite Nat2Z.id, drop_all).
    apply decode_nil.
  - rewrite Z.min_r, Z.sub_diag by lia. cbn [Z.eqb negb].
    destruct (bool_decide _); [done|]. by destruct (BeginData _ _ _) as [[p' s']|].
Qed.
Lemma decode_data bs p out : parse_ok p -> state_ p = Data -> bytes_ok bs -> blen out + remaining_ p <= total ->
  D bs p out = if blen bs <? remaining_ p
    then Some (with_input p Data (need_ p) (buffer_ p) (remaining_ p - blen bs), out ++ bs)
    else D (drop (Z.to_nat (remaining_ p)) bs) (NextChunk (with_input p Data (need_ p) (buffer_ p) 0))
           (out ++ take (Z.to_nat (remaining_ p)) bs).
Proof.
  intros Hp Hst Hb Htot.
  assert (Hr : 0 < remaining_ p) by (destruct Hp as (_ & Hin & _); unfold input_ok in Hin; by rewrite Hst in Hin).
  destruct (decide (bs = [])) as [->|Hne].
  { rewrite decode_nil. replace (blen [] <? remaining_ p) with true; [|by symmetry; apply Z.ltb_lt].
    destruct p; cbn in *. subst. by rewrite Z.sub_0_r, app_nil_r. }
  rewrite decode_step by done. unfold round. rewrite Hst. pose proof (blen_nonneg bs). rewrite Z2Nat.id by lia.
  destruct (Z.ltb_spec (blen bs) (remaining_ p)) as [Hlt|Hge].
  - rewrite Z.min_l by lia. replace (take (Z.to_nat (blen bs)) bs) with bs
      by (unfold blen; rewrite Nat2Z.id; by rewrite firstn_all).
    rewrite list_output_Some by lia. rewrite !some_bind. cbn [fst snd].
    destruct (Z.eqb_spec (remaining_ p - blen bs) 0); [lia|].
    replace (drop (Z.to_nat (blen bs)) bs) with (@nil Z) by (unfold blen; by rewrite Nat2Z.id, drop_all).
    apply decode_nil.
  - rewrite Z.min_r, Z.sub_diag by lia. rewrite list_output_Some by (rewrite blen_take; lia).
    by rewrite !some_bind.
Qed.

(** The end of the input: the conditions of Finish on the parser. *)
Definition settled (p : Parse) : bool :=
  bool_decide (state_ p = Chunk) && bool_decide (buffer_ p = []) && (chunks_ p =? total_chunks_ p).
Definition at_end {A} (K : Z -> list Z -> option A) (r : Parse * list Z) : option A :=
  if settled r.1 then K (image_crc_ r.1) r.2 else None.
Context {A : Type} (K : Z -> list Z -> option A) (Hsparse : sparse = true) (Htotal : 0 <= total < 2 ^ 64).
#[local] Abbreviation run bs p out := (D bs p out ≫= at_end K).

(** The data of a chunk, read by the machine, is [chunk_data]. *)
Lemma BeginData_run p body out : header_ok p -> bytes_ok body -> 0 <= chunk_bytes_ p -> chunk_bytes_ p mod 4 = 0 ->
  is_Some (chunk_payload (chunk_type_ p) (chunk_bytes_ p)) ->
  (chunk_type_ p = 0xcac1 -> 0 < chunk_bytes_ p) -> blen out + chunk_bytes_ p <= total ->
  match chunk_data (chunk_type_ p) (chunk_bytes_ p) body out with
  | None => (r ← BeginData list_output p out; run body r.1 r.2) = None
  | Some (out', rest) => exists rm, (r ← BeginData list_output p out; run body r.1 r.2) =
      run rest (NextChunk (with_input p (state_ p) (need_ p) [] rm)) out'
  end.
Proof.
  intros Hh Hb H0 H4 Hpay Hraw Hle. pose proof (BeginData_ok list_output p out) as Hok.
  unfold chunk_data, BeginData, chunk_payload in *.
  cbn [with_input chunk_type_ chunk_bytes_ need_ remaining_ state_] in *.
  destruct (Z.eqb_spec (chunk_type_ p) 0xcac1) as [E1|E1].
  { rewrite !some_bind. cbn [fst snd]. rewrite decode_data; [|by eapply Hok|done..].
    cbn [with_input remaining_]. destruct (_ <? _); [done|]. eexists. done. }
  destruct (Z.eqb_spec (chunk_type_ p) 0xcac2) as [E2|E2].
  { rewrite !some_bind. cbn [fst snd].
    rewrite decode_collect; [|by eapply Hok|unfold buffered; simpl; tauto|done..].
    cbn [with_input need_ state_ remaining_]. destruct (_ <? _); [done|].
    unfold buffer_complete. cbn [with_input need_ state_ buffer_ chunk_bytes_].
    rewrite Repeat_list_all by done. rewrite !some_bind. cbn [fst snd]. by eexists. }
  destruct (Z.eqb_spec (chunk_type_ p) 0xcac3) as [E3|E3].
  { rewrite Repeat_list_all by done. rewrite !some_bind, pattern_zero by done. cbn [fst snd]. by eexists. }
  destruct (Z.eqb_spec (chunk_type_ p) 0xcac4) as [E4|E4]; [|by destruct Hpay].
  rewrite !some_bind. cbn [fst snd].
  rewrite decode_collect; [|by eapply Hok|unfold buffered; simpl; tauto|done..].
  cbn [with_input need_ state_ remaining_]. destruct (Z.ltb_spec (blen body) 4).
  { by rewrite rd32_short by lia. }
  unfold buffer_complete. cbn [with_input need_ state_ buffer_ chunk_bytes_].
  rewrite rd32_take by lia. destruct (rd32 body 0) as [crc|]; [|done]. rewrite !some_bind.
  unfold list_crc. rewrite Hsparse. destruct (crc =? crc32 0 out); cbn [negb]; [|done].
  rewrite !some_bind. cbn [fst snd]. by eexists.
Qed.

Definition at_chunk (p : Parse) : Prop :=
  state_ p = Chunk /\ need_ p = 12 /\ buffer_ p = [] /\ header_ok p /\ block_ p mod 4 = 0.
Definition same_header (p q : Parse) : Prop :=
  chunk_header_ q = chunk_header_ p /\ block_ q = block_ p /\ total_chunks_ q = total_chunks_ p /\
  image_crc_ q = image_crc_ p.
Lemma at_chunk_ok p : at_chunk p -> parse_ok p.
Proof.
  intros (Hst & Hneed & Hbuf & Hh & _). unfold parse_ok, input_ok. rewrite Hst, Hneed, Hbuf.
  split; [apply Forall_nil_2|done].
Qed.
Lemma chunk_data_ok type len body out out' rest : 0 <= len -> bytes_ok body -> blen out + len <= total ->
  chunk_data type len body out = Some (out', rest) -> blen out' <= total /\ bytes_ok rest.
Proof.
  intros Hl Hb Hle. unfold chunk_data.
  destruct (type =? 0xcac1).
  { destruct (Z.ltb_spec (blen body) len); [done|]. intros [= <- <-].
    rewrite blen_app, blen_take by lia. split; [lia|by apply Forall_drop]. }
  destruct (type =? 0xcac2).
  { destruct (_ <? _); [done|]. intros [= <- <-]. rewrite blen_app, length_pattern by lia.
    split; [lia|by apply Forall_drop]. }
  destruct (type =? 0xcac3).
  { intros [= <- <-]. rewrite blen_app. unfold blen at 2. rewrite length_replicate. split; [lia|done]. }
  destruct (rd32 body 0); [|done]. rewrite some_bind. destruct (_ =? _); [|done]. intros [= <- <-].
  split; [lia|by apply Forall_drop].
Qed.
(** From the twelve bytes of a chunk's header to its data. *)
Lemma chunk_header_run p bs out : header_ok p -> (chunk_type_ p = 0xcac1 -> 0 < chunk_bytes_ p) ->
  bytes_ok bs -> 12 <= blen bs ->
  let X := ((if negb (chunk_header_ p - 12 =? 0)
            then Some (with_input p SkipChunk (need_ p) [] (chunk_header_ p - 12), out)
            else BeginData list_output (with_input p Chunk (need_ p) [] (chunk_header_ p - 12)) out)
           ≫= (fun r => D (drop 12 bs) r.1 r.2)) ≫= at_end K in
  if blen bs <? chunk_header_ p then X = None
  else exists st, X = r ← BeginData list_output (with_input p st (need_ p) [] 0) out;
                      run (drop (Z.to_nat (chunk_header_ p)) bs) r.1 r.2.
Proof.
  intros [Hbl Hch] Hraw Hb Hl. cbv zeta. destruct (Z.eqb_spec (chunk_header_ p - 12) 0) as [E|E]; cbn [negb].
  - replace (chunk_header_ p) with 12 by lia. destruct (Z.ltb_spec (blen bs) 12); [lia|].
    exists Chunk. change (12 - 12) with 0. by destruct (BeginData _ _ _).
  - rewrite some_bind. cbn [fst snd]. rewrite decode_skip; [|split; [apply Forall_nil_2|]|simpl; tauto|by apply Forall_drop].
    2: { split; [|done]. unfold input_ok. simpl. split; [lia|done]. }
    cbn [with_input remaining_ state_ need_]. rewrite bool_decide_false by done.
    assert (Hd : blen (drop 12 bs) = blen bs - 12) by (unfold blen in *; rewrite length_drop; lia).
    rewrite Hd. destruct (Z.ltb_spec (blen bs - 12) (chunk_header_ p - 12)) as [Hs|Hs].
    + replace (blen bs <? chunk_header_ p) with true by (symmetry; apply Z.ltb_lt; lia). done.
    + replace (blen bs <? chunk_header_ p) with false by (symmetry; apply Z.ltb_ge; lia).
      exists SkipChunk. rewrite drop_drop. replace (12 + Z.to_nat (chunk_header_ p - 12))%nat with (Z.to_nat (chunk_header_ p)) by lia.
      by destruct (BeginData _ _ _).
Qed.
(** One chunk of the machine is [sparse_chunk]. *)
Lemma chunk_run p bs out : at_chunk p -> bytes_ok bs -> blen out <= total -> chunks_ p < total_chunks_ p ->
  match sparse_chunk (chunk_header_ p) (block_ p) total bs out with
  | None => run bs p out = None
  | Some (out', rest) => blen out' <= total /\ bytes_ok rest /\
      exists q, run bs p out = run rest q out' /\ at_chunk q /\ same_header p q /\ chunks_ q = u32 (chunks_ p + 1)
  end.
Proof.
  intros Hp Hb Hle Hlt. pose proof Hp as (Hst & Hneed & Hbuf & [Hbl Hch] & H4). pose proof (blen_nonneg out).
  rewrite decode_collect; [|by apply at_chunk_ok|unfold buffered; tauto|done..].
  rewrite Hneed. unfold sparse_chunk.
  destruct (Z.ltb_spec (blen bs) 12) as [Hs|Hs].
  { rewrite (rd32_short bs 8) by lia.
    rewrite some_bind. unfold at_end, settled. cbn [fst with_input state_ buffer_ chunks_ total_chunks_].
    replace (chunks_ p =? total_chunks_ p) with false by (symmetry; apply Z.eqb_neq; lia).
    rewrite andb_false_r. by destruct (rd16 bs 0), (rd32 bs 4). }
  unfold buffer_complete, chunk_complete.
  cbn [with_input state_ buffer_ chunks_ total_chunks_ block_ chunk_header_]. rewrite Hst.
  destruct (Z.leb_spec (total_chunks_ p) (chunks_ p)); [lia|].
  change (Z.to_nat 12) with 12%nat. rewrite rd16_take, !rd32_take by lia.
  destruct (rd16 bs 0) as [type|] eqn:Et; [|done]. destruct (rd32 bs 4) as [n|] eqn:En; [|done].
  destruct (rd32 bs 8) as [size|]; [|done]. rewrite !some_bind. apply rd32_range in En; [|done].
  assert (Hu : u64 (total - blen out) = total - blen out) by (unfold_width; apply Z.mod_small; lia).
  rewrite Hu. set (len := n * block_ p) in *.
  assert (Hlen : 0 <= len /\ len mod 4 = 0).
  { unfold len. split; [nia|]. by rewrite Zmult_mod, H4, Z.mul_0_r. }
  destruct Hlen as [Hlen0 Hlen4].
  destruct (Z.ltb_spec (total - blen out) len).
  { replace (total <? blen out + len) with true by (symmetry; apply Z.ltb_lt; lia).
    by destruct (chunk_payload type len). }
  replace (total <? blen out + len) with false by (symmetry; apply Z.ltb_ge; lia).
  destruct (chunk_payload type len) as [payload|] eqn:Epay; [|done]. rewrite !some_bind. cbn [orb].
  destruct (if type =? 0xcac4 then _ else _) eqn:Ez; [done|].
  destruct (negb (size =? chunk_header_ p + payload)); [done|]. cbn [orb].
  set (p1 := with_chunk _ len type).
  assert (Hraw : type = 0xcac1 -> 0 < len).
  { intros ->. cbn in Ez. apply Z.eqb_neq in Ez. lia. }
  pose proof (chunk_header_run p1 bs out (conj Hbl Hch) Hraw Hb Hs) as HX. cbv zeta in HX.
  change (chunk_header_ p1) with (chunk_header_ p) in HX.
  destruct (Z.ltb_spec (blen bs) (chunk_header_ p)) as [Hsh|Hsh]; [done|].
  destruct HX as [st HX]. pose proof (BeginData_run (with_input p1 st (need_ p1) [] 0)
    (drop (Z.to_nat (chunk_header_ p)) bs) out (conj Hbl Hch)) as HB. cbn [with_input chunk_type_ chunk_bytes_] in HB.
  specialize (HB ltac:(by apply Forall_drop) Hlen0 Hlen4 (mk_is_Some _ _ Epay) Hraw ltac:(cbn; lia)).
  change (chunk_type_ p1) with type in HB. change (chunk_bytes_ p1) with len in HB.
  destruct (chunk_data type len _ out) as [[out' rest]|] eqn:Ed.
  - apply chunk_data_ok in Ed as [Ho Hr]; [|done|by apply Forall_drop|lia]. split; [done|]. split; [done|].
    destruct HB as [rm HB]. eexists. split; [by rewrite HX|]. done.
  - by rewrite HX.
Qed.
(** The chunks after the header, and the end of the input. *)
Lemma chunks_run n : forall p bs out, at_chunk p -> bytes_ok bs -> blen out <= total ->
  0 <= chunks_ p -> chunks_ p + Z.of_nat n = total_chunks_ p -> total_chunks_ p < 2 ^ 32 ->
  run bs p out = sparse_chunks n (chunk_header_ p) (block_ p) total bs out ≫= K (image_crc_ p).
Proof.
  induction n as [|n IH]; intros p bs out Hp Hb Hle H0 Hn H32; cbn [sparse_chunks].
  - assert (Hend : chunks_ p = total_chunks_ p) by lia. pose proof Hp as (Hst & Hneed & Hbuf & Hh & _).
    destruct (decide (bs = [])) as [->|Hne].
    { rewrite decode_nil, bool_decide_true by done. rewrite !some_bind. unfold at_end, settled. cbn [fst snd].
      rewrite Hst, Hbuf, Hend, Z.eqb_refl. done. }
    rewrite bool_decide_false by done.
    rewrite decode_collect; [|by apply at_chunk_ok|unfold buffered; tauto|done..].
    destruct (_ <? _); [rewrite some_bind; unfold at_end, settled; cbn [fst with_input state_ buffer_];
      rewrite (bool_decide_false (bs = [])), andb_false_r by done; done|].
    unfold buffer_complete, chunk_complete. cbn [with_input state_ chunks_ total_chunks_]. rewrite Hst, Hend.
    by rewrite Z.leb_refl.
  - pose proof (chunk_run p bs out Hp Hb Hle ltac:(lia)) as Hc.
    destruct (sparse_chunk _ _ _ _ _) as [[out' rest]|]; [|done]. rewrite some_bind. cbn [fst snd].
    destruct Hc as (Ho & Hr & q & -> & Hq & (E1 & E2 & E3 & E4) & Ech).
    assert (u32 (chunks_ p + 1) = chunks_ p + 1) as Hu by (unfold_width; apply Z.mod_small; lia).
    rewrite IH by (done || lia). by rewrite E1, E2, E4.
Qed.
(** The whole input of a sparse entry. *)
Lemma unsparse_run_aux p bs : state_ p = Header -> need_ p = 28 -> buffer_ p = [] -> chunks_ p = 0 -> bytes_ok bs ->
  run bs p [] =
  (magic ← rd32 bs 0; major ← rd16 bs 4; file_hdr ← rd16 bs 8; hdr ← rd16 bs 10;
   block ← rd32 bs 12; blocks ← rd32 bs 16; chunks ← rd32 bs 20; crc ← rd32 bs 24;
   if negb (magic =? 0xed26ff3a) || negb (major =? 1) || (file_hdr <? 28) || (1024 <? file_hdr) ||
      (hdr <? 12) || (1024 <? hdr) || (block =? 0) || negb (block mod 4 =? 0) || (2 ^ 20 <? block) ||
      (chunks =? 0) || (10000000 <? chunks) || negb (block * blocks =? total) || (blen bs <? file_hdr) then None
   else sparse_chunks (Z.to_nat chunks) hdr block total (drop (Z.to_nat file_hdr) bs) [] ≫= K crc).
Proof.
  intros Hst Hneed Hbuf Hch0 Hb.
  assert (Hp : parse_ok p).
  { unfold parse_ok, input_ok. rewrite Hst, Hneed, Hbuf. split; [apply Forall_nil_2|done]. }
  rewrite decode_collect; [|done|unfold buffered; tauto|done..]. rewrite Hneed.
  destruct (Z.ltb_spec (blen bs) 28) as [Hs|Hs].
  { rewrite some_bind. unfold at_end, settled. cbn [fst with_input state_]. rewrite Hst, bool_decide_false by done.
    cbn [andb]. rewrite (rd32_short bs 24) by lia.
    by destruct (rd32 bs 0), (rd16 bs 4), (rd16 bs 8), (rd16 bs 10), (rd32 bs 12), (rd32 bs 16), (rd32 bs 20). }
  unfold buffer_complete. cbn [with_input state_ buffer_]. rewrite Hst. unfold header_complete.
  change (Z.to_nat 28) with 28%nat. rewrite !rd16_take, !rd32_take by lia.
  destruct (rd32 bs 0) as [magic|]; [|done]. destruct (rd16 bs 4) as [major|]; [|done].
  destruct (rd16 bs 8) as [fh|]; [|done]. destruct (rd16 bs 10) as [hdr|]; [|done].
  destruct (rd32 bs 12) as [block|] eqn:Eb; [|done]. destruct (rd32 bs 16) as [blocks|]; [|done].
  destruct (rd32 bs 20) as [chunks|] eqn:Ec; [|done]. destruct (rd32 bs 24) as [crc|]; [|done].
  apply rd32_range in Eb, Ec; [|done..]. rewrite !some_bind.
  destruct (_ || (1024 <? hdr)) eqn:E1; [done|]. cbn [orb]. rewrite <- !orb_assoc.
  destruct (block =? 0) eqn:E2; [done|]. destruct (negb (block mod 4 =? 0)) eqn:E3; [done|].
  destruct (2 ^ 20 <? block) eqn:E4; [done|]. destruct (chunks =? 0) eqn:E5; [done|].
  destruct (10000000 <? chunks) eqn:E6; [done|]. destruct (negb (block * blocks =? total)) eqn:E7; [done|].
  cbn [orb]. rewrite !some_bind. cbn [fst snd]. bool_facts.
  assert (Hd : blen (drop 28 bs) = blen bs - 28) by (unfold blen in *; rewrite length_drop; lia).
  assert (Hrest : forall q, at_chunk q -> chunk_header_ q = hdr -> block_ q = block -> total_chunks_ q = chunks ->
    chunks_ q = 0 -> image_crc_ q = crc -> run (drop (Z.to_nat fh) bs) q [] =
      sparse_chunks (Z.to_nat chunks) hdr block total (drop (Z.to_nat fh) bs) [] ≫= K crc).
  { intros q Hq <- <- <- Hz <-. apply chunks_run; try done; try lia; [by apply Forall_drop|by apply Htotal]. }
  destruct (Z.eqb_spec (fh - 28) 0) as [E0|E0].
  - destruct (Z.ltb_spec (blen bs) fh); [lia|]. replace 28%nat with (Z.to_nat fh) by lia.
    apply Hrest; try done. split_and!; try done. split; cbn; lia.
  - rewrite decode_skip; [|split; [apply Forall_nil_2|]|simpl; tauto|by apply Forall_drop].
    2: { split; [unfold input_ok; simpl; split; [lia|done]|]. intros _ _. split; simpl; lia. }
    cbn [with_input remaining_ state_ need_]. rewrite Hd.
    destruct (Z.ltb_spec (blen bs - 28) (fh - 28)) as [Hsh|Hsh].
    { destruct (Z.ltb_spec (blen bs) fh); [done|lia]. }
    destruct (Z.ltb_spec (blen bs) fh); [lia|]. rewrite bool_decide_true by done. rewrite !some_bind. cbn [fst snd].
    rewrite drop_drop. replace (28 + Z.to_nat (fh - 28))%nat with (Z.to_nat fh) by lia.
    apply Hrest; try done. split_and!; try done. split; cbn; lia.
Qed.
End ListSink.

(** ** The file sink follows the list *)
Section FileSimulation.
Context `{HS : ShaStream} `{HZ : Zlib} `{HZL : !ZlibLaws HZ} (part : ImagePart) (Hpart : 0 <= part_size part < 2 ^ 64).
#[local] Abbreviation list_out := (list_output (part_size part)).
#[local] Abbreviation list_D := (decode list_out (list_crc (part_sparse part)) blen (part_size part)).
Definition follows (s : FileSink) (out : list Z) : Prop :=
  file_ s = out /\ written_ s = blen out /\ blen out <= part_size part /\
  output_crc_ s = list_crc (part_sparse part) out /\
  exists chunks, hash_ s = foldl SHA256_Update SHA256_Init chunks /\ concat chunks = out.

Lemma Output_guard s out data : follows s out ->
  (u64 (part_size part - written_ s) <? blen data) = (part_size part <? blen (out ++ data)).
Proof.
  intros (_ & Hw & Hle & _). pose proof (blen_nonneg out). rewrite Hw, blen_app.
  assert (u64 (part_size part - blen out) = part_size part - blen out) as -> by (unfold_width; apply Z.mod_small; lia).
  destruct (Z.ltb_spec (part_size part - blen out) (blen data)), (Z.ltb_spec (part_size part) (blen out + blen data)); done || lia.
Qed.
(** The sink after an output that the kernel accepted. *)
Lemma follows_output s out data file rest : follows s out -> blen (out ++ data) <= part_size part ->
  file = file_ s ++ data ->
  follows (MkFileSink _ (u64 (written_ s + blen data))
    (if part_sparse part then crc32 (output_crc_ s) data else output_crc_ s)
    (SHA256_Update (hash_ s) data) file rest) (out ++ data).
Proof.
  intros (Hf & Hw & Hle & Hc & chunks & Hh & Hcat) Hle' ->. pose proof (blen_nonneg (out ++ data)).
  unfold follows. cbn. split_and!; [by rewrite Hf| |done| |].
  - rewrite Hw, blen_app in *. unfold_width. apply Z.mod_small. lia.
  - rewrite Hc. unfold list_crc. destruct (part_sparse part); [by rewrite crc32_app|done].
  - exists (chunks ++ [data]). rewrite foldl_app, Hh, concat_app. cbn. by rewrite Hcat, app_nil_r.
Qed.
Lemma Output_follows d s s' out : follows s out -> Output part d s = Some s' ->
  exists out', list_out d out = Some out' /\ follows s' out'.
Proof.
  intros HR. unfold Output. rewrite (Output_guard _ _ _ HR). unfold list_output.
  destruct (Z.ltb_spec (part_size part) (blen (out ++ d))) as [|Hle]; [done|].
  intros ([file rest] & E & [= <-])%bind_Some. apply write_all_Some in E. eexists. split; [done|].
  by apply follows_output.
Qed.
Definition can_follow (out : list Z) (s : FileSink) : Prop := follows s out /\ Forall helpful (writes_ s).
Lemma list_can_follow d out out' s : can_follow out s -> list_out d out = Some out' ->
  exists s', Output part d s = Some s' /\ can_follow out' s'.
Proof.
  intros [HR Hh]. unfold Output. rewrite (Output_guard _ _ _ HR). unfold list_output.
  destruct (Z.ltb_spec (part_size part) (blen (out ++ d))) as [|Hle]; [done|]. intros [= <-].
  destruct (write_all_helpful (writes_ s) (file_ s) d Hh) as (rest & -> & Hr). rewrite some_bind.
  eexists. split; [done|]. split; [by apply follows_output|done].
Qed.

(** The pieces of the input, one after the other. *)
Definition counts (w : ImageWriter) (seen : list Z) : Prop :=
  encoded_ w = u64 (blen seen) /\ encoded_crc_ w = crc32 0 seen.
Lemma Append_counts seen d w r :
  counts w seen -> counts (MkWriter r.1 r.2 (u64 (encoded_ w + blen d)) (crc32 (encoded_crc_ w) d)) (seen ++ d).
Proof.
  intros [He Hc]. split; cbn.
  - rewrite He, blen_app. unfold u64. by rewrite Zplus_mod_idemp_l.
  - by rewrite Hc, crc32_app.
Qed.
Lemma append_all_sound pieces : forall w w' out seen, follows (w_sink w) out -> parse_ok (w_parse w) ->
  bytes_ok (concat pieces) -> counts w seen -> append_all part pieces w = Some w' ->
  exists out', list_D (concat pieces) (w_parse w) out = Some (w_parse w', out') /\ follows (w_sink w') out' /\
    counts w' (seen ++ concat pieces).
Proof.
  induction pieces as [|d pieces IH]; intros w w' out seen HR Hp Hb Hc; cbn [append_all concat].
  { intros [= <-]. exists out. by rewrite app_nil_r. }
  cbn [concat] in Hb. apply Forall_app in Hb as [Hd Hb].
  intros (w1 & E1 & E2)%bind_Some. apply bind_Some in E1 as ([p s] & E1 & [= <-]).
  apply (decode_sim _ list_out _ _ (list_crc (part_sparse part)) blen _ follows) with (t := out) in E1
    as (out1 & E1 & HR1); [|intros; by eapply Output_follows|by intros ?? (_ & _ & _ & ? & _)|by intros ?? (_ & ? & _)|done].
  eapply IH in E2 as (out' & E2 & HR2 & Hc2); [|exact HR1|eapply parse_decode_ok; [| |exact E1]; done|done|by apply (Append_counts seen d w (p, s))].
  exists out'. rewrite decode_app by (done || apply list_output_app). rewrite E1, some_bind. cbn [fst snd].
  by rewrite <- app_assoc in Hc2.
Qed.
Lemma append_all_complete pieces : forall w out seen p' out', can_follow out (w_sink w) -> parse_ok (w_parse w) ->
  bytes_ok (concat pieces) -> counts w seen -> list_D (concat pieces) (w_parse w) out = Some (p', out') ->
  exists w', append_all part pieces w = Some w' /\ w_parse w' = p' /\ follows (w_sink w') out' /\
    counts w' (seen ++ concat pieces).
Proof.
  induction pieces as [|d pieces IH]; intros w out seen p' out' HR Hp Hb Hc; cbn [append_all concat].
  { intros [= <- <-]. exists w. rewrite app_nil_r. destruct HR. by split_and!. }
  cbn [concat] in Hb. apply Forall_app in Hb as [Hd Hb].
  rewrite decode_app by (done || apply list_output_app). intros ([p1 out1] & E1 & E2)%bind_Some.
  pose proof E1 as E1'.
  apply (decode_sim _ (Output part) _ _ output_crc_ written_ _ can_follow) with (t := w_sink w) in E1
    as (s1 & E1 & HR1); [|intros; by eapply list_can_follow|by intros ?? [(_ & _ & _ & ? & _) _]|by intros ?? [(_ & ? & _) _]|done].
  unfold Append. rewrite E1, !some_bind.
  cbn [fst snd]. match goal with |- context [append_all part pieces ?x] => set (w1 := x) end.
  destruct (IH w1 out1 (seen ++ d) p' out') as (w' & -> & Hp' & HR2 & Hc2); [done|eapply parse_decode_ok; [| |exact E1']; done|done| |done|].
  { by apply (Append_counts seen d w (p1, s1)). }
  exists w'. by rewrite <- app_assoc in Hc2.
Qed.

(** What Finish asks, over the list. *)
Definition finished (r : Parse * list Z) : option (list Z) :=
  if negb (blen r.2 =? part_size part) ||
     (part_sparse part && (negb (settled r.1) ||
       (negb (image_crc_ r.1 =? 0) && negb (image_crc_ r.1 =? crc32 0 r.2)))) then None
  else Some r.2.
Lemma list_image bs : bytes_ok bs -> list_D bs (initial (part_sparse part)) [] ≫= finished = image_of part bs.
Proof.
  intros Hb. unfold image_of, finished. destruct (part_sparse part) eqn:Hs.
  - unfold unsparse. set (K := fun (crc : Z) (out : list Z) =>
      if negb (blen out =? part_size part) || (negb (crc =? 0) && negb (crc =? crc32 0 out)) then None else Some out).
    transitivity (decode list_out (list_crc true) blen (part_size part) bs (initial true) [] ≫= at_end K).
    + destruct (decode _ _ _ _ _ _ _) as [[p out]|]; [|done]. cbn [mbind option_bind]. unfold at_end, K. cbn [fst snd].
      by destruct (settled p), (blen out =? part_size part), (image_crc_ p =? 0), (image_crc_ p =? crc32 0 out).
    + by rewrite unsparse_run_aux.
  - cbn [andb]. destruct (decide (bs = [])) as [->|Hne].
    { rewrite decode_nil, some_bind. cbn [snd]. by destruct (blen [] =? part_size part). }
    rewrite decode_step; [|apply initial_ok|done..]. unfold round. cbn [initial state_].
    replace (list_out bs []) with (if part_size part <? blen bs then None else Some bs) by done.
    destruct (Z.ltb_spec (part_size part) (blen bs)).
    { destruct (Z.eqb_spec (blen bs) (part_size part)); [lia|done]. }
    rewrite !some_bind. cbn [fst snd]. rewrite drop_all, decode_nil, some_bind. cbn [snd].
    by destruct (blen bs =? part_size part).
Qed.
Lemma new_writer_follows answers : follows (w_sink (new_writer part answers)) [].
Proof.
  unfold follows. cbn. split_and!; [done|done|by apply Hpart| |by exists []].
  unfold list_crc. by destruct (part_sparse part); rewrite ?crc32_nil.
Qed.
Lemma new_writer_counts answers : counts (new_writer part answers) [].
Proof. split; [done|]. by rewrite crc32_nil. Qed.
Lemma Finish_finished entry w out seen : follows (w_sink w) out -> counts w seen -> blen seen < 2 ^ 64 ->
  Finish part entry w =
    if (blen seen =? entry_length entry) && (crc32 0 seen =? entry_crc32 entry)
    then finished (w_parse w, out) ≫= fun _ => Some (SHA256_Final (hash_ (w_sink w))) else None.
Proof.
  intros (Hf & Hw & Hle & Hc & _) [He Hec] Hl. unfold Finish, finished, settled. rewrite He, Hec, Hw, Hc.
  assert (u64 (blen seen) = blen seen) as -> by (unfold_width; apply Z.mod_small; pose proof (blen_nonneg seen); lia).
  destruct (blen seen =? entry_length entry); [|done]. destruct (crc32 0 seen =? entry_crc32 entry); [|done].
  cbn [negb orb andb fst snd]. unfold list_crc. destruct (blen out =? part_size part); [|done].
  destruct (part_sparse part); [|done].
  by destruct (bool_decide (state_ (w_parse w) = Chunk)), (bool_decide (buffer_ (w_parse w) = [])),
    (chunks_ (w_parse w) =? total_chunks_ (w_parse w)), (image_crc_ (w_parse w) =? 0),
    (image_crc_ (w_parse w) =? crc32 0 out).
Qed.
End FileSimulation.

Section Written.
Context `{HS : ShaStream} `{H256 : Sha256} `{HZ : Zlib} `{HSL : !ShaStreamLaws H256 HS} `{HZL : !ZlibLaws HZ}.
Context (part : ImagePart) (entry : ImageEntry) (pieces : list (list Z)) (answers : list Answer).
Context (Hpart : 0 <= part_size part < 2 ^ 64) (Hbytes : bytes_ok (concat pieces)) (Hlen : blen (concat pieces) < 2 ^ 64).
(** The file is the image the entry stands for. *)
Definition written_as (file digest : list Z) : Prop :=
  image_of part (concat pieces) = Some file /\ digest = SHA256 file /\ blen file = part_size part /\
  entry_length entry = blen (concat pieces) /\ entry_crc32 entry = crc32 0 (concat pieces).
Lemma write_image_sound file digest :
  write_image part entry pieces answers = Some (file, digest) -> written_as file digest.
Proof.
  intros (w & Ew & (d & Ed & [= <- <-])%bind_Some)%bind_Some.
  eapply append_all_sound in Ew as (out & ED & HR & Hc);
    [|done|by apply new_writer_follows|apply initial_ok|done|by apply new_writer_counts].
  cbn [app] in Hc. rewrite (Finish_finished _ _ _ _ _ HR Hc Hlen) in Ed.
  destruct (Z.eqb_spec (blen (concat pieces)) (entry_length entry)) as [El|]; [|done].
  destruct (Z.eqb_spec (crc32 0 (concat pieces)) (entry_crc32 entry)) as [Ec|]; [|done].
  apply bind_Some in Ed as (out' & Ef & [= <-]).
  unfold written_as. rewrite <- list_image by done. cbn [new_writer w_parse] in ED. rewrite ED, some_bind, Ef.
  unfold finished in Ef. cbn [fst snd] in Ef. destruct (Z.eqb_spec (blen out) (part_size part)) as [Eo|]; [|done].
  if_step Ef; [done|]. injection Ef as <-. destruct HR as (Hf & _ & _ & _ & chunks & Hh & Hcat).
  by rewrite Hf, Hh, sha_pieces, Hcat.
Qed.
Lemma write_image_complete file : Forall helpful answers -> image_of part (concat pieces) = Some file ->
  entry_length entry = blen (concat pieces) -> entry_crc32 entry = crc32 0 (concat pieces) ->
  write_image part entry pieces answers = Some (file, SHA256 file).
Proof.
  intros Hans Him El Ec. rewrite <- list_image in Him by done. apply bind_Some in Him as ([p out] & ED & Ef).
  destruct (append_all_complete part Hpart pieces (new_writer part answers) [] [] p out) as (w & Ew & Hp & HR & Hc);
    [by split; [apply new_writer_follows|]|apply initial_ok|done|apply new_writer_counts|done|].
  cbn [app] in Hc. unfold write_image. rewrite Ew, some_bind, (Finish_finished _ _ _ _ _ HR Hc Hlen), Hp, Ef.
  rewrite <- El, <- Ec, !Z.eqb_refl. cbn [andb]. rewrite !some_bind.
  assert (file = out) as ->.
  { unfold finished in Ef. if_step Ef; [done|]. by injection Ef. }
  destruct HR as (Hf & _ & _ & _ & chunks & Hh & Hcat). by rewrite Hf, Hh, sha_pieces, Hcat.
Qed.
End Written.

(** C5: an entry of an image archive, streamed to ImageWriter in pieces of
    any size: if Append and Finish succeed, under any behaviour of write(2),
    then the file holds exactly the image the entry stands for (the entry
    itself, or what the sparse format defines), the digest is its SHA-256, the
    entry has the length and the CRC-32 its directory record declares; and
    when the kernel never fails, every such entry is accepted. *)
Theorem write_image_exact `{HS : ShaStream} `{H256 : Sha256} `{HZ : Zlib} `{HSL : !ShaStreamLaws H256 HS} `{HZL : !ZlibLaws HZ}
    part entry pieces answers
    (Hpart : 0 <= part_size part < 2 ^ 64) (Hbytes : bytes_ok (concat pieces)) (Hlen : blen (concat pieces) < 2 ^ 64) :
  (forall file digest, write_image part entry pieces answers = Some (file, digest) ->
    image_of part (concat pieces) = Some file /\ digest = SHA256 file /\ blen file = part_size part /\
    entry_length entry = blen (concat pieces) /\ entry_crc32 entry = crc32 0 (concat pieces)) /\
  (forall file, Forall helpful answers -> image_of part (concat pieces) = Some file ->
    entry_length entry = blen (concat pieces) -> entry_crc32 entry = crc32 0 (concat pieces) ->
    write_image part entry pieces answers = Some (file, SHA256 file)).
Proof. split; [intros file digest; by apply write_image_sound|intros file; by apply write_image_complete]. Qed.

(** ** A sparse entry of one chunk of each kind *)
#[local] Instance sum_crc : Zlib := { crc32 c bytes := foldl (fun c b => u32 (c + b)) c bytes }.
#[local] Instance sum_crc_laws : ZlibLaws sum_crc.
Proof. split; [done|]. intros c a b. apply foldl_app. Qed.
#[local] Instance sum_sha : Sha256 := { SHA256 bytes := replicate 32 (u8 (foldr Z.add 0 bytes)) }.
#[local] Instance sum_stream : ShaStream := {
  sha_ctx := list Z; SHA256_Init := []; SHA256_Update ctx bs := ctx ++ bs; SHA256_Final ctx := SHA256 ctx }.
#[local] Instance sum_stream_laws : ShaStreamLaws sum_sha sum_stream.
Proof.
  split. intros chunks. change (SHA256_Final (foldl SHA256_Update [] chunks) = SHA256 (concat chunks)).
  enough (forall l : list Z, foldl SHA256_Update l chunks = l ++ concat chunks) as -> by done.
  induction chunks as [|c chunks IH]; intros l; simpl; [by rewrite app_nil_r|]. by rewrite IH, <- app_assoc.
Qed.
Definition le32 (v : Z) : list Z := [v mod 256; v / 256 mod 256; v / 65536 mod 256; v / 16777216].
Definition le16 (v : Z) : list Z := [v mod 256; v / 256].
Definition demo_chunk (type blocks size : Z) : list Z := le16 type ++ [0; 0] ++ le32 blocks ++ le32 size.
(** Four blocks of four bytes: raw, fill, hole; the file header has 30 bytes. *)
Definition demo_entry_bytes : list Z :=
  le32 0xed26ff3a ++ le16 1 ++ le16 0 ++ le16 30 ++ le16 12 ++ le32 4 ++ le32 4 ++ le32 4 ++ le32 0 ++ [0; 0] ++
  demo_chunk 0xcac1 1 16 ++ [1; 2; 3; 4] ++
  demo_chunk 0xcac2 2 16 ++ [9; 8; 7; 6] ++
  demo_chunk 0xcac4 0 16 ++ le32 70 ++
  demo_chunk 0xcac3 1 12.
Definition demo_image : list Z := [1; 2; 3; 4; 9; 8; 7; 6; 9; 8; 7; 6; 0; 0; 0; 0].
Definition demo_pieces : list (list Z) := [take 5 demo_entry_bytes; []; take 40 (drop 5 demo_entry_bytes); drop 45 demo_entry_bytes].
Definition demo_part : ImagePart := MkImagePart 16 true.
Definition demo_entry : ImageEntry := MkImageEntry (blen demo_entry_bytes) (crc32 0 demo_entry_bytes).
Lemma write_image_exact_witness :
  write_image demo_part demo_entry demo_pieces [Upto 3; Intr; Upto 1] = Some (demo_image, SHA256 demo_image) /\
  image_of demo_part (concat demo_pieces) = Some demo_image.
Proof.
  assert (Hb : bytes_ok (concat demo_pieces)) by (apply (bool_decide_unpack (Forall _ _)); vm_compute; exact I).
  destruct (write_image_exact demo_part demo_entry demo_pieces [Upto 3; Intr; Upto 1]) as [Hs Hc];
    [split; [discriminate|reflexivity]|exact Hb|reflexivity|].
  assert (E : write_image demo_part demo_entry demo_pieces [Upto 3; Intr; Upto 1] = Some (demo_image, SHA256 demo_image)).
  { apply Hc; [|vm_compute; reflexivity..]. repeat constructor; discriminate. }
  split; [exact E|]. apply (Hs _ _ E).
Defined.
