(* ===== verification/ImageZip.v ===== *)
(** aeraui/features/update/image_zip.cpp: archives of partition images, the
    inspection, the compatibility check and the extraction (ImageWriter itself
    is SparseImage).

    libziparchive and liblp are parameters: the classes [ZipReader] and
    [Liblp], next to [Packages] of PayloadExtract. *)
From stdpp Require Import base list strings gmap sorting.
From Stdlib Require Import ZArith Lia Ascii.
From S2P Require Import Prelude CxxString Kernel Abl PayloadTargets PayloadArb PayloadInfo PayloadExtract SparseImage.

(** ** Libraries *)
Class ZipReader `{Packages} := {
  (* the entries Next yields, and the value that ends the iteration *)
  StartIteration : archive -> option (list (string * ZipEntry) * Z);
  (* the buffer of uncompressed_length bytes after a successful call *)
  ExtractToMemory : archive -> ZipEntry -> option (list Z);
  (* the pieces handed to the callback, and does it report success at the end? *)
  EntryContents : archive -> ZipEntry -> list (list Z) * bool
}.
Definition entry_ok (e : ZipEntry) : Prop :=
  is_u64 (z_offset e) /\ is_u64 (z_method e) /\ is_u64 (z_crc32 e) /\ is_u64 (z_compressed e) /\
  is_u64 (z_uncompressed e).
Class ZipReaderLaws `(R : ZipReader) : Prop := {
  extract_length a e bs : ExtractToMemory a e = Some bs -> blen bs = z_uncompressed e;
  extract_bytes a e bs : ExtractToMemory a e = Some bs -> bytes_ok bs;
  contents_bytes a e : bytes_ok (concat (EntryContents a e).1);
  contents_length a e : blen (concat (EntryContents a e).1) < 2 ^ 64;
  entry_fields a es r : StartIteration a = Some (es, r) -> Forall (fun e => entry_ok e.2) es
}.
Record LpGroup := MkLpGroup { GetPartitionGroupName : string; maximum_size : Z; group_flags : Z }.
Record LpPartition := MkLpPartition {
  GetPartitionName : string; group_index : Z; num_extents : Z; attributes : Z }.
Record LpMetadata := MkLpMetadata { lp_groups : list LpGroup; lp_partitions : list LpPartition }.
Class Liblp := {
  ReadFromImageBlob : list Z -> option LpMetadata;
  LP_PARTITION_ATTR_READONLY : Z
}.

(** ** Small helpers *)
Definition kMaxImage : Z := 2 ^ 40.
Definition Name (nm : string) : bool :=
  negb (String.eqb nm "") && (String.length nm <=? 128)%nat && all_chars is_alnum_dash nm.
Definition is_blank (c : ascii) : bool :=
  let n := nat_of_ascii c in (n =? 32)%nat || (n =? 9)%nat || (n =? 13)%nat || (n =? 10)%nat.
Definition Trim (s : string) : string := trim is_blank s.
Definition S_IFMT : Z := 0xf000.
Definition S_IFREG : Z := 0x8000.
(** (entry.gpbf & 1) || ((entry.unix_mode & S_IFMT) && !S_ISREG(entry.unix_mode)) *)
Definition special (e : ZipEntry) : bool :=
  negb (Z.land (z_gpbf e) 1 =? 0) ||
  (negb (Z.land (z_unix_mode e) S_IFMT =? 0) && negb (Z.land (z_unix_mode e) S_IFMT =? S_IFREG)).
Section Readers.
Context `{ZipReader} `{Zlib}.
Definition Small (a : archive) (nm : string) (limit : Z) : option (list Z) :=
  entry ← FindEntry a nm;
  if (limit <? z_uncompressed entry) || special entry then None
  else
  data ← ExtractToMemory a entry;
  if crc32 0 data =? z_crc32 entry then Some data else None.
(** The callback that keeps the first 64 bytes: what it keeps, go on? *)
Definition PrefixBytes (data prefix : list Z) : list Z * bool :=
  let take_ := Z.min (64 - blen prefix) (blen data) in
  let prefix := prefix ++ take (Z.to_nat take_) data in
  (prefix, blen prefix <? 64).
Fixpoint prefix_pieces (pieces : list (list Z)) (prefix : list Z) : list Z :=
  match pieces with
  | [] => prefix
  | d :: pieces =>
      let '(prefix, more) := PrefixBytes d prefix in
      if more : bool then prefix_pieces pieces prefix else prefix
  end.
Definition entry_prefix (a : archive) (e : ZipEntry) : list Z := prefix_pieces (EntryContents a e).1 [].
End Readers.
(** sizeof(uint64_t) bytes of the length, then the value. *)
Definition le64 (v : Z) : list Z := (fun i => Z.land (Z.shiftr v (8 * Z.of_nat i)) 255) <$> seq 0 8.
Definition bind_bytes (value : list Z) : list Z := le64 (blen value) ++ value.
Definition Bind `{ShaStream} (hash : sha_ctx) (value : list Z) : sha_ctx :=
  SHA256_Update (SHA256_Update hash (le64 (blen value))) value.

(** ** The layout of the dynamic partitions *)
Section Layout.
Context `{Liblp}.
(** name.size() < 3 || name[size-2] != '_' || (name.back() != 'a' && != 'b'):
    the bare name and is it slot a? *)
Definition slot_name (nm : string) : option (string * bool) :=
  if (String.length nm <? 3)%nat then None
  else if ends_with nm "_a" then Some (str_take (String.length nm - 2) nm, true)
  else if ends_with nm "_b" then Some (str_take (String.length nm - 2) nm, false)
  else None.
Fixpoint read_groups (gs : list LpGroup) (ga gb : smap Z) : option (smap Z * smap Z) :=
  match gs with
  | [] => Some (ga, gb)
  | g :: gs =>
      let nm := GetPartitionGroupName g in
      if String.eqb nm "default" then read_groups gs ga gb
      else if negb (Name nm) then None
      else
      s ← slot_name nm;
      if negb (group_flags g =? 0) then None
      else if s.2 : bool then read_groups gs (smap_set s.1 (maximum_size g) ga) gb
      else read_groups gs ga (smap_set s.1 (maximum_size g) gb)
  end.
(** group.size() < 3 || group.substr(group.size()-2) != name.substr(name.size()-2) *)
Definition group_of (nm group : string) : option string :=
  let n := String.length nm in let k := String.length group in
  if (k <? 3)%nat || negb (String.eqb (str_drop (k - 2) group) (str_drop (n - 2) nm)) then None
  else Some (str_take (k - 2) group).
Fixpoint read_partitions (groups : list LpGroup) (ps : list LpPartition) (a b : smap ImageZipPartition)
    : option (smap ImageZipPartition * smap ImageZipPartition) :=
  match ps with
  | [] => Some (a, b)
  | p :: ps =>
      let nm := GetPartitionName p in
      if negb (Name nm) then None
      else
      s ← slot_name nm;
      if (Z.of_nat (length groups) <=? group_index p) || negb (num_extents p =? 0) ||
         negb (Z.land (attributes p) (Z.lnot LP_PARTITION_ATTR_READONLY) =? 0) then None
      else
      g ← groups !! Z.to_nat (group_index p);
      group ← group_of nm (GetPartitionGroupName g);
      if negb (IsPartitionImageName s.1) then None
      else
      let part := MkZipPart s.1 group (attributes p) in
      if s.2 : bool then a ← smap_emplace s.1 part a; read_partitions groups ps a b
      else b ← smap_emplace s.1 part b; read_partitions groups ps a b
  end.
Fixpoint same_slots (a b : smap ImageZipPartition) : bool :=
  match a with
  | [] => true
  | (nm, part) :: a =>
      match smap_find nm b with
      | None => false
      | Some other => String.eqb (zp_group other) (zp_group part) && (zp_attributes other =? zp_attributes part) &&
                      same_slots a b
      end
  end.
Definition ReadLayout (blob : list Z) : option (list ImageZipPartition * list ImageZipGroup) :=
  metadata ← ReadFromImageBlob blob;
  if (512 <? length (lp_partitions metadata))%nat || (128 <? length (lp_groups metadata))%nat then None
  else
  g ← read_groups (lp_groups metadata) ([] : smap Z) [];
  if negb (bool_decide (g.1 = g.2)) then None
  else
  p ← read_partitions (lp_groups metadata) (lp_partitions metadata) [] [];
  if bool_decide (p.1 = []) || negb (length p.1 =? length p.2)%nat || negb (same_slots p.1 p.2) then None
  else Some (p.1.*2, map (fun g => MkGroup g.1 g.2) g.1).
End Layout.

(** ** Inspection *)
Definition base_name (path : string) : string :=
  match rfind_char "/" path with Some n => str_drop (S n) path | None => path end.
(** The ".img" entries by name, or the error. *)
Fixpoint collect_images (entries : list (string * ZipEntry)) (images : smap ZipEntry) : option (smap ZipEntry) :=
  match entries with
  | [] => Some images
  | (file, entry) :: entries =>
      if String.eqb file "super_empty.img" || (String.length file <? 5)%nat || negb (ends_with file ".img")
      then collect_images entries images
      else
      let bare := str_take (String.length file - 4) file in
      if negb (Name bare) || special entry then None
      else
      images ← smap_emplace bare entry images;
      if (512 <? length images)%nat then None else collect_images entries images
  end.
(** What is hashed of one image. *)
Definition image_record (e : ZipEntry) : string :=
  (to_string (z_offset e) ++ ":" ++ to_string (z_method e) ++ ":" ++ to_string (z_crc32 e) ++ ":" ++
   to_string (z_compressed e) ++ ":" ++ to_string (z_uncompressed e))%string.
Definition kUnsupported : string := "Unsupported image size, encoding or compression".
Section Inspect.
Context `{ZipReader} `{Zlib} `{Liblp} `{ShaStream}.
Definition inspect_image (a : archive) (nm : string) (image : ZipEntry) : Partition :=
  let bytes := z_uncompressed image in
  let plain := MkPart nm bytes 0 false kUnsupported [] false in
  if (bytes =? 0) || (kMaxImage <? bytes) || negb ((z_method image =? 0) || (z_method image =? 8)) then plain
  else
  let prefix := entry_prefix a image in
  let is_sparse := (4 <=? blen prefix) && bool_decide (rd32 prefix 0 = Some 0xed26ff3a) in
  let bytes := if is_sparse then
      if (28 <=? blen prefix) && bool_decide (rd16 prefix 4 = Some 1)
      then default 0 (x ← rd32 prefix 12; y ← rd32 prefix 16; Some (x * y)) else 0
    else bytes in
  let ok := negb (bytes =? 0) && (bytes <=? kMaxImage) && negb (blen prefix =? 0) in
  MkPart nm bytes 0 ok (if ok then "" else kUnsupported) [] is_sparse.
Fixpoint inspect_images (a : archive) (images : smap ZipEntry) (hash : sha_ctx) (info : Info) : Info * sha_ctx :=
  match images with
  | [] => (info, hash)
  | (nm, image) :: images =>
      let hash := Bind (Bind hash (bytes_of nm)) (bytes_of (image_record image)) in
      let part := inspect_image a nm image in
      if u64 (UINT64_MAX - expanded_bytes info) <? p_bytes part
      then (info {{ error := "Image sizes overflow"%string }}, hash)
      else inspect_images a images hash
             (info {{ expanded_bytes := u64 (expanded_bytes info + p_bytes part);
                      payload_bytes := u64 (payload_bytes info + z_compressed image);
                      parts := parts info ++ [part] }})
  end.
(** The last of the board and product requirements. *)
Fixpoint target_of (requirements : list string) (device : string) : string :=
  match requirements with
  | [] => device
  | r :: requirements =>
      match find_char "=" r with
      | None => target_of requirements device
      | Some equal =>
          let key := Trim (str_take equal r) in
          if String.eqb key "require board" || String.eqb key "require product" || String.eqb key "board" ||
             String.eqb key "product"
          then target_of requirements (Trim (str_drop (S equal) r))
          else target_of requirements device
      end
  end.
(** super_empty.img: the layout, and the hash after it. *)
Definition inspect_layout (a : archive) (hash : sha_ctx) : option (list ImageZipPartition * list ImageZipGroup * sha_ctx) :=
  match FindEntry a "super_empty.img" with
  | None => Some ([], [], hash)
  | Some _ =>
      layout ← Small a "super_empty.img" (4 * 1024 * 1024);
      l ← ReadLayout layout;
      Some (l, Bind hash layout)
  end.
(** [None] only where the firmware reader of payload_arb.cpp goes out of bounds. *)
Definition InspectImageZip (a : archive) (path : string) (read_arb : bool) : option Info :=
  match FindEntry a "android-info.txt" with
  | None => Some no_info
  | Some _ =>
  let info := no_info {{ is_image_zip := true }} in
  match Small a "android-info.txt" (512 * 1024) with
  | None => Some (info {{ error := "Invalid android-info.txt"%string }})
  | Some text =>
  let info := info {{ image_zip_requirements := string_of text }} in
  if bool_decide (0 ∈ text) then Some (info {{ error := "Invalid android-info.txt"%string }})
  else
  let info := info {{ target_build := base_name path; name_from_filename := true }} in
  let hash := Bind SHA256_Init text in
  match inspect_layout a hash with
  | None => Some (info {{ error := "Unsupported or invalid super_empty.img layout metadata"%string }})
  | Some (layout, groups, hash) =>
  let info := info {{ image_zip_layout := layout; image_zip_groups := groups;
                      dynamic_partitions := negb (bool_decide (layout = [])) }} in
  match StartIteration a with
  | None => Some (info {{ error := "Cannot list ZIP images"%string }})
  | Some (entries, result) =>
  match collect_images entries [] with
  | None => Some (info {{ error := "Unsafe, nested or duplicate image name in ZIP"%string }})
  | Some images =>
  if negb (result =? -1) || bool_decide (images = [])
  then Some (info {{ error := "No readable partition images in ZIP"%string }})
  else
  let '(info, hash) := inspect_images a images hash info in
  if negb (String.eqb (error info) "") then Some info
  else
  let info := info {{ manifest_hash := SHA256_Final hash }} in
  let info := info {{ target_device := target_of (lines (image_zip_requirements info)) (target_device info) }} in
  info ← (if read_arb then
            match Small a "xbl_config.img" (16 * 1024 * 1024) with
            | None => Some info
            | Some bytes =>
                arb ← ReadFirmwareArb bytes;
                Some (info {{ arb_available := available arb; arb_index := index arb; arb_detail := detail arb }})
            end
          else Some info);
  Some (info {{ valid := true }})
  end end end end end.
End Inspect.

(** ** Does the archive belong to this device? *)
Definition Lower (s : string) : string := lower s.
(** The alternatives of one requirement: an empty one is an error. *)
Fixpoint match_options (options actual : list string) (matched : bool) : option bool :=
  match options with
  | [] => Some matched
  | option :: options =>
      let option := Lower (Trim option) in
      if String.eqb option "" then None
      else match_options options actual (matched || existsb (fun a => String.eqb (Lower (Trim a)) option) actual)
  end.
(** The prefix of a line: what follows it, and is it a rejection? *)
Definition strip_verb (line : string) : option (string * bool) :=
  if String.prefix "require " line then Some (Trim (str_drop 8 line), false)
  else if String.prefix "reject " line then Some (Trim (str_drop 7 line), true)
  else if String.prefix "require-for-product:" line then None
  else Some (line, false).
(** One line: [has_identity] after it, or the error. *)
Definition compatible_line (device : smap (list string)) (line : string) (has_identity : bool) : string + bool :=
  let line := Trim line in
  if String.eqb line "" || String.prefix "#" line then inr has_identity
  else
  match strip_verb line with
  | None => inl "Conditional android-info requirements are not supported"%string
  | Some (line, reject) =>
  match find_char "=" line with
  | None => inl "Malformed android-info requirement"%string
  | Some equal =>
  let key := Trim (str_take equal line) in
  let key := if String.eqb key "board" then "product"%string else key in
  match smap_find key device with
  | None | Some [] => inl ("Cannot verify package requirement: " ++ key)%string
  | Some actual =>
  match match_options (getlines "|" (str_drop (S equal) line)) actual false with
  | None => inl "Empty package requirement"%string
  | Some matched =>
  if Bool.eqb matched reject then inl ("Package requirement failed: " ++ line)%string
  else inr (has_identity || (String.eqb key "product" && negb reject))
  end end end end.
Fixpoint compatible_lines (device : smap (list string)) (ls : list string) (has_identity : bool) : string + bool :=
  match ls with
  | [] => inr has_identity
  | line :: ls =>
      match compatible_line device line has_identity with
      | inl e => inl e
      | inr has_identity => compatible_lines device ls has_identity
      end
  end.
(** The error, or accepted. *)
Definition ImageZipCompatible (info : Info) (device : smap (list string)) : option string :=
  if negb (is_image_zip info) || negb (valid info) then Some "Invalid image archive"%string
  else
  match compatible_lines device (lines (image_zip_requirements info)) false with
  | inl e => Some e
  | inr true => None
  | inr false => Some "Image ZIP has no verified board/product requirement"%string
  end.

(** ** Extraction

    The directory maps a name to its content; [None] while it is written. *)
Abbreviation ImageDir := (gmap string (option (list Z))).
(** What the kernel answers about one image: openat, the writes, fsync. *)
Record ImageCalls := MkCalls { call_open : bool; call_writes : list Answer; call_fsync : bool }.
Record FileTime := MkFileTime { st_size : Z; st_mtim : Z * Z; st_ctim : Z * Z }.
#[global] Instance FileTime_eq_dec : EqDecision FileTime.
Proof. solve_decision. Defined.
Record ZipEnv := MkZipEnv {
  zip_open : option (FileTime * bool * list Z);  (* stat, S_ISREG, the bytes behind the descriptor *)
  zip_after : option FileTime;                   (* the second fstat *)
  zip_space : option (Z * Z);                    (* f_bavail, f_frsize *)
  zip_dir : bool }.                              (* is the directory opened? *)
Section Extract.
Context `{ZipReader} `{Zlib} `{Liblp} `{ShaStream}.
Definition find_image (info : Info) (nm : string) : option Partition :=
  snd <$> list_find (fun p => p_name p = nm) (parts info).
(** The bytes of the selected images, or the error. *)
Fixpoint select_images (info : Info) (names : list string) (unique : gset string) (total : Z) : string + Z :=
  match names with
  | [] => inr total
  | nm :: names =>
      let invalid := ("Invalid selected image: " ++ nm)%string in
      match find_image info nm with
      | None => inl invalid
      | Some part =>
          if negb (extractable part) || bool_decide (nm ∈ unique) then inl invalid
          else select_images info names ({[nm]} ∪ unique) (u64 (total + p_bytes part))
      end
  end.
(** One image after its file was created: the content and the digest. *)
Definition extract_zip_image (a : archive) (part : Partition) (filename : string) (calls : ImageCalls)
    : option (list Z * list Z) :=
  entry ← FindEntry a filename;
  let '(pieces, ok) := EntryContents a entry in
  r ← write_image (MkImagePart (p_bytes part) (sparse part))
        (MkImageEntry (z_uncompressed entry) (z_crc32 entry)) pieces (call_writes calls);
  if ok : bool then Some r else None.
(** The loop: did it complete, the files it created, the digests, the directory. *)
Fixpoint extract_zip_images (a : archive) (info : Info) (names : list string) (calls : list ImageCalls)
    (created : list string) (hashes : list (list Z)) (dir : ImageDir)
    : option (bool * list string * list (list Z) * ImageDir) :=
  match names with
  | [] => Some (true, created, hashes, dir)
  | nm :: names =>
      part ← find_image info nm;
      match calls with
      | [] => None
      | c :: calls =>
          let filename := (nm ++ ".img")%string in
          if negb (call_open c) || bool_decide (is_Some (dir !! filename)) then Some (false, created, hashes, dir)
          else
          let created := created ++ [filename] in
          let dir := <[filename := None]> dir in
          match extract_zip_image a part filename c with
          | None => Some (false, created, hashes, dir)
          | Some (content, digest) =>
              let dir := <[filename := Some content]> dir in
              if negb (call_fsync c) then Some (false, created, hashes, dir)
              else extract_zip_images a info names calls created (hashes ++ [digest]) dir
          end
      end
  end.
Definition remove_all (created : list string) (dir : ImageDir) : ImageDir :=
  foldl (fun d nm => delete nm d) dir created.
Definition kZipFailed : string :=
  "Image ZIP extraction, CRC, sparse validation or storage write failed; no partitions written".
(** The digests or the error, and the directory afterwards. *)
Definition ExtractZipImages (env : ZipEnv) (path : string) (reviewed_hash : list Z) (names : list string)
    (calls : list ImageCalls) (dir : ImageDir) : option ((string + list (list Z)) * ImageDir) :=
  match zip_open env with
  | None => Some (inl "Cannot open image ZIP"%string, dir)
  | Some (before, regular, bytes) =>
  match (if regular : bool then OpenArchiveFd bytes else None) with
  | None => Some (inl "Cannot open image ZIP"%string, dir)
  | Some a =>
  info ← InspectImageZip a path false;
  if negb (valid info) || negb (blen reviewed_hash =? 32) || negb (bool_decide (manifest_hash info = reviewed_hash)) ||
     bool_decide (names = [])
  then Some (inl "Image ZIP changed; review it again"%string, dir)
  else
  match select_images info names ∅ 0 with
  | inl e => Some (inl e, dir)
  | inr total =>
  if (match zip_space env with Some (bavail, frsize) => u64 (bavail * frsize) <? total | None => true end)
  then Some (inl "Not enough storage to stage and verify the selected images"%string, dir)
  else if negb (zip_dir env) then Some (inl "Invalid extraction directory"%string, dir)
  else
  r ← extract_zip_images a info names calls [] [] dir;
  let '(ok, created, hashes, dir) := r in
  let ok := ok && bool_decide (zip_after env = Some before) in
  if ok : bool then Some (inr hashes, dir)
  else Some (inl kZipFailed, remove_all created dir)
  end end end.
End Extract.

(** ** What is hashed for the review *)
Lemma le64_inj v w : is_u64 v -> is_u64 w -> le64 v = le64 w -> v = w.
Proof.
  intros Hv Hw E. apply Z.bits_inj'. intros i Hi. destruct (Z.lt_ge_cases i 64) as [Hlt|Hge].
  - assert (Hj : (Z.to_nat (i / 8) < 8)%nat).
    { pose proof (Z.div_lt_upper_bound i 8 8). pose proof (Z.div_pos i 8). lia. }
    apply (f_equal (fun l => l !! Z.to_nat (i / 8))) in E. unfold le64 in E.
    rewrite !list_lookup_fmap, !lookup_seq_lt in E by done. cbn [fmap option_fmap option_map] in E.
    injection E as E. apply (f_equal (fun z => Z.testbit z (i mod 8))) in E.
    pose proof (Z.mod_pos_bound i 8). pose proof (Z.div_mod i 8). pose proof (Z.div_pos i 8).
    rewrite !Z.land_spec, !Z.shiftr_spec, ?Nat.add_0_l, ?Z2Nat.id in E by lia.
    replace (i mod 8 + 8 * (i / 8)) with i in E by lia.
    replace (Z.testbit 255 (i mod 8)) with true in E; [by rewrite !andb_true_r in E|].
    assert (Hk : i mod 8 < 8) by lia. change 255 with (Z.ones 8). rewrite Z.ones_spec_low; [done|lia].
  - unfold_width. rewrite <- (Z.mod_small v (2 ^ 64)), <- (Z.mod_small w (2 ^ 64)) by lia.
    by rewrite !Z.mod_pow2_bits_high by lia.
Qed.
Definition binds (items : list (list Z)) : list Z := concat (bind_bytes <$> items).
(** Every value is preceded by its length: the hashed bytes determine the values. *)
Lemma binds_inj xs : forall ys, Forall (fun x => blen x < 2 ^ 64) xs -> Forall (fun y => blen y < 2 ^ 64) ys ->
  binds xs = binds ys -> xs = ys.
Proof.
  assert (Hl : forall v, length (le64 v) = 8%nat) by (intros; unfold le64; by rewrite length_fmap, length_seq).
  induction xs as [|x xs IH]; intros [|y ys] Hx Hy E; [done|..].
  1,2: apply (f_equal length) in E; unfold binds, bind_bytes in E; cbn [fmap list_fmap concat] in E; rewrite !length_app, Hl in E; cbn [length] in E; lia.
  apply Forall_cons in Hx as [Hx Hxs]. apply Forall_cons in Hy as [Hy Hys].
  unfold binds in E. cbn [fmap list_fmap concat] in E. unfold bind_bytes at 1 3 in E. rewrite <- !app_assoc in E.
  apply app_inj_1 in E as [El E]; [|by rewrite !Hl].
  apply le64_inj in El; [|split; [apply blen_nonneg|done]..].
  apply app_inj_1 in E as [-> E]; [|unfold blen in El; lia]. f_equal. by apply IH.
Qed.
Lemma Bind_binds `{ShaStream} items : forall ctx,
  exists chunks, foldl Bind ctx items = foldl SHA256_Update ctx chunks /\ concat chunks = binds items.
Proof.
  induction items as [|x items IH]; intros ctx; [by exists []|].
  destruct (IH (Bind ctx x)) as (chunks & E & Hc). exists (le64 (blen x) :: x :: chunks).
  cbn [foldl concat]. rewrite E. split; [done|]. unfold binds in *. cbn [fmap list_fmap concat]. rewrite Hc.
  unfold bind_bytes at 2. by rewrite app_assoc.
Qed.
Lemma image_record_inj e e' : entry_ok e -> entry_ok e' -> image_record e = image_record e' ->
  z_offset e = z_offset e' /\ z_method e = z_method e' /\ z_crc32 e = z_crc32 e' /\
  z_compressed e = z_compressed e' /\ z_uncompressed e = z_uncompressed e'.
Proof.
  intros (H1 & H2 & H3 & H4 & H5) (G1 & G2 & G3 & G4 & G5). unfold image_record.
  assert (Hn : forall z, no_char ":" (to_string z) = true).
  { intros z. apply no_char_to_string. intros d Hd <-. simpl in Hd. repeat (destruct Hd as [Hd|Hd]; [discriminate Hd|]). done. }
  unfold_width. intros E.
  apply cut_inj in E as [E1 E]; [|apply Hn..]. apply cut_inj in E as [E2 E]; [|apply Hn..].
  apply cut_inj in E as [E3 E]; [|apply Hn..]. apply cut_inj in E as [E4 E5]; [|apply Hn..].
  split_and!; apply to_string_inj; done || lia.
Qed.
Lemma slen_image_record e : entry_ok e -> slen (image_record e) < 2 ^ 64.
Proof.
  intros (H1 & H2 & H3 & H4 & H5). unfold slen, image_record. rewrite !string_length_app.
  pose proof (length_to_string _ H1). pose proof (length_to_string _ H2). pose proof (length_to_string _ H3).
  pose proof (length_to_string _ H4). pose proof (length_to_string _ H5).
  change (String.length ":") with 1%nat. lia.
Qed.

Section InspectFacts.
Context `{HR : ZipReader} `{HRL : !ZipReaderLaws HR} `{Zlib} `{Liblp} `{ShaStream}.
Implicit Types a : archive.
Definition total_bytes (ps : list Partition) : Z := foldr (fun p n => p_bytes p + n) 0 ps.
Definition inspected a (images : smap ZipEntry) : list Partition := map (fun x => inspect_image a x.1 x.2) images.
Definition image_items (images : smap ZipEntry) : list (list Z) :=
  concat (map (fun x => [bytes_of x.1; bytes_of (image_record x.2)]) images).
(** The fields InspectImageZip has set before the loop over the images. *)
Definition same_head (i j : Info) : Prop :=
  image_zip_requirements j = image_zip_requirements i /\ image_zip_layout j = image_zip_layout i /\
  image_zip_groups j = image_zip_groups i /\ is_image_zip j = is_image_zip i /\ valid j = valid i.

Lemma contents_prefix a e : bytes_ok (entry_prefix a e).
Proof.
  unfold entry_prefix. pose proof (contents_bytes a e) as Hb. revert Hb.
  generalize (EntryContents a e).1. intros pieces Hb.
  enough (Hp : forall prefix, bytes_ok prefix -> bytes_ok (prefix_pieces pieces prefix)) by apply Hp, Forall_nil_2.
  induction pieces as [|d pieces IH]; intros prefix Hp; [done|].
  cbn [prefix_pieces PrefixBytes concat] in *. apply Forall_app in Hb as [Hd Hb].
  assert (bytes_ok (prefix ++ take (Z.to_nat (Z.min (64 - blen prefix) (blen d))) d))
    by (apply Forall_app; split; [done|by apply Forall_take]).
  destruct (_ <? _); [by apply IH|done].
Qed.
(** One image: its size is a 64-bit value, positive and bounded when the
    image can be extracted. *)
Lemma inspect_image_bytes a nm e : entry_ok e -> let p := inspect_image a nm e in
  p_name p = nm /\ is_u64 (p_bytes p) /\ (extractable p = true -> 0 < p_bytes p <= kMaxImage) /\
  (sparse p = false -> p_bytes p = z_uncompressed e).
Proof.
  intros (_ & _ & _ & _ & Hu). unfold inspect_image. destruct (_ || _ || _); cbn zeta; [by cbn|].
  set (prefix := entry_prefix a e). pose proof (contents_prefix a e : bytes_ok prefix) as Hb.
  set (is_sparse := (4 <=? blen prefix) && _). set (bytes := if is_sparse then _ else _).
  cbn [p_name p_bytes extractable sparse].
  assert (Hr : is_u64 bytes).
  { unfold bytes. destruct is_sparse; [|done]. destruct (_ && _); [|done].
    destruct (rd32 prefix 12) as [x|] eqn:Ex; [|done]. destruct (rd32 prefix 16) as [y|] eqn:Ey; [|done]. cbn.
    apply rd32_range in Ex, Ey; [|done..]. unfold_width. nia. }
  split_and!; [done|apply Hr..| |]; unfold_width.
  - intros [[Hn Hle%Z.leb_le]%andb_true_iff _]%andb_true_iff. apply negb_true_iff, Z.eqb_neq in Hn. lia.
  - unfold bytes. by intros ->.
Qed.
Lemma inspect_images_ok a images : forall hash info info' hash', Forall (fun x => entry_ok x.2) images ->
  is_u64 (expanded_bytes info) -> error info = ""%string ->
  inspect_images a images hash info = (info', hash') -> error info' = ""%string ->
  hash' = foldl Bind hash (image_items images) /\ parts info' = parts info ++ inspected a images /\
  expanded_bytes info' = expanded_bytes info + total_bytes (inspected a images) /\
  is_u64 (expanded_bytes info') /\ same_head info info'.
Proof.
  induction images as [|[nm e] images IH]; intros hash info info' hash' Hok Hx He; cbn [inspect_images].
  { intros [= <- <-] _. cbn. by rewrite app_nil_r, Z.add_0_r. }
  apply Forall_cons in Hok as [Hoke Hok]. cbn [snd] in Hoke.
  destruct (inspect_image_bytes a nm e Hoke) as (_ & Hp & _). unfold_width.
  rewrite (u64_id (UINT64_MAX - _)) by (unfold_width; lia).
  destruct (Z.ltb_spec (UINT64_MAX - expanded_bytes info) (p_bytes (inspect_image a nm e))) as [|Hle].
  { intros [= <- <-]. done. }
  rewrite (u64_id (expanded_bytes info + _)) by (unfold_width; lia). intros E Herr.
  apply IH in E as (-> & Hparts & Hsum & Hr & Hs); [|done| |done|done].
  2: { change (is_u64 (expanded_bytes info + p_bytes (inspect_image a nm e))). unfold_width. lia. }
  change (expanded_bytes info' = expanded_bytes info + p_bytes (inspect_image a nm e) + total_bytes (inspected a images)) in Hsum.
  change (parts info' = (parts info ++ [inspect_image a nm e]) ++ inspected a images) in Hparts.
  split; [done|]. split; [by rewrite Hparts, <- app_assoc|]. split; [rewrite Hsum; symmetry; apply Z.add_assoc|]. split; [done|]. exact Hs.
Qed.
Lemma collect_images_ok entries : forall images images', Forall (fun e => entry_ok e.2) entries ->
  Forall (fun x => entry_ok x.2) images -> smap_ok images -> (length images <= 512)%nat ->
  Forall (fun x => Name x.1 = true) images ->
  collect_images entries images = Some images' ->
  Forall (fun x => entry_ok x.2) images' /\ smap_ok images' /\ (length images' <= 512)%nat /\
  Forall (fun x => Name x.1 = true) images'.
Proof.
  assert (Hset : forall (P : string * ZipEntry -> Prop) k v m, Forall P m -> P (k, v) -> Forall P (smap_set k v m)).
  { intros P k v m Hm Hk. induction Hm as [|[k1 v1] m Hx Hm IH]; cbn [smap_set]; [by constructor|].
    destruct (String.compare k k1); by repeat constructor. }
  induction entries as [|[file e] entries IH]; intros images images' He Hi Hs Hl Hn; cbn [collect_images].
  { by intros [= <-]. }
  apply Forall_cons in He as [Hee He]. destruct (_ || _ || _); [by apply IH|].
  destruct (Name _) eqn:En; cbn [negb orb]; [|done]. destruct (special e); [done|].
  intros (m & Em & E)%bind_Some. apply smap_emplace_Some in Em as [-> Hf].
  match type of E with (if ?c then _ else _) = _ => destruct c eqn:Ec; [done|] end.
  apply Nat.ltb_ge in Ec. eapply IH in E; [done|done|by apply Hset|by apply smap_set_ok|done|by apply Hset].
Qed.

(** What the review is about: the requirements, the layout blob if there is
    one, and the image entries. *)
Definition reviewed_parts a : option (list Z * option (list Z) * smap ZipEntry) :=
  text ← Small a "android-info.txt" (512 * 1024);
  layout ← match FindEntry a "super_empty.img" with
           | None => Some None
           | Some _ => Some <$> Small a "super_empty.img" (4 * 1024 * 1024)
           end;
  es ← StartIteration a;
  images ← collect_images es.1 [];
  Some (text, layout, images).
Definition review_items (r : list Z * option (list Z) * smap ZipEntry) : list (list Z) :=
  r.1.1 :: option_list r.1.2 ++ image_items r.2.
Lemma inspect_valid a path arb info : InspectImageZip a path arb = Some info -> valid info = true ->
  exists text layout images, reviewed_parts a = Some (text, layout, images) /\ (0 ∉ text) /\ images ≠ [] /\
    Forall (fun x => entry_ok x.2) images /\ smap_ok images /\ (length images <= 512)%nat /\
    Forall (fun x => Name x.1 = true) images /\
    match layout with
    | None => image_zip_layout info = [] /\ image_zip_groups info = []
    | Some blob => ReadLayout blob = Some (image_zip_layout info, image_zip_groups info)
    end /\
    manifest_hash info = SHA256_Final (foldl Bind SHA256_Init (review_items (text, layout, images))) /\
    image_zip_requirements info = string_of text /\ is_image_zip info = true /\
    parts info = inspected a images /\
    expanded_bytes info = total_bytes (parts info) /\ is_u64 (expanded_bytes info).
Proof.
  unfold InspectImageZip, reviewed_parts. destruct (FindEntry a "android-info.txt") as [e0|]; [|by intros [= <-]].
  destruct (Small a "android-info.txt" _) as [text|]; [|by intros [= <-]]. rewrite some_bind.
  destruct (bool_decide_reflect (0 ∈ text)) as [|Hz]; [by intros [= <-]|].
  set (info0 := no_info {{ is_image_zip := true }} {{ image_zip_requirements := string_of text }}
    {{ target_build := base_name path; name_from_filename := true }}).
  set (hash0 := Bind SHA256_Init text).
  destruct (inspect_layout a hash0) as [[[layout groups] hash1]|] eqn:El; [|by intros [= <-]].
  assert (Hl : exists blob, (match FindEntry a "super_empty.img" with
     | None => Some None | Some _ => Some <$> Small a "super_empty.img" (4 * 1024 * 1024) end) = Some blob /\
     hash1 = foldl Bind hash0 (option_list blob) /\
     match blob with None => layout = [] /\ groups = [] | Some b => ReadLayout b = Some (layout, groups) end).
  { unfold inspect_layout in El. destruct (FindEntry a "super_empty.img"); [|injection El as <- <- <-; by exists None].
    apply bind_Some in El as (b & -> & El). apply bind_Some in El as ([l g] & E & [= <- <- <-]). by exists (Some b). }
  destruct Hl as (blob & -> & -> & Hl). rewrite some_bind.
  destruct (StartIteration a) as [[entries result]|] eqn:Es; [|by intros [= <-]]. rewrite some_bind. cbn [fst].
  destruct (collect_images entries []) as [images|] eqn:Ei; [|by intros [= <-]]. rewrite some_bind.
  apply collect_images_ok in Ei as (Hok & Hm & Hlen & Hname);
    [|by eapply entry_fields|constructor|constructor|simpl; lia|constructor].
  destruct (_ || bool_decide (images = [])) eqn:Ee; [by intros [= <-]|].
  apply orb_false_iff in Ee as [_ Hne%bool_decide_eq_false].
  match goal with |- (let '(_, _) := ?x in _) = _ -> _ => destruct x as [info1 hash2] eqn:Eimg end.
  destruct (String.eqb_spec (error info1) "") as [Herr|Herr]; cbn [negb]; [|intros [= <-] Hv; exfalso].
  2: { clear - Eimg Hv. assert (Hgen : forall images h i i' h', inspect_images a images h i = (i', h') -> valid i' = valid i).
       { clear. induction images as [|[nm e] images IH]; intros h i i' h'; cbn [inspect_images]; [by intros [= <- _]|].
         destruct (_ <? _); [by intros [= <- _]|]. intros E%IH. done. }
       apply Hgen in Eimg. rewrite Eimg in Hv. done. }
  apply inspect_images_ok in Eimg as (-> & Hparts & Hsum & Hr & (S1 & S2 & S3 & S4 & S5)); [|done..].
  intros (info2 & E2 & [= <-])%bind_Some _.
  assert (Hkeep : manifest_hash info2 = SHA256_Final (foldl Bind (foldl Bind hash0 (option_list blob)) (image_items images)) /\
    parts info2 = parts info1 /\ expanded_bytes info2 = expanded_bytes info1 /\ same_head info1 info2).
  { destruct arb; [destruct (Small _ _ _); [apply bind_Some in E2 as (r & _ & E2)|]|]; injection E2 as <-; done. }
  destruct Hkeep as (K1 & K2 & K3 & (T1 & T2 & T3 & T4 & T5)).
  exists text, blob, images. split_and!; try done.
  - destruct blob as [b|]; [change (ReadLayout b = Some (image_zip_layout info2, image_zip_groups info2));
      rewrite T2, T3, S2, S3; exact Hl|].
    change (image_zip_layout info2 = [] /\ image_zip_groups info2 = []). rewrite T2, T3, S2, S3. exact Hl.
  - change (manifest_hash info2 = SHA256_Final (foldl Bind SHA256_Init (review_items (text, blob, images)))).
    rewrite K1. unfold review_items. cbn [foldl fst snd]. by rewrite foldl_app.
  - change (image_zip_requirements info2 = string_of text). by rewrite T1, S1.
  - change (is_image_zip info2 = true). by rewrite T4, S4.
  - change (parts info2 = inspected a images). by rewrite K2, Hparts.
  - change (expanded_bytes info2 = total_bytes (parts info2)). by rewrite K2, K3, Hparts, Hsum.
  - change (is_u64 (expanded_bytes info2)). by rewrite K3.
Qed.

(** The bytes that are hashed, and what the reviewer saw of the archive. *)
Definition review_preimage a : list Z := from_option (fun r => binds (review_items r)) [] (reviewed_parts a).
Definition entry_summary (x : string * ZipEntry) : string * list Z :=
  (x.1, [z_offset x.2; z_method x.2; z_crc32 x.2; z_compressed x.2; z_uncompressed x.2]).
Definition review_summary a : option (list Z * option (list Z) * list (string * list Z)) :=
  r ← reviewed_parts a; Some (r.1, map entry_summary r.2).
Lemma Small_bound a nm limit d : Small a nm limit = Some d -> blen d <= limit /\ bytes_ok d.
Proof.
  intros (e & Hf & E)%bind_Some. destruct (Z.ltb_spec limit (z_uncompressed e)); [done|]. cbn [orb] in E.
  destruct (special e); [done|]. apply bind_Some in E as (bs & Ex & E). destruct (_ =? _); [|done]. injection E as <-.
  split; [by rewrite (extract_length _ _ _ Ex)|by eapply extract_bytes].
Qed.
Lemma image_items_bound images : Forall (fun x => entry_ok x.2) images -> Forall (fun x => Name x.1 = true) images ->
  Forall (fun i => blen i < 2 ^ 64) (image_items images).
Proof.
  intros He Hn. induction images as [|[nm e] images IH]; [constructor|].
  apply Forall_cons in He as [He Hes]. apply Forall_cons in Hn as [Hn Hns].
  unfold image_items. cbn [map concat fst snd app]. constructor; [|constructor; [|by apply IH]].
  - rewrite blen_bytes_of. unfold Name in Hn. apply andb_true_iff in Hn as [Hn _]. apply andb_true_iff in Hn as [_ Hn%Nat.leb_le].
    unfold slen. cbn [fst] in Hn. lia.
  - rewrite blen_bytes_of. by apply slen_image_record.
Qed.
Lemma reviewed_parts_bound a text layout images : reviewed_parts a = Some (text, layout, images) ->
  blen text < 2 ^ 64 /\ Forall (fun i => blen i < 2 ^ 64) (option_list layout).
Proof.
  intros (t & Ht & E)%bind_Some. apply bind_Some in E as (l & El & E). apply bind_Some in E as (es & _ & E).
  apply bind_Some in E as (im & _ & [= <- <- <-]). apply Small_bound in Ht as [Ht _]. split; [lia|].
  destruct (FindEntry a "super_empty.img"); [|injection El as <-; constructor].
  destruct (Small a "super_empty.img" _) as [b|] eqn:Eb; [|done]. injection El as <-.
  apply Small_bound in Eb as [Eb _]. constructor; [lia|constructor].
Qed.
Lemma image_items_inj images : forall images', Forall (fun x => entry_ok x.2) images ->
  Forall (fun x => entry_ok x.2) images' -> image_items images = image_items images' ->
  map entry_summary images = map entry_summary images'.
Proof.
  induction images as [|[nm e] images IH]; intros [|[nm' e'] images'] He He'; try done.
  apply Forall_cons in He as [He Hes]. apply Forall_cons in He' as [He' Hes'].
  unfold image_items. cbn [map concat fst snd app]. intros [= E1%bytes_of_inj E2%bytes_of_inj E].
  apply image_record_inj in E2 as (F1 & F2 & F3 & F4 & F5); [|done..].
  cbn [map]. rewrite (IH images') by done. unfold entry_summary at 1 3. cbn [fst snd].
  by rewrite E1, F1, F2, F3, F4, F5.
Qed.
(** The number of hashed items tells whether there was a layout. *)
Lemma review_items_inj r r' : Forall (fun x => entry_ok x.2) r.2 -> Forall (fun x => entry_ok x.2) r'.2 ->
  review_items r = review_items r' -> r.1 = r'.1 /\ map entry_summary r.2 = map entry_summary r'.2.
Proof.
  assert (Hlen : forall l, exists n, length (image_items l) = (2 * n)%nat).
  { intros l. exists (length l). induction l as [|x l IH]; [done|]. unfold image_items in *. cbn in *. lia. }
  destruct r as [[text layout] images], r' as [[text' layout'] images']. unfold review_items. cbn [fst snd].
  intros He He' [= -> E]. pose proof (f_equal length E) as El. rewrite !length_app in El.
  destruct (Hlen images) as [n Hn], (Hlen images') as [n' Hn']. rewrite Hn, Hn' in El.
  destruct layout as [b|], layout' as [b'|]; cbn in El; cbn [option_list app] in E; try lia.
  - injection E as -> E. split; [done|by apply image_items_inj].
  - split; [done|by apply image_items_inj].
Qed.
End InspectFacts.

(** C29: the manifest hash that the user reviewed binds the archive: two valid
    archives with the same hash, whose hashed texts are not a collision of
    SHA-256, have the same requirements, the same layout metadata and the same
    image entries (name, offset, method, CRC-32, compressed and uncompressed
    length). *)
Theorem image_zip_review_binding `{HR : ZipReader} `{HRL : !ZipReaderLaws HR} `{HZ : Zlib} `{HL : Liblp} `{HS : ShaStream}
    `{H256 : Sha256} `{HSL : !ShaStreamLaws H256 HS} a a' path path' arb arb' info info'
    (Hi : InspectImageZip a path arb = Some info) (Hv : valid info = true)
    (Hi' : InspectImageZip a' path' arb' = Some info') (Hv' : valid info' = true)
    (Hcollision : SHA256 (review_preimage a) = SHA256 (review_preimage a') -> review_preimage a = review_preimage a')
    (Hhash : manifest_hash info = manifest_hash info') :
  review_summary a = review_summary a' /\ image_zip_requirements info = image_zip_requirements info' /\
  image_zip_layout info = image_zip_layout info' /\ image_zip_groups info = image_zip_groups info'.
Proof.
  apply inspect_valid in Hi as (t & l & im & Er & _ & _ & Hok & _ & _ & Hn & Hl & Hh & Hreq & _); [|done].
  apply inspect_valid in Hi' as (t' & l' & im' & Er' & _ & _ & Hok' & _ & _ & Hn' & Hl' & Hh' & Hreq' & _); [|done].
  unfold review_preimage, review_summary in *. rewrite Er, Er' in *. cbn [from_option mbind option_bind] in *.
  destruct (Bind_binds (review_items (t, l, im)) SHA256_Init) as (c & Ec & Hc).
  destruct (Bind_binds (review_items (t', l', im')) SHA256_Init) as (c' & Ec' & Hc').
  rewrite Hh, Hh', Ec, Ec', !sha_pieces, Hc, Hc' in Hhash.
  destruct (reviewed_parts_bound _ _ _ _ Er) as [Ht Hlb]. destruct (reviewed_parts_bound _ _ _ _ Er') as [Ht' Hlb'].
  apply Hcollision, binds_inj, review_items_inj in Hhash as [[= -> ->] E]; [|done|done|..].
  2,3: unfold review_items; cbn [fst snd]; constructor; [done|]; apply Forall_app; split; [done|by apply image_items_bound].
  cbn [fst snd] in *. rewrite E, Hreq, Hreq'. split; [done|]. split; [done|].
  destruct l' as [b|].
  - rewrite Hl in Hl'. by injection Hl'.
  - destruct Hl as [-> ->], Hl' as [-> ->]. done.
Qed.

Lemma inspected_names `{ZipReader} `{!ZipReaderLaws H0} a images : Forall (fun x => entry_ok x.2) images ->
  map p_name (inspected a images) = images.*1.
Proof.
  induction 1 as [|[nm e] images He _ IH]; [done|]. unfold inspected in *. cbn [map fmap list_fmap fst snd].
  rewrite IH. f_equal. by apply (inspect_image_bytes a nm e).
Qed.
(** Sizes of a valid image archive: at most 512 images with different
    names, each one that can be extracted of 1 to 2^40 bytes, and the total the
    storage check and the progress bar use is the exact sum of the sizes, below
    2^64. *)
Theorem image_zip_bounds `{HR : ZipReader} `{HRL : !ZipReaderLaws HR} `{HZ : Zlib} `{HL : Liblp} `{HS : ShaStream}
    a path arb info (Hi : InspectImageZip a path arb = Some info) (Hv : valid info = true) :
  (0 < length (parts info) <= 512)%nat /\ NoDup (map p_name (parts info)) /\
  Forall (fun p => Name (p_name p) = true /\ (extractable p = true -> 0 < p_bytes p <= 2 ^ 40)) (parts info) /\
  expanded_bytes info = total_bytes (parts info) /\ total_bytes (parts info) < 2 ^ 64.
Proof.
  apply inspect_valid in Hi as (t & l & im & Er & _ & Hne & Hok & Hm & Hlen & Hn & _ & _ & _ & _ & Hp & Hx & Hu); [|done].
  rewrite <- Hx. split; [|split; [|split; [|split; [done|apply Hu]]]].
  - rewrite Hp. unfold inspected. rewrite length_map. split; [destruct im; [done|simpl; lia]|done].
  - rewrite Hp, inspected_names by done. by apply smap_ok_NoDup.
  - rewrite Hp. unfold inspected. apply Forall_map. rewrite Forall_forall in Hok, Hn |- *. intros [nm e] Hin.
    destruct (inspect_image_bytes a nm e (Hok _ Hin)) as (E1 & _ & E2 & _). cbn [fst snd] in *.
    split; [rewrite E1; exact (Hn _ Hin)|exact E2].
Qed.

(** ** The device check, as a specification *)
(** A line is blank, a comment, or one rule. *)
Inductive rule := Nothing | Unusable | Rule (reject : bool) (key : string) (options : list string).
Definition parse_rule (line : string) : rule :=
  let line := Trim line in
  if String.eqb line "" || String.prefix "#" line then Nothing
  else
  match strip_verb line with
  | None => Unusable
  | Some (line, reject) =>
      match find_char "=" line with
      | None => Unusable
      | Some equal =>
          let key := Trim (str_take equal line) in
          Rule reject (if String.eqb key "board" then "product" else key) (getlines "|" (str_drop (S equal) line))
      end
  end.
Definition same_text (s t : string) : Prop := Lower (Trim s) = Lower (Trim t).
(** A rule holds when the device has values for its key, no alternative is
    blank, and some alternative is one of the values exactly if the rule is a
    requirement. *)
Definition rule_holds (device : smap (list string)) (r : rule) : Prop :=
  match r with
  | Nothing => True
  | Unusable => False
  | Rule reject key options =>
      exists actual, smap_find key device = Some actual /\ actual ≠ [] /\
        Forall (fun o => Lower (Trim o) ≠ ""%string) options /\
        (reject = false <-> exists o v, o ∈ options /\ v ∈ actual /\ same_text v o)
  end.
Definition names_product (r : rule) : Prop :=
  match r with Rule false key _ => key = "product"%string | _ => False end.

Lemma match_options_spec options actual : forall matched,
  match match_options options actual matched with
  | None => ~ Forall (fun o => Lower (Trim o) ≠ ""%string) options
  | Some b => Forall (fun o => Lower (Trim o) ≠ ""%string) options /\
      (b = true <-> matched = true \/ exists o v, o ∈ options /\ v ∈ actual /\ same_text v o)
  end.
Proof.
  induction options as [|o options IH]; intros matched; cbn [match_options].
  { split; [constructor|]. split; [by left|]. intros [?|(o & _ & Ho & _)]; [done|set_solver]. }
  destruct (String.eqb_spec (Lower (Trim o)) "") as [E|E]; [intros Hf%Forall_cons; tauto|].
  specialize (IH (matched || existsb (fun a => String.eqb (Lower (Trim a)) (Lower (Trim o))) actual)).
  destruct (match_options _ _ _) as [b|]; [|rewrite Forall_cons; tauto].
  destruct IH as [Hall Hb]. split; [by constructor|]. rewrite Hb, orb_true_iff, existsb_exists.
  assert (Hx : (exists x, In x actual /\ String.eqb (Lower (Trim x)) (Lower (Trim o)) = true) <->
    exists v, v ∈ actual /\ same_text v o).
  { split; intros (v & H1 & H2); exists v; rewrite list_elem_of_In in *; split; try done; by apply String.eqb_eq. }
  rewrite Hx. split.
  - intros [[?|(v & ? & ?)]|(o' & v & ? & ? & ?)]; [by left|right; exists o, v; set_solver|right; exists o', v; set_solver].
  - intros [?|(o' & v & [->|?]%elem_of_cons & ? & ?)]; [by left; left|left; right; by exists v|right; by exists o', v].
Qed.
Lemma compatible_line_spec device line flag :
  match compatible_line device line flag with
  | inl _ => ~ rule_holds device (parse_rule line)
  | inr flag' => rule_holds device (parse_rule line) /\
      (flag' = true <-> flag = true \/ names_product (parse_rule line))
  end.
Proof.
  unfold compatible_line, parse_rule. destruct (_ || _); [cbn; tauto|].
  destruct (strip_verb (Trim line)) as [[l reject]|]; [|by intros ?]. destruct (find_char "=" l) as [equal|]; [|by intros ?].
  set (key := if String.eqb _ "board" then _ else _). cbn [rule_holds names_product].
  destruct (smap_find key device) as [actual|] eqn:Ek; [|by intros (v & ? & _)].
  destruct actual as [|v0 actual]; [intros (v & [= <-] & ? & _); done|].
  pose proof (match_options_spec (getlines "|" (str_drop (S equal) l)) (v0 :: actual) false) as Hs.
  destruct (match_options _ _ _) as [matched|]; [|by intros (? & _ & _ & ? & _)].
  destruct Hs as [Hall Hm]. assert (Hm' : matched = true <-> exists o v, o ∈ getlines "|" (str_drop (S equal) l) /\
    v ∈ v0 :: actual /\ same_text v o) by (rewrite Hm; intuition done).
  destruct (Bool.eqb matched reject) eqn:Eb.
  - apply eqb_prop in Eb as ->. intros (v & [= <-] & _ & _ & Hr). rewrite <- Hm' in Hr. destruct reject; intuition done.
  - split.
    + exists (v0 :: actual). split_and!; try done. rewrite <- Hm'. by destruct matched, reject.
    + rewrite orb_true_iff, andb_true_iff, String.eqb_eq. by destruct reject; intuition.
Qed.
Lemma compatible_lines_spec device ls : forall flag,
  match compatible_lines device ls flag with
  | inl _ => ~ Forall (fun l => rule_holds device (parse_rule l)) ls
  | inr flag' => Forall (fun l => rule_holds device (parse_rule l)) ls /\
      (flag' = true <-> flag = true \/ Exists (fun l => names_product (parse_rule l)) ls)
  end.
Proof.
  induction ls as [|l ls IH]; intros flag; cbn [compatible_lines].
  { split; [constructor|]. rewrite Exists_nil. tauto. }
  pose proof (compatible_line_spec device l flag) as Hl. destruct (compatible_line device l flag) as [e|f1].
  { rewrite Forall_cons. tauto. }
  specialize (IH f1). destruct (compatible_lines device ls f1) as [e|f2]; rewrite Forall_cons; [tauto|].
  rewrite Exists_cons. tauto.
Qed.
(** An image archive is accepted for a device exactly when it is a valid
    image archive, every line of its android-info.txt is blank, a comment or a
    rule the device satisfies, and at least one rule requires the product. *)
Theorem image_zip_compatible_exact info device :
  ImageZipCompatible info device = None <->
  is_image_zip info = true /\ valid info = true /\
  Forall (fun l => rule_holds device (parse_rule l)) (lines (image_zip_requirements info)) /\
  Exists (fun l => names_product (parse_rule l)) (lines (image_zip_requirements info)).
Proof.
  unfold ImageZipCompatible. destruct (is_image_zip info); cbn [negb orb]; [|intuition done].
  destruct (valid info); cbn [negb]; [|intuition done].
  pose proof (compatible_lines_spec device (lines (image_zip_requirements info)) false) as Hs.
  destruct (compatible_lines _ _ _) as [e|[|]]; intuition done.
Qed.

(** ** The layout, as a specification *)
Section LayoutFacts.
Context `{Liblp}.
(** The entry [part] of the layout is the partition [p] of the slot. *)
Definition lp_entry (groups : list LpGroup) (slot : string) (p : LpPartition) (part : ImageZipPartition) : Prop :=
  GetPartitionName p = (zp_name part ++ slot)%string /\ attributes p = zp_attributes part /\ num_extents p = 0 /\
  exists g, groups !! Z.to_nat (group_index p) = Some g /\ GetPartitionGroupName g = (zp_group part ++ slot)%string.
Lemma slot_name_app nm bare (a : bool) : slot_name nm = Some (bare, a) ->
  nm = (bare ++ if a then "_a" else "_b")%string /\ (String.length nm - 2 = String.length bare)%nat.
Proof.
  unfold slot_name. destruct (Nat.ltb_spec (String.length nm) 3); [done|].
  destruct (ends_with nm "_a") eqn:Ea; [|destruct (ends_with nm "_b") eqn:Eb; [|done]]; intros [= <- <-].
  - apply ends_with_app in Ea. split; [exact Ea|]. rewrite length_str_take. lia.
  - apply ends_with_app in Eb. split; [exact Eb|]. rewrite length_str_take. lia.
Qed.
Lemma group_of_app nm bare (a : bool) group g : nm = (bare ++ if a then "_a" else "_b")%string ->
  group_of nm group = Some g -> group = (g ++ if a then "_a" else "_b")%string.
Proof.
  intros -> E. unfold group_of in E. if_step E; [done|]. injection E as <-. bool_facts.
  match goal with Hx : str_drop _ group = _ |- _ => rename Hx into Hs end.
  rewrite string_length_app in Hs. replace (String.length (if a then "_a" else "_b"))%string with 2%nat in Hs by by destruct a.
  rewrite Nat.add_sub, str_drop_app in Hs. rewrite <- Hs. by rewrite str_take_drop.
Qed.
Definition slot_map_ok (groups : list LpGroup) (slot : string) (ps : list LpPartition) (m : smap ImageZipPartition) : Prop :=
  smap_ok m /\ forall nm part, smap_find nm m = Some part ->
    zp_name part = nm /\ IsPartitionImageName nm = true /\ exists p, p ∈ ps /\ lp_entry groups slot p part.
Lemma slot_map_set groups slot seen p m part : slot_map_ok groups slot seen m -> lp_entry groups slot p part ->
  IsPartitionImageName (zp_name part) = true -> slot_map_ok groups slot (seen ++ [p]) (smap_set (zp_name part) part m).
Proof.
  intros [Hm Hf] Hp Hn. split; [by apply smap_set_ok|]. intros nm q. rewrite smap_find_set.
  destruct (String.eqb_spec nm (zp_name part)) as [->|].
  - intros [= <-]. split_and!; [done|done|]. exists p. set_solver.
  - intros (E1 & E2 & p' & Hin & E3)%Hf. split_and!; [done|done|]. exists p'. set_solver.
Qed.
Lemma slot_map_weaken groups slot seen seen' m : slot_map_ok groups slot seen m -> seen ⊆ seen' ->
  slot_map_ok groups slot seen' m.
Proof. intros [Hm Hf] Hs. split; [done|]. intros nm q (E1 & E2 & p & Hin & E3)%Hf. split_and!; [done..|]. exists p. set_solver. Qed.
Definition listed (a b : smap ImageZipPartition) (p : LpPartition) : Prop :=
  exists nm, (GetPartitionName p = (nm ++ "_a")%string /\ is_Some (smap_find nm a)) \/
             (GetPartitionName p = (nm ++ "_b")%string /\ is_Some (smap_find nm b)).
Lemma listed_set a b p k v : listed a b p -> listed (smap_set k v a) b p /\ listed a (smap_set k v b) p.
Proof.
  intros [nm Hl]. split; exists nm; rewrite smap_find_set; destruct (String.eqb nm k); naive_solver.
Qed.
Lemma read_partitions_ok groups ps : forall seen a b a' b', slot_map_ok groups "_a" seen a -> slot_map_ok groups "_b" seen b ->
  Forall (listed a b) seen -> read_partitions groups ps a b = Some (a', b') ->
  slot_map_ok groups "_a" (seen ++ ps) a' /\ slot_map_ok groups "_b" (seen ++ ps) b' /\ Forall (listed a' b') (seen ++ ps).
Proof.
  induction ps as [|p ps IH]; intros seen a b a' b' Ha Hb Hl; cbn [read_partitions].
  { intros [= <- <-]. by rewrite app_nil_r. }
  intros E. if_step E; [done|]. apply bind_Some in E as ([bare sl] & Es & E). cbn [fst snd] in E.
  if_step E; [done|]. apply bind_Some in E as (g & Eg & E). apply bind_Some in E as (group & Egr & E).
  if_step E; [done|]. apply slot_name_app in Es as [En _]. apply (group_of_app _ bare sl) in Egr; [|done].
  assert (Hp : lp_entry groups (if sl then "_a" else "_b") p (MkZipPart bare group (attributes p))).
  { unfold lp_entry. cbn [zp_name zp_attributes zp_group]. bool_facts. split_and!; try done. by exists g. }
  assert (Hn : IsPartitionImageName bare = true) by (bool_facts; done).
  change (p :: ps) with ([p] ++ ps). rewrite app_assoc.
  destruct sl; apply bind_Some in E as (m & [-> Hf]%smap_emplace_Some & E); eapply IH in E; try done.
  - by apply (slot_map_set _ _ _ _ _ (MkZipPart bare group (attributes p))).
  - eapply slot_map_weaken; [done|]. set_solver.
  - apply Forall_app. split; [eapply Forall_impl; [exact Hl|]; intros q Hq; by apply listed_set|].
    constructor; [|constructor]. exists bare. left. split; [done|]. rewrite smap_find_set, String.eqb_refl. eauto.
  - eapply slot_map_weaken; [done|]. set_solver.
  - by apply (slot_map_set _ _ _ _ _ (MkZipPart bare group (attributes p))).
  - apply Forall_app. split; [eapply Forall_impl; [exact Hl|]; intros q Hq; by apply listed_set|].
    constructor; [|constructor]. exists bare. right. split; [done|]. rewrite smap_find_set, String.eqb_refl. eauto.
Qed.
Lemma same_slots_spec a b : same_slots a b = true ->
  Forall (fun x => exists other, smap_find x.1 b = Some other /\ zp_group other = zp_group x.2 /\
                                 zp_attributes other = zp_attributes x.2) a.
Proof.
  induction a as [|[nm part] a IH]; cbn [same_slots]; [constructor|].
  destruct (smap_find nm b) as [other|] eqn:E; [|done].
  intros [[E1%String.eqb_eq E2%Z.eqb_eq]%andb_true_iff Hs]%andb_true_iff.
  constructor; [by exists other|by apply IH].
Qed.
End LayoutFacts.

(** C37: the layout taken from super_empty.img lists exactly the partitions
    of both slots: each entry, in name order, is an image partition that both
    slots have, without extents, with the same attributes and in groups that
    differ only in the slot, and every partition of the metadata is the _a or
    the _b half of an entry. *)
Theorem read_layout_exact `{HL : Liblp} blob md layout groups (Hmd : ReadFromImageBlob blob = Some md)
    (Hr : ReadLayout blob = Some (layout, groups)) :
  layout ≠ [] /\ StronglySorted str_lt (map zp_name layout) /\
  Forall (fun part => IsPartitionImageName (zp_name part) = true /\
    (exists p, p ∈ lp_partitions md /\ lp_entry (lp_groups md) "_a" p part) /\
    (exists p, p ∈ lp_partitions md /\ lp_entry (lp_groups md) "_b" p part)) layout /\
  Forall (fun p => exists part, part ∈ layout /\
    (GetPartitionName p = (zp_name part ++ "_a")%string \/ GetPartitionName p = (zp_name part ++ "_b")%string))
    (lp_partitions md).
Proof.
  unfold ReadLayout in Hr. rewrite Hmd, some_bind in Hr. if_step Hr; [done|].
  apply bind_Some in Hr as ([ga gb] & Eg & Hr). if_step Hr; [done|].
  apply bind_Some in Hr as ([a b] & Ep & Hr). if_step Hr; [done|]. injection Hr as <- <-. cbn [fst snd] in *.
  eapply (read_partitions_ok _ _ []) in Ep as ([Ha Hfa] & [Hb Hfb] & Hl);
    [|split; [constructor|done]|split; [constructor|done]|constructor]. cbn [app] in *.
  apply orb_false_iff in Hc1 as [Hc1 Hsame%negb_false_iff]. apply orb_false_iff in Hc1 as [Hne%bool_decide_eq_false Hlen%negb_false_iff].
  apply Nat.eqb_eq in Hlen. apply same_slots_spec in Hsame.
  assert (Hnames : map zp_name a.*2 = a.*1).
  { clear - Hfa Ha. assert (Hall : forall x, x ∈ a -> zp_name x.2 = x.1).
    { intros [nm part] Hin. cbn. by apply (Hfa nm part), smap_find_elem. }
    clear Hfa Ha. induction a as [|x a IH]; [done|]. cbn [fmap list_fmap map]. rewrite Hall by set_solver.
    f_equal. apply IH. set_solver. }
  assert (Hkeys : forall nm, is_Some (smap_find nm b) -> is_Some (smap_find nm a)).
  { assert (Hsub : a.*1 ⊆+ b.*1).
    { apply NoDup_submseteq; [by apply smap_ok_NoDup|]. intros nm (x & -> & Hx)%list_elem_of_fmap.
      rewrite Forall_forall in Hsame. destruct (Hsame x Hx) as (o & Ho & _).
      apply smap_find_elem in Ho; [|done]. apply list_elem_of_fmap. by exists (x.1, o). }
    apply submseteq_length_Permutation in Hsub; [|rewrite !length_fmap; lia].
    intros nm Hs. apply not_eq_None_Some. rewrite smap_find_None. apply not_eq_None_Some in Hs.
    rewrite smap_find_None in Hs. by rewrite Hsub. }
  split; [by destruct a|]. split; [by rewrite Hnames|]. split.
  - apply Forall_fmap, Forall_forall. intros [nm part] Hin. cbn.
    destruct (Hfa nm part) as (E1 & E2 & p & Hp & Hpe); [by apply smap_find_elem|]. subst nm.
    split; [done|]. split; [by exists p|]. rewrite Forall_forall in Hsame. destruct (Hsame _ Hin) as (o & Ho & G1 & G2).
    cbn [fst snd] in *. destruct (Hfb _ _ Ho) as (E3 & _ & q & Hq & Hqe). exists q. split; [done|].
    destruct part, o. cbn in *. by subst.
  - eapply Forall_impl; [exact Hl|]. intros p [nm [[En [part Hs]]|[En Hs]]].
    + exists part. split; [|left; by destruct (Hfa _ _ Hs) as (-> & _)].
      apply smap_find_elem in Hs; [|done]. apply list_elem_of_fmap. by exists (nm, part).
    + destruct (Hkeys _ Hs) as [part Hs']. exists part. split; [|right; by destruct (Hfa _ _ Hs') as (-> & _)].
      apply smap_find_elem in Hs'; [|done]. apply list_elem_of_fmap. by exists (nm, part).
Qed.

(** ** Extraction, as a specification *)
Definition img (nm : string) : string := (nm ++ ".img")%string.
Lemma lookup_remove_all created dir f :
  remove_all created dir !! f = if bool_decide (f ∈ created) then None else dir !! f.
Proof.
  revert dir. induction created as [|c created IH]; intros dir; [done|]. cbn [remove_all foldl].
  change (remove_all created (delete c dir) !! f = if bool_decide (f ∈ c :: created) then None else dir !! f).
  rewrite IH. destruct (decide (f = c)) as [->|Hne].
  - rewrite lookup_delete_eq, (bool_decide_true (c ∈ c :: created)) by set_solver. by case_match.
  - rewrite lookup_delete_ne by done. by rewrite (bool_decide_ext (f ∈ c :: created) (f ∈ created)) by set_solver.
Qed.
Section ExtractFacts.
Context `{HR : ZipReader} `{HRL : !ZipReaderLaws HR} `{HZ : Zlib} `{HZL : !ZlibLaws HZ} `{HL : Liblp}.
Context `{HS : ShaStream} `{H256 : Sha256} `{HSL : !ShaStreamLaws H256 HS}.
Implicit Types a : archive.
(** [content] is the image of the entry of [nm], and [digest] its digest. *)
Definition staged a (info : Info) (nm : string) (content digest : list Z) : Prop :=
  exists part entry, find_image info nm = Some part /\ FindEntry a (img nm) = Some entry /\
    written_as (MkImagePart (p_bytes part) (sparse part)) (MkImageEntry (z_uncompressed entry) (z_crc32 entry))
      (EntryContents a entry).1 content digest.
Lemma extract_zip_image_ok a info part nm c content digest : find_image info nm = Some part -> is_u64 (p_bytes part) ->
  extract_zip_image a part (img nm) c = Some (content, digest) -> staged a info nm content digest.
Proof.
  intros Hf Hu (entry & He & E)%bind_Some. exists part, entry. split; [done|]. split; [done|].
  pose proof (contents_bytes a entry). pose proof (contents_length a entry).
  destruct (EntryContents a entry) as [pieces ok]. cbn [fst] in *. apply bind_Some in E as (r & E & Hok).
  destruct ok; [|done]. injection Hok as ->. by eapply write_image_sound.
Qed.
Lemma extract_zip_images_ok a info names : forall calls created hashes dir ok created' hashes' dir',
  Forall (fun p => is_u64 (p_bytes p)) (parts info) ->
  extract_zip_images a info names calls created hashes dir = Some (ok, created', hashes', dir') ->
  exists new, created' = created ++ new /\ Forall (fun f => dir !! f = None) new /\
    (forall f, f ∉ new -> dir' !! f = dir !! f) /\
    (ok = true -> new = map img names /\ exists ds, hashes' = hashes ++ ds /\
      Forall2 (fun nm digest => exists content, dir' !! img nm = Some (Some content) /\ staged a info nm content digest)
        names ds).
Proof.
  induction names as [|nm names IH]; intros calls created hashes dir ok created' hashes' dir' Hu; cbn [extract_zip_images].
  { intros [= <- <- <- <-]. exists []. rewrite !app_nil_r. split_and!; try done. intros _. split; [done|].
    exists []. by rewrite app_nil_r. }
  intros (part & Hf & E)%bind_Some. destruct calls as [|c calls]; [done|].
  assert (Hp : is_u64 (p_bytes part)).
  { unfold find_image in Hf. apply fmap_Some in Hf as ([i q] & Hq & ->). apply list_find_Some in Hq as (Hq & _).
    rewrite Forall_forall in Hu. by eapply Hu, list_elem_of_lookup_2. }
  fold (img nm) in E. if_step E.
  { injection E as <- <- <- <-. exists []. rewrite app_nil_r. by split_and!. }
  apply orb_false_iff in Hc as [_ Hnone%bool_decide_eq_false]. apply eq_None_not_Some in Hnone.
  destruct (extract_zip_image a part (img nm) c) as [[content digest]|] eqn:Ex.
  2: { injection E as <- <- <- <-. exists [img nm]. split_and!; try done; [by repeat constructor|].
       intros f Hn. apply lookup_insert_ne. set_solver. }
  apply (extract_zip_image_ok _ info) in Ex; [|done..].
  assert (Hdir : forall f, f ∉ [img nm] -> <[img nm:=Some content]> (<[img nm:=None]> dir) !! f = dir !! f).
  { intros f Hn. rewrite !lookup_insert_ne by set_solver. done. }
  if_step E.
  { injection E as <- <- <- <-. exists [img nm]. split_and!; try done. by repeat constructor. }
  apply IH in E as (new & -> & Hnew & Hsame & Hdone); [|done].
  assert (Hnm : img nm ∉ new).
  { intros Hin. rewrite Forall_forall in Hnew. specialize (Hnew _ Hin). by rewrite lookup_insert_eq in Hnew. }
  exists (img nm :: new). split; [by rewrite <- app_assoc|]. split.
  { constructor; [done|]. rewrite Forall_forall in Hnew |- *. intros f Hin. rewrite <- (Hnew f Hin), Hdir; set_solver. }
  split.
  { intros f Hn. rewrite Hsame by set_solver. apply Hdir. set_solver. }
  intros Hok. destruct (Hdone Hok) as (-> & ds & -> & H2). split; [done|]. exists (digest :: ds).
  split; [by rewrite <- app_assoc|]. constructor; [|done]. exists content. split; [|done].
  by rewrite Hsame, lookup_insert_eq.
Qed.
Lemma select_images_names info names : forall unique total total', select_images info names unique total = inr total' ->
  NoDup names /\ Forall (fun nm => nm ∉ unique) names /\
  Forall (fun nm => exists p, find_image info nm = Some p /\ extractable p = true) names.
Proof.
  induction names as [|nm names IH]; intros unique total total'; cbn [select_images].
  { intros _. split_and!; constructor. }
  destruct (find_image info nm) as [p|] eqn:Ef; [|done]. intros E. if_step E; [done|].
  apply orb_false_iff in Hc as [Hx%negb_false_iff Hn%bool_decide_eq_false]. apply IH in E as (H1 & H2 & H3).
  rewrite Forall_forall in H2. split_and!.
  - constructor; [|done]. intros Hin. specialize (H2 _ Hin). set_solver.
  - constructor; [done|]. apply Forall_forall. intros x Hin. specialize (H2 _ Hin). set_solver.
  - constructor; [by exists p|done].
Qed.
End ExtractFacts.


(** ** A small archive: requirements, a layout and one raw image *)
#[local] Existing Instances sum_crc sum_crc_laws sum_sha sum_stream sum_stream_laws.
Definition demo_text : list Z := bytes_of ("require product=tegu|tokay" ++ newline ++ "# any" ++ newline)%string.
Definition demo_blob : list Z := [7].
Definition demo_boot : list Z := [1; 2; 3; 4].
Definition demo_zip_entry (offset : Z) (bytes : list Z) : ZipEntry :=
  MkZipEntry 0 offset (crc32 0 bytes) (blen bytes) (blen bytes) 0 0.
Definition demo_entries : list (string * ZipEntry) :=
  [("android-info.txt"%string, demo_zip_entry 0 demo_text); ("super_empty.img"%string, demo_zip_entry 1 demo_blob);
   ("boot.img"%string, demo_zip_entry 2 demo_boot)].
Definition demo_content (e : ZipEntry) : list Z :=
  if z_offset e =? 0 then demo_text else if z_offset e =? 1 then demo_blob else demo_boot.
#[local] Instance zip_packages : Packages := {
  archive := unit; OpenArchiveFd _ := Some tt;
  FindEntry _ nm := smap_find nm demo_entries;
  ParseManifest _ := None }.
#[local] Instance zip_reader : ZipReader := {
  StartIteration _ := Some (demo_entries, -1);
  ExtractToMemory _ e := if blen (demo_content e) =? z_uncompressed e then Some (demo_content e) else None;
  EntryContents _ e := ([take 3 (demo_content e); drop 3 (demo_content e)], true) }.
#[local] Instance zip_reader_laws : ZipReaderLaws zip_reader.
Proof.
  assert (Hc : forall e, bytes_ok (demo_content e) /\ blen (demo_content e) < 2 ^ 64).
  { intros e. unfold demo_content. destruct (_ =? 0); [|destruct (_ =? 1)];
      (split; [apply (bool_decide_unpack (Forall _ _)); vm_compute; exact I|vm_compute; reflexivity]). }
  assert (Hx : forall bs e a, @ExtractToMemory _ zip_reader a e = Some bs -> bs = demo_content e /\ blen bs = z_uncompressed e).
  { intros bs e a. cbn. destruct (Z.eqb_spec (blen (demo_content e)) (z_uncompressed e)); [|done]. by intros [= <-]. }
  split.
  - intros a e bs E%Hx. apply E.
  - intros a e bs [-> _]%Hx. apply Hc.
  - intros a e. cbn [EntryContents zip_reader fst concat]. rewrite app_nil_r, take_drop. apply Hc.
  - intros a e. cbn [EntryContents zip_reader fst concat]. rewrite app_nil_r, take_drop. apply Hc.
  - intros a es r [= <- _]. unfold entry_ok, is_u64.
    repeat (apply Forall_cons; split; [split_and!; vm_compute; (discriminate || reflexivity)|]). apply Forall_nil_2.
Qed.
Definition demo_metadata : LpMetadata := MkLpMetadata
  [MkLpGroup "default" 0 0; MkLpGroup "g_a" 64 0; MkLpGroup "g_b" 64 0]
  [MkLpPartition "system_a" 1 0 1; MkLpPartition "system_b" 2 0 1].
#[local] Instance demo_liblp : Liblp := {
  ReadFromImageBlob _ := Some demo_metadata; LP_PARTITION_ATTR_READONLY := 1 }.
Definition demo_inspected : option Info := InspectImageZip tt "/sdcard/image.zip" false.
Definition demo_zip_env : ZipEnv :=
  MkZipEnv (Some (MkFileTime 100 (1, 2) (3, 4), true, [])) (Some (MkFileTime 100 (1, 2) (3, 4))) (Some (10, 4096)) true.
Definition demo_hash : list Z := default [] (manifest_hash <$> demo_inspected).

Lemma image_zip_review_binding_witness : exists info, demo_inspected = Some info /\ valid info = true /\
  review_summary tt = review_summary tt.
Proof.
  destruct demo_inspected as [info|] eqn:E; [|vm_compute in E; discriminate E].
  exists info. assert (Hv : valid info = true) by (vm_compute in E; injection E as <-; reflexivity).
  split; [reflexivity|]. split; [exact Hv|].
  exact (proj1 (image_zip_review_binding tt tt "/sdcard/image.zip" "/sdcard/image.zip" false false info info E Hv E Hv (fun _ => eq_refl) eq_refl)).
Defined.
Lemma image_zip_bounds_witness : exists info, demo_inspected = Some info /\ valid info = true /\
  expanded_bytes info = 4 /\ expanded_bytes info = total_bytes (parts info).
Proof.
  destruct demo_inspected as [info|] eqn:E; [|vm_compute in E; discriminate E].
  exists info. assert (Hv : valid info = true) by (vm_compute in E; injection E as <-; reflexivity).
  split; [reflexivity|]. split; [exact Hv|]. split; [vm_compute in E; injection E as <-; reflexivity|].
  destruct (image_zip_bounds (HR := zip_reader) tt "/sdcard/image.zip" false info E Hv) as (_ & _ & _ & H & _). exact H.
Defined.
Lemma read_layout_exact_witness : ReadLayout demo_blob = Some ([MkZipPart "system" "g" 1], [MkGroup "g" 64]) /\
  Forall (fun part => exists p, p ∈ lp_partitions demo_metadata /\ lp_entry (lp_groups demo_metadata) "_b" p part)
    [MkZipPart "system" "g" 1].
Proof.
  assert (E : ReadLayout demo_blob = Some ([MkZipPart "system" "g" 1], [MkGroup "g" 64])) by (vm_compute; reflexivity).
  split; [exact E|]. destruct (read_layout_exact (HL := demo_liblp) demo_blob demo_metadata _ _ eq_refl E) as (_ & _ & H & _).
  constructor; [|constructor]. apply Forall_cons in H as [(_ & _ & H) _]. exact H.
Defined.
(** The demonstration archive is for "Tokay" too, not for another product. *)
Example demo_compatible : forall info, demo_inspected = Some info ->
  ImageZipCompatible info [("product"%string, ["Tokay"%string])] = None /\
  ImageZipCompatible info [("product"%string, ["husky"%string])] =
    Some "Package requirement failed: product=tegu|tokay"%string.
Proof. intros info E. vm_compute in E. injection E as <-. vm_compute. done. Qed.
