(* ===== verification/PayloadInspector.v ===== *)
(** aeraui/features/update/payload_inspector.cpp: the preflight inspection of
    an update package and the summary that is shown before an installation.

    The OTA metadata message (ota_metadata.pb) is parsed by generated code:
    the class [OtaMetadata]. printf of a floating-point size is a parameter of
    the summary. *)
From stdpp Require Import base list strings gmap sorting.
From Stdlib Require Import ZArith Lia Ascii.
From S2P Require Import Prelude CxxString Kernel RawDevice Abl PayloadTargets PayloadArb PayloadInfo PayloadExtract SparseImage ImageZip PayloadFlash.

(** ** Text *)
Definition kMaximumManifestBytes : Z := 64 * 1024 * 1024.
Definition kMaximumMetadataBytes : Z := 512 * 1024.
(** Control characters become spaces. *)
Fixpoint printable (s : string) : string :=
  match s with
  | EmptyString => EmptyString
  | String c s =>
      let n := nat_of_ascii c in
      String (if (n <? 32)%nat || (n =? 127)%nat then " "%char else c) (printable s)
  end.
Definition pop_cr (line : string) : string :=
  if ends_with line (String (ascii_of_nat 13) "") then str_take (String.length line - 1) line else line.
Fixpoint properties_aux (ls : list string) (result : smap string) : smap string :=
  match ls with
  | [] => result
  | line :: ls =>
      let line := pop_cr line in
      match find_char "=" line with
      | None | Some O => properties_aux ls result
      | Some equal =>
          properties_aux ls (smap_set (str_take equal line) (printable (str_take 512 (str_drop (S equal) line))) result)
      end
  end.
Definition Properties (text : string) : smap string := properties_aux (lines text) [].
Definition Property (properties : smap string) (nm : string) : string := default ""%string (smap_find nm properties).
Definition versions : smap string :=
  [("29", "Android 10"); ("30", "Android 11"); ("31", "Android 12"); ("32", "Android 12L");
   ("33", "Android 13"); ("34", "Android 14"); ("35", "Android 15"); ("36", "Android 16")]%string.
Definition AndroidVersion (sdk : string) : string :=
  if String.eqb sdk "" then ""
  else match smap_find sdk versions with None => ("SDK " ++ sdk)%string | Some v => v end.
Definition OperationName (type : Z) : string :=
  match type with
  | 0 => "raw" | 1 => "bzip2" | 2 => "move" | 3 => "bsdiff" | 4 => "source copy" | 5 => "source bsdiff"
  | 6 => "zero" | 7 => "discard" | 8 => "xz" | 9 => "puffdiff" | 10 => "brotli diff" | 11 => "zucchini"
  | 12 => "lz4 bsdiff" | 13 => "lz4 puffdiff" | 14 => "zstd" | _ => "unknown"
  end.
Definition Join (items : list string) (separator : string) : string :=
  foldl (fun result item => if String.eqb result "" then item else result ++ separator ++ item)%string ""%string items.
Definition PartitionNames (ps : list Partition) : string := Join (map p_name ps) ", ".

(** ** The inspection *)
(** The parts of the OTA metadata message that are read. *)
Record PartitionState := MkState { ps_name : string; ps_builds : list string }.
Record OtaPost := MkPost {
  build_incremental : string; sdk_level : string; ota_patch_level : string; partition_state : list PartitionState }.
Class OtaMetadata := { ParseOta : list Z -> option OtaPost }.

Definition strip_zip (nm : string) : string :=
  if (4 <? String.length nm)%nat && (ends_with nm ".zip" || ends_with nm ".ZIP")
  then str_take (String.length nm - 4) nm else nm.
Definition or_else (s t : string) : string := if String.eqb s "" then t else s.
(** The fingerprint of the system partition: brand/product/device:release/... *)
Definition fingerprint_fields (fingerprint : string) : option (string * string) :=
  colon ← find_char ":" fingerprint;
  slash ← find_char "/" (str_drop (S colon) fingerprint);
  device_start ← rfind_char "/" (str_take (S colon) fingerprint);
  Some (str_take slash (str_drop (S colon) fingerprint),
        str_take (colon - device_start - 1) (str_drop (S device_start) fingerprint)).
Fixpoint use_fingerprints (states : list PartitionState) (has_product : bool) (info : Info) : Info :=
  match states with
  | [] => info
  | s :: states =>
      match ps_builds s with
      | fingerprint :: _ =>
          if negb (String.eqb (ps_name s) "system") then use_fingerprints states has_product info
          else
          let info := info {{ system_fingerprint := fingerprint }} in
          match fingerprint_fields fingerprint with
          | None => use_fingerprints states has_product info
          | Some (release, device) =>
              let info := if negb (String.eqb release "") && (String.length release <? 24)%nat
                          then info {{ target_sdk := ("Android " ++ release)%string }} else info in
              let info := if has_product then info else info {{ target_device := device }} in
              use_fingerprints states has_product info
          end
      | [] => use_fingerprints states has_product info
      end
  end.
Definition needs_old (op : Operation) : bool :=
  negb (src_extents_size op =? 0) || has_src_sha256_hash op || negb (full_type (op_type op)).
Definition str_le (s t : string) : Prop := s = t \/ str_lt s t.
(** std::set<std::string>: [smap] with no values. *)
Definition add_types (ops : list Operation) (types : smap ()) : smap () :=
  foldl (fun types op => smap_set (OperationName (op_type op)) () types) types ops.
(** The loop over the manifest's partitions: the new [Info], and the types. *)
Definition kBadName : string := "The manifest contains an invalid partition name.".
Definition kOverflow : string := "The manifest partition sizes overflow.".
Fixpoint inspect_partitions (ps : list PartitionUpdate) (block data_size : Z) (types : smap ()) (info : Info)
    : (Info * smap ()) + Info :=
  match ps with
  | [] => inl (info, types)
  | p :: ps =>
      if negb (valid_name (partition_name p)) then inr (info {{ error := kBadName }})
      else
      let why := ExtractionError p block data_size in
      let ops := u64 (Z.of_nat (length (operations p))) in
      let entry := MkPart (partition_name p) (new_size p) ops (String.eqb why "") why (new_hash p) false in
      if u64 (UINT64_MAX - expanded_bytes info) <? p_bytes entry then inr (info {{ error := kOverflow }})
      else
      inspect_partitions ps block data_size (add_types (operations p) types)
        (info {{ expanded_bytes := u64 (expanded_bytes info + p_bytes entry);
                 i_operations := u64 (i_operations info + p_operations entry);
                 incremental := incremental info || has_old_partition_info p || existsb needs_old (operations p);
                 parts := parts info ++ [entry] }})
  end.
Section InspectZip.
Context `{ZipReader} `{Zlib} `{Liblp} `{ShaStream} `{Sha256} `{Decoders} `{OtaMetadata}.
Definition ExtractSmallText (a : archive) (nm : string) : option (list Z) :=
  entry ← FindEntry a nm;
  if kMaximumMetadataBytes <? z_uncompressed entry then None else ExtractToMemory a entry.
(** What the metadata say about the target: lines 283 to 327. *)
Definition describe (info : Info) (path : string) (metadata : smap string) (ota : option OtaPost) (d : ManifestDetails)
    : Info :=
  let info := info {{ i_minor_version := minor_version d; incremental := false; partial := partial_update d;
    max_timestamp := (if 0 <? manifest_timestamp d then manifest_timestamp d else 0) }} in
  let info := info {{ device_codename := Property metadata "pre-device" }} in
  let info := info {{ target_device := or_else (Property metadata "product_name") (device_codename info);
    build_id := Property metadata "post-build-incremental" }} in
  let version := or_else (Property metadata "version_name") (Property metadata "version_name_show") in
  let info := if String.eqb version ""
              then info {{ target_build := strip_zip (base_name path); name_from_filename := true }}
              else info {{ target_build := version }} in
  let info := info {{ target_sdk := AndroidVersion (Property metadata "post-sdk-level");
    security_patch := or_else (Property metadata "post-security-patch-level") (manifest_patch_level d) }} in
  let info := match ota with
    | None => info
    | Some post =>
        let info := info {{ build_id := or_else (build_id info) (build_incremental post) }} in
        let info := info {{ target_sdk := or_else (target_sdk info) (AndroidVersion (sdk_level post)) }} in
        let info := info {{ security_patch := or_else (security_patch info) (ota_patch_level post) }} in
        use_fingerprints (partition_state post) (negb (String.eqb (Property metadata "product_name") "")) info
    end in
  match dynamic_metadata d with
  | None => info
  | Some (groups, snapshot, vabc) =>
      info {{ dynamic_partitions := negb (groups =? 0); snapshots := snapshot; virtual_ab_compression := vabc }}
  end.
(** From a parsed manifest to the report; [None] where InspectArb faults. *)
Definition inspect_manifest (fd : Z) (a : archive) (path : string) (read_arb : bool) (entry : ZipEntry)
    (data_offset : Z) (m : Manifest) (info : Info) : M (option Info) :=
  if 512 <? Z.of_nat (length (partitions m))
  then mret (Some (info {{ error := "The payload contains too many partition entries."%string }}))
  else
  let metadata := match ExtractSmallText a "META-INF/com/android/metadata" with
                  | Some text => Properties (string_of text) | None => [] end in
  let ota := bytes ← ExtractSmallText a "META-INF/com/android/metadata.pb"; ParseOta bytes in
  let info := describe (info {{ format_version := 2 }}) path metadata ota (details m) in
  let data_size := u64 (z_uncompressed entry - data_offset) in
  match inspect_partitions (partitions m) (block_size m) data_size [] info with
  | inr info => mret (Some info)
  | inl (info, types) =>
      let info := info {{ operation_types := Join types.*1 ", "; valid := negb (bool_decide (parts info = [])) }} in
      if valid info && read_arb then
        arb ← InspectArb fd (u64 (z_offset entry + data_offset)) data_size m;
        mret (arb ← arb; Some (info {{ arb_available := available arb; arb_index := index arb; arb_detail := detail arb }}))
      else if valid info then mret (Some info)
      else mret (Some (info {{ error := "The payload manifest contains no partitions."%string }}))
  end.
Definition InspectZip (package : option (Z * Node)) (path : string) (read_arb : bool) : M (option Info) :=
  let failed := fun text => mret (Some (no_info {{ error := text }})) in
  match package with
  | None => failed "The selected package could not be opened."%string
  | Some (fd, node) =>
  match node_stat node with
  | None => failed "The selected package could not be opened."%string
  | Some st =>
  if negb (st_reg st) then failed "The selected package could not be opened."%string
  else
  file ← get_content fd;
  match OpenArchiveFd file with
  | None => failed "The selected file is not a valid ZIP package."%string
  | Some a =>
  match FindEntry a "payload.bin" with
  | None => mret (InspectImageZip a path read_arb)
  | Some entry =>
  let info := no_info {{ is_payload := true; payload_bytes := z_uncompressed entry }} in
  if negb (z_method entry =? kCompressStored)
  then mret (Some (info {{ error :=
    "payload.bin is compressed inside the ZIP and cannot be streamed by the recovery installer."%string }}))
  else
  let bad := mret (Some (info {{ error := "payload.bin has an invalid update payload header."%string }})) in
  if z_uncompressed entry <? 24 then bad
  else
  header ← read_exactly fd 24 (u64 (z_offset entry));
  match header with
  | None => bad
  | Some header =>
  if negb (bool_decide (take 4 header = [67; 114; 65; 85])) then bad
  else
  let format := Big (drop 4 header) 8 in
  let manifest_bytes := Big (drop 12 header) 8 in
  let signature_bytes := if 2 <=? format then Big (drop 20 header) 4 else 0 in
  let header_bytes := if 2 <=? format then 24 else 20 in
  let data_offset := u64 (header_bytes + manifest_bytes + signature_bytes) in
  if negb (format =? 2) || (manifest_bytes =? 0) || (kMaximumManifestBytes <? manifest_bytes) ||
     (INT_MAX <? manifest_bytes) || (z_uncompressed entry <? data_offset)
  then mret (Some (info {{ error := "The payload manifest header is unsupported or truncated."%string }}))
  else
  bytes ← read_exactly fd manifest_bytes (u64 (z_offset entry + header_bytes));
  match bytes with
  | None => mret (Some (info {{ error := "The payload manifest could not be read."%string }}))
  | Some bytes =>
  let info := info {{ manifest_hash := SHA256 bytes }} in
  match ParseManifest bytes with
  | None => mret (Some (info {{ error :=
      "The payload manifest is malformed or uses an unsupported schema."%string }}))
  | Some m => inspect_manifest fd a path read_arb entry data_offset m info
  end end end end end end end.
End InspectZip.

(** ** The summary *)
Definition Summary (Size : Z -> string) (info : Info) : string :=
  if negb (is_payload info)
  then ("Installer ZIP" ++ newline ++ "The package's own installer controls which partitions are changed.")%string
  else if negb (valid info)
  then ("PAYLOAD OTA / PREFLIGHT FAILED" ++ newline ++ or_else (error info) "The payload manifest could not be read.")%string
  else
  let mode := ((if incremental info then "Incremental OTA" else "Full OTA") ++ (if partial info then " / partial" else ""))%string in
  let layout := if dynamic_partitions info then "Dynamic partitions"%string else ""%string in
  let layout := if snapshots info
    then (layout ++ if String.eqb layout "" then "Snapshots" else " / snapshots")%string else layout in
  let layout := if virtual_ab_compression info
    then (layout ++ if String.eqb layout "" then "Virtual A/B compression" else " / Virtual A/B compression")%string else layout in
  let part label text := (if String.eqb text "" then "" else label ++ text)%string in
  (mode ++ part (newline ++ "Device: ") (target_device info) ++ part "  /  " (target_sdk info) ++
   part (newline ++ "Build: ") (target_build info) ++ part (newline ++ "Security patch: ") (security_patch info) ++
   newline ++ "Payload: " ++ Size (payload_bytes info) ++ "  /  Expanded: " ++ Size (expanded_bytes info) ++
   part (newline ++ "Layout: ") layout ++
   newline ++ "Partitions (" ++ to_string (Z.of_nat (length (parts info))) ++ "): " ++ PartitionNames (parts info) ++
   newline ++ "Operations: " ++ to_string (i_operations info) ++ part "  /  " (operation_types info))%string.

(** ** What a valid report says *)
Definition entry_of (block data_size : Z) (p : PartitionUpdate) : Partition :=
  let why := ExtractionError p block data_size in
  MkPart (partition_name p) (new_size p) (u64 (Z.of_nat (length (operations p)))) (String.eqb why "") why (new_hash p) false.
Definition total_size (ps : list PartitionUpdate) : Z := foldr (fun p n => new_size p + n) 0 ps.
Definition is_delta (p : PartitionUpdate) : bool := has_old_partition_info p || existsb needs_old (operations p).
(** The fields that later steps of the inspection read. *)
Definition same_core (i j : Info) : Prop :=
  is_payload j = is_payload i /\ manifest_hash j = manifest_hash i /\ parts j = parts i /\
  expanded_bytes j = expanded_bytes i /\ error j = error i /\ valid j = valid i.
Lemma use_fingerprints_core states has_product : forall info,
  same_core info (use_fingerprints states has_product info) /\
  incremental (use_fingerprints states has_product info) = incremental info.
Proof.
  induction states as [|s states IH]; intros info; cbn [use_fingerprints]; [done|].
  destruct (ps_builds s) as [|fingerprint builds]; [apply IH|]. destruct (negb _); [apply IH|].
  destruct (fingerprint_fields fingerprint) as [[release device]|].
  - match goal with |- same_core _ (use_fingerprints _ _ ?i) /\ _ => pose proof (IH i) as [Hc Hi] end.
    rewrite Hi. clear IH Hi. split; [|by destruct (negb _ && _), has_product].
    destruct Hc as (H1 & H2 & H3 & H4 & H5 & H6). unfold same_core. rewrite H1, H2, H3, H4, H5, H6.
    by destruct (negb _ && _), has_product.
  - match goal with |- same_core _ (use_fingerprints _ _ ?i) /\ _ => exact (IH i) end.
Qed.
Lemma describe_core info path metadata ota d : same_core info (describe info path metadata ota d) /\
  incremental (describe info path metadata ota d) = false.
Proof.
  unfold describe. cbv zeta. destruct ota as [post|].
  - match goal with |- context [use_fingerprints ?s ?b ?i] => pose proof (use_fingerprints_core s b i) as [Hc Hi];
      set (j := use_fingerprints s b i) in * end.
    assert (Hj : same_core info j /\ incremental j = false).
    { destruct Hc as (H1 & H2 & H3 & H4 & H5 & H6). unfold same_core. rewrite Hi, H1, H2, H3, H4, H5, H6.
      by destruct (String.eqb (or_else _ _) ""). }
    by destruct (dynamic_metadata d) as [[[g s] v]|].
  - by destruct (String.eqb (or_else _ _) ""), (dynamic_metadata d) as [[[g s] v]|].
Qed.
Lemma inspect_partitions_ok block data_size ps : forall types info info' types',
  Forall (fun p => is_u64 (new_size p)) ps -> is_u64 (expanded_bytes info) ->
  inspect_partitions ps block data_size types info = inl (info', types') ->
  parts info' = parts info ++ map (entry_of block data_size) ps /\
  expanded_bytes info' = expanded_bytes info + total_size ps /\ is_u64 (expanded_bytes info') /\
  incremental info' = incremental info || existsb is_delta ps /\
  Forall (fun p => valid_name (partition_name p) = true) ps /\
  is_payload info' = is_payload info /\ manifest_hash info' = manifest_hash info.
Proof.
  induction ps as [|p ps IH]; intros types info info' types' Hs Hu; cbn [inspect_partitions].
  { intros [= <- <-]. cbn. rewrite app_nil_r, Z.add_0_r, orb_false_r. split_and!; try done; constructor. }
  apply Forall_cons in Hs as [Hp Hs]. destruct (valid_name (partition_name p)) eqn:En; cbn [negb]; [|done].
  cbn [p_bytes p_operations]. unfold_width. rewrite (u64_id (UINT64_MAX - _)) by (unfold_width; lia).
  destruct (Z.ltb_spec (UINT64_MAX - expanded_bytes info) (new_size p)) as [|Hle]; [done|].
  rewrite (u64_id (expanded_bytes info + _)) by (unfold_width; lia). intros E.
  apply IH in E as (H1 & H2 & H3 & H4 & H5 & H6 & H7); [|done|].
  2: { change (is_u64 (expanded_bytes info + new_size p)). unfold_width. lia. }
  split_and!; try done; try apply H3.
  - rewrite H1. change ((parts info ++ [entry_of block data_size p]) ++ map (entry_of block data_size) ps =
      parts info ++ map (entry_of block data_size) (p :: ps)). by rewrite <- app_assoc.
  - rewrite H2. symmetry. apply Z.add_assoc.
  - rewrite H4. change (incremental info || has_old_partition_info p || existsb needs_old (operations p) || existsb is_delta ps =
      incremental info || (is_delta p || existsb is_delta ps)). unfold is_delta at 2. by rewrite !orb_assoc.
  - by constructor.
Qed.

Section Inspected.
Context `{HR : ZipReader} `{HRL : !ZipReaderLaws HR} `{HPL : !PackagesLaws H} `{HZ : Zlib} `{HL : Liblp}.
Context `{HS : ShaStream} `{H256 : Sha256} `{HD : Decoders} `{HO : OtaMetadata}.
Lemma inspect_images_not_payload a images : forall h i i' h', inspect_images a images h i = (i', h') -> is_payload i' = is_payload i.
Proof.
  induction images as [|[nm e] images IH]; intros h i i' h'; cbn [inspect_images]; [by intros [= <- _]|].
  destruct (_ <? _); [by intros [= <- _]|]. by intros E%IH.
Qed.
Lemma image_zip_not_payload a path arb info : InspectImageZip a path arb = Some info -> is_payload info = false.
Proof.
  unfold InspectImageZip. destruct (FindEntry a _); [|by intros [= <-]].
  destruct (Small a _ _) as [text|]; [|by intros [= <-]]. destruct (bool_decide _); [by intros [= <-]|].
  destruct (inspect_layout _ _) as [[[l g] h]|]; [|by intros [= <-]].
  destruct (StartIteration a) as [[es r]|]; [|by intros [= <-]]. destruct (collect_images es []) as [im|]; [|by intros [= <-]].
  destruct (_ || _); [by intros [= <-]|].
  match goal with |- (let '(_, _) := ?x in _) = _ -> _ => destruct x as [i1 h1] eqn:E end.
  apply inspect_images_not_payload in E. match goal with |- (if ?c then _ else _) = _ -> _ => destruct c end; [intros [= E']; rewrite <- E'; exact E|].
  intros (i2 & E2 & [= <-])%bind_Some. change (is_payload i2 = false).
  destruct arb; [destruct (Small a _ _); [apply bind_Some in E2 as (? & _ & E2)|]|]; injection E2 as <-; exact E.
Qed.
(** The report of a manifest with its data area. *)
Definition tells (m : Manifest) (data_size : Z) (info : Info) : Prop :=
  is_u64 data_size /\ (length (partitions m) <= 512)%nat /\ partitions m ≠ [] /\
  parts info = map (entry_of (block_size m) data_size) (partitions m) /\
  expanded_bytes info = total_size (partitions m) /\ total_size (partitions m) < 2 ^ 64 /\
  incremental info = existsb is_delta (partitions m) /\
  Forall (fun p => valid_name (partition_name p) = true) (partitions m).
Lemma inspect_partitions_valid block data_size ps : forall types i i',
  inspect_partitions ps block data_size types i = inr i' -> valid i' = valid i.
Proof.
  induction ps as [|p ps IH]; intros types i i'; cbn [inspect_partitions]; [done|].
  destruct (negb _); [by intros [= <-]|]. destruct (_ <? _); [by intros [= <-]|]. by intros E%IH.
Qed.
Lemma inspect_partitions_tells m data_size info1 info2 types : Forall fields_ok (partitions m) -> is_u64 data_size ->
  (length (partitions m) <= 512)%nat -> parts info1 = [] -> expanded_bytes info1 = 0 -> incremental info1 = false ->
  inspect_partitions (partitions m) (block_size m) data_size [] info1 = inl (info2, types) -> parts info2 ≠ [] ->
  tells m data_size info2 /\ manifest_hash info2 = manifest_hash info1 /\ is_payload info2 = is_payload info1.
Proof.
  intros Hf Hd Hlen Hp Hx Hi E Hne. apply inspect_partitions_ok in E as (P1 & P2 & P3 & P4 & P5 & P6 & P7).
  2: { eapply Forall_impl; [exact Hf|]. intros p [Hs _]. exact Hs. }
  2: { by rewrite Hx. }
  rewrite Hp in P1. rewrite Hx in P2. rewrite Hi in P4. cbn [app orb] in *. rewrite Z.add_0_l in P2. rewrite P2 in P3.
  split; [|done]. unfold tells. split_and!; try done; [apply Hd..| |apply P3].
  intros E0. by rewrite P1, E0 in Hne.
Qed.
Lemma inspect_manifest_ok fd a path arb entry off m info w info' w' : Forall fields_ok (partitions m) ->
  parts info = [] -> expanded_bytes info = 0 -> valid info = false ->
  inspect_manifest fd a path arb entry off m info w = Some (Some info', w') -> valid info' = true ->
  exists data_size, tells m data_size info' /\ manifest_hash info' = manifest_hash info /\ is_payload info' = is_payload info.
Proof.
  intros Hf Hp Hx Hv. unfold inspect_manifest. destruct (Z.ltb_spec 512 (Z.of_nat (length (partitions m)))) as [|Hlen].
  { intros [= <- <-] Hv'. change (valid info = true) in Hv'. congruence. }
  match goal with |- context [describe ?i ?p ?md ?o ?d] => pose proof (describe_core i p md o d) as [Hc Hi];
    set (info1 := describe i p md o d) in * end.
  destruct Hc as (C1 & C2 & C3 & C4 & C5 & C6).
  set (data_size := u64 (z_uncompressed entry - off)).
  pose proof (u64_range (z_uncompressed entry - off) : is_u64 data_size) as Hd.
  destruct (inspect_partitions _ _ _ _ _) as [[info2 types]|info2] eqn:Ei.
  2: { intros [= <- <-] Hv'. rewrite (inspect_partitions_valid _ _ _ _ _ _ Ei), C6 in Hv'.
       change (valid info = true) in Hv'. congruence. }
  assert (Ht : parts info2 ≠ [] -> tells m data_size info2 /\ manifest_hash info2 = manifest_hash info1 /\
    is_payload info2 = is_payload info1).
  { eapply inspect_partitions_tells; [done|done|lia| | |done|exact Ei]; [by rewrite C3|by rewrite C4]. }
  clear Ei. rewrite C1, C2 in Ht.
  assert (Hne : negb (bool_decide (parts info2 = [])) = true -> parts info2 ≠ []).
  { intros Hn%negb_true_iff. by apply bool_decide_eq_false in Hn. }
  cbn [valid]. intros E Hv'. exists data_size.
  match type of E with (if ?c && _ then _ else _) _ = _ => change c with (negb (bool_decide (parts info2 = []))) in E end.
  destruct (negb (bool_decide (parts info2 = []))) eqn:En; cbn [andb] in E.
  - destruct arb.
    + apply mbind_Some in E as (r & w1 & _ & E). injection E as E <-. apply bind_Some in E as (x & -> & [= <-]).
      exact (Ht (Hne eq_refl)).
    + injection E as <- <-. exact (Ht (Hne eq_refl)).
  - injection E as <- <-. done.
Qed.
(** Where a valid report comes from. *)
Definition reports (package : option (Z * Node)) (w : World) (info : Info) (bytes : list Z) (m : Manifest) (data_size : Z) : Prop :=
  (exists fd node off, package = Some (fd, node) /\ bytes = slice off (blen bytes) (content w fd)) /\
  manifest_hash info = SHA256 bytes /\ ParseManifest bytes = Some m /\ tells m data_size info.
Lemma InspectZip_ok package path arb w info w' : InspectZip package path arb w = Some (Some info, w') ->
  valid info = true -> is_payload info = true -> exists bytes m data_size, reports package w info bytes m data_size.
Proof.
  unfold InspectZip. intros E Hv Hp.
  assert (Hno : forall i : Info, valid i = false -> Some (Some i, w) = Some (Some info, w') -> False)
    by (intros i Hi [= -> _]; congruence).
  destruct package as [[fd node]|]; [|by apply Hno in E].
  destruct (node_stat node) as [st|]; [|by apply Hno in E].
  destruct (st_reg st); cbn [negb] in E; [|by apply Hno in E].
  apply mbind_Some in E as (file & w1 & E1 & E). injection E1 as <- <-.
  destruct (OpenArchiveFd _) as [a|]; [|by apply Hno in E].
  destruct (FindEntry a "payload.bin") as [entry|].
  2: { injection E as E <-. apply image_zip_not_payload in E. congruence. }
  if_in E C1; [by apply Hno in E|]. if_in E C2; [by apply Hno in E|].
  apply mbind_Some in E as (header & w1 & E1 & E).
  apply read_exactly_sound in E1 as [Hf1 _]; [|lia|apply u64_range].
  assert (Hno1 : forall i : Info, valid i = false -> Some (Some i, w1) = Some (Some info, w') -> False)
    by (intros i Hi [= -> _]; congruence).
  destruct header as [header|]; [|by apply Hno1 in E]. if_in E C3; [by apply Hno1 in E|]. cbv zeta in E.
  if_in E C4; [by apply Hno1 in E|]. apply mbind_Some in E as (bytes & w2 & E2 & E).
  assert (Hbig : forall l n, 0 <= Big l n).
  { intros l n. unfold Big. assert (Hg : forall k v, 0 <= v -> 0 <= foldl (fun value b => u64 (Z.lor (Z.shiftl value 8) b)) v k).
    { induction k as [|b k IH]; intros v Hv0; [done|]. apply IH. apply u64_range. }
    by apply Hg. }
  apply read_exactly_sound in E2 as [Hf2 Hb]; [|apply Hbig|apply u64_range].
  destruct bytes as [bytes|]; [|injection E as <- <-; done]. destruct (Hb _ eq_refl) as [Hb1 Hb2].
  destruct (ParseManifest bytes) as [m|] eqn:Em; [|injection E as <- <-; done].
  pose proof (parse_fields _ _ Em) as [_ Hfields].
  eapply inspect_manifest_ok in E as (ds & Ht & Hh & _); [|done|done|done|done|done].
  exists bytes, m, ds. split; [|done]. exists fd, node. eexists. split; [done|].
  rewrite Hb2. unfold content in *. rewrite Hf1 in Hb1. exact Hb1.
Qed.
End Inspected.

(** C26: what is extracted is what was reviewed: when a package was inspected
    and reported as a valid payload, and an extraction or a writer later
    validates a package against the reported hash, whatever happened to the
    file meanwhile, then each chosen partition appears in the report with its
    name, its size and its digest; or the two files contain a SHA-256
    collision. *)
Theorem review_binds_extraction `{HR : ZipReader} `{HRL : !ZipReaderLaws HR} `{HPL : !PackagesLaws H} `{HZ : Zlib}
    `{HL : Liblp} `{HS : ShaStream} `{H256 : Sha256} `{HD : Decoders} `{HO : OtaMetadata}
    package path arb w info w' package' names w1 v w1'
    (Hi : InspectZip package path arb w = Some (Some info, w')) (Hv : valid info = true) (Hp : is_payload info = true)
    (Hx : validate package' (manifest_hash info) names w1 = Some (inr v, w1')) :
  Forall (fun p => exists q, q ∈ parts info /\ p_name q = partition_name p /\ p_bytes q = new_size p /\
                             sha256 q = new_hash p) (v_partitions v) \/
  exists fd node off n fd' node' off' n', package = Some (fd, node) /\ package' = Some (fd', node') /\
    slice off n (content w fd) ≠ slice off' n' (content w1 fd') /\
    SHA256 (slice off n (content w fd)) = SHA256 (slice off' n' (content w1 fd')).
Proof.
  apply InspectZip_ok in Hi as (bytes & m & ds & (fd & node & off & Hpk & Hb) & Hh & Hm & (_ & _ & _ & Hparts & _)); [|done..].
  apply validate_sound in Hx as [_ Hx].
  destruct (Hx v eq_refl) as (m' & ds' & _ & [node' Hpk'] & (bytes' & Hh' & Hm' & off' & _ & Hb') & _ & Hall & _).
  destruct (decide (bytes = bytes')) as [<-|Hne].
  - left. rewrite Hm in Hm'. injection Hm' as <-. eapply Forall_impl; [exact Hall|]. intros p [Hin _].
    exists (entry_of (block_size m) ds p). rewrite Hparts. split; [|done]. apply list_elem_of_fmap. by exists p.
  - right. exists fd, node, off, (blen bytes), (v_fd v), node', off', (blen bytes'). rewrite <- Hb, <- Hb'.
    split_and!; try done. by rewrite Hh', Hh.
Qed.

(** The blocks of an image, each written once by the operations of the
    payload, from data inside the payload and nothing else. *)
Definition self_contained (block data_size : Z) (p : PartitionUpdate) : Prop :=
  has_old_partition_info p = false /\ Forall (op_fits (new_size p / block) block data_size) (operations p) /\
  (new_size p / block) * block = new_size p /\
  forall b, holders b (op_extents p) = if (0 <=? b) && (b <? new_size p / block) then 1%nat else 0%nat.
(** C25: a whole-payload flash that was planned from the inspection's report
    is complete: it covers exactly the partitions of the manifest that are not
    protected, each of them is rebuilt from the payload alone with every block
    written exactly once, has a 32-byte digest, and fits the device it goes to
    when that is a raw device. *)
Theorem planned_flash_complete `{HR : ZipReader} `{HRL : !ZipReaderLaws HR} `{HPL : !PackagesLaws H} `{HZ : Zlib}
    `{HL : Liblp} `{HS : ShaStream} `{H256 : Sha256} `{HD : Decoders} `{HO : OtaMetadata}
    package path arb w info w' targets protected names
    (Hi : InspectZip package path arb w = Some (Some info, w'))
    (Hplan : PlanFullFlash info targets protected = inr names) :
  exists bytes m data_size, ParseManifest bytes = Some m /\ manifest_hash info = SHA256 bytes /\
    Forall (fun nm => exists p t, p ∈ partitions m /\ partition_name p = nm /\ (nm ∉ protected) /\
      self_contained (block_size m) data_size p /\ blen (new_hash p) = 32 /\
      find_target targets nm = Some t /\ (t_raw t = true -> new_size p <= t_bytes t)) names /\
    forall p, p ∈ partitions m -> partition_name p ∈ names \/ partition_name p ∈ protected.
Proof.
  apply plan_full_flash_ok in Hplan as (Hv & Hp & _ & _ & _ & pairs & Hfst & -> & Hok & _).
  apply InspectZip_ok in Hi as (bytes & m & ds & _ & Hh & Hm & (Hd & _ & _ & Hparts & _)); [|done..].
  pose proof (parse_fields _ _ Hm) as [Hblock Hfields]. rewrite Forall_forall in Hfields.
  exists bytes, m, ds. split; [done|]. split; [done|]. split.
  - apply Forall_map, Forall_forall. intros [q t] Hin. rewrite Forall_forall in Hok. specialize (Hok _ Hin). cbn [fst].
    assert (Hq : q ∈ unprotected protected (parts info)) by (rewrite <- Hfst; apply list_elem_of_fmap; by exists (q, t)).
    apply list_elem_of_filter in Hq as [Hprot Hq]. rewrite Hparts in Hq. apply list_elem_of_fmap in Hq as (p & -> & Hpin).
    destruct Hok as (Ht & Hext & _ & Hlen & _ & Hraw). cbn [entry_of p_name extractable p_bytes sha256] in *.
    apply String.eqb_eq, extraction_error_iff in Hext as (_ & (k & Hk0 & Hk) & Hold & _ & Hmod & _ & Hops & _ & es & _ & _ & Hone);
      [|by apply Hfields|done|done].
    exists p, t. split_and!; try done; [|by intros Hr; apply Hraw]. split_and!; try done.
    pose proof (Z.div_mod (new_size p) (block_size m)). assert (0 < 2 ^ k) by lia. lia.
  - intros p Hin. destruct (decide (partition_name p ∈ protected)); [by right|]. left.
    assert (Hq : entry_of (block_size m) ds p ∈ unprotected protected (parts info)).
    { apply list_elem_of_filter. split; [done|]. rewrite Hparts. apply list_elem_of_fmap. by exists p. }
    rewrite <- Hfst in Hq. apply list_elem_of_fmap in Hq as ([q t] & Eq & Hq). apply list_elem_of_fmap.
    exists (q, t). split; [|done]. cbn [fst] in *. by rewrite <- Eq.
Qed.

(** ** The metadata text *)
Definition is_print (c : ascii) : bool :=
  let n := nat_of_ascii c in negb ((n <? 32)%nat || (n =? 127)%nat).
(** The assignment on one line: a key before the first =, which is not the
    first character, and the printable start of the rest. *)
Definition assignment (line : string) : option (string * string) :=
  match find_char "=" (pop_cr line) with
  | None | Some O => None
  | Some equal => Some (str_take equal (pop_cr line), printable (str_take 512 (str_drop (S equal) (pop_cr line))))
  end.
Fixpoint last_value (k : string) (assigned : list (string * string)) (found : option string) : option string :=
  match assigned with
  | [] => found
  | (k', v) :: assigned => last_value k assigned (if String.eqb k k' then Some v else found)
  end.
Lemma printable_ok s : all_chars is_print (printable s) = true /\ String.length (printable s) = String.length s.
Proof.
  induction s as [|c s [IH1 IH2]]; [done|]. cbn [printable all_chars String.length]. rewrite IH1, IH2, andb_true_r.
  split; [|done]. destruct ((nat_of_ascii c <? 32)%nat || (nat_of_ascii c =? 127)%nat) eqn:E; [done|].
  unfold is_print. by rewrite E.
Qed.
Lemma assignment_ok line k v : assignment line = Some (k, v) ->
  k ≠ ""%string /\ no_char "=" k = true /\ slen v <= 512 /\ all_chars is_print v = true.
Proof.
  unfold assignment. destruct (find_char "=" (pop_cr line)) as [[|n]|] eqn:E; [done| |done].
  pose proof (printable_ok (str_take 512 (str_drop (S (S n)) (pop_cr line)))) as [Hp Hl].
  rewrite length_str_take in Hl. set (x := printable _) in *. clearbody x. intros [= <- <-].
  destruct (find_char_Some _ _ _ E) as [Es Hn]. split_and!; [|done| |done].
  - destruct (pop_cr line); [done|]. done.
  - unfold slen. lia.
Qed.
Lemma properties_aux_spec ls : forall m, smap_ok m ->
  smap_ok (properties_aux ls m) /\
  forall k, smap_find k (properties_aux ls m) = last_value k (omap assignment ls) (smap_find k m).
Proof.
  induction ls as [|l ls IH]; intros m Hm; [done|]. cbn [properties_aux omap list_omap]. unfold assignment at 1.
  destruct (find_char "=" (pop_cr l)) as [[|n]|]; [by apply IH| |by apply IH].
  cbn zeta. destruct (IH (smap_set (str_take (S n) (pop_cr l)) (printable (str_take 512 (str_drop (S (S n)) (pop_cr l)))) m)) as [H1 H2];
    [by apply smap_set_ok|]. split; [exact H1|]. intros k. rewrite H2, smap_find_set. done.
Qed.
(** The metadata of a package, as a map: each key has the value of its
    last assignment, keys are not empty and contain no equals sign, and every
    value is at most 512 characters without control characters. *)
Theorem properties_exact text :
  (forall k, smap_find k (Properties text) = last_value k (omap assignment (lines text)) None) /\
  Forall (fun x => x.1 ≠ ""%string /\ no_char "=" x.1 = true /\ slen x.2 <= 512 /\ all_chars is_print x.2 = true)
    (Properties text).
Proof.
  destruct (properties_aux_spec (lines text) []) as [Hok Hf]; [constructor|]. split; [exact Hf|].
  apply Forall_forall. intros [k v] Hin. apply smap_find_elem in Hin; [|exact Hok].
  unfold Properties in Hin. rewrite Hf in Hin.
  assert (Hin' : (k, v) ∈ omap assignment (lines text)).
  { revert Hin. cbn [smap_find]. generalize (omap assignment (lines text)). clear. intros l.
    enough (forall f, last_value k l f = Some v -> (k, v) ∈ l \/ f = Some v) as Hg by (intros [?|?]%Hg; done).
    induction l as [|[k' v'] l IH]; intros f; cbn [last_value]; [by right|]. intros [?|E]%IH; [left; set_solver|].
    destruct (String.eqb_spec k k') as [->|]; [injection E as ->; left; set_solver|by right]. }
  apply list_elem_of_omap in Hin' as (l & _ & E). by apply assignment_ok in E.
Qed.

(** ** The package of PayloadExtract, inspected *)
#[local] Existing Instances PayloadExtract.demo_packages PayloadExtract.demo_packages_laws PayloadExtract.demo_decoders
  PayloadExtract.demo_sha PayloadExtract.demo_stream SparseImage.sum_crc ImageZip.demo_liblp.
#[local] Instance plain_reader : ZipReader := {
  StartIteration _ := None; ExtractToMemory _ _ := None; EntryContents _ _ := ([], true) }.
#[local] Instance plain_reader_laws : ZipReaderLaws plain_reader.
Proof. split; try done. intros a e. constructor. Qed.
#[local] Instance no_ota : OtaMetadata := { ParseOta _ := None }.
Definition inspected_demo : option (option Info * World) :=
  InspectZip PayloadExtract.demo_pkg "/sdcard/ota.zip" false PayloadExtract.demo_world.
Lemma review_binds_extraction_witness : exists info w' v w1',
  inspected_demo = Some (Some info, w') /\
  validate PayloadExtract.demo_pkg (manifest_hash info) ["boot"%string] PayloadExtract.demo_world = Some (inr v, w1') /\
  (Forall (fun p => exists q, q ∈ parts info /\ p_name q = partition_name p /\ p_bytes q = new_size p /\
                              sha256 q = new_hash p) (v_partitions v) \/
   exists fd off n off' n', slice off n (content PayloadExtract.demo_world fd) ≠ slice off' n' (content PayloadExtract.demo_world fd)).
Proof.
  destruct inspected_demo as [[[info|] w']|] eqn:E; [|vm_compute in E; discriminate E..].
  assert (Hv : valid info = true) by (vm_compute in E; injection E as <- _; reflexivity).
  assert (Hp : is_payload info = true) by (vm_compute in E; injection E as <- _; reflexivity).
  destruct (validate PayloadExtract.demo_pkg (manifest_hash info) ["boot"%string] PayloadExtract.demo_world)
    as [[[e|v] w1']|] eqn:Ex; [vm_compute in E; injection E as <- _; vm_compute in Ex; discriminate Ex| |
      vm_compute in E; injection E as <- _; vm_compute in Ex; discriminate Ex].
  exists info, w', v, w1'. split; [reflexivity|]. split; [exact Ex|].
  destruct (review_binds_extraction (HR := plain_reader) PayloadExtract.demo_pkg "/sdcard/ota.zip" false PayloadExtract.demo_world info w'
    PayloadExtract.demo_pkg ["boot"%string] PayloadExtract.demo_world v w1' E Hv Hp Ex)
    as [H|(fd & node & off & n & fd' & node' & off' & n' & H1 & H2 & H3 & _)]; [left; exact H|right].
  rewrite H1 in H2. injection H2 as <- _. exists fd, off, n, off', n'. exact H3.
Defined.
Lemma planned_flash_complete_witness : exists info w' names,
  inspected_demo = Some (Some info, w') /\
  PlanFullFlash info [MkFlashTarget "boot" "/dev/block/sda1" 4 true 259 ""] ∅ = inr names /\ names = ["boot"%string] /\
  exists bytes m, ParseManifest bytes = Some m /\ manifest_hash info = SHA256 bytes.
Proof.
  destruct inspected_demo as [[[info|] w']|] eqn:E; [|vm_compute in E; discriminate E..].
  assert (Hpl : PlanFullFlash info [MkFlashTarget "boot" "/dev/block/sda1" 4 true 259 ""] ∅ = inr ["boot"%string])
    by (vm_compute in E; injection E as <- _; vm_compute; reflexivity).
  exists info, w', ["boot"%string]. split; [reflexivity|]. split; [exact Hpl|]. split; [reflexivity|].
  destruct (planned_flash_complete (HR := plain_reader) PayloadExtract.demo_pkg "/sdcard/ota.zip" false PayloadExtract.demo_world info w' _ _ _ E Hpl)
    as (bytes & m & ds & H1 & H2 & _). exists bytes, m. split; [exact H1|exact H2].
Defined.
Example fingerprint_example :
  fingerprint_fields "google/tegu/tegu:15/AP3A/123:user/release-keys" = Some ("15"%string, "tegu"%string).
Proof. reflexivity. Qed.
Example properties_example :
  Property (Properties ("version_name=A" ++ newline ++ "=x" ++ newline ++ "version_name=B=C" ++ newline)) "version_name" = "B=C"%string.
Proof. reflexivity. Qed.
