(* ===== verification/JailPolicy.v ===== *)
(** aeraui/features/browser/jail_policy.hpp: the seccomp filter of the browser
    process tree, on AArch64.

    The filter is a program of the kernel's classic BPF machine, so this file
    holds that machine ([run]), the program as the source builds it ([Policy])
    and a plain decision procedure ([decision]); the numbers are those of the
    kernel's user ABI for AArch64 (asm-generic/unistd.h, seccomp.h, socket.h,
    prctl.h), with the optional system calls of current headers. *)
From stdpp Require Import base list.
From Stdlib Require Import ZArith Lia.
From S2P Require Import Prelude.

(** ** The machine *)
Record sock_filter := MkFilter { code : Z; jt : nat; jf : nat; k : Z }.
(** seccomp_data: the number, the architecture, the instruction pointer and
    six 64-bit arguments. *)
Record seccomp_data := MkData { nr : Z; arch : Z; instruction_pointer : Z; args : list Z }.
Definition low (v : Z) : Z := v mod 2 ^ 32.
Definition high (v : Z) : Z := v / 2 ^ 32 mod 2 ^ 32.
Definition arg (d : seccomp_data) (i : nat) : Z := nth i (args d) 0.
(** The 32-bit word at an offset. *)
Definition word (d : seccomp_data) (offset : Z) : Z :=
  if offset =? 0 then low (nr d)
  else if offset =? 4 then low (arch d)
  else if offset =? 8 then low (instruction_pointer d)
  else if offset =? 12 then high (instruction_pointer d)
  else
  let i := Z.to_nat ((offset - 16) / 8) in
  if offset mod 8 =? 0 then low (arg d i) else high (arg d i).
Definition BPF_LD_ABS : Z := 0x20.   (* BPF_LD | BPF_W | BPF_ABS *)
Definition BPF_AND : Z := 0x54.      (* BPF_ALU | BPF_AND | BPF_K *)
Definition BPF_JEQ : Z := 0x15.      (* BPF_JMP | BPF_JEQ | BPF_K *)
Definition BPF_JGE : Z := 0x35.      (* BPF_JMP | BPF_JGE | BPF_K *)
Definition BPF_RET : Z := 0x06.      (* BPF_RET | BPF_K *)
(** All jumps go forward: [skip] instructions are passed over. [None] is a
    program the kernel refuses. *)
Fixpoint run (d : seccomp_data) (p : list sock_filter) (skip : nat) (A : Z) : option Z :=
  match p with
  | [] => None
  | i :: p =>
      match skip with
      | S skip => run d p skip A
      | O =>
          if code i =? BPF_LD_ABS then run d p 0 (word d (k i))
          else if code i =? BPF_AND then run d p 0 (Z.land A (k i))
          else if code i =? BPF_JEQ then run d p (if A =? k i then jt i else jf i) A
          else if code i =? BPF_JGE then run d p (if k i <=? A then jt i else jf i) A
          else if code i =? BPF_RET then Some (k i)
          else None
      end
  end.

(** ** The kernel's numbers *)
Definition AUDIT_ARCH_AARCH64 : Z := 0xc00000b7.
Definition SECCOMP_RET_KILL_PROCESS : Z := 0x80000000.
Definition SECCOMP_RET_ERRNO : Z := 0x50000.
Definition SECCOMP_RET_ALLOW : Z := 0x7fff0000.
Definition EPERM : Z := 1.
Definition ENOSYS : Z := 38.
Definition SYS_clone : Z := 220.
Definition SYS_clone3 : Z := 435.
Definition SYS_socket : Z := 198.
Definition SYS_socketpair : Z := 199.
Definition SYS_prctl : Z := 167.
Definition AF_UNIX : Z := 1.
Definition AF_INET : Z := 2.
Definition AF_INET6 : Z := 10.
Definition AF_NETLINK : Z := 16.
Definition SOCK_STREAM : Z := 1.
Definition SOCK_DGRAM : Z := 2.
Definition SOCK_NONBLOCK : Z := 0x800.
Definition SOCK_CLOEXEC : Z := 0x80000.
Definition PR_GET_DUMPABLE : Z := 3.
Definition PR_SET_DUMPABLE : Z := 4.
Definition PR_GET_PDEATHSIG : Z := 2.
Definition PR_SET_NAME : Z := 15.
Definition PR_GET_NAME : Z := 16.
Definition PR_GET_SECCOMP : Z := 21.
Definition PR_CAPBSET_READ : Z := 23.
Definition PR_SET_TIMERSLACK : Z := 29.
Definition PR_GET_TIMERSLACK : Z := 30.
Definition PR_SET_NO_NEW_PRIVS : Z := 38.
Definition PR_GET_NO_NEW_PRIVS : Z := 39.

(** ** The program *)
Definition stmt (code k : Z) : sock_filter := MkFilter code 0 0 k.
Definition jump (code k : Z) (yes no : nat) : sock_filter := MkFilter code yes no k.
Definition load (offset : Z) : sock_filter := stmt BPF_LD_ABS offset.
Definition ret (action : Z) : sock_filter := stmt BPF_RET action.
Definition denied : Z := Z.lor SECCOMP_RET_ERRNO EPERM.
(** Offsets of the fields of seccomp_data. *)
Definition off_arch : Z := 4.
Definition off_arg (i : Z) : Z := 16 + 8 * i.
(** The offset over the body is computed modulo 256. *)
Definition special (nr : Z) (body : list sock_filter) : list sock_filter :=
  jump BPF_JEQ nr 0 (length body mod 256)%nat :: body.
Definition clone_allowed : Z :=
  Z.lor 0xff (Z.lor 0x100 (Z.lor 0x200 (Z.lor 0x400 (Z.lor 0x800 (Z.lor 0x4000 (Z.lor 0x10000 (Z.lor 0x40000
    (Z.lor 0x80000 (Z.lor 0x100000 (Z.lor 0x200000 (Z.lor 0x400000 0x1000000))))))))))).
(** ~v for a 32-bit value. *)
Definition not32 (v : Z) : Z := 2 ^ 32 - 1 - v.
Definition clone_body : list sock_filter :=
  [load (off_arg 0 + 4); jump BPF_JEQ 0 1 0; ret denied; load (off_arg 0);
   stmt BPF_AND (not32 clone_allowed); jump BPF_JEQ 0 1 0; ret denied; ret SECCOMP_RET_ALLOW].
Definition socket_body : list sock_filter :=
  [load (off_arg 0);
   jump BPF_JEQ AF_UNIX 0 5;
   load (off_arg 1); stmt BPF_AND (not32 (Z.lor SOCK_CLOEXEC SOCK_NONBLOCK));
   jump BPF_JEQ SOCK_STREAM 0 1; ret SECCOMP_RET_ALLOW; ret denied;
   jump BPF_JEQ AF_NETLINK 0 1; ret SECCOMP_RET_ALLOW;
   jump BPF_JEQ AF_INET 1 0; jump BPF_JEQ AF_INET6 0 4;
   load (off_arg 1); stmt BPF_AND (not32 (Z.lor SOCK_CLOEXEC SOCK_NONBLOCK));
   jump BPF_JEQ SOCK_STREAM 2 0; jump BPF_JEQ SOCK_DGRAM 1 0; ret denied; ret SECCOMP_RET_ALLOW].
Definition socketpair_body : list sock_filter :=
  [load (off_arg 0); jump BPF_JEQ AF_UNIX 1 0; ret denied; ret SECCOMP_RET_ALLOW].
(** for (int option : allowed) { jump(..., option, 0, 1); ret(ALLOW); } *)
Definition allow_each (numbers : list Z) : list sock_filter :=
  concat (map (fun n => [jump BPF_JEQ n 0 1; ret SECCOMP_RET_ALLOW]) numbers).
Definition prctl_allowed : list Z :=
  [PR_GET_NO_NEW_PRIVS; PR_GET_SECCOMP; PR_GET_DUMPABLE; PR_GET_NAME; PR_SET_NAME; PR_GET_PDEATHSIG;
   PR_GET_TIMERSLACK; PR_SET_TIMERSLACK].
Definition prctl_body : list sock_filter :=
  [load (off_arg 0); jump BPF_JEQ PR_CAPBSET_READ 0 7;
   load (off_arg 1 + 4); jump BPF_JEQ 0 1 0; ret denied; load (off_arg 1); jump BPF_JGE 38 1 0;
   ret SECCOMP_RET_ALLOW; ret SECCOMP_RET_ERRNO; load (off_arg 0)] ++
  allow_each prctl_allowed ++
  [jump BPF_JEQ PR_SET_DUMPABLE 0 4; load (off_arg 1); jump BPF_JEQ 0 0 1; ret SECCOMP_RET_ALLOW; ret denied;
   jump BPF_JEQ PR_SET_NO_NEW_PRIVS 0 4; load (off_arg 1); jump BPF_JEQ 1 0 1; ret SECCOMP_RET_ALLOW; ret denied;
   ret denied].
(** The second list named [allowed], line by line. *)
Definition allowed : list Z :=
  [63; 64; 65; 66; 67; 68;                       (* read write readv writev pread64 pwrite64 *)
   56; 57; 62; 80; 79; 44;                       (* openat close lseek fstat newfstatat fstatfs *)
   43; 48; 78; 61; 25; 29;                       (* statfs faccessat readlinkat getdents64 fcntl ioctl *)
   23; 24; 59; 46; 47; 223;                      (* dup dup3 pipe2 ftruncate fallocate fadvise64 *)
   82; 83; 34; 35; 38;                           (* fsync fdatasync mkdirat unlinkat renameat *)
   37; 36; 52; 53; 166;                          (* linkat symlinkat fchmod fchmodat umask *)
   88; 49; 50; 17;                               (* utimensat chdir fchdir getcwd *)
   222; 226; 215; 216; 233; 214;                 (* mmap mprotect munmap mremap madvise brk *)
   227; 228; 229; 279;                           (* msync mlock munlock memfd_create *)
   134; 135; 139; 132;                           (* rt_sigaction rt_sigprocmask rt_sigreturn sigaltstack *)
   133; 137; 128;                                (* rt_sigsuspend rt_sigtimedwait restart_syscall *)
   172; 173; 178; 174; 175; 176;                 (* getpid getppid gettid getuid geteuid getgid *)
   177; 148; 150; 158; 155;                      (* getegid getresuid getresgid getgroups getpgid *)
   156; 160; 179; 278; 168; 90;                  (* getsid uname sysinfo getrandom getcpu capget *)
   98; 96; 99; 100;                              (* futex set_tid_address set_robust_list get_robust_list *)
   124; 123; 122; 119;                           (* sched_yield sched_getaffinity sched_setaffinity sched_setscheduler *)
   121; 120; 125;                                (* sched_getparam sched_getscheduler sched_get_priority_max *)
   126; 141; 140;                                (* sched_get_priority_min getpriority setpriority *)
   113; 114; 169; 101;                           (* clock_gettime clock_getres gettimeofday nanosleep *)
   115; 165; 163; 261;                           (* clock_nanosleep getrusage getrlimit prlimit64 *)
   107; 110; 108; 111;                           (* timer_create timer_settime timer_gettime timer_delete *)
   85; 86; 87;                                   (* timerfd_create timerfd_settime timerfd_gettime *)
   19; 20; 21; 22;                               (* eventfd2 epoll_create1 epoll_ctl epoll_pwait *)
   73; 72; 74;                                   (* ppoll pselect6 signalfd4 *)
   200; 203; 206; 207; 211; 212;                 (* bind connect sendto recvfrom sendmsg recvmsg *)
   269; 243; 210; 209; 208;                      (* sendmmsg recvmmsg shutdown getsockopt setsockopt *)
   204; 205;                                     (* getsockname getpeername *)
   221; 260; 95; 93; 94;                         (* execve wait4 waitid exit exit_group *)
   291; 439; 276; 293; 283; 441].                (* statx faccessat2 renameat2 rseq membarrier epoll_pwait2 *)
Definition signals : list Z := [129; 131; 130].  (* kill tgkill tkill *)
Definition Policy : list sock_filter :=
  [load off_arch; jump BPF_JEQ AUDIT_ARCH_AARCH64 1 0; ret SECCOMP_RET_KILL_PROCESS; load 0] ++
  special SYS_clone clone_body ++
  special SYS_clone3 [ret (Z.lor SECCOMP_RET_ERRNO ENOSYS)] ++
  special SYS_socket socket_body ++
  special SYS_socketpair socketpair_body ++
  special SYS_prctl prctl_body ++
  allow_each allowed ++ allow_each signals ++ [ret denied].

(** ** What the policy means *)
Definition clone_decision (flags : Z) : Z :=
  if (high flags =? 0) && (Z.land (low flags) (not32 clone_allowed) =? 0) then SECCOMP_RET_ALLOW else denied.
(** The type of a socket without its two flag bits. *)
Definition plain_type (type : Z) : Z := Z.land (low type) (not32 (Z.lor SOCK_CLOEXEC SOCK_NONBLOCK)).
Definition socket_decision (family type : Z) : Z :=
  let family := low family in
  if (family =? AF_UNIX) && (plain_type type =? SOCK_STREAM) || (family =? AF_NETLINK) ||
     ((family =? AF_INET) || (family =? AF_INET6)) && ((plain_type type =? SOCK_STREAM) || (plain_type type =? SOCK_DGRAM))
  then SECCOMP_RET_ALLOW else denied.
Definition prctl_decision (option value : Z) : Z :=
  let option := low option in
  if option =? PR_CAPBSET_READ then
    if negb (high value =? 0) then denied
    else if 38 <=? low value then SECCOMP_RET_ERRNO else SECCOMP_RET_ALLOW
  else if existsb (Z.eqb option) prctl_allowed || (option =? PR_SET_DUMPABLE) && (low value =? 0) ||
          (option =? PR_SET_NO_NEW_PRIVS) && (low value =? 1)
  then SECCOMP_RET_ALLOW else denied.
Definition decision (d : seccomp_data) : Z :=
  let n := low (nr d) in
  if negb (low (arch d) =? AUDIT_ARCH_AARCH64) then SECCOMP_RET_KILL_PROCESS
  else if n =? SYS_clone then clone_decision (arg d 0)
  else if n =? SYS_clone3 then Z.lor SECCOMP_RET_ERRNO ENOSYS
  else if n =? SYS_socket then socket_decision (arg d 0) (arg d 1)
  else if n =? SYS_socketpair then if low (arg d 0) =? AF_UNIX then SECCOMP_RET_ALLOW else denied
  else if n =? SYS_prctl then prctl_decision (arg d 0) (arg d 1)
  else if existsb (Z.eqb n) (allowed ++ signals) then SECCOMP_RET_ALLOW else denied.

(** The kernel's check of a filter (bpf_check_classic): every jump lands inside
    the program, every word loaded is one of seccomp_data, the last instruction
    returns. *)
Fixpoint jumps_inside (p : list sock_filter) : bool :=
  match p with
  | [] => true
  | i :: p =>
      (if (code i =? BPF_JEQ) || (code i =? BPF_JGE)
       then (jt i <? length p)%nat && (jf i <? length p)%nat && (Nat.max (jt i) (jf i) <? 256)%nat
       else if code i =? BPF_LD_ABS then (k i mod 4 =? 0) && (0 <=? k i) && (k i <? 64)
       else (code i =? BPF_AND) || (code i =? BPF_RET)) && jumps_inside p
  end.
Definition checked (p : list sock_filter) : bool :=
  (length p <=? 4096)%nat && jumps_inside p && match last p with Some i => code i =? BPF_RET | None => false end.
(** What the source lists as "deliberately absent". *)
Definition absent : list Z :=
  [40; 51; 268; 97;                              (* mount chroot setns unshare *)
   117; 270; 271;                                (* ptrace process_vm_readv process_vm_writev *)
   424; 434; 438;                                (* pidfd_send_signal pidfd_open pidfd_getfd *)
   280; 241; 217; 218; 219;                      (* bpf perf_event_open add_key request_key keyctl *)
   144; 146; 143; 145; 147; 149; 151; 152; 159; 91;  (* set*id, setgroups, capset *)
   201; 202; 242; 157; 154; 39; 41;              (* listen accept accept4 setsid setpgid umount2 pivot_root *)
   33; 105; 273; 142; 104; 277].                 (* mknodat init_module finit_module reboot kexec_load seccomp *)
(** The seven namespace bits of clone, CLONE_PARENT, CLONE_PTRACE, CLONE_UNTRACED, CLONE_IO. *)
Definition clone_refused : list Z := [17; 25; 26; 27; 28; 29; 30; 15; 13; 23; 31].

Lemma run_skip d a rest A : run d (a ++ rest) (length a) A = run d rest 0 A.
Proof. by induction a. Qed.
Lemma run_special d nr body rest A : (length body < 256)%nat ->
  run d (special nr body ++ rest) 0 A = if A =? nr then run d (body ++ rest) 0 A else run d rest 0 A.
Proof.
  intros Hl. unfold special. rewrite Nat.mod_small by done. cbn -[Z.eqb]. destruct (A =? nr); [done|]. apply run_skip.
Qed.
Lemma run_allow_each d numbers rest A :
  run d (allow_each numbers ++ rest) 0 A =
  if existsb (Z.eqb A) numbers then Some SECCOMP_RET_ALLOW else run d rest 0 A.
Proof.
  induction numbers as [|n numbers IH]; [done|]. unfold allow_each in *. cbn [map concat].
  rewrite <- app_assoc. cbn -[Z.eqb]. destruct (A =? n); [done|]. exact IH.
Qed.
(** One instruction of the machine at a concrete opcode. *)
Lemma run_load d o p A : run d (load o :: p) 0 A = run d p 0 (word d o).
Proof. done. Qed.
Lemma run_and d m p A : run d (stmt BPF_AND m :: p) 0 A = run d p 0 (Z.land A m).
Proof. done. Qed.
Lemma run_jeq d n yes no p A : run d (jump BPF_JEQ n yes no :: p) 0 A = run d p (if A =? n then yes else no) A.
Proof. done. Qed.
Lemma run_jge d n yes no p A : run d (jump BPF_JGE n yes no :: p) 0 A = run d p (if n <=? A then yes else no) A.
Proof. done. Qed.
Lemma run_ret d a p A : run d (ret a :: p) 0 A = Some a.
Proof. done. Qed.
Lemma run_over d i p n A : run d (i :: p) (S n) A = run d p n A.
Proof. done. Qed.
Lemma word_arg d : word d (off_arg 0) = low (arg d 0) /\ word d (off_arg 0 + 4) = high (arg d 0) /\
  word d (off_arg 1) = low (arg d 1) /\ word d (off_arg 1 + 4) = high (arg d 1) /\
  word d off_arch = low (arch d) /\ word d 0 = low (nr d).
Proof. done. Qed.
(** Runs straight-line code, a jump at a time. *)
Ltac bpf := repeat first
  [ rewrite run_load | rewrite run_and | rewrite run_ret | rewrite run_over
  | rewrite run_jeq; match goal with |- context [run _ _ (if ?c then _ else _) _] => destruct c eqn:? end
  | rewrite run_jge; match goal with |- context [run _ _ (if ?c then _ else _) _] => destruct c eqn:? end ].
Lemma run_clone d rest A : run d (clone_body ++ rest) 0 A = Some (clone_decision (arg d 0)).
Proof.
  unfold clone_body, clone_decision. cbn [app]. destruct (word_arg d) as (W0 & W1 & _).
  bpf; rewrite ?W0, ?W1 in *; repeat match goal with H : (_ =? _) = _ |- _ => rewrite H; clear H end; done.
Qed.
Ltac bools := repeat match goal with H : (_ =? _) = _ |- _ => rewrite ?H in *; clear H
  | H : (_ <=? _) = _ |- _ => rewrite ?H in *; clear H end.
Lemma run_socket d rest A : run d (socket_body ++ rest) 0 A = Some (socket_decision (arg d 0) (arg d 1)).
Proof.
  unfold socket_body, socket_decision, plain_type. cbn [app]. destruct (word_arg d) as (W0 & W1 & W2 & W3 & _).
  bpf; rewrite ?W0, ?W1, ?W2, ?W3 in *;
    try match goal with H : (low (arg d 0) =? _) = true |- _ => apply Z.eqb_eq in H; rewrite H end; bools; done.
Qed.
Lemma run_socketpair d rest A : run d (socketpair_body ++ rest) 0 A =
  Some (if low (arg d 0) =? AF_UNIX then SECCOMP_RET_ALLOW else denied).
Proof.
  unfold socketpair_body. cbn [app]. destruct (word_arg d) as (W0 & _). bpf; rewrite ?W0 in *; bools; done.
Qed.
Lemma run_prctl d rest A : run d (prctl_body ++ rest) 0 A = Some (prctl_decision (arg d 0) (arg d 1)).
Proof.
  unfold prctl_body, prctl_decision. rewrite <- !app_assoc. cbn [app]. destruct (word_arg d) as (W0 & W1 & W2 & W3 & _).
  bpf; rewrite ?W0, ?W1, ?W2, ?W3 in *; bools; try done.
  rewrite run_allow_each. destruct (existsb (Z.eqb (low (arg d 0))) prctl_allowed); [done|].
  bpf; rewrite ?W0, ?W2 in *;
    try match goal with H : (low (arg d 0) =? _) = true |- _ => apply Z.eqb_eq in H; rewrite H end; bools; done.
Qed.
Lemma policy_decision d : run d Policy 0 0 = Some (decision d).
Proof.
  unfold Policy, decision. destruct (word_arg d) as (_ & _ & _ & _ & W4 & W5). cbn [app]. bpf; rewrite W4 in *; bools; [|done].
  rewrite W5. cbn [negb]. rewrite !run_special by (vm_compute; lia).
  rewrite run_clone, run_socket, run_socketpair, run_prctl, !run_allow_each, run_ret, existsb_app.
  repeat match goal with |- context [if low (nr d) =? ?n then _ else _] => destruct (low (nr d) =? n); [done|] end.
  by destruct (existsb _ allowed), (existsb _ signals).
Qed.

(** C10: On every system call the filter the browser's process tree runs under
    answers what the policy says: a foreign architecture is killed, clone is
    allowed only without high flags and within the listed bits, clone3 is
    ENOSYS, socket, socketpair and prctl follow their own rules, the listed
    calls and the three signal calls are allowed and any other number is EPERM. *)
Theorem policy_exact d : run d Policy 0 0 = Some (decision d).
Proof. apply policy_decision. Qed.

Lemma clone_no_bit flags b : Z.testbit (not32 clone_allowed) b = true -> 0 <= b < 32 ->
  clone_decision flags = SECCOMP_RET_ALLOW -> Z.testbit flags b = false.
Proof.
  intros Hb Hr. unfold clone_decision. destruct (_ && _) eqn:E; [|done]. intros _.
  apply andb_true_iff in E as [_ E%Z.eqb_eq]. unfold low in E.
  assert (Ht : Z.testbit (Z.land (flags mod 2 ^ 32) (not32 clone_allowed)) b = false) by by rewrite E, Z.bits_0.
  by rewrite Z.land_spec, Hb, andb_true_r, Z.mod_pow2_bits_low in Ht by lia.
Qed.
Lemma clone_high flags : clone_decision flags = SECCOMP_RET_ALLOW -> high flags = 0.
Proof. unfold clone_decision. destruct (_ && _) eqn:E; [|done]. intros _. by apply andb_true_iff in E as [E%Z.eqb_eq _]. Qed.
Lemma socket_allowed family type : socket_decision family type = SECCOMP_RET_ALLOW ->
  low family = AF_NETLINK \/ low family = AF_UNIX /\ plain_type type = SOCK_STREAM \/
  (low family = AF_INET \/ low family = AF_INET6) /\ (plain_type type = SOCK_STREAM \/ plain_type type = SOCK_DGRAM).
Proof.
  unfold socket_decision. destruct (_ || _) eqn:E; [|done]. intros _.
  rewrite !orb_true_iff, !andb_true_iff, !orb_true_iff, !Z.eqb_eq in E. tauto.
Qed.
Lemma absent_denied n : n ∈ absent ->
  (n ∉ [SYS_clone; SYS_clone3; SYS_socket; SYS_socketpair; SYS_prctl]) /\ existsb (Z.eqb n) (allowed ++ signals) = false.
Proof.
  assert (Hall : forallb (fun n => negb (existsb (Z.eqb n) [SYS_clone; SYS_clone3; SYS_socket; SYS_socketpair; SYS_prctl]) &&
    negb (existsb (Z.eqb n) (allowed ++ signals))) absent = true) by by vm_compute.
  rewrite forallb_forall in Hall. intros Hn%list_elem_of_In%Hall.
  apply andb_true_iff in Hn as [H1%negb_true_iff H2%negb_true_iff]. split; [|done].
  intros Hin%list_elem_of_In. assert (existsb (Z.eqb n) [SYS_clone; SYS_clone3; SYS_socket; SYS_socketpair; SYS_prctl] = true); [|congruence].
  apply existsb_exists. exists n. split; [done|apply Z.eqb_refl].
Qed.
(** The filter is one the kernel loads, and what it lets through is
    confined: the call is made under AArch64, it is none of those the source
    lists as deliberately absent (mounts and namespaces, tracing, pidfds, bpf,
    perf, keyrings, credential changes, listening, sessions, modules), a clone
    opens no namespace and asks for no tracing or foreign parent, and a socket
    is a stream, an internet datagram or a netlink one. *)
Theorem policy_confines d :
  run d Policy 0 0 = Some SECCOMP_RET_ALLOW ->
  checked Policy = true /\ low (arch d) = AUDIT_ARCH_AARCH64 /\ (low (nr d) ∉ absent) /\
  (low (nr d) = SYS_clone -> high (arg d 0) = 0 /\ Forall (fun b => Z.testbit (arg d 0) b = false) clone_refused) /\
  (low (nr d) = SYS_socket ->
   low (arg d 0) = AF_NETLINK \/ low (arg d 0) = AF_UNIX /\ plain_type (arg d 1) = SOCK_STREAM \/
   (low (arg d 0) = AF_INET \/ low (arg d 0) = AF_INET6) /\
   (plain_type (arg d 1) = SOCK_STREAM \/ plain_type (arg d 1) = SOCK_DGRAM)).
Proof.
  rewrite policy_decision. intros [= Hd]. unfold decision in Hd.
  destruct (low (arch d) =? AUDIT_ARCH_AARCH64) eqn:Ea; cbn [negb] in Hd; [apply Z.eqb_eq in Ea|done].
  split; [by vm_compute|]. split; [done|]. split_and!.
  - intros [Hs Hl]%absent_denied. rewrite Hl in Hd.
    repeat match type of Hd with context [low (nr d) =? ?n] =>
      destruct (Z.eqb_spec (low (nr d)) n) as [E|_]; [apply Hs; rewrite E; apply list_elem_of_In; simpl; tauto|] end. done.
  - intros En. rewrite En in Hd. change (SYS_clone =? SYS_clone) with true in Hd. cbv iota in Hd.
    split; [by apply clone_high|].
    unfold clone_refused. repeat constructor; (eapply clone_no_bit; [by vm_compute|lia|done]).
  - intros En. rewrite En in Hd. apply socket_allowed, Hd.
Qed.

(** A thread of the browser, and an attempt to enter a new user namespace. *)
Definition thread_clone : seccomp_data := MkData SYS_clone AUDIT_ARCH_AARCH64 0x7f00 [0x3d0f00; 0; 0; 0; 0; 0].
Definition namespace_clone : seccomp_data := MkData SYS_clone AUDIT_ARCH_AARCH64 0x7f00 [0x10000011; 0; 0; 0; 0; 0].
Example namespace_refused : run namespace_clone Policy 0 0 = Some denied.
Proof. by vm_compute. Qed.
Lemma policy_confines_witness : run thread_clone Policy 0 0 = Some SECCOMP_RET_ALLOW /\ (low (nr thread_clone) ∉ absent).
Proof.
  assert (H : run thread_clone Policy 0 0 = Some SECCOMP_RET_ALLOW) by by vm_compute.
  split; [exact H|]. destruct (policy_confines thread_clone H) as (_ & _ & Hn & _). exact Hn.
Defined.
