(* ===== verification/LockSecurity.v ===== *)
(** aeraui/features/security/lock_security.cpp: the credential of the screen
    lock, its file and its rate limit.

    The private directory is a value ([Dir]); the answers of the kernel to each
    call are an argument of the operation, and [history] keeps every state the
    disk passed through, so that a crash between two calls can be spoken of. A
    file is [n_synced] when its bytes are on the medium. scrypt and the random
    source are not part of the repository: the first is the class [Scrypt], the
    second an answer. *)
From stdpp Require Import base list strings gmap.
From Stdlib Require Import ZArith Lia Ascii.
From S2P Require Import Prelude CxxString Kernel.

(** EVP_PBE_scrypt(secret, salt, N, r, p, max_mem, key length). *)
Class Scrypt := { EVP_PBE_scrypt : list Z -> list Z -> Z -> Z -> Z -> Z -> Z -> option (list Z) }.
Class ScryptLaws `(S : Scrypt) : Prop := {
  scrypt_key secret salt N r p mem n key :
    EVP_PBE_scrypt secret salt N r p mem n = Some key -> blen key = n /\ bytes_ok key
}.

(** ** The directory *)
Record Node := MkNode { n_regular : bool; n_links : Z; n_uid : Z; n_mode : Z; n_bytes : list Z; n_synced : bool }.
Record Dir := MkDir { d_uid : Z; d_mode : Z; d_files : gmap string Node }.
Record Disk := MkDisk { dir_now : option Dir; history : list (option Dir) }.
Definition put (d : Dir) (disk : Disk) : Disk := MkDisk (Some d) (Some d :: history disk).
Definition with_files (d : Dir) (f : gmap string Node) : Dir := MkDir (d_uid d) (d_mode d) f.

(** ** Data *)
Inductive Kind := KNone | Pin | Password.
#[global] Instance Kind_eq_dec : EqDecision Kind.
Proof. solve_decision. Defined.
Record Lock := MkLock {                 (* Store::Record *)
  lk_exists : bool; lk_valid : bool; lk_fingerprint : bool; lk_kind : Kind;
  lk_salt : list Z; lk_hash : list Z; lk_error : string }.
Definition zeros32 : list Z := replicate 32 0.
Definition no_lock : Lock := MkLock false false false KNone zeros32 zeros32 "".
Record Status := MkStatus {
  st_available : bool; st_configured : bool; st_valid : bool; st_fingerprint : bool; st_kind : Kind;
  st_retry_seconds : Z; st_error : string }.
Record Result := MkResult { ok : bool; error : string }.
Definition fine : Result := MkResult true "".
Definition refused (message : string) : Result := MkResult false message.
Record Rate := MkRate { failures_ : Z; retry_at_ : Z }.
Record Store := MkStore { disk : Disk; rate : Rate }.

Definition kFile : string := "lockscreen.conf".
Definition Hex (bs : list Z) : string := hex_bytes bs.
Definition digit (c : ascii) : Z :=
  let n := byte_of c in
  if (48 <=? n) && (n <=? 57) then n - 48 else if (97 <=? n) && (n <=? 102) then n - 97 + 10 else -1.
Fixpoint unhex_pairs (s : string) : option (list Z) :=
  match s with
  | EmptyString => Some []
  | String a (String b s) =>
      if (digit a <? 0) || (digit b <? 0) then None
      else rest ← unhex_pairs s; Some (u8 (Z.lor (Z.shiftl (digit a) 4) (digit b)) :: rest)
  | _ => None
  end.
Definition Unhex (s : string) (size : nat) : option (list Z) :=
  if (String.length s =? 2 * size)%nat then unhex_pairs s else None.
Definition plain_char (c : ascii) : bool := negb ((byte_of c <? 32) || (byte_of c =? 127)).
Definition ValidSecret (kind : Kind) (value : string) : bool :=
  match kind with
  | Pin => (4 <=? slen value) && (slen value <=? 16) && all_chars is_digit value
  | Password => (6 <=? slen value) && (slen value <=? 128) && all_chars plain_char value
  | KNone => false
  end.
Definition lock_text (r : Lock) : string :=
  ("AERA_LOCK_1 " ++ (match lk_kind r with Pin => "pin" | _ => "password" end) ++ " " ++
   (if lk_fingerprint r then "1" else "0") ++ " " ++ Hex (lk_salt r) ++ " " ++ Hex (lk_hash r) ++ newline)%string.

Section Store_.
Context `{Scrypt} (euid : Z).

Definition Derive (secret : string) (salt : list Z) : option (list Z) :=
  EVP_PBE_scrypt (bytes_of secret) salt 32768 8 3 (64 * 1024 * 1024) 32.

(** ** Reading *)
(** Which calls of Read fail, and the answers to its reads. *)
Record ReadCalls := MkReadCalls {
  rc_open : bool; rc_stat_dir : bool; rc_openat : bool; rc_stat : bool; rc_reads : list Answer }.
Definition failing (message : string) : Lock := MkLock true false false KNone zeros32 zeros32 message.
Definition kInvalid : string := "Invalid lock settings. The screen remains locked.".
(** What the stream operators and the checks after them accept. *)
Definition parse_lock (text : string) : option Lock :=
  '(version, s) ← extract_word text;
  '(kind, s) ← extract_word s;
  '(fingerprint, s) ← extract_int s;
  '(salt, s) ← extract_word s;
  '(hash, s) ← extract_word s;
  if match extract_word s with Some _ => true | None => false end ||
     negb (String.eqb version "AERA_LOCK_1") || (negb (String.eqb kind "pin") && negb (String.eqb kind "password")) ||
     (negb (fingerprint =? 0) && negb (fingerprint =? 1))
  then None
  else
  salt ← Unhex salt 32;
  hash ← Unhex hash 32;
  Some (MkLock true true (fingerprint =? 1) (if String.eqb kind "pin" then Pin else Password) salt hash "").
Definition private (d : Dir) : bool := (d_uid d =? euid) && (Z.land (d_mode d) 63 =? 0).
Definition Read (c : ReadCalls) (dir : option Dir) : Lock :=
  if rc_open c then failing "Lock settings are unavailable."
  else match dir with
  | None => no_lock
  | Some d =>
      if rc_stat_dir c || negb (private d) then failing "Private lock settings have unsafe permissions."
      else if rc_openat c then failing "Lock settings could not be read."
      else match d_files d !! kFile with
      | None => no_lock
      | Some n =>
          if rc_stat c || negb (n_regular n) || negb (n_links n =? 1) || negb (n_uid n =? euid) ||
             negb (Z.land (n_mode n) 63 =? 0) || (blen (n_bytes n) <=? 0) || (1024 <? blen (n_bytes n))
          then failing kInvalid
          else match read_fd (rc_reads c) (n_bytes n) with
          | None => failing "Lock settings could not be read."
          | Some bytes => default (failing kInvalid) (parse_lock (string_of bytes))
          end
      end
  end.

(** ** The rate limit *)
Definition RetrySeconds (r : Rate) (now : Z) : Z :=
  if now <? retry_at_ r then u32 (u64 (retry_at_ r - now + 999) / 1000) else 0.
Definition delay (failures : Z) : Z :=
  if failures <? 5 then 1000 else Z.min 300000 (u64 (Z.shiftl 30000 (Z.min 4 (u32 (failures - 5) / 5)))).
Definition Failed (r : Rate) (now : Z) : Rate :=
  let failures := u32 (failures_ r + 1) in MkRate failures (u64 (now + delay failures)).
Definition Inspect (c : ReadCalls) (now : Z) (s : Store) : Status :=
  let record := Read c (dir_now (disk s)) in
  MkStatus (String.eqb (lk_error record) "") (lk_exists record) (lk_valid record)
    (lk_valid record && lk_fingerprint record) (lk_kind record) (RetrySeconds (rate s) now) (lk_error record).
Definition kIncorrect : string := "Incorrect PIN or password.".
(** [t1] is the time RetrySeconds reads, [t2] the one Failed reads. *)
Definition Check (t1 t2 : Z) (record : Lock) (value : string) (r : Rate) : Result * Rate :=
  if negb (RetrySeconds r t1 =? 0) then (refused "Too many attempts. Wait before trying again.", r)
  else if negb (lk_valid record) then
    (refused (if lk_exists record then lk_error record else "No screen-lock credential is configured."), r)
  else if negb (ValidSecret (lk_kind record) value) then (refused kIncorrect, Failed r t2)
  else if match Derive value (lk_salt record) with Some actual => bool_decide (actual = lk_hash record) | None => false end
  then (fine, MkRate 0 0)
  else (refused kIncorrect, Failed r t2).

(** ** Writing *)
(** Which calls of Write fail (the last five: fsync, renameat, unlinkat and
    fsync of the directory), the random bytes, the answers to its writes. *)
Record WriteCalls := MkWriteCalls {
  wc_mkdir : bool; wc_open : bool; wc_stat : bool; wc_nonce : option (list Z); wc_create : bool;
  wc_writes : list Answer; wc_fsync : bool; wc_rename : bool; wc_unlink : bool; wc_dirsync : bool }.
Definition kNotSaved : string := "Could not save the screen lock.".
Definition Write (c : WriteCalls) (record : Lock) (k : Disk) : Result * Disk :=
  if wc_mkdir c then (refused "Could not create private lock settings.", k)
  else
  let '(d, k) := match dir_now k with
    | Some d => (d, k)
    | None => let d := MkDir euid 448 ∅ in (d, put d k)
    end in
  if wc_open c then (refused "Private lock settings are unavailable.", k)
  else if wc_stat c || negb (private d) then (refused "Private lock settings have unsafe permissions.", k)
  else match wc_nonce c with
  | None => (refused "Could not create secure lock settings.", k)
  | Some nonce =>
      let temporary := (".lock-" ++ Hex nonce)%string in
      if wc_create c || bool_decide (is_Some (d_files d !! temporary)) then (refused kNotSaved, k)
      else
      let node bytes synced := MkNode true 1 euid 384 bytes synced in
      let k := put (with_files d (<[temporary := node [] false]> (d_files d))) k in
      let '(written, bytes, _) := write_fd (wc_writes c) [] (bytes_of (lock_text record)) in
      let d1 := with_files d (<[temporary := node bytes false]> (d_files d)) in
      let k := put d1 k in
      let '(d2, k) := if written && negb (wc_fsync c)
        then let d2 := with_files d (<[temporary := node bytes true]> (d_files d)) in (d2, put d2 k) else (d1, k) in
      if written && negb (wc_fsync c) && negb (wc_rename c) then
        let d3 := with_files d (<[kFile := node bytes true]> (delete temporary (d_files d2))) in
        let k := put d3 k in
        if wc_dirsync c then (refused "Could not synchronize the screen lock.", k) else (fine, k)
      else
      let k := if wc_unlink c then k else put (with_files d (delete temporary (d_files d2))) k in
      (refused kNotSaved, k)
  end.

(** ** Requests *)
(** The calls of one request: of Read, of Write, the random salt, and for
    Remove whether open, unlinkat and fsync fail. *)
Record Calls := MkCalls {
  c_read : ReadCalls; c_write : WriteCalls; c_salt : option (list Z);
  c_open : bool; c_unlink : bool; c_sync : bool; c_t1 : Z; c_t2 : Z }.
Definition Verify (c : Calls) (value : string) (s : Store) : Result * Store :=
  let '(r, rate) := Check (c_t1 c) (c_t2 c) (Read (c_read c) (dir_now (disk s))) value (rate s) in
  (r, MkStore (disk s) rate).
Definition Set_ (c : Calls) (current : string) (kind : Kind) (value confirmation : string) (s : Store) : Result * Store :=
  let old := Read (c_read c) (dir_now (disk s)) in
  let '(checked, rate) := if lk_exists old then Check (c_t1 c) (c_t2 c) old current (rate s) else (fine, rate s) in
  let s := MkStore (disk s) rate in
  if negb (ok checked) then (checked, s)
  else if negb (String.eqb value confirmation) then (refused "The PIN or password entries do not match.", s)
  else if negb (ValidSecret kind value) then
    (refused (match kind with Pin => "Use 4 to 16 digits." | _ => "Use 6 to 128 characters." end), s)
  else match (salt ← c_salt c; hash ← Derive value salt; Some (salt, hash)) with
  | None => (refused "Could not prepare the screen-lock credential.", s)
  | Some (salt, hash) =>
      let '(r, k) := Write (c_write c) (MkLock true true false kind salt hash "") (disk s) in
      (r, MkStore k (rate))
  end.
Definition Remove (c : Calls) (current : string) (s : Store) : Result * Store :=
  let '(checked, rate) := Check (c_t1 c) (c_t2 c) (Read (c_read c) (dir_now (disk s))) current (rate s) in
  let s := MkStore (disk s) rate in
  if negb (ok checked) then (checked, s)
  else match dir_now (disk s) with
  | Some d =>
      if c_open c || c_unlink c || bool_decide (d_files d !! kFile = None)
      then (refused "Could not remove the screen lock.", s)
      else
      let s := MkStore (put (with_files d (delete kFile (d_files d))) (disk s)) rate in
      if c_sync c then (refused "Could not remove the screen lock.", s) else (fine, s)
  | None => (refused "Could not remove the screen lock.", s)
  end.
Definition SetFingerprint (c : Calls) (current : string) (enabled : bool) (s : Store) : Result * Store :=
  let record := Read (c_read c) (dir_now (disk s)) in
  let '(checked, rate) := Check (c_t1 c) (c_t2 c) record current (rate s) in
  let s := MkStore (disk s) rate in
  if negb (ok checked) then (checked, s)
  else
  let record := MkLock (lk_exists record) (lk_valid record) enabled (lk_kind record) (lk_salt record) (lk_hash record) (lk_error record) in
  let '(r, k) := Write (c_write c) record (disk s) in
  (r, MkStore k rate).
(** The requests of the user interface, served one at a time (operation_). *)
Inductive Request :=
  | RVerify (value : string)
  | RSet (current : string) (kind : Kind) (value confirmation : string)
  | RRemove (current : string)
  | RFingerprint (current : string) (enabled : bool).
Definition perform (c : Calls) (q : Request) (s : Store) : Result * Store :=
  match q with
  | RVerify value => Verify c value s
  | RSet current kind value confirmation => Set_ c current kind value confirmation s
  | RRemove current => Remove c current s
  | RFingerprint current enabled => SetFingerprint c current enabled s
  end.
Definition perform_all (qs : list (Calls * Request)) (s : Store) : Store :=
  foldl (fun s q => (perform q.1 q.2 s).2) s qs.

(** ** What the requests promise *)
Definition file_of (d : option Dir) : option Node := d ≫= fun d => d_files d !! kFile.
Definition lock_node (r : Lock) : Node := MkNode true 1 euid 384 (bytes_of (lock_text r)) true.
(** The secret opens the lock now. *)
Definition opens (t : Z) (r : Rate) (record : Lock) (secret : string) : Prop :=
  RetrySeconds r t = 0 /\ lk_valid record = true /\ ValidSecret (lk_kind record) secret = true /\
  Derive secret (lk_salt record) = Some (lk_hash record).
(** The secret a request carries as proof. *)
Definition proof_of (q : Request) : string :=
  match q with RVerify v => v | RSet current _ _ _ => current | RRemove current => current | RFingerprint current _ => current end.
(** No call of Read fails. *)
Definition readable (c : ReadCalls) : Prop :=
  rc_open c = false /\ rc_stat_dir c = false /\ rc_openat c = false /\ rc_stat c = false /\ Forall helpful (rc_reads c).
Definition lock_ok (r : Lock) : Prop :=
  lk_exists r = true /\ lk_valid r = true /\ (lk_kind r = Pin \/ lk_kind r = Password) /\ lk_error r = ""%string /\
  bytes_ok (lk_salt r) /\ bytes_ok (lk_hash r) /\ length (lk_salt r) = 32%nat /\ length (lk_hash r) = 32%nat.
(** The waiting time imposed by [n] wrong entries in a row. *)
Fixpoint total_delay (n : nat) : Z :=
  match n with O => 0 | S m => total_delay m + delay (Z.of_nat n) end.
(** Requests at times that do not go back. *)
Fixpoint in_time (t : Z) (qs : list (Calls * Request)) : Prop :=
  match qs with
  | [] => True
  | (c, _) :: qs => t <= c_t1 c /\ c_t1 c <= c_t2 c /\ c_t2 c < 2 ^ 50 /\ in_time (c_t2 c) qs
  end.
(** Does the request have its secret compared, and is it the right one? *)
Definition tried (c : Calls) (q : Request) (s : Store) : option bool :=
  let old := Read (c_read c) (dir_now (disk s)) in
  if (RetrySeconds (rate s) (c_t1 c) =? 0) && lk_valid old
  then Some (ValidSecret (lk_kind old) (proof_of q) && bool_decide (Derive (proof_of q) (lk_salt old) = Some (lk_hash old)))
  else None.
Fixpoint entries (qs : list (Calls * Request)) (s : Store) : list bool :=
  match qs with
  | [] => []
  | (c, q) :: qs =>
      match tried c q s with Some b => [b] | None => [] end ++ entries qs (perform c q s).2
  end.
Definition last_time (t : Z) (qs : list (Calls * Request)) : Z :=
  match last qs with Some (c, _) => c_t2 c | None => t end.
End Store_.

(** ** The file's text *)
Lemma hex_pair_inv b : is_byte b ->
  (digit (hex_char (Z.shiftr b 4)) <? 0) || (digit (hex_char (Z.land b 15)) <? 0) = false /\
  u8 (Z.lor (Z.shiftl (digit (hex_char (Z.shiftr b 4))) 4) (digit (hex_char (Z.land b 15)))) = b.
Proof.
  revert b. apply hex_byte_cases.
  assert (Hall : forallb (fun b => negb ((digit (hex_char (Z.shiftr b 4)) <? 0) || (digit (hex_char (Z.land b 15)) <? 0)) &&
    (u8 (Z.lor (Z.shiftl (digit (hex_char (Z.shiftr b 4))) 4) (digit (hex_char (Z.land b 15)))) =? b)) (seqZ 0 256) = true)
    by by vm_compute.
  rewrite forallb_forall in Hall. intros b Hb%list_elem_of_In%Hall.
  apply andb_true_iff in Hb as [H1%negb_true_iff H2%Z.eqb_eq]. done.
Qed.
Lemma unhex_hex bs : bytes_ok bs -> unhex_pairs (hex_bytes bs) = Some bs.
Proof.
  induction 1 as [|b bs Hb _ IH]; [done|]. cbn [hex_bytes unhex_pairs]. destruct (hex_pair_inv b Hb) as [-> ->].
  by rewrite IH.
Qed.
Lemma Unhex_Hex bs n : bytes_ok bs -> length bs = n -> Unhex (Hex bs) n = Some bs.
Proof. intros Hb <-. unfold Unhex, Hex. by rewrite length_hex_bytes, Nat.eqb_refl, unhex_hex. Qed.
Lemma Hex_nonempty bs : length bs = 32%nat -> hex_bytes bs ≠ ""%string.
Proof. by destruct bs. Qed.
Lemma slen_lock_text r : length (lk_salt r) = 32%nat -> length (lk_hash r) = 32%nat -> 0 < slen (lock_text r) <= 1024.
Proof.
  intros Hs Hh. unfold slen, lock_text, Hex. rewrite !string_length_app, !length_hex_bytes, Hs, Hh.
  destruct (lk_kind r), (lk_fingerprint r); vm_compute; split; congruence || lia.
Qed.
Lemma extract_flag (b : bool) rest : extract_int (String " " ((if b then "1" else "0") ++ " " ++ rest)) =
  Some (if b then 1 else 0, String " " rest).
Proof. by destruct b. Qed.
Lemma parse_lock_text r : lock_ok r -> parse_lock (lock_text r) = Some r.
Proof.
  intros (He & Hv & Hk & Herr & Bs & Bh & Ls & Lh). unfold parse_lock, lock_text, Hex.
  assert (Hw : forall w rest, w ≠ ""%string -> all_chars word_char w = true ->
    extract_word (w ++ " " ++ rest) = Some (w, String " " rest)) by (intros; by apply extract_word_app).
  assert (Hkw : (match lk_kind r with Pin => "pin" | _ => "password" end ≠ "")%string) by by destruct (lk_kind r).
  change ("AERA_LOCK_1 " ++ ?x)%string with ("AERA_LOCK_1" ++ " " ++ x)%string. rewrite (Hw "AERA_LOCK_1"%string) by done. rewrite some_bind.
  cbv beta iota. rewrite extract_word_space, Hw by (done || by destruct (lk_kind r)). rewrite some_bind. cbv beta iota.
  rewrite (extract_flag (lk_fingerprint r) (hex_bytes (lk_salt r) ++ " " ++ hex_bytes (lk_hash r) ++ newline)), some_bind. cbv beta iota.
  rewrite extract_word_space, Hw by (done || apply hex_bytes_word || by apply Hex_nonempty). rewrite some_bind. cbv beta iota.
  rewrite extract_word_space by done. unfold newline.
  rewrite extract_word_app by (done || apply hex_bytes_word || by apply Hex_nonempty). rewrite some_bind. cbv beta iota.
  rewrite (Unhex_Hex (lk_salt r)), (Unhex_Hex (lk_hash r)) by done. rewrite !some_bind.
  destruct r as [e v fp kd sl hs er]. cbn [lk_exists lk_valid lk_fingerprint lk_kind lk_salt lk_hash lk_error] in *. subst e v er.
  by destruct Hk as [-> | ->], fp.
Qed.

Section Facts.
Context `{HS : Scrypt} (euid : Z).

Lemma read_lock c d r : readable c -> lock_ok r -> private euid d = true -> d_files d !! kFile = Some (lock_node euid r) ->
  Read euid c (Some d) = r.
Proof.
  intros (H1 & H2 & H3 & H4 & Hh) Hr Hp Hf. unfold Read. rewrite H1, H2, H3, Hp, Hf. cbn [negb orb].
  rewrite H4. unfold lock_node. cbn [n_regular n_links n_uid n_mode n_bytes]. rewrite (Z.eqb_refl euid). cbn [negb orb].
  pose proof Hr as (_ & _ & _ & _ & _ & _ & Ls & Lh). pose proof (slen_lock_text r Ls Lh).
  rewrite blen_bytes_of. destruct (Z.leb_spec (slen (lock_text r)) 0); [lia|]. destruct (Z.ltb_spec 1024 (slen (lock_text r))); [lia|].
  cbn. rewrite read_fd_helpful, string_of_bytes_of, parse_lock_text by done. done.
Qed.

(** ** Replacing the file *)
(** The states the disk passes through: the lock file is the old one or the
    complete, synchronised new one. *)
Definition replaced (r : Lock) (k k' : Disk) : Prop :=
  exists steps, history k' = steps ++ history k /\
    dir_now k' = match steps with [] => dir_now k | s :: _ => s end /\
    Forall (fun s => file_of s = file_of (dir_now k) \/ file_of s = Some (lock_node euid r)) steps.
Lemma replaced_refl r k : replaced r k k.
Proof. by exists []. Qed.
Lemma replaced_put r k k' d : replaced r k k' ->
  d_files d !! kFile = file_of (dir_now k) \/ d_files d !! kFile = Some (lock_node euid r) ->
  replaced r k (put d k').
Proof. intros (steps & E & _ & Hs) Hd. exists (Some d :: steps). cbn. rewrite E. split; [done|]. split; [done|by constructor]. Qed.
Lemma temporary_not_file nonce : (".lock-" ++ Hex nonce)%string ≠ kFile.
Proof. done. Qed.
Lemma replaced_now r k k' : replaced r k k' ->
  file_of (dir_now k') = file_of (dir_now k) \/ file_of (dir_now k') = Some (lock_node euid r).
Proof. intros (steps & _ & -> & Hs). destruct Hs; [by left|done]. Qed.
(** ... and it is still the old one. *)
Definition steady (r : Lock) (k k' : Disk) : Prop := replaced r k k' /\ file_of (dir_now k') = file_of (dir_now k).
Lemma steady_put r k k' d : steady r k k' -> d_files d !! kFile = file_of (dir_now k) -> steady r k (put d k').
Proof. intros [Hr _] Hd. split; [apply replaced_put; by auto|done]. Qed.
Lemma steady_start r k d k0 :
  match dir_now k with Some d => (d, k) | None => let d := MkDir euid 448 ∅ in (d, put d k) end = (d, k0) ->
  steady r k k0 /\ d_files d !! kFile = file_of (dir_now k).
Proof.
  destruct (dir_now k) as [d'|] eqn:E; intros [= <- <-].
  - split; [split; [apply replaced_refl|done]|done].
  - split; [|done]. apply steady_put; [split; [apply replaced_refl|done]|by rewrite E].
Qed.

(** What a call of Write leaves. *)
Definition saved (c : WriteCalls) (r : Lock) (k : Disk) (x : Result * Disk) : Prop :=
  replaced r k x.2 /\
  (ok x.1 = true -> exists d, dir_now x.2 = Some d /\ private euid d = true /\ d_files d !! kFile = Some (lock_node euid r)) /\
  (ok x.1 = false -> file_of (dir_now x.2) = file_of (dir_now k) \/ wc_dirsync c = true).
Lemma Write_spec c r k : saved c r k (Write euid c r k).
Proof.
  assert (Hst : forall m k0, steady r k k0 -> saved c r k (refused m, k0)).
  { intros m k0 [Hr Hf]. unfold saved. cbn. split; [done|]. split; [done|by left]. }
  unfold Write. destruct (wc_mkdir c); [apply Hst; split; [apply replaced_refl|done]|].
  destruct (match dir_now k with Some d => (d, k) | None => _ end) as [d k0] eqn:Es. apply (steady_start r) in Es as [Hk0 Hd].
  destruct (wc_open c); [by apply Hst|]. destruct (private euid d) eqn:Hp; cbn [negb]; [|rewrite orb_true_r; by apply Hst].
  destruct (wc_stat c); cbn [orb]; [by apply Hst|]. destruct (wc_nonce c) as [nonce|]; [|by apply Hst].
  set (tmp := (".lock-" ++ Hex nonce)%string). assert (Ht : tmp ≠ kFile) by apply temporary_not_file. clearbody tmp.
  destruct (wc_create c || _); [by apply Hst|].
  destruct (write_fd_prefix (wc_writes c) [] (bytes_of (lock_text r))) as (n & _ & Hw).
  destruct (write_fd _ _ _) as [[written bytes] rest]. cbn [fst snd app] in Hw.
  assert (Hin : forall node k', steady r k k' -> steady r k (put (with_files d (<[tmp:=node]> (d_files d))) k')).
  { intros node k1 Hk. apply steady_put; [done|]. cbn. by rewrite lookup_insert_ne. }
  assert (Hout : forall node k1 (b : bool), steady r k k1 ->
    steady r k (if b then k1 else put (with_files d (delete tmp (<[tmp:=node]> (d_files d)))) k1)).
  { intros node k1 [|] Hk; [done|]. apply steady_put; [done|]. cbn. by rewrite lookup_delete_ne, lookup_insert_ne. }
  destruct written; cbn [andb]; [|by apply Hst, Hout, Hin, Hin]. rewrite Hw by done. clear Hw.
  destruct (wc_fsync c); cbn [negb andb]; [by apply Hst, Hout, Hin, Hin|].
  destruct (wc_rename c); cbn [negb]; [by apply Hst, Hout, Hin, Hin, Hin|].
  assert (Hlast : forall k1, steady r k k1 ->
    replaced r k (put (with_files d (<[kFile:=lock_node euid r]> (delete tmp (<[tmp:=lock_node euid r]> (d_files d))))) k1)).
  { intros k1 [Hk _]. apply replaced_put; [done|]. right. cbn. by rewrite lookup_insert_eq. }
  unfold saved. destruct (wc_dirsync c); cbn [fst snd ok]; (split; [by apply Hlast, Hin, Hin, Hin|]); [by split; [|right]|].
  split; [|done]. intros _. eexists. split; [done|]. split; [done|]. cbn. by rewrite lookup_insert_eq.
Qed.

(** ** Checking a secret *)
Lemma Check_cases t1 t2 record v r :
  (Check t1 t2 record v r = (fine, MkRate 0 0) /\ opens t1 r record v) \/
  (ok (Check t1 t2 record v r).1 = false /\ ~ opens t1 r record v /\
   ((Check t1 t2 record v r).2 = r \/ (RetrySeconds r t1 = 0 /\ (Check t1 t2 record v r).2 = Failed r t2))).
Proof.
  unfold Check, opens. destruct (Z.eqb_spec (RetrySeconds r t1) 0) as [E|E]; cbn [negb]; [|right; cbn; by split; [|split; [intros [? _]|left]]].
  destruct (lk_valid record); cbn [negb]; [|right; cbn; split; [done|]; split; [by intros (_ & ? & _)|by left]].
  destruct (ValidSecret (lk_kind record) v); cbn [negb]; [|right; cbn; split; [done|]; split; [by intros (_ & _ & ? & _)|by right]].
  destruct (Derive v (lk_salt record)) as [key|] eqn:Ed; [destruct (bool_decide_reflect (key = lk_hash record)) as [->|Hk]|].
  - by left.
  - right. cbn. split; [done|]. split; [intros (_ & _ & _ & [= ->]); done|by right].
  - right. cbn. split; [done|]. split; [by intros (_ & _ & _ & ?)|by right].
Qed.
Lemma Check_ok t1 t2 record v r : ok (Check t1 t2 record v r).1 = true -> opens t1 r record v.
Proof. destruct (Check_cases t1 t2 record v r) as [[_ ?]|[E _]]; [done|congruence]. Qed.

Lemma unhex_pairs_ok n : forall s bs, String.length s = (2 * n)%nat -> unhex_pairs s = Some bs -> bytes_ok bs /\ length bs = n.
Proof.
  induction n as [|n IH]; intros s bs Hl.
  - destruct s; [|done]. intros [= <-]. by split; [constructor|].
  - destruct s as [|a [|b s]]; [done..|]. cbn in Hl. cbn [unhex_pairs]. destruct (_ || _); [done|].
    intros (rest & E & [= <-])%bind_Some. destruct (IH s rest) as [Hr <-]; [lia|done|]. split; [|done].
    constructor; [|done]. unfold is_byte, u8. apply Z.mod_pos_bound. lia.
Qed.
Lemma Unhex_ok s n bs : Unhex s n = Some bs -> bytes_ok bs /\ length bs = n.
Proof. unfold Unhex. destruct (Nat.eqb_spec (String.length s) (2 * n)); [|done]. by apply unhex_pairs_ok. Qed.
Lemma parse_lock_ok text r : parse_lock text = Some r -> lock_ok r.
Proof.
  unfold parse_lock. intros ([version s1] & _ & H)%bind_Some. cbn in H. apply bind_Some in H as ([kind s2] & _ & H). cbn in H.
  apply bind_Some in H as ([fp s3] & _ & H). cbn in H. apply bind_Some in H as ([sl s4] & _ & H). cbn in H.
  apply bind_Some in H as ([hs s5] & _ & H). cbn in H. destruct (_ || _) in H; [done|].
  apply bind_Some in H as (salt & [Bs Ls]%Unhex_ok & H). apply bind_Some in H as (hash & [Bh Lh]%Unhex_ok & [= <-]).
  unfold lock_ok. cbn. destruct (String.eqb kind "pin"); tauto.
Qed.
Lemma Read_valid c d : lk_valid (Read euid c d) = true -> lock_ok (Read euid c d).
Proof.
  unfold Read. destruct (rc_open c); [done|]. destruct d as [d|]; [|done]. destruct (_ || _); [done|]. destruct (rc_openat c); [done|].
  destruct (d_files d !! kFile); [|done]. destruct (_ || _); [done|]. destruct (read_fd _ _) as [bytes|]; [|done].
  destruct (parse_lock (string_of bytes)) as [r|] eqn:E; [|done]. intros _. by apply parse_lock_ok in E.
Qed.

(** ** Requests *)
(** The states the disk passes through between [k] and [k']. *)
Definition passes (k k' : Disk) (P : option Dir -> Prop) : Prop :=
  exists steps, history k' = steps ++ history k /\ dir_now k' = match steps with [] => dir_now k | s :: _ => s end /\ Forall P steps.
Definition first_lock (q : Request) (old : Lock) : Prop :=
  match q with RSet _ _ _ _ => lk_exists old = false | _ => False end.
Definition whole (q : Request) (d : option Dir) : Prop :=
  (file_of d = None /\ exists current, q = RRemove current) \/ exists r, lock_ok r /\ file_of d = Some (lock_node euid r).
Definition change_ok (c : Calls) (q : Request) (s : Store) (d : option Dir) : Prop :=
  let old := Read euid (c_read c) (dir_now (disk s)) in
  file_of d = file_of (dir_now (disk s)) \/
  ((first_lock q old \/ opens (c_t1 c) (rate s) old (proof_of q)) /\ whole q d).
Lemma passes_same k P : passes k k P.
Proof. by exists []. Qed.
Lemma passes_Write c r k (P : option Dir -> Prop) : lock_ok r ->
  (forall d, file_of d = file_of (dir_now k) -> P d) -> (forall d, file_of d = Some (lock_node euid r) -> P d) ->
  passes k (Write euid c r k).2 P.
Proof.
  intros Hr H1 H2. destruct (Write_spec c r k) as ((steps & E1 & E2 & Hs) & _). exists steps. split; [done|]. split; [done|].
  eapply Forall_impl; [exact Hs|]. intros d [?|?]; by auto.
Qed.
Context `{HL : !ScryptLaws HS}.
Lemma Derive_key v salt key : Derive v salt = Some key -> bytes_ok key /\ length key = 32%nat.
Proof. intros [Hl Hb]%scrypt_key. split; [done|]. unfold blen in Hl. lia. Qed.
Definition salted (c : Calls) : Prop := forall salt, c_salt c = Some salt -> bytes_ok salt /\ length salt = 32%nat.
Lemma new_lock_ok c kind value salt hash : salted c -> ValidSecret kind value = true -> c_salt c = Some salt ->
  Derive value salt = Some hash -> lock_ok (MkLock true true false kind salt hash "").
Proof.
  intros Hs Hv Es [Hb Hl]%Derive_key. destruct (Hs salt Es) as [? ?]. unfold lock_ok. cbn.
  split_and!; try done. destruct kind; [done|by left|by right].
Qed.
Lemma Set_passes c current kind v conf s : salted c ->
  passes (disk s) (disk (Set_ euid c current kind v conf s).2) (change_ok c (RSet current kind v conf) s).
Proof.
  intros Hs. unfold change_ok, Set_. set (old := Read euid (c_read c) (dir_now (disk s))). set (checked := if lk_exists old then _ else _).
  assert (Hc : ok checked.1 = true -> lk_exists old = false \/ opens (c_t1 c) (rate s) old current).
  { subst checked. destruct (lk_exists old); [right; by eapply Check_ok|by left]. }
  destruct checked as [checked r]. cbn [fst] in Hc.
  destruct (ok checked); cbn [negb]; [|apply passes_same]. specialize (Hc eq_refl).
  destruct (String.eqb v conf); cbn [negb]; [|apply passes_same].
  destruct (ValidSecret kind v) eqn:Hv; cbn [negb]; [|apply passes_same].
  destruct (c_salt c) as [salt|] eqn:Es; [rewrite some_bind|apply passes_same].
  destruct (Derive v salt) as [hash|] eqn:Ed; [rewrite some_bind|apply passes_same]. cbn [disk].
  pose proof (new_lock_ok c kind v salt hash Hs Hv Es Ed) as Hr.
  rewrite (surjective_pairing (Write euid (c_write c) _ _)). cbn [snd disk].
  apply passes_Write; [done|by left|]. intros d Hd. right. split; [done|]. right. by eexists.
Qed.
Lemma Remove_passes c current s :
  passes (disk s) (disk (Remove euid c current s).2) (change_ok c (RRemove current) s).
Proof.
  unfold change_ok, Remove. set (old := Read euid (c_read c) (dir_now (disk s))).
  destruct (Check _ _ old current (rate s)) as [checked r] eqn:Ec. destruct (ok checked) eqn:Eo; cbn [negb]; [|apply passes_same].
  assert (Hc : opens (c_t1 c) (rate s) old current) by (eapply Check_ok; by rewrite Ec). cbn [disk].
  destruct (dir_now (disk s)) as [d|] eqn:Ed; [|apply passes_same]. destruct (_ || _); [apply passes_same|].
  destruct (c_sync c); (eexists [_]; split; [done|]; split; [done|]; constructor; [|constructor]); right;
    (split; [by right|]; left; split; [cbn; by rewrite lookup_delete_eq|by exists current]).
Qed.
Lemma SetFingerprint_passes c current enabled s :
  passes (disk s) (disk (SetFingerprint euid c current enabled s).2) (change_ok c (RFingerprint current enabled) s).
Proof.
  unfold change_ok, SetFingerprint. set (old := Read euid (c_read c) (dir_now (disk s))).
  destruct (Check _ _ old current (rate s)) as [checked r] eqn:Ec. destruct (ok checked) eqn:Eo; cbn [negb]; [|apply passes_same].
  assert (Hc : opens (c_t1 c) (rate s) old current) by (eapply Check_ok; by rewrite Ec).
  assert (Hr : lock_ok old) by (apply Read_valid, Hc).
  rewrite (surjective_pairing (Write euid (c_write c) _ _)). cbn [snd disk].
  apply passes_Write; [exact Hr|by left|]. intros d Hd. right. split; [by right|]. right. eexists. split; [|exact Hd]. exact Hr.
Qed.
Lemma perform_passes c q s : salted c -> passes (disk s) (disk (perform euid c q s).2) (change_ok c q s).
Proof.
  intros Hs. destruct q; [|by apply Set_passes|apply Remove_passes|apply SetFingerprint_passes].
  cbn [perform]. unfold Verify. destruct (Check _ _ _ _ _). apply passes_same.
Qed.

(** ** The rate limit *)
Lemma delay_range n : 1000 <= delay n <= 300000.
Proof.
  unfold delay. destruct (Z.ltb_spec n 5); [lia|]. set (k := Z.min 4 _).
  assert (Hk : 0 <= k <= 4). { subst k. assert (0 <= u32 (n - 5) / 5) by (apply Z.div_pos; [apply u32_range|lia]). lia. }
  assert (k = 0 \/ k = 1 \/ k = 2 \/ k = 3 \/ k = 4) as [-> |[-> |[-> |[-> | ->]]]] by lia; vm_compute; split; congruence.
Qed.
Lemma delay_late n : 25 <= n < 2 ^ 32 -> delay n = 300000.
Proof.
  intros Hn. unfold delay. destruct (Z.ltb_spec n 5); [lia|]. rewrite u32_id by (unfold is_u32; lia).
  rewrite (Z.min_l 4) by (apply Z.div_le_lower_bound; lia). done.
Qed.
Lemma total_delay_nonneg n : 0 <= total_delay n.
Proof. induction n as [|n IH]; [done|]. cbn [total_delay]. pose proof (delay_range (Z.of_nat (S n))). lia. Qed.
Lemma total_delay_lower n : Z.of_nat n < 2 ^ 32 -> 300000 * (Z.of_nat n - 24) <= total_delay n.
Proof.
  induction n as [|n IH]; [done|]. intros Hn. cbn [total_delay]. pose proof (delay_range (Z.of_nat (S n))).
  destruct (Z.le_gt_cases 25 (Z.of_nat (S n))); [rewrite delay_late by lia; lia|]. pose proof (total_delay_nonneg n). lia.
Qed.
Lemma perform_rate c q s : rate (perform euid c q s).2 =
  match tried euid c q s with None => rate s | Some true => MkRate 0 0 | Some false => Failed (rate s) (c_t2 c) end.
Proof.
  unfold tried. set (old := Read euid (c_read c) (dir_now (disk s))).
  assert (Hc : forall v, (Check (c_t1 c) (c_t2 c) old v (rate s)).2 =
    match (if (RetrySeconds (rate s) (c_t1 c) =? 0) && lk_valid old
           then Some (ValidSecret (lk_kind old) v && bool_decide (Derive v (lk_salt old) = Some (lk_hash old))) else None) with
    | None => rate s | Some true => MkRate 0 0 | Some false => Failed (rate s) (c_t2 c) end).
  { intros v. unfold Check. destruct (RetrySeconds (rate s) (c_t1 c) =? 0); cbn [negb andb]; [|done].
    destruct (lk_valid old); cbn [negb]; [|done]. destruct (ValidSecret (lk_kind old) v); cbn [negb andb]; [|done].
    destruct (Derive v (lk_salt old)) as [key|]; [|done].
    destruct (bool_decide_reflect (key = lk_hash old)) as [->|Hk]; [by rewrite bool_decide_eq_true_2|].
    rewrite bool_decide_eq_false_2; [done|congruence]. }
  destruct q as [v|current kind v conf|current|current en]; cbn [perform proof_of].
  - unfold Verify. fold old. rewrite <- Hc. by destruct (Check _ _ _ _ _).
  - unfold Set_. fold old. rewrite <- Hc.
    assert (He : lk_exists old = false -> (Check (c_t1 c) (c_t2 c) old current (rate s)).2 = rate s).
    { intros E. destruct (lk_valid old) eqn:Ev; [by apply Read_valid in Ev as [Ev _]; fold old in Ev; congruence|].
      unfold Check. rewrite Ev. by destruct (RetrySeconds (rate s) (c_t1 c) =? 0). }
    destruct (lk_exists old); [|rewrite He by done; clear Hc He];
      [destruct (Check _ _ _ _ _) as [checked r]; clear|]; cbn [snd];
      repeat (match goal with |- context [if ?b then _ else _] => destruct b; try done end);
      (destruct (salt ← c_salt c; _) as [[sl hs]|]; [|done]); by destruct (Write euid _ _ _).
  - unfold Remove. fold old. rewrite <- Hc. destruct (Check _ _ _ _ _) as [checked r]. cbn [snd].
    destruct (negb (ok checked)); [done|]. cbn [disk]. destruct (dir_now (disk s)); [|done].
    destruct (_ || _); [done|]. by destruct (c_sync c).
  - unfold SetFingerprint. fold old. rewrite <- Hc. destruct (Check _ _ _ _ _) as [checked r]. cbn [snd].
    destruct (negb (ok checked)); [done|]. by destruct (Write euid _ _ _).
Qed.
(** After [n] wrong entries in a row since [t0], the last one at [tl]. *)
Definition paced (t0 t : Z) (n : nat) (r : Rate) : Prop :=
  match n with
  | O => r = MkRate 0 0 /\ t0 <= t
  | S m => exists tl, failures_ r = Z.of_nat n /\ Z.of_nat n < 2 ^ 32 /\ t0 + total_delay m <= tl <= t /\ retry_at_ r = tl + delay (Z.of_nat n)
  end.
Lemma paced_mono t0 t t' n r : t <= t' -> paced t0 t n r -> paced t0 t' n r.
Proof. destruct n; cbn [paced]; intros Ht; [intros [? ?]; split; [done|lia]|intros (tl & ? & ? & ? & ?); exists tl; split_and!; (done || lia)]. Qed.
Lemma retry_passed r t1 : 0 <= retry_at_ r - t1 <= 300000 -> RetrySeconds r t1 = 0 -> retry_at_ r <= t1.
Proof.
  intros Hr. unfold RetrySeconds. destruct (Z.ltb_spec t1 (retry_at_ r)); [|lia].
  rewrite u64_id by (unfold is_u64; lia).
  assert (1 <= (retry_at_ r - t1 + 999) / 1000) by (apply Z.div_le_lower_bound; lia).
  assert ((retry_at_ r - t1 + 999) / 1000 <= 301) by (apply Z.div_le_upper_bound; lia).
  rewrite u32_id by (unfold is_u32; lia). lia.
Qed.
Lemma paced_failed t0 t n r t1 t2 : 0 <= t0 -> paced t0 t n r -> t <= t1 <= t2 -> t2 < 2 ^ 50 -> RetrySeconds r t1 = 0 ->
  paced t0 t2 (S n) (Failed r t2).
Proof.
  intros H0 Hp Ht H50 Hr. pose proof (delay_range (Z.of_nat (S n))).
  assert (Hn : failures_ r = Z.of_nat n /\ t0 + total_delay n <= t1).
  { destruct n as [|m]; cbn [paced] in Hp; [destruct Hp as [-> ?]; cbn; split; [done|lia]|].
    destruct Hp as (tl & Ef & _ & Hd & Er). split; [done|]. cbn [total_delay]. pose proof (delay_range (Z.of_nat (S m))).
    destruct (Z.le_gt_cases (retry_at_ r) t1) as [|Hgt]; [lia|]. apply retry_passed in Hr; lia. }
  destruct Hn as [Ef Hd].
  assert (Hlt : Z.of_nat (S n) < 2 ^ 32).
  { destruct (Z.le_gt_cases (2 ^ 32) (Z.of_nat (S n))) as [Hge|]; [|lia]. exfalso.
    assert (Hm : (Z.to_nat (2 ^ 32 - 1) <= n)%nat) by lia.
    assert (total_delay (Z.to_nat (2 ^ 32 - 1)) <= total_delay n).
    { clear -Hm. induction Hm as [|m Hm IH]; [lia|]. cbn [total_delay]. pose proof (delay_range (Z.of_nat (S m))). lia. }
    pose proof (total_delay_lower (Z.to_nat (2 ^ 32 - 1))). lia. }
  exists t2. unfold Failed. cbn [failures_ retry_at_]. rewrite Ef.
  replace (Z.of_nat n + 1) with (Z.of_nat (S n)) by lia. rewrite u32_id by (unfold is_u32; lia).
  split; [done|]. split; [done|]. split; [lia|]. apply u64_id. pose proof (total_delay_nonneg n). unfold is_u64. lia.
Qed.
Lemma last_time_cons t c q qs : last_time t ((c, q) :: qs) = last_time (c_t2 c) qs.
Proof. unfold last_time. rewrite last_cons. by destruct (last qs) as [[? ?]|]. Qed.
Lemma paced_run t0 qs : 0 <= t0 -> forall s t n, paced t0 t n (rate s) -> in_time t qs -> Forall (fun b => b = false) (entries euid qs s) ->
  paced t0 (last_time t qs) (n + length (entries euid qs s)) (rate (perform_all euid qs s)).
Proof.
  intros H0. induction qs as [|[c q] qs IH]; intros s t n Hp Ht Hw; [cbn; by rewrite Nat.add_0_r|].
  cbn [in_time] in Ht. destruct Ht as (Ht1 & Ht2 & H50 & Ht). rewrite last_time_cons.
  cbn [entries] in *. apply Forall_app in Hw as [Hw1 Hw2]. rewrite length_app, Nat.add_assoc.
  change (perform_all euid ((c, q) :: qs) s) with (perform_all euid qs (perform euid c q s).2).
  apply IH; [|done|done]. rewrite perform_rate. unfold tried in *.
  destruct (Z.eqb_spec (RetrySeconds (rate s) (c_t1 c)) 0) as [Er|]; cbn [andb] in *;
    [|rewrite Nat.add_0_r; by apply (paced_mono t0 t); [lia|]].
  destruct (lk_valid _); [|rewrite Nat.add_0_r; by apply (paced_mono t0 t); [lia|]].
  apply Forall_cons in Hw1 as [-> _]. rewrite Nat.add_1_r. by eapply (paced_failed _ _ _ _ (c_t1 c)).
Qed.
End Facts.

(** C38: guessing the screen-lock secret is slow. For any requests at times
    that do not go back, starting with a clear counter, [n] compared secrets
    that are all wrong take at least the waiting times of the first n - 1: one
    second each up to four, then 30, 60, 120 and 240 seconds for five each, then
    five minutes each; the counter and the deadline never wrap. *)
Theorem lock_guess_rate `{HS : Scrypt} (euid : Z) (qs : list (Calls * Request)) (s : Store) (t0 : Z)
    (Ht0 : 0 <= t0) (Hrate : rate s = MkRate 0 0) (Htime : in_time t0 qs)
    (Hwrong : Forall (fun b => b = false) (entries euid qs s)) :
  let n := length (entries euid qs s) in
  t0 + total_delay (n - 1) <= last_time t0 qs /\ 300000 * (Z.of_nat n - 25) <= last_time t0 qs - t0 /\
  failures_ (rate (perform_all euid qs s)) = Z.of_nat n.
Proof.
  intros n. assert (Hp : paced t0 t0 0 (rate s)) by (rewrite Hrate; split; [done|lia]).
  pose proof (paced_run euid t0 qs Ht0 s t0 0 Hp Htime Hwrong) as Hrun. fold n in Hrun. cbn [Nat.add] in Hrun.
  destruct n as [|m]; cbn [paced] in Hrun; [destruct Hrun as [-> ?]; cbn; lia|]. destruct Hrun as (tl & Hf & Hlt & Hd & _).
  cbn [Nat.sub]. rewrite Nat.sub_0_r. split; [lia|]. split; [|done].
  pose proof (total_delay_lower m). lia.
Qed.

(** C17: The lock file changes only with permission and never half-way. Every
    state the disk passes through during a request has the old lock file, or
    the request proved the current secret outside a waiting time (or sets the
    first lock) and the file is gone by a removal or is a complete, valid record
    whose bytes were synchronised before it took the place of the old one. So a
    crash at any point leaves a lock that can be read. *)
Theorem lock_change_authorised `{HS : Scrypt} `{HL : !ScryptLaws HS} (euid : Z) (c : Calls) (q : Request) (s : Store)
    (Hsalt : salted c) : passes (disk s) (disk (perform euid c q s).2) (change_ok euid c q s).
Proof. by apply perform_passes. Qed.

Lemma Set_ok `{HS : Scrypt} `{HL : !ScryptLaws HS} euid c current kind value conf s : salted c ->
  ok (Set_ euid c current kind value conf s).1 = true ->
  exists salt hash d, c_salt c = Some salt /\ Derive value salt = Some hash /\
    dir_now (disk (Set_ euid c current kind value conf s).2) = Some d /\ private euid d = true /\
    lock_ok (MkLock true true false kind salt hash "") /\
    d_files d !! kFile = Some (lock_node euid (MkLock true true false kind salt hash "")).
Proof.
  intros Hs. unfold Set_. destruct (if lk_exists _ then _ else _) as [checked r].
  destruct (ok checked) eqn:Ec; cbn [negb]; [|cbn; congruence]. destruct (String.eqb value conf); cbn [negb]; [|done].
  destruct (ValidSecret kind value) eqn:Hv; cbn [negb]; [|done].
  destruct (c_salt c) as [salt|] eqn:Es; [rewrite some_bind|done]. destruct (Derive value salt) as [hash|] eqn:Ed; [rewrite some_bind|done].
  pose proof (Write_spec euid (c_write c) (MkLock true true false kind salt hash "") (disk s)) as (_ & Hw & _). cbn [disk].
  destruct (Write euid _ _ _) as [res k]. cbn [fst snd disk] in *. intros Ho. destruct (Hw Ho) as (d & -> & Hp & Hf).
  exists salt, hash, d. split_and!; try done. by eapply new_lock_ok.
Qed.
(** A lock that was set can be opened, by its secret alone: after a
    successful change, with the settings readable and no waiting time left, a
    secret is accepted exactly when it has the form of that kind of secret and
    the same scrypt key as the one that was set. *)
Theorem lock_set_then_verify `{HS : Scrypt} `{HL : !ScryptLaws HS} (euid : Z) (c c' : Calls) (current : string) (kind : Kind)
    (value conf secret : string) (s : Store) (Hsalt : salted c)
    (Hok : ok (perform euid c (RSet current kind value conf) s).1 = true) (Hread : readable (c_read c'))
    (Hwait : RetrySeconds (rate (perform euid c (RSet current kind value conf) s).2) (c_t1 c') = 0) :
  exists salt, c_salt c = Some salt /\
    (ok (perform euid c' (RVerify secret) (perform euid c (RSet current kind value conf) s).2).1 = true <->
     ValidSecret kind secret = true /\ Derive secret salt = Derive value salt).
Proof.
  cbn [perform] in *. destruct (Set_ok euid c current kind value conf s Hsalt Hok) as (salt & hash & d & Es & Ed & Hd & Hp & Hr & Hf).
  exists salt. split; [done|]. set (s' := (Set_ euid c current kind value conf s).2) in *.
  unfold Verify. rewrite Hd, (read_lock euid (c_read c') d _ Hread Hr Hp Hf).
  set (lock := MkLock true true false kind salt hash ""). rewrite Ed.
  pose proof (Check_cases (c_t1 c') (c_t2 c') lock secret (rate s')) as [[-> (_ & _ & Hv & Hk)]|(Hno & Hn & _)]; [done|].
  destruct (Check _ _ _ _ _) as [res r]. cbn [fst] in *. rewrite Hno. split; [done|]. intros [Hv Hk]. exfalso. by apply Hn.
Qed.

(** ** Examples *)
#[local] Instance demo_scrypt : Scrypt := {|
  EVP_PBE_scrypt secret salt _ _ _ _ n :=
    if n <? 0 then None else Some (map u8 (take (Z.to_nat n) (secret ++ salt ++ replicate (Z.to_nat n) 0))) |}.
#[local] Instance demo_scrypt_laws : ScryptLaws demo_scrypt.
Proof.
  split. intros secret salt N r p mem n key. cbn. destruct (Z.ltb_spec n 0); [done|]. intros [= <-]. split.
  - unfold blen. rewrite length_map, length_take, !length_app, length_replicate. lia.
  - apply Forall_map, Forall_true. intros x. unfold is_byte, u8. apply Z.mod_pos_bound. lia.
Qed.
Definition calm_read : ReadCalls := MkReadCalls false false false false [].
Definition calm_write : WriteCalls := MkWriteCalls false false false (Some (replicate 12 7)) false [Upto 5; Intr] false false false false.
Definition calm (t : Z) : Calls := MkCalls calm_read calm_write (Some (replicate 32 9)) false false false t t.
Definition empty_store : Store := MkStore (MkDisk None []) (MkRate 0 0).
Definition locked_store : Store := (perform 0 (calm 1000) (RSet "" Pin "2580" "2580") empty_store).2.
Definition guesses : list (Calls * Request) :=
  [(calm 2000, RVerify "0000"); (calm 2500, RVerify "1111"); (calm 3000, RVerify "1234")].
Lemma calm_salted t : salted (calm t).
Proof. intros salt [= <-]. split; [|done]. by repeat constructor. Qed.
Lemma lock_guess_rate_witness :
  length (entries 0 guesses locked_store) = 2%nat /\ 1000 <= last_time 2000 guesses - 2000.
Proof.
  assert (E : entries 0 guesses locked_store = [false; false]) by by vm_compute.
  assert (Hw : Forall (fun b => b = false) (entries 0 guesses locked_store)) by (rewrite E; by repeat constructor).
  destruct (lock_guess_rate 0 guesses locked_store 2000) as [H _]; [lia|by vm_compute|cbn; lia|exact Hw|].
  rewrite E in *. split; [done|]. cbn in H |- *. lia.
Defined.
Lemma lock_change_authorised_witness :
  passes (disk empty_store) (disk locked_store) (change_ok 0 (calm 1000) (RSet "" Pin "2580" "2580") empty_store) /\
  is_Some (file_of (dir_now (disk locked_store))).
Proof.
  split; [apply (lock_change_authorised 0 (calm 1000) (RSet "" Pin "2580" "2580") empty_store), calm_salted|].
  eexists. vm_compute. reflexivity.
Defined.
Lemma lock_set_then_verify_witness :
  ok (perform 0 (calm 2000) (RVerify "2580") locked_store).1 = true.
Proof.
  destruct (lock_set_then_verify 0 (calm 1000) (calm 2000) "" Pin "2580" "2580" "2580" empty_store) as (salt & _ & H).
  - apply calm_salted.
  - by vm_compute.
  - by repeat split.
  - by vm_compute.
  - apply H. by vm_compute.
Defined.
(** A wrong secret is refused, and so is a second guess within the second. *)
Example wrong_secret_refused :
  error (perform 0 (calm 2000) (RVerify "0000") locked_store).1 = kIncorrect /\
  error (perform 0 (calm 2500) (RVerify "2580") (perform 0 (calm 2000) (RVerify "0000") locked_store).2).1 =
  "Too many attempts. Wait before trying again."%string.
Proof. by vm_compute. Qed.
