(* ===== verification/ScreenLock.v ===== *)
(** aeraui/platform/screen_lock.cpp, in a build with fingerprint support: the
    gate between the lock screen and the recovery.

    The variables of the file are the record [Gate]; each function is cut where
    it takes or releases the mutex [gate], and the pieces are the actions of a
    step system over the threads of the user interface ([step]), so a
    verification that runs while the screen sleeps, wakes or gets a new
    credential is an interleaving. Every action reports what it did ([Event]);
    the theorem is about these reports. The JSON reader and the helper process
    are not part of the repository: the first is the class [HelperJson], the
    second an answer. *)
From stdpp Require Import base list strings gmap.
From Stdlib Require Import ZArith Lia Ascii.
From coqutil Require Import Datatypes.RecordSetters.
Export DoubleBraceUpdate.
From S2P Require Import Prelude CxxString Kernel LockSecurity.

(** ** Data *)
Record ScreenFingerprint := MkFingerprint {
  ready : bool; authenticated : bool; illumination : bool;
  sensor_x : Z; sensor_y : Z; radius : Z; display_width : Z; display_height : Z; message : string }.
Definition no_fingerprint : ScreenFingerprint := MkFingerprint false false false 0 0 0 0 0 "".
(** A line of the helper: its event, message and, for a sensor, the geometry
    (with the defaults the source gives to absent fields). *)
Record HelperEvent := MkHelperEvent {
  ev_name : string; ev_message : string; ev_x : Z; ev_y : Z; ev_radius : Z; ev_width : Z; ev_height : Z; ev_illumination : bool }.
Class HelperJson := { parse_event : string -> option HelperEvent }.
Record Gate := MkGate {
  generation : Z; revision : Z; active : bool; required : bool; granted : bool;
  child : bool; output : bool; input : bool; pending : string;
  fingerprint : ScreenFingerprint; cached_sensor : ScreenFingerprint; closing_children : Z;
  enabled : bool; service_requested : bool; started : Z; spawned : Z; retry_at : Z }.
Definition initial_gate : Gate :=
  MkGate 0 0 false false false false false false "" no_fingerprint no_fingerprint 0 false false 0 0 0.

(** ** The helper process *)
Definition CloseChild (g : Gate) : Gate :=
  g {{ input := false; output := false; closing_children := if child g then closing_children g + 1 else closing_children g;
       child := false; pending := ""%string }}.
(** The service property it may also clear is not read back by this file. *)
Definition StopFingerprint (g : Gate) : Gate :=
  CloseChild (g {{ enabled := false; service_requested := false; fingerprint := no_fingerprint }}).
(** [None]: a pipe or the fork fails. *)
Definition Spawn (forked : bool) (now : Z) (g : Gate) : Gate :=
  if 0 <? closing_children g then g
  else if negb forked then g {{ enabled := false }}
  else g {{ input := true; output := true; child := true; spawned := now }}.
(** The thread that reaps a closed helper. *)
Definition Reaped (g : Gate) : Gate := g {{ closing_children := closing_children g - 1 }}.

(** ** Answers of the environment *)
Record Environment := MkEnvironment {
  data_available : bool;              (* DataAvailable *)
  modules_ready : bool;               (* post.decrypt.modules *)
  property_set : bool;                (* SetProperty of the service *)
  aod_fingerprint : bool;             (* RecoveryLockTheme().aod_fingerprint *)
  forked : bool;
  chunks : list string;               (* what read() returns before it returns none *)
  exited : bool;                      (* waitpid(child, WNOHANG) == child *)
  now : Z }.
Definition kChanged : string := "The lock screen has changed. Try again.".
Definition Unavailable : Result := refused "Unlock internal storage before changing the AERA screen lock.".

Section Gate_.
Context `{Scrypt} `{HelperJson} (euid : Z).

Definition RecoveryScreenLockStatus (e : Environment) (c : Calls) (s : Store) : Status :=
  if negb (data_available e)
  then MkStatus false false false false KNone 0 "Unlock internal storage to use AERA screen-lock settings."
  else Inspect euid (c_read c) (c_t1 c) s.

(** ** The gate sections *)
Definition SetScreenLock_gate (g : Gate) : Gate :=
  StopFingerprint (g {{ revision := u64 (revision g + 1); granted := false; required := if active g then true else required g }}).
Definition RemoveScreenLock_gate (g : Gate) : Gate :=
  StopFingerprint (g {{ revision := u64 (revision g + 1); granted := false; required := false }}).
Definition SetScreenFingerprint_gate (g : Gate) : Gate :=
  StopFingerprint (g {{ revision := u64 (revision g + 1); granted := false }}).
Definition RecoveryShutdownScreenFingerprint (g : Gate) : Gate :=
  (StopFingerprint g) {{ active := false; granted := false; generation := u64 (generation g + 1) }}.
Definition RecoveryBeginScreenLock (ambient : bool) (e : Environment) (c : Calls) (s : Store) (g : Gate) : Gate :=
  let g := (StopFingerprint g) {{ generation := u64 (generation g + 1); active := true; granted := false }} in
  let status := RecoveryScreenLockStatus e c s in
  let g := g {{ required := st_configured status || (negb (st_available status) && required g) }} in
  if required g && st_valid status && st_fingerprint status && data_available e
  then g {{ fingerprint := (cached_sensor g) {{ message := "Starting fingerprint sensor..."%string }};
            enabled := negb ambient || aod_fingerprint e; started := 0; retry_at := 0 }}
  else StopFingerprint g.
Definition RecoveryEndScreenLock (token : Z) (g : Gate) : Gate :=
  if negb (active g) || negb (token =? generation g) then g
  else (StopFingerprint g) {{ active := false; granted := false; generation := u64 (generation g + 1) }}.
Definition RecoveryConsumeScreenUnlock (token : Z) (g : Gate) : bool * Gate :=
  if negb (active g) || negb (token =? generation g) || (required g && negb (granted g)) then (false, g)
  else (true, (StopFingerprint (g {{ granted := false }})) {{ active := false; generation := u64 (generation g + 1) }}).

(** One line of the helper; [true]: the loop over the lines ends. *)
Definition helper_event (now : Z) (ev : HelperEvent) (g : Gate) : bool * Gate :=
  let name := ev_name ev in
  if String.eqb name "sensor" then
    let f := (fingerprint g) {{ display_width := ev_width ev; display_height := ev_height ev; sensor_x := ev_x ev;
               sensor_y := ev_y ev; radius := ev_radius ev; illumination := ev_illumination ev }} in
    (false, g {{ fingerprint := f; cached_sensor := f {{ ready := false; authenticated := false; message := ""%string }} }})
  else if String.eqb name "authenticated" && ready (fingerprint g) then
    (true, CloseChild (g {{ granted := true; fingerprint := (fingerprint g) {{ authenticated := true }}; enabled := false }}))
  else if String.eqb name "ready" then
    (false, g {{ fingerprint := (fingerprint g) {{ ready := true; message := ev_message ev }} }})
  else if String.eqb name "unavailable" && negb (ready (fingerprint g)) && (u64 (now - started g) <? 15000) then
    (true, (CloseChild g) {{ retry_at := u64 (now + 500) }})
  else if existsb (String.eqb name) ["error"; "unavailable"; "unsupported"; "lockout"; "no_enrollment"]%string then
    (true, CloseChild (g {{ fingerprint := (fingerprint g) {{ message := ev_message ev; ready := false }}; enabled := false }}))
  else if String.eqb name "rejected" then (false, g {{ fingerprint := (fingerprint g) {{ message := ev_message ev }} }})
  else (false, g).
(** for (size_t newline; (newline = pending.find('\n')) != npos;): the fuel is
    the length of the text, and each round removes a line. *)
Fixpoint helper_lines (fuel : nat) (now : Z) (g : Gate) : Gate :=
  match fuel with
  | O => g
  | S fuel =>
      match find_char (ascii_of_nat 10) (pending g) with
      | None => g
      | Some n =>
          let line := str_take n (pending g) in
          let g := g {{ pending := str_drop (S n) (pending g) }} in
          match parse_event line with
          | None => helper_lines fuel now g
          | Some ev => let '(stop, g) := helper_event now ev g in if stop then g else helper_lines fuel now g
          end
      end
  end.
(** while ((count = read(...)) > 0): [None] when too much is pending. *)
Fixpoint read_chunks (chunks : list string) (g : Gate) : option Gate :=
  match chunks with
  | [] => Some g
  | c :: chunks =>
      let g := g {{ pending := (pending g ++ c)%string }} in
      if 16384 <? slen (pending g) then None else read_chunks chunks g
  end.
(** After the output was read: the start-up limit and the end of the helper. *)
Definition poll_end (e : Environment) (g : Gate) : Gate :=
  let g := if enabled g && child g && negb (ready (fingerprint g)) && (7000 <? u64 (now e - spawned g))
    then (CloseChild g) {{ enabled := false;
           fingerprint := (fingerprint g) {{ message := "Fingerprint unavailable. Use PIN/password."%string }} }}
    else g in
  if child g && exited e then
    let g := g {{ child := false }} in
    CloseChild (if authenticated (fingerprint g) then g
      else g {{ enabled := false;
           fingerprint := (fingerprint g) {{ ready := false; message := "Fingerprint stopped. Use PIN/password."%string }} }})
  else g.
(** The part after the service was requested. *)
Definition poll_helper (e : Environment) (g : Gate) : ScreenFingerprint * Gate :=
  let g := if negb (child g) && (retry_at g <=? now e) then Spawn (forked e) (now e) g else g in
  match (if output g then g ← read_chunks (chunks e) g; Some (helper_lines (String.length (pending g)) (now e) g) else Some g) with
  | None => (no_fingerprint, StopFingerprint g)
  | Some g => let g := poll_end e g in (fingerprint g, g)
  end.
Definition RecoveryPollScreenFingerprint (token : Z) (e : Environment) (g : Gate) : ScreenFingerprint * Gate :=
  if negb (active g) || negb (token =? generation g) then (no_fingerprint, g)
  else if negb (enabled g) then (fingerprint g, g)
  else if negb (data_available e) then (no_fingerprint, StopFingerprint g)
  else if service_requested g then poll_helper e g
  else if negb (modules_ready e) then (fingerprint g, g)
  else if negb (property_set e) then
    let g := g {{ enabled := false; fingerprint := (fingerprint g)
                  {{ message := "Could not start fingerprint service. Use PIN/password."%string }} }} in (fingerprint g, g)
  else poll_helper e (g {{ service_requested := true; started := now e; retry_at := now e }}).
Definition VerifyScreenLock_enter (token : Z) (g : Gate) : Result + Z :=
  if negb (active g) || negb (token =? generation g) || negb (required g) then inl (refused kChanged) else inr (revision g).
Definition VerifyScreenLock_leave (token checked_revision : Z) (result : Result) (g : Gate) : Result * Gate :=
  if negb (active g) || negb (token =? generation g) || negb (checked_revision =? revision g) then (refused kChanged, g)
  else (result, if ok result then g {{ granted := true }} else g).

(** ** Threads *)
(** Where a thread is inside RecoveryVerifyScreenLock or one of the functions
    that change the credential. *)
Inductive Place :=
  | Entered (token checked_revision : Z) (secret : string)
  | Compared (token checked_revision : Z) (result : Result)
  | Stored (q : Request).
Record System := MkSystem { store : Store; gate : Gate; threads : gmap nat Place }.
Inductive Action :=
  | Begin (ambient : bool) (e : Environment) (c : Calls)
  | End_ (token : Z)
  | Shutdown
  | Consume (token : Z)
  | Poll (token : Z) (e : Environment)
  | Reap
  | VerifyEnter (thread : nat) (token : Z) (secret : string)
  | VerifyCompare (thread : nat) (e : Environment) (c : Calls)
  | VerifyLeave (thread : nat)
  | ChangeStore (thread : nat) (q : Request) (e : Environment) (c : Calls)
  | ChangeGate (thread : nat).
(** What an action did, for those who watch. *)
Inductive Event :=
  | Began (token : Z) (locked finger : bool)  (* a lock screen, whether it asks for a proof, whether the lock allows a finger *)
  | Ended                                     (* it is gone, without an unlock *)
  | Opened (thread : nat) (token : Z) (record : Lock) (secret : string)  (* a secret was accepted *)
  | Granted (token : Z) (by_secret : option nat)   (* the unlock is granted: by that thread's secret, or a fingerprint *)
  | Changed                                   (* a new credential took effect *)
  | Unlocked (token : Z) (locked : bool).
Definition with_gate (s : System) (g : Gate) : System := MkSystem (store s) g (threads s).
Definition step (a : Action) (s : System) : option (list Event * System) :=
  let g := gate s in
  match a with
  | Begin ambient e c =>
      let g' := RecoveryBeginScreenLock ambient e c (store s) g in
      Some ([Began (generation g') (required g') (st_fingerprint (RecoveryScreenLockStatus e c (store s)))], with_gate s g')
  | End_ token =>
      Some (if active g && (token =? generation g) then [Ended] else [], with_gate s (RecoveryEndScreenLock token g))
  | Shutdown => Some ([Ended], with_gate s (RecoveryShutdownScreenFingerprint g))
  | Consume token =>
      let '(unlocked, g') := RecoveryConsumeScreenUnlock token g in
      Some (if unlocked then [Unlocked token (required g)] else [], with_gate s g')
  | Poll token e =>
      let '(_, g') := RecoveryPollScreenFingerprint token e g in
      Some (if negb (granted g) && granted g' then [Granted token None] else [], with_gate s g')
  | Reap => if 0 <? closing_children g then Some ([], with_gate s (Reaped g)) else None
  | VerifyEnter t token secret =>
      match threads s !! t with
      | Some _ => None
      | None =>
          match VerifyScreenLock_enter token g with
          | inl _ => Some ([], s)
          | inr checked_revision => Some ([], MkSystem (store s) g (<[t := Entered token checked_revision secret]> (threads s)))
          end
      end
  | VerifyCompare t e c =>
      match threads s !! t with
      | Some (Entered token checked_revision secret) =>
          if negb (data_available e) then Some ([], MkSystem (store s) g (delete t (threads s)))
          else
          let '(result, store') := perform euid c (RVerify secret) (store s) in
          Some (if ok result then [Opened t token (Read euid (c_read c) (dir_now (disk (store s)))) secret] else [],
                MkSystem store' g (<[t := Compared token checked_revision result]> (threads s)))
      | _ => None
      end
  | VerifyLeave t =>
      match threads s !! t with
      | Some (Compared token checked_revision result) =>
          let '(_, g') := VerifyScreenLock_leave token checked_revision result g in
          Some (if negb (granted g) && granted g' then [Granted token (Some t)] else [],
                MkSystem (store s) g' (delete t (threads s)))
      | _ => None
      end
  | ChangeStore t q e c =>
      match threads s !! t, q with
      | Some _, _ | _, RVerify _ => None
      | None, _ =>
          if negb (data_available e) then Some ([], s)
          else
          let '(result, store') := perform euid c q (store s) in
          Some ([], MkSystem store' g (if ok result then <[t := Stored q]> (threads s) else threads s))
      end
  | ChangeGate t =>
      match threads s !! t with
      | Some (Stored q) =>
          let g' := match q with
            | RSet _ _ _ _ => SetScreenLock_gate g
            | RRemove _ => RemoveScreenLock_gate g
            | _ => SetScreenFingerprint_gate g
            end in
          Some ([Changed], MkSystem (store s) g' (delete t (threads s)))
      | _ => None
      end
  end.
Fixpoint run (acts : list Action) (s : System) : option (list Event * System) :=
  match acts with
  | [] => Some ([], s)
  | a :: acts => '(es, s1) ← step a s; '(es', s2) ← run acts s1; Some (es ++ es', s2)
  end.
Definition start (store : Store) : System := MkSystem store initial_gate ∅.
End Gate_.

(** ** What the lock promises *)
(** A monitor of the reports. A session is one lock screen, named by its token;
    a grant needs a secret accepted in that session after the last change of the
    credential, or a finger if the lock allowed one and no change came after; an
    unlock of a screen that asks for a proof needs a grant that was not taken
    back by a change. *)
Record Monitor := MkMonitor { m_session : option Z; m_finger : bool; m_opened : list (nat * Z); m_granted : bool }.
Definition no_session : Monitor := MkMonitor None false [] false.
Definition watch (m : Monitor) (e : Event) : option Monitor :=
  match e with
  | Began token _ finger => Some (MkMonitor (Some token) finger [] false)
  | Ended => Some no_session
  | Opened t token _ _ => Some (MkMonitor (m_session m) (m_finger m) ((t, token) :: m_opened m) (m_granted m))
  | Granted token by_secret =>
      if bool_decide (m_session m = Some token) &&
         match by_secret with Some t => bool_decide ((t, token) ∈ m_opened m) | None => m_finger m end
      then Some (MkMonitor (m_session m) (m_finger m) (m_opened m) true) else None
  | Changed => Some (MkMonitor (m_session m) false [] false)
  | Unlocked token locked =>
      if bool_decide (m_session m = Some token) && (negb locked || m_granted m) then Some no_session else None
  end.
Definition watch_all (log : list Event) (m : Monitor) : option Monitor := foldl (fun m e => m ≫= fun m => watch m e) (Some m) log.
(** An accepted secret is one of the lock that was read. *)
Definition rightful `{Scrypt} (e : Event) : Prop :=
  match e with
  | Opened _ _ record secret =>
      lk_valid record = true /\ ValidSecret (lk_kind record) secret = true /\ Derive secret (lk_salt record) = Some (lk_hash record)
  | _ => True
  end.

Lemma watch_all_app log1 log2 m : watch_all (log1 ++ log2) m = watch_all log1 m ≫= watch_all log2.
Proof.
  unfold watch_all. rewrite foldl_app. destruct (foldl _ (Some m) log1) as [m1|]; [done|].
  cbn. by induction log2.
Qed.
(** The variables the unlock depends on are left alone. *)
Definition frame (g g' : Gate) : Prop :=
  generation g' = generation g /\ revision g' = revision g /\ active g' = active g /\ required g' = required g /\
  (granted g = true -> granted g' = true) /\ (enabled g' = true -> enabled g = true).
Lemma frame_refl g : frame g g.
Proof. by repeat split. Qed.
Lemma frame_trans g1 g2 g3 : frame g1 g2 -> frame g2 g3 -> frame g1 g3.
Proof. unfold frame. intros (? & ? & ? & ? & ? & ?) (? & ? & ? & ? & ? & ?). repeat split; try congruence; auto. Qed.
(** ... and no grant is given. *)
Definition still (g g' : Gate) : Prop := frame g g' /\ granted g' = granted g.
Section Frames.
Context `{HJ : HelperJson}.
Lemma still_refl g : still g g.
Proof. split; [apply frame_refl|done]. Qed.
Lemma still_trans g1 g2 g3 : still g1 g2 -> still g2 g3 -> still g1 g3.
Proof. intros [H1 E1] [H2 E2]. split; [by eapply frame_trans|congruence]. Qed.
Lemma CloseChild_still g : still g (CloseChild g).
Proof. by repeat split. Qed.
Lemma StopFingerprint_still g : still g (StopFingerprint g).
Proof. by repeat split. Qed.
Lemma Spawn_still f n g : still g (Spawn f n g).
Proof. unfold Spawn. destruct (_ <? _); [apply still_refl|]. destruct f; by repeat split. Qed.
Lemma poll_end_still e g : still g (poll_end e g).
Proof.
  unfold poll_end. cbv zeta. destruct (_ && (7000 <? _)); destruct (child _ && _); try destruct (authenticated _); by repeat split.
Qed.
Lemma helper_event_frame n ev g : frame g (helper_event n ev g).2.
Proof.
  unfold helper_event. repeat (match goal with |- context [if ?b then _ else _] => destruct b end; try by repeat split).
Qed.
Lemma helper_lines_frame fuel n : forall g, frame g (helper_lines fuel n g).
Proof.
  induction fuel as [|fuel IH]; intros g; cbn [helper_lines]; [apply frame_refl|].
  destruct (find_char _ _) as [k|]; [|apply frame_refl]. set (g1 := g {{ pending := _ }}).
  assert (H1 : frame g g1) by by repeat split.
  destruct (parse_event _) as [ev|]; [|eapply frame_trans; [exact H1|apply IH]].
  pose proof (helper_event_frame n ev g1) as H2. destruct (helper_event n ev g1) as [stop g2]. cbn [snd] in H2.
  destruct stop; [|eapply frame_trans; [|apply IH]]; by eapply frame_trans.
Qed.
Lemma read_chunks_still chunks : forall g g', read_chunks chunks g = Some g' -> still g g'.
Proof.
  induction chunks as [|c chunks IH]; intros g g'; cbn [read_chunks]; [intros [= <-]; apply still_refl|].
  set (g1 := g {{ pending := _ }}). assert (H1 : still g g1) by by repeat split.
  destruct (_ <? _); [done|]. intros H2%IH. by eapply still_trans.
Qed.
End Frames.

Section Safety.
Context `{HS : Scrypt} `{HJ : HelperJson} (euid : Z).

Lemma poll_helper_frame e g : frame g (poll_helper e g).2.
Proof.
  unfold poll_helper. cbv zeta. set (g2 := if negb (child g) && (retry_at g <=? now e) then Spawn (forked e) (now e) g else g).
  assert (H2 : frame g g2) by (subst g2; destruct (_ && _); [apply Spawn_still|apply frame_refl]). clearbody g2.
  destruct (if output g2 then _ else Some g2) as [g3|] eqn:E3; cbn [snd]; [|eapply frame_trans; [exact H2|apply StopFingerprint_still]].
  eapply frame_trans; [|apply poll_end_still]. eapply frame_trans; [exact H2|].
  destruct (output g2); [|injection E3 as <-; apply frame_refl].
  apply bind_Some in E3 as (g4 & E4 & [= <-]). eapply frame_trans; [apply (read_chunks_still _ _ _ E4)|apply helper_lines_frame].
Qed.
Lemma Poll_frame token e g : let g' := (RecoveryPollScreenFingerprint token e g).2 in
  frame g g' /\ (granted g' = true -> granted g = true \/ (active g = true /\ token = generation g /\ enabled g = true)).
Proof.
  cbv zeta. unfold RecoveryPollScreenFingerprint.
  destruct (active g) eqn:Ea; cbn [negb orb]; [|split; [apply frame_refl|by left]].
  destruct (Z.eqb_spec token (generation g)); cbn [negb]; [|split; [apply frame_refl|by left]].
  destruct (enabled g) eqn:Ee; cbn [negb]; [|split; [apply frame_refl|by left]]. split; [|by right].
  destruct (data_available e); cbn [negb]; [|apply StopFingerprint_still].
  destruct (service_requested g); [apply poll_helper_frame|].
  destruct (modules_ready e); cbn [negb]; [|apply frame_refl].
  destruct (property_set e); cbn [negb]; [|by repeat split].
  eapply frame_trans; [|apply poll_helper_frame]. by repeat split.
Qed.

Definition place_ok (g : Gate) (m : Monitor) (t : nat) (p : Place) : Prop :=
  match p with
  | Entered token rev _ => token <= generation g /\ rev <= revision g
  | Compared token rev r => token <= generation g /\ rev <= revision g /\
      (ok r = true -> active g = true -> token = generation g -> rev = revision g -> (t, token) ∈ m_opened m)
  | Stored _ => True
  end.
Definition inv (n : Z) (s : System) (m : Monitor) : Prop :=
  0 <= generation (gate s) <= n /\ 0 <= revision (gate s) <= n /\
  m_session m = (if active (gate s) then Some (generation (gate s)) else None) /\
  (granted (gate s) = true -> m_granted m = true) /\ (enabled (gate s) = true -> m_finger m = true) /\
  (forall t p, threads s !! t = Some p -> place_ok (gate s) m t p).
(** A step that ends the session or takes a new generation or revision leaves
    no verification that could still grant. *)
Lemma places_stale g g' m m' t p : place_ok g m t p -> generation g <= generation g' -> revision g <= revision g' ->
  (active g' = true -> generation g' = generation g -> revision g' = revision g -> active g = true /\ m_opened m ⊆ m_opened m') ->
  place_ok g' m' t p.
Proof.
  destruct p as [token rev secret|token rev r|q]; cbn [place_ok]; [lia| |done]. intros (H1 & H2 & H3) Hg Hr Hk.
  split; [lia|]. split; [lia|]. intros Ho Ha -> ->. destruct Hk as [Ha' Hs]; [done|lia|lia|]. apply Hs, H3; (done || lia).
Qed.
Lemma inv_same_places n s m g' m' : inv n s m -> 0 <= generation g' <= n + 1 -> 0 <= revision g' <= n + 1 ->
  generation (gate s) <= generation g' -> revision (gate s) <= revision g' ->
  m_session m' = (if active g' then Some (generation g') else None) ->
  (granted g' = true -> m_granted m' = true) -> (enabled g' = true -> m_finger m' = true) ->
  (active g' = true -> generation g' = generation (gate s) -> revision g' = revision (gate s) ->
   active (gate s) = true /\ m_opened m ⊆ m_opened m') ->
  inv (n + 1) (with_gate s g') m'.
Proof.
  intros (_ & _ & _ & _ & _ & Hp) Hg Hr Hgg Hrr Hs Hgr He Hk. unfold inv, with_gate. cbn [gate threads].
  split; [done|]. split; [done|]. do 3 (split; [done|]).
  intros t p Ht. eapply places_stale; [by apply Hp|done..].
Qed.
(** Nothing changed for the unlock. *)
Lemma inv_frame n s m g' : inv n s m -> frame (gate s) g' -> (granted g' = true -> granted (gate s) = true) ->
  inv (n + 1) (with_gate s g') m.
Proof.
  intros Hi (Eg & Er & Ea & _ & _ & Ee) Hgr. pose proof Hi as (Hg & Hr & Hs & Hgm & Hem & _).
  eapply inv_same_places; [exact Hi|lia..| | | |]; rewrite ?Ea, ?Eg; auto.
Qed.
Lemma inv_threads n s m store' ths : inv n s m -> (forall t p, ths !! t = Some p -> place_ok (gate s) m t p) ->
  inv (n + 1) (MkSystem store' (gate s) ths) m.
Proof. intros (Hg & Hr & Hs & Hgm & Hem & _) Hp. unfold inv. cbn [gate threads]. split_and!; try done; lia. Qed.
Lemma inv_later n s m : inv n s m -> inv (n + 1) s m.
Proof. intros (Hg & Hr & Hs & Hgm & Hem & Hp). split_and!; try done; lia. Qed.
Lemma inv_delete n s m store' t : inv n s m -> inv (n + 1) (MkSystem store' (gate s) (delete t (threads s))) m.
Proof. intros Hi. apply inv_threads; [done|]. intros t' p [_ Hp]%lookup_delete_Some. by apply Hi. Qed.
Lemma inv_insert n s m store' t p : inv n s m -> place_ok (gate s) m t p ->
  inv (n + 1) (MkSystem store' (gate s) (<[t := p]> (threads s))) m.
Proof.
  intros Hi Hp. apply inv_threads; [done|]. intros t' p' [[<- <-]|[_ Hp']]%lookup_insert_Some; [done|]. by apply Hi.
Qed.

(** What one step reports, the monitor accepts. *)
Definition accepted (n : Z) (m : Monitor) (r : option (list Event * System)) : Prop :=
  match r with
  | None => True
  | Some (es, s') => exists m', watch_all es m = Some m' /\ inv (n + 1) s' m' /\ Forall rightful es
  end.
Lemma accepted_quiet n m s' : inv (n + 1) s' m -> accepted n m (Some ([], s')).
Proof. intros Hi. by exists m. Qed.
Lemma accepted_one n m e s' m' : watch m e = Some m' -> rightful e -> inv (n + 1) s' m' -> accepted n m (Some ([e], s')).
Proof. intros Hw Hr Hi. exists m'. split; [exact Hw|]. split; [done|by repeat constructor]. Qed.
Lemma u64_next n z : 0 <= z <= n -> n + 1 < 2 ^ 64 -> u64 (z + 1) = z + 1.
Proof. intros. apply u64_id. unfold is_u64. lia. Qed.
Lemma Begin_facts ambient e c st g : let g' := RecoveryBeginScreenLock euid ambient e c st g in
  generation g' = u64 (generation g + 1) /\ revision g' = revision g /\ active g' = true /\ granted g' = false /\
  (enabled g' = true -> st_fingerprint (RecoveryScreenLockStatus euid e c st) = true).
Proof.
  cbv zeta. unfold RecoveryBeginScreenLock. cbv zeta. set (status := RecoveryScreenLockStatus euid e c st).
  destruct (st_fingerprint status); rewrite ?andb_false_r; cbn [andb].
  - destruct (_ && _); by repeat split.
  - by repeat split.
Qed.
Lemma step_Begin n s m ambient e c : inv n s m -> n + 1 < 2 ^ 64 -> accepted n m (step euid (Begin ambient e c) s).
Proof.
  intros Hi Hn. pose proof Hi as (Hg & Hr & _). cbn [step].
  destruct (Begin_facts ambient e c (store s) (gate s)) as (Eg & Er & Ea & Egr & Ee). set (g' := RecoveryBeginScreenLock _ _ _ _ _ _) in *.
  rewrite (u64_next n) in Eg by done. eapply accepted_one; [done|done|]. eapply inv_same_places; [exact Hi|lia..| | | |]; cbn.
  - by rewrite Ea.
  - by rewrite Egr.
  - done.
  - lia.
Qed.
(** The end of a session. *)
Lemma inv_ended n s m g' : inv n s m -> n + 1 < 2 ^ 64 -> generation g' = u64 (generation (gate s) + 1) ->
  revision g' = revision (gate s) -> active g' = false -> granted g' = false -> enabled g' = false ->
  inv (n + 1) (with_gate s g') no_session.
Proof.
  intros Hi Hn Eg Er Ea Egr Ee. pose proof Hi as (Hg & Hr & _). rewrite (u64_next n) in Eg by done.
  eapply inv_same_places; [exact Hi|lia..| | | |]; rewrite ?Ea, ?Egr, ?Ee; done.
Qed.
Lemma step_End n s m token : inv n s m -> n + 1 < 2 ^ 64 -> accepted n m (step euid (End_ token) s).
Proof.
  intros Hi Hn. cbn [step]. unfold RecoveryEndScreenLock.
  destruct (active (gate s)); cbn [negb orb andb]; [|apply accepted_quiet; apply inv_frame; [done|apply frame_refl|done]].
  destruct (token =? _); cbn [negb]; [|apply accepted_quiet; apply inv_frame; [done|apply frame_refl|done]].
  eapply accepted_one; [done|done|]. by apply (inv_ended n s m).
Qed.
Lemma step_Shutdown n s m : inv n s m -> n + 1 < 2 ^ 64 -> accepted n m (step euid Shutdown s).
Proof. intros Hi Hn. eapply accepted_one; [done|done|]. by apply (inv_ended n s m). Qed.
Lemma step_Consume n s m token : inv n s m -> n + 1 < 2 ^ 64 -> accepted n m (step euid (Consume token) s).
Proof.
  intros Hi Hn. pose proof Hi as (_ & _ & Hs & Hgm & _). cbn [step]. unfold RecoveryConsumeScreenUnlock.
  destruct (active (gate s)); cbn [negb orb]; [|apply accepted_quiet; apply inv_frame; [done|apply frame_refl|done]].
  destruct (Z.eqb_spec token (generation (gate s))) as [->|]; cbn [negb orb]; [|apply accepted_quiet; apply inv_frame; [done|apply frame_refl|done]].
  destruct (required (gate s) && negb (granted (gate s))) eqn:Eq; [apply accepted_quiet; apply inv_frame; [done|apply frame_refl|done]|].
  eapply accepted_one; [|done|by apply (inv_ended n s m)]. cbn [watch]. rewrite bool_decide_eq_true_2 by done. cbn [andb].
  destruct (required (gate s)); [|done]. cbn [negb orb andb] in *. by rewrite Hgm by (by apply negb_false_iff).
Qed.
Lemma step_Poll n s m token e : inv n s m -> accepted n m (step euid (Poll token e) s).
Proof.
  intros Hi. pose proof Hi as (Hg & Hr & Hs & Hgm & Hem & _). cbn [step].
  destruct (Poll_frame token e (gate s)) as [Hf Hgr]. destruct (RecoveryPollScreenFingerprint _ _ _) as [f g']. cbn [snd] in *.
  destruct (granted (gate s)) eqn:Eg; cbn [negb andb]; [apply accepted_quiet; by apply inv_frame|].
  destruct (granted g') eqn:Eg'; [|apply accepted_quiet; apply inv_frame; [done|done|congruence]].
  destruct Hgr as [|(Ea & -> & Ee)]; [done|done|]. destruct Hf as (Fg & Fr & Fa & _ & _ & Fe).
  eapply accepted_one; [|done|].
  - cbn [watch]. rewrite Hs, Ea, bool_decide_eq_true_2, Hem by done. done.
  - eapply inv_same_places; [exact Hi|lia..| | | |]; cbn; rewrite ?Fa, ?Fg, ?Ea; auto.
Qed.
Lemma step_VerifyEnter n s m t token secret : inv n s m -> accepted n m (step euid (VerifyEnter t token secret) s).
Proof.
  intros Hi. pose proof Hi as (Hg & Hr & _). cbn [step]. destruct (threads s !! t); [done|]. unfold VerifyScreenLock_enter.
  destruct (negb (active _) || negb (token =? _) || _) eqn:E.
  - by apply accepted_quiet, inv_later.
  - apply accepted_quiet. apply inv_insert; [done|]. rewrite !orb_false_iff, !negb_false_iff, Z.eqb_eq in E. cbn. lia.
Qed.
Lemma step_VerifyCompare n s m t e c : inv n s m -> accepted n m (step euid (VerifyCompare t e c) s).
Proof.
  intros Hi. pose proof Hi as (Hg & Hr & Hs & Hgm & Hem & Hp). cbn [step]. destruct (threads s !! t) as [[token rev secret| |]|] eqn:Et; try done.
  destruct (data_available e); cbn [negb]; [|apply accepted_quiet; by apply inv_delete].
  pose proof (Hp t _ Et) as [Ht1 Ht2]. cbn [perform]. unfold Verify.
  destruct (Check_cases (c_t1 c) (c_t2 c) (Read euid (c_read c) (dir_now (disk (store s)))) secret (rate (store s)))
    as [[E (_ & Hv & Hk & Hd)]|[E _]].
  - rewrite E. cbn [fine ok]. eapply accepted_one; [done|done|].
    apply inv_insert with (m := MkMonitor (m_session m) (m_finger m) ((t, token) :: m_opened m) (m_granted m)).
    + split_and!; try done; try lia. intros t' p' Hp'%Hp. eapply places_stale; [done|lia|lia|]. intros. split; [done|]. cbn. set_solver.
    + cbn. split; [done|]. split; [done|]. intros. set_solver.
  - destruct (Check _ _ _ _ _) as [r k]. cbn [fst] in E. rewrite E. apply accepted_quiet. apply inv_insert; [done|].
    cbn. split; [done|]. split; [done|]. by rewrite E.
Qed.
Lemma step_VerifyLeave n s m t : inv n s m -> accepted n m (step euid (VerifyLeave t) s).
Proof.
  intros Hi. pose proof Hi as (Hg & Hr & Hs & Hgm & Hem & Hp). cbn [step]. destruct (threads s !! t) as [[|token rev r|]|] eqn:Et; try done.
  pose proof (Hp t _ Et) as (_ & _ & Ho). unfold VerifyScreenLock_leave.
  destruct (negb (active _) || negb (token =? _) || _) eqn:E.
  { rewrite andb_comm. destruct (granted (gate s)); apply accepted_quiet; by apply inv_delete. }
  rewrite !orb_false_iff, !negb_false_iff, !Z.eqb_eq in E. destruct E as [[Ea ->] ->].
  destruct (ok r) eqn:Er; [|rewrite andb_comm; destruct (granted (gate s)); apply accepted_quiet; by apply inv_delete].
  change (granted ((gate s) {{ granted := true }})) with true. rewrite andb_true_r.
  assert (Hi' : forall m', m_session m' = m_session m -> m_finger m' = m_finger m -> m_opened m' = m_opened m -> m_granted m' = true ->
    inv (n + 1) (MkSystem (store s) ((gate s) {{ granted := true }}) (delete t (threads s))) m').
  { intros m' E1 E2 E3 E4. unfold inv. cbn [gate threads]. rewrite E1, E2, E4.
    change (generation ((gate s) {{ granted := true }})) with (generation (gate s)).
    change (revision ((gate s) {{ granted := true }})) with (revision (gate s)). split_and!; try done; try lia.
    intros t' p [_ Hp'%Hp]%lookup_delete_Some. eapply places_stale; [done|exact (Z.le_refl _)..|]. intros. split; [done|by rewrite E3]. }
  destruct (granted (gate s)) eqn:Eg; cbn [negb]; [apply accepted_quiet, Hi'; auto|].
  eapply accepted_one; [cbn [watch]; rewrite !bool_decide_eq_true_2 by (auto || by rewrite Hs, Ea); done|done|by apply Hi'].
Qed.
Lemma step_ChangeStore n s m t q e c : inv n s m -> accepted n m (step euid (ChangeStore t q e c) s).
Proof.
  intros Hi. cbn [step]. destruct (threads s !! t) as [p|] eqn:Et; [by destruct q|].
  destruct q; [done|..]; (destruct (data_available e); cbn [negb]; [|by apply accepted_quiet, inv_later]);
    (destruct (perform _ _ _ _) as [r st]; destruct (ok r); apply accepted_quiet;
     [by apply inv_insert|apply inv_threads; [done|apply Hi]]).
Qed.
Lemma inv_changed n s m g' t : inv n s m -> n + 1 < 2 ^ 64 -> generation g' = generation (gate s) ->
  revision g' = u64 (revision (gate s) + 1) -> active g' = active (gate s) -> granted g' = false -> enabled g' = false ->
  inv (n + 1) (MkSystem (store s) g' (delete t (threads s))) (MkMonitor (m_session m) false [] false).
Proof.
  intros Hi Hn Eg Er Ea Egr Ee. pose proof Hi as (Hg & Hr & Hs & _ & _ & Hp). rewrite (u64_next n) in Er by done.
  unfold inv. cbn [gate threads m_session m_finger m_granted]. rewrite Eg, Er, Ea, Egr, Ee. split_and!; try done; try lia.
  intros t' p [_ Hp'%Hp]%lookup_delete_Some. eapply places_stale; [done|lia|lia|]. lia.
Qed.
Lemma step_accepted n s m a : inv n s m -> n + 1 < 2 ^ 64 -> accepted n m (step euid a s).
Proof.
  intros Hi Hn. destruct a; [by apply step_Begin|by apply step_End|by apply step_Shutdown|by apply step_Consume|by apply step_Poll| |
    by apply step_VerifyEnter|by apply step_VerifyCompare|by apply step_VerifyLeave|by apply step_ChangeStore|].
  - cbn [step]. destruct (_ <? _); [|done]. apply accepted_quiet. apply inv_frame; [done|by repeat split|done].
  - cbn [step]. destruct (threads s !! thread) as [[| |q]|]; try done. eapply accepted_one; [done|done|].
    destruct q; by apply (inv_changed n s m).
Qed.
Lemma run_accepted acts : forall n s m log s', inv n s m -> n + Z.of_nat (length acts) < 2 ^ 64 ->
  run euid acts s = Some (log, s') ->
  exists m', watch_all log m = Some m' /\ inv (n + Z.of_nat (length acts)) s' m' /\ Forall rightful log.
Proof.
  induction acts as [|a acts IH]; intros n s m log s' Hi Hn; cbn [run].
  - intros [= <- <-]. exists m. rewrite Z.add_0_r. by split; [|split].
  - cbn [length] in Hn. pose proof (step_accepted n s m a Hi ltac:(lia)) as Ha.
    intros ([es s1] & E1 & H2)%bind_Some. apply bind_Some in H2 as ([es' s2] & E2 & [= <- <-]).
    rewrite E1 in Ha. destruct Ha as (m1 & W1 & I1 & R1).
    destruct (IH (n + 1) s1 m1 es' s2 I1 ltac:(lia) E2) as (m2 & W2 & I2 & R2). exists m2.
    rewrite watch_all_app, W1. split; [exact W2|]. split; [|by apply Forall_app].
    cbn [length]. by replace (n + Z.of_nat (S (length acts))) with (n + 1 + Z.of_nat (length acts)) by lia.
Qed.
End Safety.

Lemma initial_inv store : inv 0 (start store) no_session.
Proof. by split_and!. Qed.
(** C16: The screen lock opens only for a proof given to it. Take any
    interleaving of the threads: lock screens that begin, end, sleep and shut
    down, verifications in flight, credential changes, polls of the fingerprint
    helper with any output. Every unlock of a screen that asks for a proof is
    preceded, within the session of that very screen, by an accepted secret of
    the stored lock or by a finger the stored lock allows, with no credential
    change taking effect in between; results of earlier sessions never count. *)
Theorem screen_unlock_authorised `{HS : Scrypt} `{HJ : HelperJson} (euid : Z) (acts : list Action) (store : Store)
    (log : list Event) (s' : System) (Hlen : Z.of_nat (length acts) < 2 ^ 64)
    (Hrun : run euid acts (start store) = Some (log, s')) :
  is_Some (watch_all log no_session) /\ Forall rightful log.
Proof.
  destruct (run_accepted euid acts 0 (start store) no_session log s' (initial_inv store) Hlen Hrun) as (m & Hm & _ & Hr).
  split; [by exists m|done].
Qed.

Lemma Read_absent euid c d : lk_exists (Read euid c d) = false -> rc_open c = false /\ file_of d = None.
Proof.
  unfold Read. destruct (rc_open c); [done|]. destruct d as [d|]; [|done]. destruct (_ || _); [done|]. destruct (rc_openat c); [done|].
  cbn. destruct (d_files d !! kFile); [|done]. destruct (_ || _); [done|]. destruct (read_fd _ _) as [bytes|]; [|done].
  destruct (parse_lock (string_of bytes)) as [r|] eqn:E; [|done]. apply parse_lock_ok in E as (E & _). cbn. congruence.
Qed.
Lemma Begin_required `{HS : Scrypt} euid ambient e c st g :
  required (RecoveryBeginScreenLock euid ambient e c st g) =
  (let status := RecoveryScreenLockStatus euid e c st in st_configured status || (negb (st_available status) && required g)).
Proof. unfold RecoveryBeginScreenLock. cbv zeta. by destruct (_ && _ && _). Qed.
(** The lock screen fails closed. A new lock screen asks for no proof only
    when the settings could be looked at and there is no lock file, or when the
    storage is not there and the last lock screen asked for none; a lock file
    that cannot be read, is malformed or has unsafe permissions keeps it locked. *)
Theorem screen_lock_fails_closed `{HS : Scrypt} (euid : Z) (ambient : bool) (e : Environment) (c : Calls) (st : Store) (g : Gate)
    (Hopen : required (RecoveryBeginScreenLock euid ambient e c st g) = false) :
  (data_available e = true /\ rc_open (c_read c) = false /\ file_of (dir_now (disk st)) = None) \/
  (data_available e = false /\ required g = false).
Proof.
  rewrite Begin_required in Hopen. cbv zeta in Hopen. apply orb_false_iff in Hopen as [H1 H2]. unfold RecoveryScreenLockStatus in *.
  destruct (data_available e); cbn [negb] in *; [left; split; [done|exact (Read_absent _ _ _ H1)]|by right].
Qed.

(** ** Examples *)
#[local] Existing Instance demo_scrypt.
(** A helper that reports one word per line. *)
#[local] Instance demo_helper : HelperJson := {| parse_event line := Some (MkHelperEvent line "" 0 0 0 0 0 false) |}.
Definition quiet_env (text : list string) : Environment := MkEnvironment true true true true true text false 100.
(** A wrong secret, a sleeping screen, then the right secret and the unlock. *)
Definition demo_actions : list Action :=
  [Begin false (quiet_env []) (calm 2000); VerifyEnter 1 1 "0000"; VerifyCompare 1 (quiet_env []) (calm 2000); VerifyLeave 1;
   Consume 1; VerifyEnter 1 1 "2580"; End_ 1; Begin false (quiet_env []) (calm 4000); VerifyCompare 1 (quiet_env []) (calm 4000);
   VerifyLeave 1; Consume 3; VerifyEnter 1 3 "2580"; VerifyCompare 1 (quiet_env []) (calm 5000); VerifyLeave 1; Consume 3].
Definition demo_run : list Event * System := default ([], start locked_store) (run 0 demo_actions (start locked_store)).
Definition demo_log : list Event := demo_run.1.
Definition unlocks (log : list Event) : list (Z * bool) :=
  omap (fun e => match e with Unlocked token locked => Some (token, locked) | _ => None end) log.
Lemma screen_unlock_authorised_witness :
  unlocks demo_log = [(3, true)] /\ is_Some (watch_all demo_log no_session).
Proof.
  split; [by vm_compute|].
  assert (E : run 0 demo_actions (start locked_store) = Some (demo_log, demo_run.2)) by (vm_compute; reflexivity).
  exact (proj1 (screen_unlock_authorised 0 demo_actions locked_store demo_log demo_run.2 ltac:(vm_compute; reflexivity) E)).
Defined.
Lemma screen_lock_fails_closed_witness : file_of (dir_now (disk empty_store)) = None.
Proof.
  destruct (screen_lock_fails_closed 0 false (quiet_env []) (calm 0) empty_store initial_gate) as [(_ & _ & H)|[H _]];
    [by vm_compute|exact H|done].
Defined.
(** The stored lock allows no finger, so the helper is not even asked. *)
Example finger_not_allowed :
  (match run 0 [Begin false (quiet_env []) (calm 2000); Poll 1 (quiet_env [("ready" ++ newline ++ "authenticated" ++ newline)%string]); Consume 1]
     (start locked_store) with Some (log, _) => unlocks log | None => [] end) = [].
Proof. by vm_compute. Qed.
