(* ===== verification/Uncrypt.v ===== *)
(** uncrypt/uncrypt.cpp: the service that turns a package on /data into a block
    map for the recovery, and on an encrypted file system writes the plain
    bytes of the package over the blocks it lies on.

    The kernel is the record [MapCalls]: what FIBMAP answers for each block at
    the first call and at each retry, and which calls fail. The block device is
    its bytes, the package its plain bytes; progress percentages use the
    double-precision arithmetic of Corelib's SpecFloat. The map file that comes
    out is the input of BlockMap.v. *)
From stdpp Require Import base list strings gmap.
From Stdlib Require Import ZArith Lia Ascii.
From Corelib Require SpecFloat.
From S2P Require Import Prelude CxxString Libbase RangeSet Kernel BlockMap BootloaderMessage.

(** ** otautil/error_code.h *)
Definition kUncryptNoError : Z := -1.
Definition kUncryptErrorPlaceholder : Z := 50.
Definition kUncryptFileRemoveError : Z := 101.
Definition kUncryptFileOpenError : Z := 102.
Definition kUncryptSocketWriteError : Z := 104.
Definition kUncryptFileStatError : Z := 108.
Definition kUncryptBlockOpenError : Z := 109.
Definition kUncryptIoctlError : Z := 110.
Definition kUncryptReadError : Z := 111.
Definition kUncryptWriteError : Z := 112.
Definition kUncryptFileSyncError : Z := 113.
Definition kUncryptFileCloseError : Z := 114.
Definition kUncryptFileRenameError : Z := 115.
Definition kUncryptPackageMissingError : Z := 116.
Definition kUncryptRealpathFindError : Z := 117.
Definition kUncryptBlockDeviceFindError : Z := 118.

Definition WINDOW_SIZE : Z := 5.
Definition FIBMAP_RETRY_LIMIT : nat := 3.

Definition add_block_to_ranges (ranges : list Z) (new_block : Z) : list Z :=
  match last ranges with
  | Some back => if new_block =? back then removelast ranges ++ [back + 1] else ranges ++ [new_block; new_block + 1]
  | None => ranges ++ [new_block; new_block + 1]
  end.

(** ** The file system table *)
Record FstabEntry := MkFstabEntry {
  mount_point : string; blk_device : string; fs_type : string; is_encryptable : bool; file_encryption : bool }.
Definition starts_with (s prefix : string) : bool := String.prefix prefix s.
(** The device, encrypted and f2fs_fs; [crypto_state] is ro.crypto.state. *)
Fixpoint FindBlockDevice (crypto_state : string) (fstab : list FstabEntry) (path : string) : string * bool * bool :=
  match fstab with
  | [] => (""%string, false, false)
  | entry :: fstab =>
      if String.eqb (mount_point entry) "" then FindBlockDevice crypto_state fstab path
      else if starts_with path (mount_point entry ++ "/") then
        (blk_device entry, (is_encryptable entry || file_encryption entry) && String.eqb crypto_state "encrypted",
         String.eqb (fs_type entry) "f2fs")
      else FindBlockDevice crypto_state fstab path
  end.

(** ** The kernel's answers *)
Record MapCalls := MkMapCalls {
  mc_remove : bool; mc_open_map : bool;
  mc_stale : string;                         (* what a left-over map_file.tmp holds *)
  mc_socket : bool; mc_stat : option (Z * Z); (* st_size, st_blksize *)
  mc_header : bool; mc_open : bool; mc_wopen : bool; mc_pin : bool;
  fib_first : Z -> option Z;                 (* FIBMAP for a head block *)
  fib_retry : Z -> nat -> Z -> option Z;     (* FIBMAP at a retry for it, asked about a block *)
  retry_sync : Z -> nat -> bool;
  mc_read : Z -> bool;                       (* ReadFully at a position *)
  mc_write : Z -> option nat;                (* write_at_offset of a head block: fails after so many bytes *)
  mc_lines : bool; mc_sync_map : bool; mc_close_map : bool; mc_sync_dev : bool; mc_close_dev : bool;
  mc_rename : bool; mc_open_dir : bool; mc_sync_dir : bool; mc_close_dir : bool }.

(** The loop of RetryFibmap; [block] is the variable the ioctl reads and writes. *)
Fixpoint retry_fibmap (c : MapCalls) (head_block : Z) (tries i : nat) (block : Z) : Z + Z :=
  match tries with
  | O => inl kUncryptIoctlError
  | S tries =>
      if negb (retry_sync c head_block i) then inl kUncryptFileSyncError
      else match fib_retry c head_block i block with
      | None => inl kUncryptIoctlError
      | Some block => if negb (block =? 0) then inr block else retry_fibmap c head_block tries (S i) block
      end
  end.
Definition RetryFibmap (c : MapCalls) (block head_block : Z) : Z + Z :=
  retry_fibmap c head_block FIBMAP_RETRY_LIMIT 0 block.
Definition find_block (c : MapCalls) (head_block : Z) : Z + Z :=
  match fib_first c head_block with
  | None => inl kUncryptIoctlError
  | Some block => if block =? 0 then RetryFibmap c block head_block else inr block
  end.

(** static_cast<int>(100 * (double(pos) / double(size))) *)
Definition double (z : Z) : SpecFloat.spec_float := SpecFloat.binary_normalize 53 1024 z 0 false.
Definition truncate (f : SpecFloat.spec_float) : Z :=
  match f with
  | SpecFloat.S754_finite s m e =>
      let v := if 0 <=? e then Z.shiftl (Zpos m) e else Z.shiftr (Zpos m) (- e) in if s then - v else v
  | _ => 0
  end.
Definition percent (pos size : Z) : Z :=
  truncate (SpecFloat.SFmul 53 1024 (double 100) (SpecFloat.SFdiv 53 1024 (double pos) (double size))).

(** ** ProductBlockMap *)
Record Loop := MkLoop {
  ranges : list Z; head_block : Z; head : Z; tail : Z; buffers : list (list Z); pos : Z;
  last_progress : Z; sent : list Z;          (* the statuses written to the socket *)
  device : list Z }.
Section Map.
Context (c : MapCalls) (encrypted : bool) (package : list Z) (size blksize : Z).

(** "write out head buffer": an error and the state it leaves, or the next state. *)
Definition write_out (s : Loop) : (Z * Loop) + Loop :=
  match find_block c (head_block s) with
  | inl e => inl (e, s)
  | inr block =>
      let with_block head_block head device := MkLoop (add_block_to_ranges (ranges s) block) head_block head
        (tail s) (buffers s) (pos s) (last_progress s) (sent s) device in
      let next device := inr (with_block (head_block s + 1) ((head s + 1) mod WINDOW_SIZE) device) in
      if encrypted then
        let buffer := nth (Z.to_nat (head s)) (buffers s) [] in
        match mc_write c (head_block s) with
        | Some k => inl (kUncryptWriteError, with_block (head_block s) (head s) (overwrite (blksize * block) (take k buffer) (device s)))
        | None => next (overwrite (blksize * block) buffer (device s))
        end
      else next (device s)
  end.
Definition read_in (s : Loop) : (Z * Loop) + Loop :=
  let next buffers pos := inr (MkLoop (ranges s) (head_block s) (head s) ((tail s + 1) mod WINDOW_SIZE) buffers pos
    (last_progress s) (sent s) (device s)) in
  if encrypted then
    let to_read := Z.min blksize (size - pos s) in
    if negb (mc_read c (pos s)) then inl (kUncryptReadError, s)
    else
    let buffer := overwrite 0 (slice (pos s) to_read package) (nth (Z.to_nat (tail s)) (buffers s) []) in
    next (<[Z.to_nat (tail s) := buffer]> (buffers s)) (pos s + to_read)
  else next (buffers s) (pos s + blksize).
Definition show_progress (s : Loop) : Loop :=
  let progress := percent (pos s) size in
  if last_progress s <? progress
  then MkLoop (ranges s) (head_block s) (head s) (tail s) (buffers s) (pos s) progress (sent s ++ [progress]) (device s)
  else s.
(** while (pos < sb.st_size): each round moves pos on, so st_size rounds are
    enough. *)
Fixpoint fill (fuel : nat) (s : Loop) : (Z * Loop) + Loop :=
  if size <=? pos s then inr s
  else match fuel with
  | O => inr s
  | S fuel =>
      let s := show_progress s in
      match (if (tail s + 1) mod WINDOW_SIZE =? head s then write_out s else inr s) with
      | inl e => inl e
      | inr s => match read_in s with inl e => inl e | inr s => fill fuel s end
      end
  end.
(** while (head != tail): the ring has WINDOW_SIZE places. *)
Fixpoint flush_window (fuel : nat) (s : Loop) : (Z * Loop) + Loop :=
  if head s =? tail s then inr s
  else match fuel with
  | O => inr s
  | S fuel => match write_out s with inl e => inl e | inr s => flush_window fuel s end
  end.
End Map.

Definition header_text (blk_dev : string) (size blksize : Z) : string :=
  (blk_dev ++ newline ++ to_string size ++ " " ++ to_string blksize ++ newline)%string.
Fixpoint range_lines (ranges : list Z) : string :=
  match ranges with
  | a :: b :: rest => (to_string a ++ " " ++ to_string b ++ newline ++ range_lines rest)%string
  | _ => ""
  end.
Definition map_text (blk_dev : string) (size blksize : Z) (ranges : list Z) : string :=
  (header_text blk_dev size blksize ++ to_string (Z.of_nat (length ranges) / 2) ++ newline ++ range_lines ranges)%string.
(** The temporary file is opened without O_TRUNC. *)
Definition over_stale (text stale : string) : string := (text ++ str_drop (String.length text) stale)%string.
Record Outcome := MkOutcome { code : Z; map_file : option string; device_after : list Z; statuses : list Z }.
(** [None]: a division by st_blksize = 0. *)
Definition ProductBlockMap (c : MapCalls) (blk_dev : string) (encrypted f2fs_fs : bool) (package dev : list Z) (old_map : option string)
    : option Outcome :=
  let fail e dev sent := Some (MkOutcome e None dev sent) in
  if negb (mc_remove c) then Some (MkOutcome kUncryptFileRemoveError old_map dev [])
  else if negb (mc_open_map c) then fail kUncryptFileOpenError dev []
  else if negb (mc_socket c) then fail kUncryptSocketWriteError dev []
  else match mc_stat c with
  | None => fail kUncryptFileStatError dev [0]
  | Some (size, blksize) =>
      if blksize =? 0 then None
      else if negb (mc_header c) then fail kUncryptWriteError dev [0]
      else if negb (mc_open c) then fail kUncryptFileOpenError dev [0]
      else if encrypted && negb (mc_wopen c) then fail kUncryptBlockOpenError dev [0]
      else if f2fs_fs && negb (mc_pin c) then fail kUncryptIoctlError dev [0]
      else
      let buffers := if encrypted then replicate 5 (replicate (Z.to_nat blksize) 0) else [] in
      match fill c encrypted package size blksize (Z.to_nat size) (MkLoop [] 0 0 0 buffers 0 0 [0] dev) with
      | inl (e, s) => fail e (device s) (sent s)
      | inr s =>
          match flush_window c encrypted blksize 5 s with
          | inl (e, s) => fail e (device s) (sent s)
          | inr s =>
              let dev := device s in
              let text := over_stale (map_text blk_dev size blksize (ranges s)) (mc_stale c) in
              if negb (mc_lines c) then fail kUncryptWriteError dev (sent s)
              else if negb (mc_sync_map c) then fail kUncryptFileSyncError dev (sent s)
              else if negb (mc_close_map c) then fail kUncryptFileCloseError dev (sent s)
              else if encrypted && negb (mc_sync_dev c) then fail kUncryptFileSyncError dev (sent s)
              else if encrypted && negb (mc_close_dev c) then fail kUncryptFileCloseError dev (sent s)
              else if negb (mc_rename c) then fail kUncryptFileRenameError dev (sent s)
              else
              let done e := Some (MkOutcome e (Some text) dev (sent s)) in
              if negb (mc_open_dir c) then done kUncryptFileOpenError
              else if negb (mc_sync_dir c) then done kUncryptFileSyncError
              else if negb (mc_close_dir c) then done kUncryptFileCloseError
              else done 0
          end
      end
  end.

(** ** The services *)
(** [realpath]: what Realpath returns. *)
Definition Uncrypt (c : MapCalls) (crypto_state : string) (fstab : list FstabEntry) (realpath : option string)
    (package dev : list Z) (old_map : option string) : option Outcome :=
  match realpath with
  | None => Some (MkOutcome kUncryptRealpathFindError old_map dev [])
  | Some path =>
      let '(blk_dev, encrypted, f2fs_fs) := FindBlockDevice crypto_state fstab path in
      if String.eqb blk_dev "" then Some (MkOutcome kUncryptBlockDeviceFindError old_map dev [])
      else if starts_with path "/data/" then ProductBlockMap c blk_dev encrypted f2fs_fs package dev old_map
      else Some (MkOutcome 0 old_map dev [])
  end.
(** The result, the statuses on the socket and the last uncrypt_status file;
    [input_path] is that of the command line or of the path file, [seconds]
    the time the work took. *)
Definition uncrypt_wrapper (input_path : option string) (uncrypt : string -> option Outcome) (seconds : Z)
    : option (bool * list Z * string * option Outcome) :=
  match input_path with
  | None => Some (false, [-1], ("uncrypt_error: " ++ to_string kUncryptPackageMissingError ++ newline)%string, None)
  | Some path =>
      o ← uncrypt path;
      let time := ("uncrypt_time: " ++ to_string seconds ++ newline)%string in
      if negb (code o =? 0)
      then Some (false, statuses o ++ [-1], (time ++ "uncrypt_error: " ++ to_string (code o) ++ newline)%string, Some o)
      else Some (true, statuses o ++ [100], time, Some o)
  end.
Definition clear_bcb (w : Misc) : bool * list Z * Misc :=
  match clear_bootloader_message w with
  | (inl _, w) => (true, [100], w)
  | (inr _, w) => (false, [-1], w)
  end.
(** "--wipe_package=" and the option it becomes; the contents of a path are
    [read_file]. *)
Definition wipe_prefix : string := "--wipe_package=".
Fixpoint wipe_options (read_file : string -> option (list Z)) (options : list string) (wipe : list Z)
    : option (list string * list Z) :=
  match options with
  | [] => Some ([], wipe)
  | o :: options =>
      if starts_with o wipe_prefix then
        wipe ← read_file (str_drop (String.length wipe_prefix) o);
        r ← wipe_options read_file options wipe;
        Some (("--wipe_package_size=" ++ to_string (blen wipe))%string :: r.1, r.2)
      else r ← wipe_options read_file options wipe; Some (o :: r.1, r.2)
  end.
(** [None]: the message that the client announced cannot be held, or an empty
    option reaches back(); [message]: the bytes received, absent when a read
    fails. *)
Definition setup_bcb `{AndroidBase} (read_file : string -> option (list Z)) (message : option string) (w : Misc)
    : option (bool * list Z * Misc) :=
  match message with
  | None => Some (false, [], w)
  | Some content =>
      match wipe_options read_file (base_Split content newline) [] with
      | None => Some (false, [], w)
      | Some (options, wipe) =>
          r ← write_bootloader_options (map bytes_of options) w;
          match r with
          | (inr _, w) => Some (false, [-1], w)
          | (inl _, w) =>
              match (if bool_decide (wipe = []) then (inl (), w) else write_wipe_package wipe w) with
              | (inr _, w) => Some (false, [-1], w)
              | (inl _, w) => Some (true, [100], w)
              end
          end
      end
  end.

(** ** The ranges *)
(** The pairs of a vector of alternating bounds. *)
Definition flat (ps : list Range) : list Z := ps ≫= fun p => [p.1; p.2].
Lemma flat_snoc ps p : flat (ps ++ [p]) = flat ps ++ [p.1; p.2].
Proof. unfold flat. by rewrite bind_app. Qed.
Lemma last_flat ps : last (flat ps) = snd <$> last ps.
Proof.
  destruct ps as [|p ps _] using rev_ind; [done|]. rewrite flat_snoc, last_snoc.
  change [p.1; p.2] with ([p.1] ++ [p.2]). by rewrite app_assoc, last_snoc.
Qed.
Lemma add_block_flat ps b : Forall range_ok ps -> 0 <= b < 2 ^ 63 ->
  exists ps', add_block_to_ranges (flat ps) b = flat ps' /\ Forall range_ok ps' /\ expand ps' = expand ps ++ [b].
Proof.
  intros Hok Hb. unfold add_block_to_ranges. rewrite last_flat.
  assert (Hnew : exists ps', flat ps ++ [b; b + 1] = flat ps' /\ Forall range_ok ps' /\ expand ps' = expand ps ++ [b]).
  { exists (ps ++ [(b, b + 1)]). rewrite flat_snoc, expand_app. split; [done|]. split.
    - apply Forall_app. split; [done|]. constructor; [|constructor]. unfold range_ok. cbn. lia.
    - f_equal. unfold expand. cbn. rewrite app_nil_r. unfold range_blocks. cbn. replace (b + 1 - b) with 1 by lia.
      apply seqZ_one. }
  destruct ps as [|p ps _] using rev_ind; [done|]. rewrite last_snoc. cbn [fmap option_fmap option_map].
  destruct (Z.eqb_spec b p.2) as [->|]; [|exact Hnew]. clear Hnew.
  exists (ps ++ [(p.1, p.2 + 1)]). rewrite !flat_snoc, !expand_app.
  apply Forall_app in Hok as [Hok Hp]. apply Forall_cons in Hp as [Hp _]. unfold range_ok in Hp. split; [|split].
  - change [p.1; p.2] with ([p.1] ++ [p.2]). rewrite app_assoc, removelast_last, <- app_assoc. done.
  - apply Forall_app. split; [done|]. constructor; [|constructor]. unfold range_ok. cbn. lia.
  - rewrite <- app_assoc. f_equal. unfold expand. cbn. rewrite !app_nil_r. unfold range_blocks. cbn.
    replace (p.2 + 1 - p.1) with (p.2 - p.1 + 1) by lia. rewrite seqZ_app by lia. f_equal.
    replace (p.1 + (p.2 - p.1)) with p.2 by lia. apply seqZ_one.
Qed.

(** ** The window *)
Section Window.
Context (c : MapCalls) (encrypted : bool) (package dev0 : list Z) (size blksize : Z) (blk : Z -> Z).
Definition blocks_of : Z := (size - 1) / blksize + 1.
(** The bytes of block [i] of the package. *)
Definition part (i : Z) : Z := Z.min blksize (size - i * blksize).
Definition block_bytes (i : Z) : list Z := slice (i * blksize) (part i) package.
(** The kernel finds the blocks and serves the transfers. *)
Record serves : Prop := MkServes {
  sv_size : 0 < size; sv_package : blen package = size; sv_block : 0 < blksize;
  sv_find : forall k, 0 <= k < blocks_of -> find_block c k = inr (blk k);
  sv_range : forall k, 0 <= k < blocks_of -> 0 <= blk k < 2 ^ 31;
  sv_read : encrypted = true -> forall p, mc_read c p = true;
  sv_write : encrypted = true -> forall k, mc_write c k = None;
  sv_fit : encrypted = true -> forall k, 0 <= k < blocks_of -> (blk k + 1) * blksize <= blen dev0;
  sv_inj : encrypted = true -> forall i j, 0 <= i < j -> j < blocks_of -> blk i ≠ blk j }.
Definition position (t : Z) : Z := if encrypted then Z.min (t * blksize) size else t * blksize.
(** [h] blocks are written out, [t] are read. *)
Record window (h t : Z) (s : Loop) : Prop := MkWindow {
  wd_count : 0 <= h <= t /\ t <= blocks_of /\ t - h <= 4;
  wd_head : head s = h mod 5; wd_tail : tail s = t mod 5; wd_block : head_block s = h; wd_pos : pos s = position t;
  wd_ranges : exists ps, ranges s = flat ps /\ Forall range_ok ps /\ expand ps = map blk (seqZ 0 h);
  wd_plain : encrypted = false -> device s = dev0;
  wd_buffers : encrypted = true -> length (buffers s) = 5%nat /\ Forall (fun b => blen b = blksize) (buffers s);
  wd_held : encrypted = true -> forall i, h <= i < t ->
    take (Z.to_nat (part i)) (nth (Z.to_nat (i mod 5)) (buffers s) []) = block_bytes i;
  wd_size : encrypted = true -> blen (device s) = blen dev0;
  wd_done : encrypted = true -> forall i, 0 <= i < h -> slice (blk i * blksize) (part i) (device s) = block_bytes i;
  wd_rest : encrypted = true -> forall b, 0 <= b -> (b + 1) * blksize <= blen dev0 -> (forall i, 0 <= i < h -> blk i ≠ b) ->
    slice (b * blksize) blksize (device s) = slice (b * blksize) blksize dev0 }.
Context (HS : serves).

Lemma blocks_cover i : 0 <= i < blocks_of <-> 0 <= i /\ i * blksize < size.
Proof.
  destruct HS as [H1 _ H2 _ _ _ _ _ _]. unfold blocks_of. pose proof (Z.div_mod (size - 1) blksize ltac:(lia)).
  pose proof (Z.mod_pos_bound (size - 1) blksize ltac:(lia)). split; intros [Hi Hlt]; (split; [lia|nia]).
Qed.
Lemma part_range i : 0 <= i < blocks_of -> 0 < part i <= blksize.
Proof. intros [Hi Hlt]%blocks_cover. destruct HS as [H1 _ H2 _ _ _ _ _ _]. unfold part. lia. Qed.
Lemma ring_full h t : 0 <= t - h <= 4 -> ((t mod 5 + 1) mod 5 =? h mod 5) = (t - h =? 4).
Proof.
  intros. destruct (Z.eqb_spec (t - h) 4); [apply Z.eqb_eq|apply Z.eqb_neq]; Z.div_mod_to_equations; lia.
Qed.
Lemma ring_empty h t : 0 <= t - h <= 4 -> (h mod 5 =? t mod 5) = (t - h =? 0).
Proof.
  intros. destruct (Z.eqb_spec (t - h) 0); [apply Z.eqb_eq|apply Z.eqb_neq]; Z.div_mod_to_equations; lia.
Qed.
Lemma ring_next x : (x mod 5 + 1) mod 5 = (x + 1) mod 5.
Proof. Z.div_mod_to_equations; lia. Qed.
Lemma ring_differ i j : 0 < j - i <= 4 -> i mod 5 ≠ j mod 5.
Proof. intros. Z.div_mod_to_equations; lia. Qed.
Lemma ring_index i : (Z.to_nat (i mod 5) < 5)%nat.
Proof. pose proof (Z.mod_pos_bound i 5). lia. Qed.
Lemma map_seqZ_snoc h : 0 <= h -> map blk (seqZ 0 (h + 1)) = map blk (seqZ 0 h) ++ [blk h].
Proof. intros Hh. by rewrite seqZ_app, map_app, seqZ_one by lia. Qed.
Lemma blocks_apart i j : blk i ≠ blk j -> blk i * blksize + blksize <= blk j * blksize \/ blk j * blksize + blksize <= blk i * blksize.
Proof. destruct HS as [_ _ H2 _ _ _ _ _ _]. intros. nia. Qed.

Lemma write_out_step h t s : window h t s -> h < t ->
  exists s', write_out c encrypted blksize s = inr s' /\ window (h + 1) t s' /\ pos s' = pos s.
Proof.
  intros [Hc Hh Ht Hb Hp (ps & Hr & Hok & Hex) Hpl Hbf Hheld Hsz Hdn Hrs] Hlt.
  assert (Hin : 0 <= h < blocks_of) by lia. pose proof (sv_range HS h Hin) as Hbr. pose proof (sv_block HS) as Hbl.
  pose proof (part_range h Hin) as Hpart. unfold write_out. rewrite Hb, (sv_find HS h Hin).
  destruct (add_block_flat ps (blk h) Hok ltac:(lia)) as (ps' & Ha & Hok' & Hex').
  assert (Hranges : exists ps, add_block_to_ranges (ranges s) (blk h) = flat ps /\ Forall range_ok ps /\
    expand ps = map blk (seqZ 0 (h + 1))).
  { exists ps'. rewrite Hr, Ha, Hex', Hex, map_seqZ_snoc by lia. done. }
  destruct (Sumbool.sumbool_of_bool encrypted) as [Ee|Ee]; rewrite Ee.
  2: { eexists. split; [done|]. split; [|done].
       split; cbn; try done; try (intros; congruence); [lia|by rewrite Hh, ring_next]. }
  rewrite (sv_write HS Ee). eexists. split; [done|]. split; [|done].
  destruct (Hbf Ee) as [Hl5 Hbs]. specialize (Hheld Ee). specialize (Hsz Ee). specialize (Hdn Ee).
  specialize (Hrs Ee). pose proof (sv_fit HS Ee h Hin) as Hfit.
  rewrite Hh. set (buffer := nth (Z.to_nat (h mod 5)) (buffers s) []).
  assert (Hlen : blen buffer = blksize).
  { rewrite Forall_forall in Hbs. apply Hbs, list_elem_of_In, nth_In. rewrite Hl5. apply ring_index. }
  assert (Hbuf : take (Z.to_nat (part h)) buffer = block_bytes h) by (apply Hheld; lia).
  split; cbn [head head_block ranges tail pos buffers device]; try done.
  - lia.
  - by rewrite ring_next.
  - congruence.
  - intros _ i Hi. apply Hheld. lia.
  - intros _. unfold blen. rewrite length_overwrite; [done|nia|]. unfold blen in *. nia.
  - intros _ i Hi. rewrite (Z.mul_comm blksize). destruct (Z.eq_dec i h) as [->|Hne].
    + rewrite slice_overwrite_same by nia. done.
    + pose proof (part_range i ltac:(lia)). pose proof (sv_fit HS Ee i ltac:(lia)).
      pose proof (blocks_apart i h (sv_inj HS Ee i h ltac:(lia) ltac:(lia))).
      pose proof (sv_range HS i ltac:(lia)). rewrite slice_overwrite_other by nia. apply Hdn. lia.
  - intros _ b Hb0 Hb1 Hb2. rewrite (Z.mul_comm blksize).
    assert (blk h ≠ b) by (apply Hb2; lia). rewrite slice_overwrite_other by nia. apply Hrs; [done|done|]. intros i Hi. apply Hb2. lia.
Qed.
Lemma length_block_bytes i : 0 <= i < blocks_of -> blen (block_bytes i) = part i.
Proof.
  intros Hi. pose proof (part_range i Hi). pose proof (sv_package HS). unfold block_bytes, blen at 1.
  rewrite slice_inside_len; [done|pose proof (sv_block HS); nia|lia|]. unfold part. lia.
Qed.
Lemma position_next t : 0 <= t < blocks_of -> position t = t * blksize /\
  position (t + 1) = position t + (if encrypted then Z.min blksize (size - t * blksize) else blksize).
Proof. intros [_ Hlt]%blocks_cover. unfold position. pose proof (sv_block HS). destruct encrypted; nia. Qed.
Lemma position_end t : 0 <= t <= blocks_of -> (size <=? position t) = (t =? blocks_of).
Proof.
  intros Ht. pose proof (sv_block HS). destruct (Z.eqb_spec t blocks_of) as [->|Hne].
  - apply Z.leb_le. assert (~ 0 <= blocks_of < blocks_of) as Hb by lia. rewrite blocks_cover in Hb.
    unfold position. destruct encrypted; nia.
  - apply Z.leb_gt. destruct (position_next t ltac:(lia)) as [-> _]. apply blocks_cover. lia.
Qed.
Lemma window_progress h t s : window h t s -> window h t (show_progress size s).
Proof. unfold show_progress. by destruct (_ <? _); intros []. Qed.

Lemma read_in_step h t s : window h t s -> t < blocks_of -> t - h <= 3 ->
  exists s', read_in c encrypted package size blksize s = inr s' /\ window h (t + 1) s'.
Proof.
  intros [Hc Hh Ht Hb Hp Hr Hpl Hbf Hheld Hsz Hdn Hrs] Hlt Hroom.
  assert (Hin : 0 <= t < blocks_of) by lia. destruct (position_next t Hin) as [P1 P2].
  pose proof (length_block_bytes t Hin) as Hbb. pose proof (part_range t Hin) as Hpart.
  unfold read_in. rewrite Ht. destruct (Sumbool.sumbool_of_bool encrypted) as [Ee|Ee]; rewrite Ee in P2 |- *.
  2: { eexists. split; [done|]. split; cbn [head head_block ranges tail pos buffers device]; try done;
       try (intros; congruence); [lia|by rewrite ring_next]. }
  rewrite (sv_read HS Ee), Hp, P1. cbn [negb]. eexists. split; [done|]. destruct (Hbf Ee) as [Hl5 Hbs].
  fold (part t) in *. fold (block_bytes t). set (old := nth (Z.to_nat (t mod 5)) (buffers s) []).
  assert (Hold : blen old = blksize).
  { rewrite Forall_forall in Hbs. apply Hbs, list_elem_of_In, nth_In. rewrite Hl5. apply ring_index. }
  assert (Hnew : blen (overwrite 0 (block_bytes t) old) = blksize).
  { unfold blen in *. rewrite length_overwrite; lia. }
  split; cbn [head head_block ranges tail pos buffers device]; try done; try (intros; congruence).
  - lia.
  - by rewrite ring_next.
  - intros _. rewrite length_insert. split; [done|]. by apply Forall_insert.
  - intros _ i Hi. rewrite nth_lookup. destruct (Z.eq_dec i t) as [->|Hne].
    + rewrite list_lookup_insert_eq by (rewrite Hl5; apply ring_index). cbn [default from_option id].
      rewrite overwrite_all, take_app_length'; [done|]. unfold blen in Hbb. lia.
    + rewrite list_lookup_insert_ne, <- nth_lookup; [apply Hheld; [done|lia]|].
      pose proof (ring_differ i t ltac:(lia)). pose proof (Z.mod_pos_bound i 5). pose proof (Z.mod_pos_bound t 5). lia.
Qed.

Lemma fill_window fuel : forall h t s, window h t s -> blocks_of - t <= Z.of_nat fuel ->
  exists h' s', fill c encrypted package size blksize fuel s = inr s' /\ window h' blocks_of s'.
Proof.
  induction fuel as [|fuel IH]; intros h t s Hw Hf; pose proof (wd_count _ _ _ Hw) as Hc; cbn [fill];
    rewrite (wd_pos _ _ _ Hw), position_end by lia; (destruct (Z.eqb_spec t blocks_of) as [->|Hne]; [by exists h, s|]); [lia|].
  apply window_progress in Hw. rewrite (wd_tail _ _ _ Hw), (wd_head _ _ _ Hw). unfold WINDOW_SIZE.
  rewrite ring_full by lia. destruct (Z.eqb_spec (t - h) 4).
  - destruct (write_out_step _ _ _ Hw ltac:(lia)) as (s1 & -> & Hw1 & _).
    destruct (read_in_step _ _ _ Hw1 ltac:(lia) ltac:(lia)) as (s2 & -> & Hw2). apply (IH (h + 1) (t + 1)); [done|lia].
  - destruct (read_in_step _ _ _ Hw ltac:(lia) ltac:(lia)) as (s2 & -> & Hw2). apply (IH h (t + 1)); [done|lia].
Qed.
Lemma flush_window_all fuel : forall h t s, window h t s -> t - h <= Z.of_nat fuel ->
  exists s', flush_window c encrypted blksize fuel s = inr s' /\ window t t s'.
Proof.
  induction fuel as [|fuel IH]; intros h t s Hw Hf; pose proof (wd_count _ _ _ Hw) as Hc; cbn [flush_window];
    rewrite (wd_head _ _ _ Hw), (wd_tail _ _ _ Hw), ring_empty by lia;
    (destruct (Z.eqb_spec (t - h) 0) as [|Hne]; [exists s; replace h with t in Hw by lia; done|]); [lia|].
  destruct (write_out_step _ _ _ Hw ltac:(lia)) as (s1 & -> & Hw1 & _). apply (IH (h + 1)); [done|lia].
Qed.
Lemma window_start sent0 :
  window 0 0 (MkLoop [] 0 0 0 (if encrypted then replicate 5 (replicate (Z.to_nat blksize) 0) else []) 0 0 sent0 dev0).
Proof.
  pose proof (sv_block HS). pose proof (sv_size HS). assert (0 < blocks_of) by (apply (proj2 (blocks_cover 0)); lia).
  split; cbn [head head_block ranges tail pos buffers device]; try done; try lia.
  - unfold position. destruct encrypted; lia.
  - by exists [].
  - intros ->. split; [done|]. apply Forall_replicate. unfold blen. rewrite length_replicate. lia.
Qed.
End Window.

(** ** The text of the map *)
Lemma is_digit_cases c : is_digit c = true -> c ≠ "-"%char /\ c ≠ "+"%char.
Proof. intros Hd. split; intros ->; discriminate Hd. Qed.
Lemma scan_uint_digit c s : is_digit c = true -> scan_uint (String c s) =
  match digits (String c s) None with
  | (Some v, rest) => Some (if UINT64_MAX <? v then UINT64_MAX else v, rest)
  | (None, _) => None
  end.
Proof.
  intros Hd. unfold scan_uint. cbn [skip_space]. rewrite (digit_not_space c Hd).
  destruct (is_digit_cases c Hd) as [H1 H2].
  replace (match String c s with String "-" s' => (true, s') | String "+" s' => (false, s') | _ => (false, String c s) end)
    with (false, String c s); [done|].
  destruct c as [[] [] [] [] [] [] [] []]; done.
Qed.
Lemma scan_uint_print z rest : is_u64 z -> stops rest = true -> scan_uint (to_string z ++ rest) = Some (z, rest).
Proof.
  intros Hz Hr. pose proof (digits_to_string z rest ltac:(unfold is_u64 in Hz; lia) Hr) as Hd.
  destruct (to_string_head z) as (c & s & E & Hc). rewrite E in Hd |- *.
  change (String c s ++ rest)%string with (String c (s ++ rest)) in Hd |- *. rewrite scan_uint_digit, Hd by done.
  destruct (Z.ltb_spec UINT64_MAX z); [unfold_width; lia|done].
Qed.
Lemma scan_uint_space s : scan_uint (" " ++ s) = scan_uint s.
Proof. done. Qed.
Lemma scan_one_print z : is_u64 z -> scan_one (to_string z) = Some z.
Proof. intros Hz. unfold scan_one. rewrite <- (string_app_nil (to_string z)), scan_uint_print by done. done. Qed.
Lemma scan_two_print a b : is_u64 a -> is_u64 b -> scan_two (to_string a ++ " " ++ to_string b) = Some (a, b).
Proof.
  intros Ha Hb. unfold scan_two. rewrite scan_uint_print by done. rewrite some_bind. cbn [snd fst].
  rewrite scan_uint_space, <- (string_app_nil (to_string b)), scan_uint_print by done. done.
Qed.
Definition pair_line (p : Z * Z) : string := (to_string p.1 ++ " " ++ to_string p.2)%string.
Lemma parse_ranges_print ps : Forall range_ok ps -> forall rs remaining, wf rs ->
  blocks_ rs + total ps < 2 ^ 32 -> total ps <= remaining < 2 ^ 32 ->
  parse_ranges (map pair_line ps) rs remaining =
    Some (MkRangeSet (ranges_ rs ++ ps) (blocks_ rs + total ps), remaining - total ps).
Proof.
  induction 1 as [|[a b] ps Hp Hps IH]; intros rs rem Hwf Hb Hrem.
  { cbn. rewrite app_nil_r, Z.add_0_r, Z.sub_0_r. by destruct rs. }
  pose proof (total_nonneg ps Hps). pose proof (total_app [(a, b)] ps) as Ht. cbn [app] in Ht. rewrite Ht in *.
  assert (E1 : total [(a, b)] = b - a) by (unfold total; cbn; lia). rewrite E1 in *.
  pose proof Hp as [Ho1 Ho2]. unfold range_ok in Hp. cbn [fst snd] in Hp.
  assert (0 <= blocks_ rs) by (destruct Hwf as [Hr -> _]; by apply total_nonneg).
  cbn [map parse_ranges]. change (pair_line (a, b)) with (to_string a ++ " " ++ to_string b)%string.
  rewrite scan_two_print by (unfold is_u64; lia).
  rewrite some_bind. unwrap. destruct (Z.leb_spec b a); [lia|]. destruct (Z.ltb_spec rem (b - a)); [lia|]. cbn [orb].
  rewrite PushBack_ok by (try done; cbn; unfold_width; lia). cbn [fst snd].
  rewrite IH; [|..]; cbn [ranges_ blocks_]; [|..|lia|lia].
  - f_equal. f_equal; [|lia]. f_equal; [by rewrite <- app_assoc|lia].
  - pose proof (PushBack_wf rs (a, b) Hwf) as Hw. rewrite PushBack_ok in Hw by (try done; cbn; unfold_width; lia).
    apply Hw; unfold is_u64; cbn; lia.
Qed.
(** A device name as the first line of a map can hold it. *)
Definition name_ok (dev : string) : bool :=
  match dev with String c _ => negb (is_space c) | EmptyString => false end && no_char (ascii_of_nat 10) dev.
Definition map_lines (dev : string) (size blksize : Z) (ps : list Range) : list string :=
  dev :: pair_line (size, blksize) :: to_string (Z.of_nat (length ps)) :: map pair_line ps.
Lemma length_flat ps : length (flat ps) = (2 * length ps)%nat.
Proof. induction ps as [|p ps IH]; [done|]. change (flat (p :: ps)) with (p.1 :: p.2 :: flat ps). cbn [length]. lia. Qed.
Lemma concat_cons sep p q ps : String.concat sep (p :: q :: ps) = (p ++ sep ++ String.concat sep (q :: ps))%string.
Proof. done. Qed.
Lemma range_lines_flat ps : ps ≠ [] -> range_lines (flat ps) = (String.concat newline (map pair_line ps) ++ newline)%string.
Proof.
  induction ps as [|p ps IH]; [done|]. intros _. change (flat (p :: ps)) with (p.1 :: p.2 :: flat ps). cbn [range_lines].
  destruct ps as [|q ps].
  - cbn [map String.concat flat]. unfold pair_line. by rewrite !string_app_assoc, string_app_nil.
  - rewrite IH by done. cbn [map]. rewrite concat_cons. generalize (String.concat newline (pair_line q :: map pair_line ps)).
    intros tail. unfold pair_line. by rewrite !string_app_assoc.
Qed.
Lemma map_text_lines dev size blksize ps : ps ≠ [] ->
  map_text dev size blksize (flat ps) = (String.concat newline (map_lines dev size blksize ps) ++ newline)%string.
Proof.
  intros Hne. unfold map_text, header_text. rewrite range_lines_flat, length_flat by done.
  replace (Z.of_nat (2 * length ps) / 2) with (Z.of_nat (length ps)) by (Z.div_mod_to_equations; lia).
  destruct ps as [|p ps]; [done|]. unfold map_lines. cbn [map]. rewrite !concat_cons.
  generalize (String.concat newline (pair_line p :: map pair_line ps)). intros tail. unfold pair_line. cbn [fst snd].
  by rewrite !string_app_assoc.
Qed.
(** Trim takes the last newline away. *)
Lemma trim_right_end f s d c : f d = false -> f c = true ->
  trim_right f (s ++ String d (String c "")) = (s ++ String d "")%string.
Proof.
  intros Hd Hc. induction s as [|a s IH].
  { change (trim_right f (String d (String c "")) = String d ""). cbn [trim_right]. by rewrite Hc, Hd. }
  change (trim_right f (String a (s ++ String d (String c ""))) = String a (s ++ String d "")). cbn [trim_right].
  rewrite IH. by destruct s.
Qed.
Lemma string_snoc s : s ≠ ""%string -> exists t d, s = (t ++ String d "")%string.
Proof.
  induction s as [|c s IH]; [done|]. intros _. destruct s as [|c' s]; [by exists ""%string, c|].
  destruct IH as (t & d & E); [done|]. exists (String c t), d. by rewrite E.
Qed.
(** A text whose ends are not white space, and a newline. *)
Lemma trim_line c s t d : is_space c = false -> is_space d = false -> String c s = (t ++ String d "")%string ->
  trim is_space (String c s ++ newline) = String c s.
Proof.
  intros Hc Hd E. unfold trim. change (String c s ++ newline)%string with (String c (s ++ newline)). cbn [trim_left]. rewrite Hc.
  change (String c (s ++ newline)) with (String c s ++ newline)%string. rewrite E, <- string_app_assoc.
  by apply trim_right_end.
Qed.
Lemma to_string_end z : exists t d, to_string z = (t ++ String d "")%string /\ is_space d = false.
Proof.
  destruct (to_string_digits z) as [Hd Hne]. destruct (string_snoc _ Hne) as (t & d & E). exists t, d. split; [done|].
  rewrite E, all_chars_app in Hd. apply andb_true_iff in Hd as [_ Hd]. cbn in Hd. rewrite andb_true_r in Hd.
  by apply digit_not_space.
Qed.
Lemma trim_map_lines dev size blksize ps : name_ok dev = true -> ps ≠ [] ->
  let text := String.concat newline (map_lines dev size blksize ps) in trim is_space (text ++ newline) = text.
Proof.
  intros Hn Hne text. unfold name_ok in Hn. destruct dev as [|c dev]; [done|]. apply andb_true_iff in Hn as [Hc%negb_true_iff _].
  assert (Hend : exists t d, text = (t ++ String d "")%string /\ is_space d = false).
  { unfold text, map_lines. destruct ps as [|p ps _] using rev_ind; [done|]. rewrite map_app. cbn [map].
    rewrite !app_comm_cons, concat_snoc by done. destruct (to_string_end p.2) as (t & d & E & Hd). unfold pair_line at 3.
    rewrite E, !string_app_assoc. eexists _, d. split; [done|done]. }
  destruct Hend as (t & d & E & Hd). assert (exists s, text = String c s) as [s Es].
  { unfold text, map_lines. rewrite concat_cons. by eexists. }
  rewrite Es in E |- *. by eapply trim_line.
Qed.
Lemma pair_line_no_newline p : no_char (ascii_of_nat 10) (pair_line p) = true.
Proof.
  unfold pair_line. rewrite !no_char_app, !no_char_to_string; [done|..];
    intros d Hd; repeat (destruct Hd as [<-|Hd]; [done|]); done.
Qed.
Lemma to_string_no_newline z : no_char (ascii_of_nat 10) (to_string z) = true.
Proof. apply no_char_to_string. intros d Hd; repeat (destruct Hd as [<-|Hd]; [done|]); done. Qed.
Lemma length_total ps : Forall range_ok ps -> Z.of_nat (length ps) <= total ps.
Proof.
  induction 1 as [|p ps Hp Hps IH]; [done|]. pose proof (total_app [p] ps) as Ht. cbn [app] in Ht. rewrite Ht.
  assert (total [p] = p.2 - p.1) by (unfold total; cbn; lia). unfold range_ok in Hp. cbn [length]. lia.
Qed.
(** The recovery reads back what uncrypt prints. *)
Lemma parse_map_text `{B : AndroidBase} `{!AndroidBaseLaws B} Trim dev size blksize ps :
  (forall s, Trim s = trim is_space s) -> name_ok dev = true -> ps ≠ [] -> Forall range_ok ps ->
  0 < size < 2 ^ 64 -> 0 < blksize < 2 ^ 32 -> total ps = (size - 1) / blksize + 1 -> total ps < 2 ^ 32 ->
  ParseBlockMapFile Trim (Some (map_text dev size blksize (flat ps))) =
    Some (MkBlockMap dev size blksize (MkRangeSet ps (total ps))).
Proof.
  intros HT Hn Hne Hok Hs Hb Ht Hmax. unfold ParseBlockMapFile. rewrite some_bind, HT, map_text_lines, trim_map_lines by done.
  unfold newline. rewrite (split_concat (ascii_of_nat 10)); [|done|].
  2: { unfold map_lines. apply andb_true_iff in Hn as [_ Hn]. repeat constructor; try done.
       - apply pair_line_no_newline. - apply to_string_no_newline.
       - apply Forall_map, Forall_true. intros p. apply pair_line_no_newline. }
  pose proof (length_total ps Hok) as Hl. unfold map_lines. cbn [length lookup list_lookup drop]. rewrite length_map.
  destruct ps as [|p ps'] eqn:Eps; [done|]. rewrite <- Eps in *. assert (length ps ≠ 0%nat) by (rewrite Eps; done).
  destruct (Nat.ltb_spec (S (S (S (length ps)))) 4); [lia|]. rewrite !some_bind.
  change (pair_line (size, blksize)) with (to_string size ++ " " ++ to_string blksize)%string.
  rewrite scan_two_print by (unfold is_u64; lia). rewrite some_bind. unwrap.
  destruct (Z.eqb_spec size 0); [lia|]. destruct (Z.eqb_spec blksize 0); [lia|]. cbn [orb].
  rewrite some_bind, scan_one_print by (unfold is_u64; lia). rewrite !some_bind, <- Ht. unwrap.
  destruct (Z.ltb_spec UINT32_MAX (total ps)); [unfold_width; lia|]. destruct (Z.eqb_spec (Z.of_nat (length ps)) 0); [lia|].
  replace (Z.of_nat (S (S (S (length ps)))) =? 3 + Z.of_nat (length ps)) with true by (symmetry; apply Z.eqb_eq; lia).
  cbn [orb negb]. rewrite drop_0, parse_ranges_print by (try done; try apply empty_wf; cbn; lia). rewrite some_bind, Z.sub_diag. done.
Qed.

(** ** A package that is mapped *)
(** Every call of ProductBlockMap succeeds, and no old temporary map is left. *)
Definition calls_ok (c : MapCalls) : bool :=
  mc_remove c && mc_open_map c && mc_socket c && mc_header c && mc_open c && mc_wopen c && mc_pin c && mc_lines c &&
  mc_sync_map c && mc_close_map c && mc_sync_dev c && mc_close_dev c && mc_rename c && mc_open_dir c && mc_sync_dir c &&
  mc_close_dir c && String.eqb (mc_stale c) "".
Lemma product_done c dev_name encrypted f2fs package dev old size blksize blk :
  calls_ok c = true -> mc_stat c = Some (size, blksize) -> serves c encrypted package dev size blksize blk ->
  exists s, window encrypted package dev size blksize blk (blocks_of size blksize) (blocks_of size blksize) s /\
    ProductBlockMap c dev_name encrypted f2fs package dev old =
      Some (MkOutcome 0 (Some (map_text dev_name size blksize (ranges s))) (device s) (sent s)).
Proof.
  intros Hok Hst HS. unfold calls_ok in Hok. rewrite !andb_true_iff in Hok.
  destruct Hok as [[[[[[[[[[[[[[[[H1 H2] H3] H4] H5] H6] H7] H8] H9] H10] H11] H12] H13] H14] H15] H16] H17%String.eqb_eq].
  unfold ProductBlockMap. rewrite Hst, H1, H2, H3, H4, H5, H6, H7, H17. cbn [negb]. rewrite !andb_false_r.
  pose proof (sv_block _ _ _ _ _ _ _ HS). pose proof (sv_size _ _ _ _ _ _ _ HS).
  destruct (Z.eqb_spec blksize 0); [lia|].
  assert (blocks_of size blksize <= size).
  { unfold blocks_of. pose proof (Z.div_le_upper_bound (size - 1) blksize (size - 1)). nia. }
  destruct (fill_window _ _ _ _ _ _ _ HS (Z.to_nat size) 0 0 _ (window_start _ _ _ _ _ _ _ HS [0])) as (h & s1 & -> & Hw1); [lia|].
  pose proof (wd_count _ _ _ _ _ _ _ _ _ Hw1) as Hc.
  destruct (flush_window_all _ _ _ _ _ _ _ HS 5 _ _ _ Hw1) as (s & -> & Hw); [lia|].
  exists s. split; [done|]. rewrite H8, H9, H10, H11, H12, H13, H14, H15, H16. cbn [negb]. rewrite !andb_false_r.
  do 3 f_equal. unfold over_stale. transitivity (map_text dev_name size blksize (ranges s) ++ "")%string; [|apply string_app_nil].
  f_equal. by destruct (String.length _).
Qed.
(** The ranges of a mapped package end below 2^31. *)
Lemma ranges_low ps blk n : Forall range_ok ps -> expand ps = map blk (seqZ 0 n) ->
  (forall k, 0 <= k < n -> 0 <= blk k < 2 ^ 31) -> Forall (fun r => r.2 <= 2 ^ 31) ps.
Proof.
  intros Hok Hex Hb. apply Forall_forall. intros r Hr. rewrite Forall_forall in Hok. pose proof (Hok r Hr) as [Hr1 _].
  assert (Hin : r.2 - 1 ∈ expand ps) by (apply elem_of_expand; exists r; split; [done|lia]).
  rewrite Hex in Hin. apply list_elem_of_fmap in Hin as (k & E & Hk%elem_of_seqZ). specialize (Hb k ltac:(lia)). lia.
Qed.
Lemma rd8_block bs off n i : 0 <= off -> 0 <= i < n -> rd8 bs (off + i) = rd8 (slice off n bs) i.
Proof. intros. by rewrite rd8_slice. Qed.
(** Each byte of the package is where the map says. *)
Lemma block_byte size blksize (blk : Z -> Z) package dev o : 0 < blksize -> 0 <= o < size ->
  0 <= blk (o / blksize) ->
  slice (blk (o / blksize) * blksize) (part size blksize (o / blksize)) dev = block_bytes package size blksize (o / blksize) ->
  rd8 dev (blk (o / blksize) * blksize + o mod blksize) = rd8 package o.
Proof.
  intros Hb Ho Hk E. pose proof (Z.div_mod o blksize ltac:(lia)). pose proof (Z.mod_pos_bound o blksize Hb).
  assert (0 <= o mod blksize < part size blksize (o / blksize)) by (unfold part; lia).
  assert (0 <= o / blksize) by (apply Z.div_pos; lia).
  rewrite (rd8_block _ _ (part size blksize (o / blksize))) by nia. rewrite E. unfold block_bytes.
  rewrite rd8_slice by nia. f_equal. lia.
Qed.


(** Three blocks of a package of ten bytes on a small device. *)
Definition demo_block (k : Z) : Z := if k =? 0 then 6 else k + 1.
Definition demo_calls : MapCalls := MkMapCalls true true "" true (Some (10, 4)) true true true true
  (fun k => Some (demo_block k)) (fun _ _ _ => None) (fun _ _ => true) (fun _ => true) (fun _ => None)
  true true true true true true true true true.
Definition demo_package : list Z := seqZ 1 10.
Definition demo_device : list Z := replicate 32 0.
Lemma demo_serves : serves demo_calls true demo_package demo_device 10 4 demo_block.
Proof.
  assert (Hb : forall k, 0 <= k < blocks_of 10 4 -> k = 0 \/ k = 1 \/ k = 2) by (intros k; change (blocks_of 10 4) with 3; lia).
  assert (He : blen demo_device = 32) by reflexivity. assert (H3 : blocks_of 10 4 = 3) by reflexivity.
  split; try done; try (intros; rewrite ?He; match goal with H : 0 <= ?k < blocks_of 10 4 |- _ =>
    destruct (Hb k H) as [->|[->| ->]] end; (done || lia)).
  intros _ i j Hij Hj. rewrite H3 in Hj. unfold demo_block. destruct (Z.eqb_spec i 0), (Z.eqb_spec j 0); lia.
Qed.

(** A block that FIBMAP does not place at the first call is not found by
    the retries. The failed call left 0 in the variable that RetryFibmap passes
    to FIBMAP again, so the kernel is asked about block 0 of the file: whatever
    the block, the retry yields the place of block 0. That place enters the
    map, and on an encrypted file system the block's plain bytes are written
    over the first block of the package. *)
Theorem uncrypt_retry_finds_block_zero c blksize phys s :
  fib_first c (head_block s) = Some 0 -> retry_sync c (head_block s) 0 = true -> (forall i b, fib_retry c (head_block s) i b = Some (phys b)) ->
  phys 0 ≠ 0 -> mc_write c (head_block s) = None ->
  find_block c (head_block s) = inr (phys 0) /\
  exists s', write_out c true blksize s = inr s' /\ ranges s' = add_block_to_ranges (ranges s) (phys 0) /\
    device s' = overwrite (blksize * phys 0) (nth (Z.to_nat (head s)) (buffers s) []) (device s).
Proof.
  intros H1 H2 H3 H4 H5. assert (E : find_block c (head_block s) = inr (phys 0)).
  { unfold find_block. rewrite H1. cbn [Z.eqb]. unfold RetryFibmap, FIBMAP_RETRY_LIMIT. cbn [retry_fibmap].
    rewrite H2, H3. cbn [negb]. apply Z.eqb_neq in H4. by rewrite H4. }
  split; [done|]. unfold write_out. rewrite E, H5. by eexists.
Qed.
Lemma uncrypt_retry_finds_block_zero_witness :
  exists s', write_out (MkMapCalls true true "" true (Some (10, 4)) true true true true
      (fun k => if k =? 1 then Some 0 else Some (demo_block k)) (fun _ _ b => Some (demo_block b)) (fun _ _ => true)
      (fun _ => true) (fun _ => None) true true true true true true true true true) true 4
    (MkLoop [6; 7] 1 1 3 [[1; 2; 3; 4]; [5; 6; 7; 8]; [9; 10; 0; 0]] 10 90 [0] (overwrite 24 [1; 2; 3; 4] demo_device)) = inr s' /\
  ranges s' = [6; 7; 6; 7] /\ slice 24 4 (device s') = [5; 6; 7; 8].
Proof.
  edestruct (fun c b => uncrypt_retry_finds_block_zero c b demo_block) as (_ & s' & H1 & H2 & H3);
    [| | | | |exists s'; split; [exact H1|]; rewrite H2, H3; split; reflexivity]; try reflexivity; discriminate.
Defined.
