(* ===== verification/UpdateVerifier.v ===== *)
(** update_verifier/update_verifier.cpp: at the first boot of a new slot, read
    every block the care map names through dm-verity, and mark the slot as
    successful only if all of them can be read.

    The machine is the record [Machine]: the device-mapper directory, the
    devices with the blocks dm-verity lets through, the properties and the
    services. The protobuf runtime and libbase's Trim are parameters. *)
From stdpp Require Import base list strings gmap.
From Stdlib Require Import ZArith Lia Ascii.
From S2P Require Import Prelude Libbase CxxString RangeSet BlockMap.

(** ** The care map *)
Record PartitionInfo := MkPartitionInfo { pi_name : string; pi_ranges : string; pi_id : string; pi_fingerprint : string }.
Class CareMapProto := { ParseFromString : string -> option (list PartitionInfo) }.
(** The file: access, open, and the content unless reading fails. *)
Record CareFile := MkCareFile { cf_access : bool; cf_open : bool; cf_content : option string }.

Record Machine := MkMachine {
  mc_scan : option (list string);            (* the dm-X entries of /sys/block, in alphabetical order *)
  mc_dm_name : string -> option string;      (* the content of a file *)
  mc_property : string -> string;
  mc_open : string -> bool; mc_size : string -> Z;
  mc_block : string -> Z -> bool;            (* dm-verity lets the block through *)
  mc_concurrency : Z; mc_userspace_snapshots : bool;
  mc_snapuserd : option bool;                (* the answer of the daemon, absent without a connection *)
  mc_bootctl : bool; mc_is_successful : option bool;
  mc_vold : option bool;                     (* supportsCheckpoint, absent without the service or on an error *)
  mc_mark : bool }.

Section Verifier.
Context `{B : AndroidBase} `{P : CareMapProto}.
Variable Trim : string -> string.
Variable m : Machine.

(** The loop over the partitions of the care map: [None] where it returns. *)
Fixpoint care_partitions (infos : list PartitionInfo) (partition_map_ : smap RangeSet) : bool * smap RangeSet :=
  match infos with
  | [] => (true, partition_map_)
  | p :: infos =>
      if String.eqb (pi_name p) "" then (false, partition_map_)
      else if String.eqb (pi_ranges p) "" then (false, partition_map_)
      else
      let ranges := Parse (pi_ranges p) in
      if bool_decide (ranges_ ranges = []) then (false, partition_map_)
      else if String.eqb (pi_id p) "" || String.eqb (pi_id p) "unknown" then care_partitions infos partition_map_
      else if negb (String.eqb (mc_property m (pi_id p)) (pi_fingerprint p)) then care_partitions infos partition_map_
      else care_partitions infos (default partition_map_ (smap_emplace (pi_name p) ranges partition_map_))
  end.
Definition ParseCareMap (f : CareFile) : bool * smap RangeSet :=
  if negb (cf_access f) then (false, [])
  else if negb (cf_open f) then (false, [])
  else match cf_content f with
  | None => (false, [])
  | Some file_content =>
      if String.eqb file_content "" then (false, [])
      else match ParseFromString file_content with
      | None => (false, [])
      | Some infos =>
          match care_partitions infos [] with
          | (true, []) => (false, [])
          | r => r
          end
      end
  end.

(** ** The devices *)
Definition verity : string := "-verity".
(** The name under which a dm device is filed, if it is. *)
Definition dm_block_name (content : string) : option string :=
  let name := Trim content in
  if String.eqb name "vroot" then Some "system"%string
  else if ends_with name verity then Some (str_take (String.length name - String.length verity) name)
  else if negb (String.eqb (mc_property m "ro.boot.avb_version") "") then None
  else Some name.
(** while (n--): from the last entry to the first. *)
Fixpoint dm_devices (namelist : list string) (devices : smap string) : smap string :=
  match namelist with
  | [] => devices
  | d_name :: namelist =>
      match mc_dm_name m ("/sys/block/" ++ d_name ++ "/dm/name") with
      | None => dm_devices namelist devices
      | Some content =>
          match dm_block_name content with
          | None => dm_devices namelist devices
          | Some name => dm_devices namelist (default devices (smap_emplace name ("/dev/block/" ++ d_name)%string devices))
          end
      end
  end.
Definition FindDmPartitions : smap string :=
  match mc_scan m with
  | None => []
  | Some namelist => dm_devices (rev namelist) []
  end.

(** ** Reading *)
(** ReadFully at an offset: all blocks it touches lie on the device and pass. *)
Definition read_fully (dev : string) (pos n : Z) : bool :=
  (pos + n <=? mc_size m dev) &&
  forallb (mc_block m dev) (seqZ (pos / kBlockSize) ((pos + n - 1) / kBlockSize - pos / kBlockSize + 1)).
Definition kBuffer : Z := 1024 * kBlockSize.
(** while (remain > 0): each round reads up to the buffer's 1024 blocks. *)
Fixpoint read_range (fuel : nat) (dev : string) (pos remain : Z) : bool :=
  if remain <=? 0 then true
  else match fuel with
  | O => false
  | S fuel =>
      let to_read := Z.min remain kBuffer in
      if negb (read_fully dev pos to_read) then false else read_range fuel dev (pos + to_read) (remain - to_read)
  end.
Definition range_fuel (remain : Z) : nat := Z.to_nat (remain / kBuffer + 1).
Fixpoint read_group (dev : string) (ranges : list Range) : bool :=
  match ranges with
  | [] => true
  | (range_start, range_end) :: ranges =>
      let pos := as_off_t (u64 (range_start * kBlockSize)) in
      if (pos <? 0) || (mc_size m dev <? pos) then false
      else
      let remain := u64 (u64 (range_end - range_start) * kBlockSize) in
      if negb (read_range (range_fuel remain) dev pos remain) then false else read_group dev ranges
  end.
Definition thread_func (dev : string) (group : RangeSet) : bool :=
  if negb (mc_open m dev) then false else read_group dev (ranges_ group).
(** [None]: the iterator of Split runs off the ranges. *)
Definition ReadBlocks (dev : string) (ranges : RangeSet) : option bool :=
  let thread_num := if mc_concurrency m =? 0 then 4 else mc_concurrency m in
  groups ← Split ranges thread_num;
  Some (foldl (fun ret t => t && ret) true (map (thread_func dev) groups)).
Definition CheckVerificationStatus : bool := default false (mc_snapuserd m).
Fixpoint verify_each (devices : smap string) (partition_map_ : smap RangeSet) : option bool :=
  match partition_map_ with
  | [] => Some true
  | (name, ranges) :: partition_map_ =>
      match smap_find name devices with
      | None => Some false
      | Some dev =>
          ok ← ReadBlocks dev ranges;
          if negb ok then Some false else verify_each devices partition_map_
      end
  end.
Definition VerifyPartitions (partition_map_ : smap RangeSet) : option bool :=
  if mc_userspace_snapshots m && CheckVerificationStatus then Some true
  else
  let devices := FindDmPartitions in
  if bool_decide (devices = []) then Some false else verify_each devices partition_map_.

(** ** update_verifier *)
Inductive Outcome := Reboot | Leave (marked : bool).
(** What follows the verification. *)
Definition mark_boot : Outcome :=
  if default false (mc_vold m) then Leave false
  else if mc_mark m then Leave true else Reboot.
(** skip_verification by the mode of dm-verity; [None]: an unexpected mode. *)
Definition skip_verification : option bool :=
  let verity_mode := mc_property m "ro.boot.veritymode" in
  if String.eqb verity_mode "" then Some true
  else if String.eqb (lower verity_mode) "eio" then Some false
  else if String.eqb (lower verity_mode) "disabled" then Some true
  else if negb (String.eqb verity_mode "enforcing") then None
  else Some false.
Definition update_verifier (f : CareFile) : option Outcome :=
  if negb (mc_bootctl m) then Some Reboot
  else match mc_is_successful m with
  | Some false =>
      match skip_verification with
      | None => Some Reboot
      | Some true => Some mark_boot
      | Some false =>
          match ParseCareMap f with
          | (false, _) => Some mark_boot
          | (true, partition_map_) =>
              verified ← VerifyPartitions partition_map_;
              Some (if negb verified then Reboot else mark_boot)
          end
      end
  | _ => Some (Leave false)
  end.

(** ** What is read *)
(** A block lies on the device and dm-verity lets it through. *)
Definition block_reads (dev : string) (b : Z) : bool := ((b + 1) * kBlockSize <=? mc_size m dev) && mc_block m dev b.
Lemma forallb_true_iff {A} (f : A -> bool) l : forallb f l = true <-> forall x, x ∈ l -> f x = true.
Proof. rewrite forallb_forall. by setoid_rewrite list_elem_of_In. Qed.
Lemma bool_ext (a b : bool) : (a = true <-> b = true) -> a = b.
Proof. destruct a, b; intros [H1 H2]; try done; [discriminate (H1 eq_refl)|discriminate (H2 eq_refl)]. Qed.
Lemma read_fully_blocks dev b n : 0 < n -> read_fully dev (b * kBlockSize) (n * kBlockSize) = forallb (block_reads dev) (seqZ b n).
Proof.
  intros Hn. unfold read_fully. unfold kBlockSize. rewrite Z.div_mul by lia.
  replace ((b * 4096 + n * 4096 - 1) / 4096 - b + 1) with n by (Z.div_mod_to_equations; lia).
  apply bool_ext. rewrite andb_true_iff, Z.leb_le, !forallb_true_iff. unfold block_reads, kBlockSize.
  setoid_rewrite elem_of_seqZ. setoid_rewrite andb_true_iff. setoid_rewrite Z.leb_le. split.
  - intros [Hs Hb] x Hx. split; [lia|]. by apply Hb.
  - intros H. split; [destruct (H (b + n - 1)); lia|]. intros x Hx. by apply H.
Qed.
Lemma read_range_blocks dev fuel : forall b n, 0 <= n -> n <= 1024 * Z.of_nat fuel ->
  read_range fuel dev (b * kBlockSize) (n * kBlockSize) = forallb (block_reads dev) (seqZ b n).
Proof.
  induction fuel as [|fuel IH]; intros b n Hn Hf; cbn [read_range];
    (destruct (Z.leb_spec (n * kBlockSize) 0) as [H0|H0]; [replace n with 0 by (unfold kBlockSize in H0; lia); done|]);
    unfold kBlockSize in H0; [lia|].
  replace (Z.min (n * kBlockSize) kBuffer) with (Z.min n 1024 * kBlockSize) by (unfold kBuffer, kBlockSize; lia).
  rewrite read_fully_blocks by lia. rewrite <- Z.mul_add_distr_r, <- Z.mul_sub_distr_r, IH by lia.
  assert (E : seqZ b n = seqZ b (Z.min n 1024) ++ seqZ (b + Z.min n 1024) (n - Z.min n 1024))
    by (rewrite <- seqZ_app by lia; f_equal; lia).
  rewrite E, forallb_app.
  by destruct (forallb _ (seqZ b (Z.min n 1024))).
Qed.
Lemma read_group_blocks dev ranges : Forall range_ok ranges -> Forall (fun r => r.2 <= INT_MAX) ranges ->
  read_group dev ranges = forallb (block_reads dev) (expand ranges).
Proof.
  unfold INT_MAX. induction 1 as [|[a e] ranges Hr Hok IH]; intros Hb; [done|]. apply Forall_cons in Hb as [He Hb].
  unfold range_ok in Hr. cbn [fst snd] in *. cbn [read_group]. rewrite expand_cons, forallb_app, <- IH by done.
  unfold range_blocks. cbn [fst snd]. unfold kBlockSize. unwrap. unfold as_off_t. destruct (Z.ltb_spec (a * 4096) (2 ^ 63)); [|lia].
  assert (Hfirst : mc_size m dev < a * 4096 -> forallb (block_reads dev) (seqZ a (e - a)) = false).
  { intros Hs. rewrite seqZ_cons by lia. cbn [forallb]. unfold block_reads, kBlockSize at 1. destruct (Z.leb_spec ((a + 1) * 4096) (mc_size m dev)); [lia|done]. }
  destruct (Z.ltb_spec (a * 4096) 0); [lia|]. destruct (Z.ltb_spec (mc_size m dev) (a * 4096)) as [Hs|Hs]; cbn [orb]; [by rewrite Hfirst|].
  change (a * 4096) with (a * kBlockSize). change ((e - a) * 4096) with ((e - a) * kBlockSize).
  rewrite read_range_blocks; [by destruct (forallb _ (seqZ a (e - a)))|lia|].
  unfold range_fuel, kBuffer, kBlockSize. Z.div_mod_to_equations. lia.
Qed.
Lemma foldl_all l : foldl (fun ret t => t && ret) true l = forallb (fun t => t) l.
Proof.
  enough (forall a, foldl (fun ret t => t && ret) a l = a && forallb (fun t => t) l) as -> by done.
  induction l as [|t l IH]; intros a; cbn; [by rewrite andb_true_r|]. rewrite IH. by destruct t, a.
Qed.
Lemma forallb_bind {A C} (f : C -> bool) (g : A -> list C) l : forallb f (l ≫= g) = forallb (fun x => forallb f (g x)) l.
Proof. induction l as [|x l IH]; [done|]. rewrite bind_cons, forallb_app. cbn [forallb]. by rewrite IH. Qed.
(** Ranges whose blocks are below a bound end there. *)
Lemma ranges_end ranges bound : Forall range_ok ranges -> (forall b, b ∈ expand ranges -> b < bound) ->
  Forall (fun r => r.2 <= bound) ranges.
Proof.
  intros Hok Hb. apply Forall_forall. intros r Hr. rewrite Forall_forall in Hok. pose proof (Hok r Hr) as [Hr1 _].
  assert (Hin : r.2 - 1 ∈ expand ranges) by (apply elem_of_expand; exists r; split; [done|lia]). specialize (Hb _ Hin). lia.
Qed.
(** A range set as Parse returns it. *)
Definition care_ok (rs : RangeSet) : Prop := wf rs /\ ranges_ rs ≠ [] /\ Forall (fun r => r.2 <= INT_MAX) (ranges_ rs).
Lemma ReadBlocks_exact dev rs : care_ok rs -> 0 <= mc_concurrency m < 2 ^ 32 ->
  ReadBlocks dev rs = Some (mc_open m dev && forallb (block_reads dev) (block_list rs)).
Proof.
  intros (Hwf & Hne & Hmax) Hc. unfold ReadBlocks.
  destruct (split_spec rs (if mc_concurrency m =? 0 then 4 else mc_concurrency m) Hwf) as (gs & -> & Hgs & Hall & Hlen & _).
  { unfold is_u64. destruct (_ =? _); lia. }
  { destruct (Z.eqb_spec (mc_concurrency m) 0); lia. }
  rewrite some_bind, foldl_all. f_equal. rewrite <- Hall, forallb_bind.
  assert (Hb : forall g, g ∈ gs -> read_group dev (ranges_ g) = forallb (block_reads dev) (block_list g)).
  { intros g Hg. rewrite Forall_forall in Hgs. apply read_group_blocks; [apply (Hgs g Hg)|].
    apply ranges_end; [apply (Hgs g Hg)|]. intros b Hbg.
    assert (Hin : b ∈ block_list rs) by (rewrite <- Hall; apply list_elem_of_bind; by exists g).
    unfold block_list in Hin. apply elem_of_expand in Hin as (r & Hr & Hbr).
    rewrite Forall_forall in Hmax. specialize (Hmax r Hr). cbn in Hmax. lia. }
  assert (Hgne : gs ≠ []).
  { intros ->. destruct Hwf as [Hr Hcount _]. destruct (ranges_ rs) as [|r l]; [done|]. cbn in Hlen.
    apply Forall_cons in Hr as [Hr Hl]. pose proof (total_nonneg l Hl). pose proof (total_app [r] l) as Ht. cbn [app] in Ht.
    assert (total [r] = r.2 - r.1) by (unfold total; cbn; lia). unfold range_ok in Hr.
    destruct (Z.eqb_spec (mc_concurrency m) 0); lia. }
  clear Hall Hlen Hgs. unfold thread_func. destruct (mc_open m dev); cbn [negb andb].
  - induction gs as [|g gs IH]; [done|]. cbn [map forallb]. rewrite Hb by set_solver.
    destruct gs as [|h gs]; [done|]. rewrite IH; [done|set_solver|done].
  - by destruct gs.
Qed.

Lemma parse_pairs_max `{!AndroidBaseLaws B} : forall pieces pairs, parse_pairs pieces = Some pairs ->
  Forall (fun r => r.2 <= INT_MAX) pairs.
Proof.
  fix IH 1. intros [|p [|q rest]] pairs E; cbn [parse_pairs] in E; try (injection E as <-; constructor).
  destruct (base_ParseUint p INT_MAX) as [a|]; [|done]. destruct (base_ParseUint q INT_MAX) as [b|] eqn:Eb; [|done].
  destruct (parse_pairs rest) as [ps|] eqn:Ep; [|done]. cbn in E. injection E as <-.
  constructor; [apply parse_uint_range in Eb; cbn; lia|]. by apply (IH rest).
Qed.
Lemma push_all_max bound pairs : forall rs, Forall (fun r => r.2 <= bound) (ranges_ rs) -> Forall (fun r => r.2 <= bound) pairs ->
  Forall (fun r => r.2 <= bound) (ranges_ (push_all rs pairs)).
Proof.
  induction pairs as [|r pairs IH]; intros rs Hrs Hp; [done|]. apply Forall_cons in Hp as [Hr Hp]. cbn [push_all].
  destruct (PushBack rs r) as [rs' []] eqn:E; [|done]. apply IH; [|done]. unfold PushBack in E. destruct r as [a e].
  destruct (e <=? a); [done|]. destruct (_ <=? _); [done|]. injection E as <-. cbn. apply Forall_app. split; [done|]. by constructor.
Qed.
Lemma Parse_care `{!AndroidBaseLaws B} text : ranges_ (Parse text) ≠ [] -> care_ok (Parse text).
Proof.
  intros Hne. split; [apply parse_wf|]. split; [done|]. clear Hne. unfold Parse. repeat (case_match; try constructor).
  unfold of_pairs. case_match; [constructor|]. apply push_all_max; [constructor|]. subst. by eapply parse_pairs_max.
Qed.

(** ** What the care map asks for *)
Definition usable (p : PartitionInfo) : Prop :=
  pi_name p ≠ ""%string /\ pi_ranges p ≠ ""%string /\ ranges_ (Parse (pi_ranges p)) ≠ [].
(** The fingerprint of the running system is the one the map was made for. *)
Definition cared (p : PartitionInfo) : bool :=
  negb (String.eqb (pi_id p) "" || String.eqb (pi_id p) "unknown") && String.eqb (mc_property m (pi_id p)) (pi_fingerprint p).
(** The blocks of a partition: the first entry of that name that is cared for. *)
Fixpoint care_of (infos : list PartitionInfo) (name : string) : option RangeSet :=
  match infos with
  | [] => None
  | p :: infos => if cared p && String.eqb name (pi_name p) then Some (Parse (pi_ranges p)) else care_of infos name
  end.
Lemma smap_find_emplace {A} k v (mp : smap A) k' :
  smap_find k' (default mp (smap_emplace k v mp)) =
  match smap_find k' mp with Some x => Some x | None => if String.eqb k' k then Some v else None end.
Proof.
  unfold smap_emplace. destruct (smap_find k mp) as [x|] eqn:E; cbn.
  - destruct (smap_find k' mp) as [y|] eqn:E'; [done|]. destruct (String.eqb_spec k' k) as [->|]; [congruence|done].
  - rewrite smap_find_set. destruct (String.eqb_spec k' k) as [->|]; [by rewrite E|]. by destruct (smap_find k' mp).
Qed.
Lemma smap_ok_emplace {A} k v (mp : smap A) : smap_ok mp -> smap_ok (default mp (smap_emplace k v mp)).
Proof. intros. unfold smap_emplace. destruct (smap_find k mp); [done|]. by apply smap_set_ok. Qed.
Lemma care_partitions_spec infos : forall acc, smap_ok acc ->
  let '(ok, pm) := care_partitions infos acc in
  (ok = true <-> Forall usable infos) /\ (ok = true -> smap_ok pm /\ forall n, smap_find n pm =
     match smap_find n acc with Some r => Some r | None => care_of infos n end).
Proof.
  induction infos as [|p infos IH]; intros acc Hacc; cbn [care_partitions care_of].
  { split; [by split|]. intros _. split; [done|]. intros n. by destruct (smap_find n acc). }
  assert (Hbad : ~ usable p -> (false = true <-> Forall usable (p :: infos))).
  { intros Hu. split; [done|]. by intros [? _]%Forall_cons. }
  destruct (String.eqb_spec (pi_name p) "") as [En|En]; [split; [apply Hbad; by intros [? _]|done]|].
  destruct (String.eqb_spec (pi_ranges p) "") as [Er|Er]; [split; [apply Hbad; by intros (_ & ? & _)|done]|].
  case_bool_decide as Eb; [split; [apply Hbad; by intros (_ & _ & ?)|done]|].
  assert (Hgood : Forall usable (p :: infos) <-> Forall usable infos) by (rewrite Forall_cons; split; [by intros [_ ?]|done]).
  pose proof (IH acc Hacc) as Hsame. specialize (IH _ (smap_ok_emplace (pi_name p) (Parse (pi_ranges p)) acc Hacc)).
  unfold cared. destruct (_ || _); cbn [negb andb]; [destruct (care_partitions _ acc); by rewrite Hgood|].
  destruct (String.eqb _ (pi_fingerprint p)); cbn [negb]; [|destruct (care_partitions _ acc); by rewrite Hgood].
  destruct (care_partitions _ (default _ _)) as [ok pm]. destruct IH as [H1 H2]. rewrite Hgood. split; [done|]. intros Ho. destruct (H2 Ho) as [Hs Hf].
  split; [done|]. intros n. rewrite Hf, smap_find_emplace. destruct (smap_find n acc); [done|]. by destruct (String.eqb n (pi_name p)).
Qed.
(** The dm entry [d] carries the verified device of partition [name]. *)
Definition carries (d name : string) : Prop :=
  exists content, mc_dm_name m ("/sys/block/" ++ d ++ "/dm/name") = Some content /\ dm_block_name content = Some name.
Lemma dm_devices_spec namelist : forall acc n dev, smap_find n (dm_devices namelist acc) = Some dev ->
  smap_find n acc = Some dev \/ exists d, d ∈ namelist /\ dev = ("/dev/block/" ++ d)%string /\ carries d n.
Proof.
  induction namelist as [|d namelist IH]; intros acc n dev; cbn [dm_devices]; [by left|].
  destruct (mc_dm_name m _) as [content|] eqn:Ec; [destruct (dm_block_name content) as [name|] eqn:En|];
    intros H; apply IH in H as [H|(d' & Hd & H)]; try (by left); try (right; exists d'; set_solver).
  rewrite smap_find_emplace in H. destruct (smap_find n acc) as [x|]; [by left|].
  destruct (String.eqb_spec n name) as [->|]; [|done]. injection H as <-. right. exists d. split; [set_solver|]. split; [done|]. by exists content.
Qed.
Lemma care_of_ok `{!AndroidBaseLaws B} infos n rs : Forall usable infos -> care_of infos n = Some rs -> care_ok rs.
Proof.
  induction 1 as [|p infos (_ & _ & Hp) _ IH]; cbn [care_of]; [done|]. destruct (_ && _); [|done]. intros [= <-]. by apply Parse_care.
Qed.
(** The care map asks for these partitions. *)
Record asks (f : CareFile) (infos : list PartitionInfo) : Prop := MkAsks {
  as_file : cf_access f = true /\ cf_open f = true;
  as_parse : exists content, cf_content f = Some content /\ content ≠ ""%string /\ ParseFromString content = Some infos;
  as_usable : Forall usable infos;
  as_some : exists n rs, care_of infos n = Some rs }.
Lemma ParseCareMap_spec f : let '(ok, pm) := ParseCareMap f in
  (ok = true <-> exists infos, asks f infos) /\
  (ok = true -> exists infos, asks f infos /\ smap_ok pm /\ forall n, smap_find n pm = care_of infos n).
Proof.
  unfold ParseCareMap. assert (Hno : ~ (exists infos, asks f infos) ->
    (false = true <-> exists infos, asks f infos) /\ (false = true -> exists infos, asks f infos /\ smap_ok ([] : smap RangeSet) /\
      forall n, smap_find n ([] : smap RangeSet) = care_of infos n)) by (intros H; split; [split; [done|by intros ?%H]|done]).
  destruct (cf_access f) eqn:Ea; cbn [negb]; [|apply Hno; intros (infos & [[? _] _ _ _]); congruence].
  destruct (cf_open f) eqn:Eo; cbn [negb]; [|apply Hno; intros (infos & [[_ ?] _ _ _]); congruence].
  destruct (cf_content f) as [content|] eqn:Ec; [|apply Hno; intros (infos & [_ (? & ? & _) _ _]); congruence].
  destruct (String.eqb_spec content "") as [->|Hne]; [apply Hno; intros (infos & [_ (? & ? & ? & _) _ _]); congruence|].
  destruct (ParseFromString content) as [infos|] eqn:Ep; [|apply Hno; intros (infos & [_ (? & ? & ? & ?) _ _]); congruence].
  assert (Hsame : forall infos', asks f infos' -> infos' = infos) by (intros infos' [_ (? & ? & _ & ?) _ _]; congruence).
  pose proof (care_partitions_spec infos [] ltac:(constructor)) as Hs. destruct (care_partitions infos []) as [ok pm]. destruct Hs as [H1 H2].
  assert (Hbad : ok = false -> ~ exists infos, asks f infos).
  { intros -> (infos' & Ha). rewrite (Hsame _ Ha) in Ha. by destruct Ha as [_ _ Hu%H1 _]. }
  destruct ok; [|destruct pm; by split; [split; [|intros ?%Hbad]|]]. destruct (H2 eq_refl) as [Hs Hf]. cbn in Hf.
  destruct pm as [|[k v] pm].
  - apply Hno. intros (infos' & Ha). rewrite (Hsame _ Ha) in Ha. destruct Ha as [_ _ _ (n & rs & Hn)]. by rewrite <- Hf in Hn.
  - assert (Ha : asks f infos).
    { split; [done|by exists content|by apply H1|]. exists k, v. rewrite <- Hf. cbn. by rewrite String.eqb_refl. }
    split; [split; [by exists infos|done]|]. intros _. by exists infos.
Qed.
Lemma asks_same f infos infos' : asks f infos -> asks f infos' -> infos = infos'.
Proof. intros [_ (? & ? & _ & ?) _ _] [_ (? & ? & _ & ?) _ _]. congruence. Qed.
(** A partition is whole: its device opens and every block can be read. *)
Definition whole (devices : smap string) (name : string) (rs : RangeSet) : Prop :=
  exists dev, smap_find name devices = Some dev /\ mc_open m dev = true /\ forall b, b ∈ block_list rs -> block_reads dev b = true.
Lemma verify_each_exact devices pm : Forall (fun e => care_ok e.2) pm -> 0 <= mc_concurrency m < 2 ^ 32 ->
  exists ok, verify_each devices pm = Some ok /\ (ok = true <-> forall n rs, (n, rs) ∈ pm -> whole devices n rs).
Proof.
  intros Hok Hc. induction Hok as [|[n rs] pm Hrs _ IH]; cbn [verify_each].
  { exists true. split; [done|]. split; [|done]. intros _ n rs Hin. by apply not_elem_of_nil in Hin. }
  assert (Hbad : ~ whole devices n rs -> (false = true <-> forall n0 rs0, (n0, rs0) ∈ (n, rs) :: pm -> whole devices n0 rs0)).
  { intros Hw. split; [done|]. intros H. exfalso. apply Hw, H. set_solver. }
  destruct (smap_find n devices) as [dev|] eqn:Ed.
  2: { exists false. split; [done|]. apply Hbad. intros (dev & ? & _). congruence. }
  rewrite ReadBlocks_exact, some_bind by done. destruct (mc_open m dev && _) eqn:Er; cbn [negb].
  - apply andb_true_iff in Er as [Eo Er]. rewrite forallb_true_iff in Er. destruct IH as (ok & -> & IH). exists ok. split; [done|].
    rewrite IH. split; [|set_solver]. intros H n0 rs0 [[= -> ->]|Hin]%elem_of_cons; [by exists dev|by apply H].
  - exists false. split; [done|]. apply Hbad. intros (dev' & Ed' & Eo & Hb). assert (dev' = dev) as -> by congruence.
    rewrite Eo in Er. apply forallb_true_iff in Hb. by rewrite Hb in Er.
Qed.

Definition verity_mode : string := mc_property m "ro.boot.veritymode".
Definition verity_off : Prop := verity_mode = ""%string \/ lower verity_mode = "disabled"%string.
Definition verity_on : Prop := lower verity_mode = "eio"%string \/ verity_mode = "enforcing"%string.
Definition snapshots_verified : bool := mc_userspace_snapshots m && CheckVerificationStatus.
(** A verified device of the partition opens, and every block of the set can
    be read from it. *)
Definition intact (name : string) (rs : RangeSet) : Prop :=
  exists names d, mc_scan m = Some names /\ d ∈ names /\ carries d name /\ mc_open m ("/dev/block/" ++ d) = true /\
    forall b, b ∈ block_list rs -> block_reads ("/dev/block/" ++ d) b = true.
Lemma whole_intact n rs : whole FindDmPartitions n rs -> intact n rs.
Proof.
  intros (dev & Hf & Ho & Hb). unfold FindDmPartitions in Hf. destruct (mc_scan m) as [names|] eqn:Es; [|done].
  apply dm_devices_spec in Hf as [Hf|(d & Hd & -> & Hc)]; [done|]. exists names, d. split_and!; try done.
  by apply list_elem_of_In, in_rev, list_elem_of_In.
Qed.
Lemma VerifyPartitions_spec `{!AndroidBaseLaws B} f infos pm : 0 <= mc_concurrency m < 2 ^ 32 ->
  asks f infos -> smap_ok pm -> (forall n, smap_find n pm = care_of infos n) ->
  exists ok, VerifyPartitions pm = Some ok /\
    (ok = true -> snapshots_verified = true \/ forall n rs, care_of infos n = Some rs -> whole FindDmPartitions n rs).
Proof.
  intros Hc Ha Hpm Hf. unfold VerifyPartitions. destruct (mc_userspace_snapshots m && CheckVerificationStatus) eqn:Es.
  { exists true. split; [done|]. by left. }
  case_bool_decide; [by exists false|].
  destruct (verify_each_exact FindDmPartitions pm) as (ok & -> & Hok); [|done|].
  { apply Forall_forall. intros [n rs] Hin. apply smap_find_elem in Hin; [|done]. rewrite Hf in Hin. eapply care_of_ok; [apply Ha|done]. }
  exists ok. split; [done|]. intros Ho. right. intros n rs Hn. apply Hok; [done|]. apply smap_find_elem; [done|]. by rewrite Hf.
Qed.
Lemma mark_boot_true : mark_boot = Leave true -> mc_mark m = true /\ mc_vold m ≠ Some true.
Proof. unfold mark_boot. destruct (mc_vold m) as [[]|], (mc_mark m); done. Qed.
Lemma skip_spec : match skip_verification with None => ~ verity_on | Some true => verity_off /\ ~ verity_on | Some false => True end.
Proof.
  unfold skip_verification, verity_off, verity_on. fold verity_mode.
  destruct (String.eqb_spec verity_mode "") as [->|]; [split; [by left|by intros [|]]|].
  destruct (String.eqb_spec (lower verity_mode) "eio") as [|He]; [done|].
  destruct (String.eqb_spec (lower verity_mode) "disabled") as [Hd|]; [split; [by right|]; intros [|E]; [done|by rewrite E in Hd]|].
  destruct (String.eqb_spec verity_mode "enforcing") as [|]; [done|]. cbn. by intros [|].
Qed.
End Verifier.


(** ** An example *)
(** One partition of two blocks, the second of which is damaged. *)
#[local] Instance demo_proto : CareMapProto := {| ParseFromString _ := Some [MkPartitionInfo "system" "2,0,2" "id" "fp"] |}.
Definition demo_property (id : string) : string :=
  if String.eqb id "ro.boot.veritymode" then "enforcing" else if String.eqb id "id" then "fp" else "".
Definition damaged : Machine := MkMachine (Some ["dm-0"%string]) (fun _ => Some "vroot"%string) demo_property (fun _ => true)
  (fun _ => 8192) (fun _ b => b =? 0) 8 false None true (Some false) None true.
Definition demo_file : CareFile := MkCareFile true true (Some "map"%string).
