(* ===== verification/MincryptSha.v ===== *)
(** libmincrypt/sha.c and libmincrypt/sha256.c: the streaming SHA-1 and
    SHA-256 of the recovery's small crypto library.

    A context is the record [HASH_CTX]; the words are 32-bit values with their
    wrap-around written out. The reference side is FIPS 180-4: the functions
    bit by bit, the message schedule and the padding of the whole message. *)
From stdpp Require Import base list.
From Stdlib Require Import ZArith Lia.
From S2P Require Import Prelude Kernel.

(** ** hash-internal.h *)
Record HASH_CTX := MkCtx { count : Z; buf : list Z; state : list Z }.

(** The 16 words of a block: tmp = *p++ << 24; tmp |= *p++ << 16; ... *)
Fixpoint load_words (p : list Z) : list Z :=
  match p with
  | a :: b :: c :: d :: p =>
      u32 (Z.lor (Z.lor (Z.lor (Z.shiftl a 24) (Z.shiftl b 16)) (Z.shiftl c 8)) d) :: load_words p
  | _ => []
  end.
(** *p++ = tmp >> 24; ... *)
Definition store_word (tmp : Z) : list Z := [u8 (Z.shiftr tmp 24); u8 (Z.shiftr tmp 16); u8 (Z.shiftr tmp 8); u8 tmp].
Definition word (w : list Z) (t : nat) : Z := nth t w 0.

Section Stream.
Variable Transform : list Z -> list Z -> list Z.   (* the state and the block to the next state *)

(** One round of while (len--): [i] is the place in the buffer. *)
Definition update_byte (ic : nat * HASH_CTX) (b : Z) : nat * HASH_CTX :=
  let '(i, ctx) := ic in
  let ctx := MkCtx (count ctx) (<[i := b]> (buf ctx)) (state ctx) in
  if (S i =? 64)%nat then (O, MkCtx (count ctx) (buf ctx) (Transform (state ctx) (buf ctx))) else (S i, ctx).
Definition update (ctx : HASH_CTX) (data : list Z) : HASH_CTX :=
  let i := Z.to_nat (Z.land (count ctx) 63) in
  let ctx := MkCtx (u64 (count ctx + blen data)) (buf ctx) (state ctx) in
  (foldl update_byte (i, ctx) data).2.
(** while ((ctx->count & 63) != 56): a block has 64 places. *)
Fixpoint pad_zeros (fuel : nat) (ctx : HASH_CTX) : HASH_CTX :=
  if Z.land (count ctx) 63 =? 56 then ctx
  else match fuel with O => ctx | S fuel => pad_zeros fuel (update ctx [0]) end.
Definition final (words : nat) (ctx : HASH_CTX) : list Z :=
  let cnt := u64 (count ctx * 8) in
  let ctx := update ctx [0x80] in
  let ctx := pad_zeros 64 ctx in
  let ctx := foldl (fun ctx i => update ctx [u8 (Z.shiftr cnt ((7 - i) * 8))]) ctx (seqZ 0 8) in
  overwrite 0 (take words (state ctx) ≫= store_word) (buf ctx).
End Stream.

(** ** sha256.c *)
Definition ror (value bits : Z) : Z := Z.lor (Z.shiftr value bits) (u32 (Z.shiftl value (32 - bits))).
Definition shr (value bits : Z) : Z := Z.shiftr value bits.
(** ~x of a 32-bit word. *)
Definition not32 (x : Z) : Z := 2 ^ 32 - 1 - x.
(** The table, in the rows of four of the source. *)
Definition K256 : list Z := concat [
  [0x428a2f98; 0x71374491; 0xb5c0fbcf; 0xe9b5dba5]; [0x3956c25b; 0x59f111f1; 0x923f82a4; 0xab1c5ed5];
  [0xd807aa98; 0x12835b01; 0x243185be; 0x550c7dc3]; [0x72be5d74; 0x80deb1fe; 0x9bdc06a7; 0xc19bf174];
  [0xe49b69c1; 0xefbe4786; 0x0fc19dc6; 0x240ca1cc]; [0x2de92c6f; 0x4a7484aa; 0x5cb0a9dc; 0x76f988da];
  [0x983e5152; 0xa831c66d; 0xb00327c8; 0xbf597fc7]; [0xc6e00bf3; 0xd5a79147; 0x06ca6351; 0x14292967];
  [0x27b70a85; 0x2e1b2138; 0x4d2c6dfc; 0x53380d13]; [0x650a7354; 0x766a0abb; 0x81c2c92e; 0x92722c85];
  [0xa2bfe8a1; 0xa81a664b; 0xc24b8b70; 0xc76c51a3]; [0xd192e819; 0xd6990624; 0xf40e3585; 0x106aa070];
  [0x19a4c116; 0x1e376c08; 0x2748774c; 0x34b0bcb5]; [0x391c0cb3; 0x4ed8aa4a; 0x5b9cca4f; 0x682e6ff3];
  [0x748f82ee; 0x78a5636f; 0x84c87814; 0x8cc70208]; [0x90befffa; 0xa4506ceb; 0xbef9a3f7; 0xc67178f2]].
Definition schedule256 (W : list Z) (t : nat) : list Z :=
  let s0 := Z.lxor (Z.lxor (ror (word W (t - 15)) 7) (ror (word W (t - 15)) 18)) (shr (word W (t - 15)) 3) in
  let s1 := Z.lxor (Z.lxor (ror (word W (t - 2)) 17) (ror (word W (t - 2)) 19)) (shr (word W (t - 2)) 10) in
  W ++ [u32 (word W (t - 16) + s0 + word W (t - 7) + s1)].
Definition words256 (block : list Z) : list Z := foldl schedule256 (load_words block) (seq 16 48).
Record Regs256 := MkRegs256 { rA : Z; rB : Z; rC : Z; rD : Z; rE : Z; rF : Z; rG : Z; rH : Z }.
Definition round256 (W : list Z) (r : Regs256) (t : nat) : Regs256 :=
  let '(MkRegs256 A B C D E F G H) := r in
  let s0 := Z.lxor (Z.lxor (ror A 2) (ror A 13)) (ror A 22) in
  let maj := Z.lxor (Z.lxor (Z.land A B) (Z.land A C)) (Z.land B C) in
  let t2 := u32 (s0 + maj) in
  let s1 := Z.lxor (Z.lxor (ror E 6) (ror E 11)) (ror E 25) in
  let ch := Z.lxor (Z.land E F) (Z.land (not32 E) G) in
  let t1 := u32 (H + s1 + ch + word K256 t + word W t) in
  MkRegs256 (u32 (t1 + t2)) A B C (u32 (D + t1)) E F G.
Definition regs256 (state : list Z) : Regs256 :=
  MkRegs256 (word state 0) (word state 1) (word state 2) (word state 3) (word state 4) (word state 5) (word state 6) (word state 7).
Definition list256 (r : Regs256) : list Z := [rA r; rB r; rC r; rD r; rE r; rF r; rG r; rH r].
Definition SHA256_Transform (state block : list Z) : list Z :=
  let r := foldl (round256 (words256 block)) (regs256 state) (seq 0 64) in
  zip_with (fun a b => u32 (a + b)) (list256 (regs256 state)) (list256 r).
Definition SHA256_state : list Z :=
  [0x6a09e667; 0xbb67ae85; 0x3c6ef372; 0xa54ff53a; 0x510e527f; 0x9b05688c; 0x1f83d9ab; 0x5be0cd19].
(** The buffer is not initialised; [junk] is what it holds. *)
Definition SHA256_init (junk : list Z) : HASH_CTX := MkCtx 0 junk SHA256_state.
Definition SHA256_update : HASH_CTX -> list Z -> HASH_CTX := update SHA256_Transform.
Definition SHA256_final : HASH_CTX -> list Z := final SHA256_Transform 8.
Definition SHA256_DIGEST_SIZE : nat := 32.
Definition SHA256_hash (junk data : list Z) : list Z := take SHA256_DIGEST_SIZE (SHA256_final (SHA256_update (SHA256_init junk) data)).

(** ** sha.c *)
Definition rol (bits value : Z) : Z := Z.lor (u32 (Z.shiftl value bits)) (Z.shiftr value (32 - bits)).
Definition schedule1 (W : list Z) (t : nat) : list Z :=
  W ++ [rol 1 (Z.lxor (Z.lxor (Z.lxor (word W (t - 3)) (word W (t - 8))) (word W (t - 14))) (word W (t - 16)))].
Definition words1 (block : list Z) : list Z := foldl schedule1 (load_words block) (seq 16 64).
Record Regs1 := MkRegs1 { qA : Z; qB : Z; qC : Z; qD : Z; qE : Z }.
Definition round1 (W : list Z) (r : Regs1) (t : nat) : Regs1 :=
  let '(MkRegs1 A B C D E) := r in
  let tmp := u32 (rol 5 A + E + word W t) in
  let tmp := u32 (tmp +
    (if (t <? 20)%nat then Z.lxor D (Z.land B (Z.lxor C D)) + 0x5A827999
     else if (t <? 40)%nat then Z.lxor (Z.lxor B C) D + 0x6ED9EBA1
     else if (t <? 60)%nat then Z.lor (Z.land B C) (Z.land D (Z.lor B C)) + 0x8F1BBCDC
     else Z.lxor (Z.lxor B C) D + 0xCA62C1D6)) in
  MkRegs1 tmp A (rol 30 B) C D.
Definition regs1 (state : list Z) : Regs1 := MkRegs1 (word state 0) (word state 1) (word state 2) (word state 3) (word state 4).
Definition list1 (r : Regs1) : list Z := [qA r; qB r; qC r; qD r; qE r].
Definition SHA1_Transform (state block : list Z) : list Z :=
  let r := foldl (round1 (words1 block)) (regs1 state) (seq 0 80) in
  zip_with (fun a b => u32 (a + b)) (list1 (regs1 state)) (list1 r).
Definition SHA_state : list Z := [0x67452301; 0xEFCDAB89; 0x98BADCFE; 0x10325476; 0xC3D2E1F0].
Definition SHA_init (junk : list Z) : HASH_CTX := MkCtx 0 junk SHA_state.
Definition SHA_update : HASH_CTX -> list Z -> HASH_CTX := update SHA1_Transform.
Definition SHA_final : HASH_CTX -> list Z := final SHA1_Transform 5.
Definition SHA_DIGEST_SIZE : nat := 20.
Definition SHA_hash (junk data : list Z) : list Z := take SHA_DIGEST_SIZE (SHA_final (SHA_update (SHA_init junk) data)).

(** ** FIPS 180-4 *)
(** The word with bit [i] equal to [f i]. *)
Fixpoint bits (n : nat) (f : Z -> bool) : Z :=
  match n with O => 0 | S n => bits n f + (if f (Z.of_nat n) then 2 ^ Z.of_nat n else 0) end.
Definition ROTR (n x : Z) : Z := bits 32 (fun i => Z.testbit x ((i + n) mod 32)).
Definition ROTL (n x : Z) : Z := bits 32 (fun i => Z.testbit x ((i - n) mod 32)).
Definition SHR (n x : Z) : Z := bits 32 (fun i => Z.testbit x (i + n)).
Definition bitwise (f : bool -> bool -> bool -> bool) (x y z : Z) : Z :=
  bits 32 (fun i => f (Z.testbit x i) (Z.testbit y i) (Z.testbit z i)).
Definition Ch : Z -> Z -> Z -> Z := bitwise (fun x y z => if x then y else z).
Definition Maj : Z -> Z -> Z -> Z := bitwise (fun x y z => (x && y) || (x && z) || (y && z)).
Definition Parity : Z -> Z -> Z -> Z := bitwise (fun x y z => xorb (xorb x y) z).
Definition Sum0 (x : Z) : Z := Parity (ROTR 2 x) (ROTR 13 x) (ROTR 22 x).
Definition Sum1 (x : Z) : Z := Parity (ROTR 6 x) (ROTR 11 x) (ROTR 25 x).
Definition sigma0 (x : Z) : Z := Parity (ROTR 7 x) (ROTR 18 x) (SHR 3 x).
Definition sigma1 (x : Z) : Z := Parity (ROTR 17 x) (ROTR 19 x) (SHR 10 x).
(** The padding, the blocks and the big-endian words of a message. *)
Definition be_bytes (n : nat) (v : Z) : list Z := (fun i => v / 2 ^ (8 * (Z.of_nat n - 1 - i)) mod 2 ^ 8) <$> seqZ 0 (Z.of_nat n).
Definition fips_pad (M : list Z) : list Z :=
  M ++ [0x80] ++ replicate (Z.to_nat ((55 - blen M) mod 64)) 0 ++ be_bytes 8 (8 * blen M).
Definition blocks (M : list Z) : list (list Z) := (fun i => slice (64 * i) 64 M) <$> seqZ 0 (blen M / 64).
Fixpoint be_words (p : list Z) : list Z :=
  match p with a :: b :: c :: d :: p => a * 2 ^ 24 + b * 2 ^ 16 + c * 2 ^ 8 + d :: be_words p | _ => [] end.
Definition fips_hash (compress : list Z -> list Z -> list Z) (H0 M : list Z) : list Z :=
  foldl compress H0 (blocks (fips_pad M)) ≫= be_bytes 4.

Definition fips_words256 (block : list Z) : list Z :=
  foldl (fun W t => W ++ [u32 (sigma1 (word W (t - 2)) + word W (t - 7) + sigma0 (word W (t - 15)) + word W (t - 16))])
    (be_words block) (seq 16 48).
Definition fips_round256 (W : list Z) (r : Regs256) (t : nat) : Regs256 :=
  let '(MkRegs256 a b c d e f g h) := r in
  let T1 := u32 (h + Sum1 e + Ch e f g + word K256 t + word W t) in
  let T2 := u32 (Sum0 a + Maj a b c) in
  MkRegs256 (u32 (T1 + T2)) a b c (u32 (d + T1)) e f g.
Definition fips_compress256 (H block : list Z) : list Z :=
  zip_with (fun x y => u32 (x + y)) H (list256 (foldl (fips_round256 (fips_words256 block)) (regs256 H) (seq 0 64))).
Definition fips_sha256 : list Z -> list Z := fips_hash fips_compress256 SHA256_state.

Definition fips_words1 (block : list Z) : list Z :=
  foldl (fun W t => W ++ [ROTL 1 (Z.lxor (Parity (word W (t - 3)) (word W (t - 8)) (word W (t - 14))) (word W (t - 16)))])
    (be_words block) (seq 16 64).
Definition fips_f (t : nat) : Z -> Z -> Z -> Z :=
  if (t <=? 19)%nat then Ch else if (t <=? 39)%nat then Parity else if (t <=? 59)%nat then Maj else Parity.
Definition fips_K1 (t : nat) : Z :=
  if (t <=? 19)%nat then 0x5a827999 else if (t <=? 39)%nat then 0x6ed9eba1 else if (t <=? 59)%nat then 0x8f1bbcdc else 0xca62c1d6.
Definition fips_round1 (W : list Z) (r : Regs1) (t : nat) : Regs1 :=
  let '(MkRegs1 a b c d e) := r in
  MkRegs1 (u32 (ROTL 5 a + fips_f t b c d + e + fips_K1 t + word W t)) a (ROTL 30 b) c d.
Definition fips_compress1 (H block : list Z) : list Z :=
  zip_with (fun x y => u32 (x + y)) H (list1 (foldl (fips_round1 (fips_words1 block)) (regs1 H) (seq 0 80))).
Definition fips_sha1 : list Z -> list Z := fips_hash fips_compress1 SHA_state.

(** ** Words, bit by bit *)
Lemma bits_range n f : 0 <= bits n f < 2 ^ Z.of_nat n.
Proof.
  induction n as [|n IH]; cbn [bits]; [lia|]. rewrite Nat2Z.inj_succ, Z.pow_succ_r by lia.
  assert (0 < 2 ^ Z.of_nat n) by lia. destruct (f (Z.of_nat n)); lia.
Qed.
Lemma testbit_high v n i : 0 <= v < 2 ^ n -> n <= i -> Z.testbit v i = false.
Proof.
  intros Hv Hi. destruct (Z.eq_dec v 0) as [->|]; [apply Z.bits_0|]. apply Z.bits_above_log2; [lia|].
  apply Z.log2_lt_pow2; [lia|]. assert (2 ^ n <= 2 ^ i) by (apply Z.pow_le_mono_r; lia). lia.
Qed.
Lemma bits_testbit n f i : 0 <= i -> Z.testbit (bits n f) i = (i <? Z.of_nat n) && f i.
Proof.
  intros Hi. induction n as [|n IH]; cbn [bits]; [rewrite Z.bits_0; destruct (Z.ltb_spec i (Z.of_nat 0)); [lia|done]|].
  pose proof (bits_range n f) as Hr. set (k := Z.of_nat n) in *. assert (Hk : 0 <= k) by lia.
  assert (E : bits n f + (if f k then 2 ^ k else 0) = Z.lor (bits n f) (Z.shiftl (if f k then 1 else 0) k)).
  { rewrite lor_shiftl_add by lia. destruct (f k); lia. }
  rewrite E, Z.lor_spec, IH, Z.shiftl_spec by lia.
  rewrite Nat2Z.inj_succ. fold k. destruct (Z.ltb_spec i k), (Z.ltb_spec i (Z.succ k)); try lia.
  - rewrite Z.testbit_neg_r by lia. by rewrite orb_false_r.
  - assert (i = k) as -> by lia. rewrite Z.sub_diag. by destruct (f k).
  - cbn [andb orb]. destruct (f k); [|apply Z.bits_0]. apply (testbit_high 1 1); lia.
Qed.
Lemma word_bits v f : is_u32 v -> (forall i, 0 <= i < 32 -> Z.testbit v i = f i) -> v = bits 32 f.
Proof.
  intros Hv Hf. apply Z.bits_inj'. intros i Hi. rewrite bits_testbit by done. change (Z.of_nat 32) with 32.
  destruct (Z.ltb_spec i 32); [by rewrite Hf|]. by rewrite (testbit_high v 32).
Qed.
Lemma u32_testbit x i : 0 <= i -> Z.testbit (u32 x) i = (i <? 32) && Z.testbit x i.
Proof.
  intros Hi. unfold u32. destruct (Z.ltb_spec i 32); [by rewrite Z.mod_pow2_bits_low|by rewrite Z.mod_pow2_bits_high by lia].
Qed.
Lemma bits_u32 v : 0 <= v -> (forall i, 32 <= i -> Z.testbit v i = false) -> is_u32 v.
Proof.
  intros Hv Hb. replace v with (u32 v); [apply u32_range|]. apply Z.bits_inj'. intros i Hi. rewrite u32_testbit by done.
  destruct (Z.ltb_spec i 32); [done|]. by rewrite Hb.
Qed.
Lemma lxor_word a b : is_u32 a -> is_u32 b -> is_u32 (Z.lxor a b).
Proof.
  intros Ha Hb. apply bits_u32; [unfold is_u32 in *; apply Z.lxor_nonneg; lia|]. intros i Hi.
  by rewrite Z.lxor_spec, !(testbit_high _ 32 i).
Qed.
Lemma land_u32 a b : is_u32 a -> is_u32 b -> is_u32 (Z.land a b).
Proof.
  intros Ha Hb. apply bits_u32; [unfold is_u32 in *; apply Z.land_nonneg; lia|]. intros i Hi.
  by rewrite Z.land_spec, !(testbit_high _ 32 i).
Qed.
Lemma lor_u32 a b : is_u32 a -> is_u32 b -> is_u32 (Z.lor a b).
Proof.
  intros Ha Hb. apply bits_u32; [unfold is_u32 in *; apply Z.lor_nonneg; lia|]. intros i Hi.
  by rewrite Z.lor_spec, !(testbit_high _ 32 i).
Qed.
Lemma shiftr_u32 a n : is_u32 a -> 0 <= n -> is_u32 (Z.shiftr a n).
Proof.
  intros Ha Hn. apply bits_u32; [apply Z.shiftr_nonneg; unfold is_u32 in Ha; lia|]. intros i Hi. rewrite Z.shiftr_spec by lia.
  apply (testbit_high a 32); [done|lia].
Qed.
Lemma bits32_u32 f : is_u32 (bits 32 f).
Proof. apply (bits_range 32). Qed.
Create HintDb u32.
#[local] Hint Resolve lxor_word land_u32 lor_u32 shiftr_u32 u32_range bits32_u32 : u32.
Lemma ROTR_u32 n x : is_u32 (ROTR n x).
Proof. apply bits32_u32. Qed.
Lemma ROTL_u32 n x : is_u32 (ROTL n x).
Proof. apply bits32_u32. Qed.
Lemma SHR_u32 n x : is_u32 (SHR n x).
Proof. apply bits32_u32. Qed.
#[local] Hint Resolve ROTR_u32 ROTL_u32 SHR_u32 : u32.
Lemma ror_ROTR x b : is_u32 x -> 0 < b < 32 -> ror x b = ROTR b x.
Proof.
  intros Hx Hb. unfold ror. apply word_bits; [apply lor_u32; [apply shiftr_u32; [done|lia]|apply u32_range]|]. intros i Hi.
  rewrite Z.lor_spec, u32_testbit, Z.shiftr_spec, Z.shiftl_spec by lia. destruct (Z.ltb_spec i 32); [|lia]. cbn [andb].
  destruct (Z.lt_ge_cases (i + b) 32).
  - rewrite Z.mod_small by lia. by rewrite (Z.testbit_neg_r x (i - _)), orb_false_r by lia.
  - rewrite (testbit_high x 32 (i + b)) by (done || lia). cbn [orb]. f_equal. apply (Z.mod_unique_pos _ _ 1); lia.
Qed.
Lemma rol_ROTL b x : is_u32 x -> 0 < b < 32 -> rol b x = ROTL b x.
Proof.
  intros Hx Hb. unfold rol. apply word_bits; [apply lor_u32; [apply u32_range|apply shiftr_u32; [done|lia]]|]. intros i Hi.
  rewrite Z.lor_spec, u32_testbit, Z.shiftr_spec, Z.shiftl_spec by lia. destruct (Z.ltb_spec i 32); [|lia]. cbn [andb].
  destruct (Z.lt_ge_cases i b).
  - rewrite (Z.testbit_neg_r x (i - b)) by lia. cbn [orb]. f_equal. apply (Z.mod_unique_pos _ _ (-1)); lia.
  - rewrite (testbit_high x 32 (i + _)) by (done || lia). rewrite orb_false_r, Z.mod_small by lia. done.
Qed.
Lemma shr_SHR x b : is_u32 x -> 0 <= b -> shr x b = SHR b x.
Proof. intros Hx Hb. apply word_bits; [by apply shiftr_u32|]. intros i Hi. unfold shr. by rewrite Z.shiftr_spec by lia. Qed.
Lemma not32_spec x i : is_u32 x -> 0 <= i < 32 -> Z.testbit (not32 x) i = negb (Z.testbit x i).
Proof.
  intros Hx Hi. unfold not32. replace (2 ^ 32 - 1 - x) with (u32 (Z.lnot x)).
  - rewrite u32_testbit by lia. destruct (Z.ltb_spec i 32); [|lia]. by rewrite Z.lnot_spec by lia.
  - unfold u32, Z.lnot, is_u32 in *. symmetry. apply (Z.mod_unique_pos _ _ (-1)); lia.
Qed.
Lemma not32_u32 x : is_u32 x -> is_u32 (not32 x).
Proof. unfold is_u32, not32. lia. Qed.
#[local] Hint Resolve not32_u32 : u32.
Lemma parity_code x y z : is_u32 x -> is_u32 y -> is_u32 z -> Z.lxor (Z.lxor x y) z = Parity x y z.
Proof. intros. apply word_bits; [auto with u32|]. intros i Hi. by rewrite !Z.lxor_spec. Qed.
Lemma maj_code x y z : is_u32 x -> is_u32 y -> is_u32 z ->
  Z.lxor (Z.lxor (Z.land x y) (Z.land x z)) (Z.land y z) = Maj x y z.
Proof.
  intros. apply word_bits; [auto with u32|]. intros i Hi. rewrite !Z.lxor_spec, !Z.land_spec.
  by destruct (Z.testbit x i), (Z.testbit y i), (Z.testbit z i).
Qed.
Lemma maj_code_or x y z : is_u32 x -> is_u32 y -> is_u32 z -> Z.lor (Z.land x y) (Z.land z (Z.lor x y)) = Maj x y z.
Proof.
  intros. apply word_bits; [auto with u32|]. intros i Hi. rewrite Z.lor_spec, !Z.land_spec, Z.lor_spec.
  by destruct (Z.testbit x i), (Z.testbit y i), (Z.testbit z i).
Qed.
Lemma ch_code x y z : is_u32 x -> is_u32 y -> is_u32 z -> Z.lxor (Z.land x y) (Z.land (not32 x) z) = Ch x y z.
Proof.
  intros. apply word_bits; [auto with u32|]. intros i Hi. rewrite Z.lxor_spec, !Z.land_spec, not32_spec by done.
  by destruct (Z.testbit x i), (Z.testbit y i), (Z.testbit z i).
Qed.
Lemma ch_code_xor x y z : is_u32 x -> is_u32 y -> is_u32 z -> Z.lxor z (Z.land x (Z.lxor y z)) = Ch x y z.
Proof.
  intros. apply word_bits; [auto with u32|]. intros i Hi. rewrite Z.lxor_spec, Z.land_spec, Z.lxor_spec.
  by destruct (Z.testbit x i), (Z.testbit y i), (Z.testbit z i).
Qed.

(** ** The transforms *)
Lemma word_u32 W t : Forall is_u32 W -> is_u32 (word W t).
Proof.
  intros HW. unfold word. rewrite nth_lookup. destruct (W !! t) as [x|] eqn:E; cbn; [|unfold is_u32; lia].
  eapply Forall_lookup in HW; done.
Qed.
Lemma load_words_be p : bytes_ok p -> load_words p = be_words p /\ Forall is_u32 (load_words p).
Proof.
  enough (forall n p, (length p < n)%nat -> bytes_ok p -> load_words p = be_words p /\ Forall is_u32 (load_words p)) as H by eauto.
  clear p. induction n as [|n IH]; intros p Hn Hp; [lia|]. destruct p as [|a [|b [|c [|d p]]]]; try (split; [done|constructor]).
  unfold bytes_ok in Hp. rewrite !Forall_cons in Hp. destruct Hp as (Ha & Hb & Hc & Hd & Hp). cbn [length] in Hn.
  destruct (IH p ltac:(lia) Hp) as [E HF]. cbn [load_words be_words]. unfold is_byte in *.
  assert (Ew : Z.lor (Z.lor (Z.lor (Z.shiftl a 24) (Z.shiftl b 16)) (Z.shiftl c 8)) d = a * 2 ^ 24 + b * 2 ^ 16 + c * 2 ^ 8 + d).
  { rewrite (Z.lor_comm _ d), (Z.lor_comm _ (Z.shiftl c 8)), (Z.lor_comm _ (Z.shiftl b 16)).
    assert (E1 : Z.lor (Z.shiftl b 16) (Z.shiftl a 24) = Z.shiftl (b + a * 2 ^ 8) 16).
    { rewrite <- (lor_shiftl_add b a 8) by lia. by rewrite Z.shiftl_lor, Z.shiftl_shiftl by lia. }
    rewrite E1. assert (E2 : Z.lor (Z.shiftl c 8) (Z.shiftl (b + a * 2 ^ 8) 16) = Z.shiftl (c + (b + a * 2 ^ 8) * 2 ^ 8) 8).
    { rewrite <- (lor_shiftl_add c _ 8) by lia. by rewrite Z.shiftl_lor, Z.shiftl_shiftl by lia. }
    rewrite E2, lor_shiftl_add by lia. lia. }
  rewrite Ew, u32_id by (unfold is_u32; lia). split; [by f_equal|]. constructor; [unfold is_u32; lia|done].
Qed.
Lemma schedule256_fips W t : Forall is_u32 W ->
  schedule256 W t = W ++ [u32 (sigma1 (word W (t - 2)) + word W (t - 7) + sigma0 (word W (t - 15)) + word W (t - 16))] /\
  Forall is_u32 (schedule256 W t).
Proof.
  intros HW. pose proof (fun t => word_u32 W t HW) as Hw. split.
  - unfold schedule256, sigma0, sigma1. rewrite !ror_ROTR, !shr_SHR, !parity_code by (auto with u32 || lia). do 3 f_equal. lia.
  - unfold schedule256. apply Forall_app. split; [done|]. constructor; [apply u32_range|constructor].
Qed.
Lemma words256_fips block : bytes_ok block -> words256 block = fips_words256 block.
Proof.
  intros Hb. unfold words256, fips_words256. destruct (load_words_be block Hb) as [<- HF]. revert HF. generalize (load_words block).
  induction (seq 16 48) as [|t ts IH]; intros W HW; cbn [foldl]; [done|]. destruct (schedule256_fips W t HW) as [E HF].
  rewrite IH by done. by rewrite E.
Qed.
Definition regs256_ok (r : Regs256) : Prop := Forall is_u32 (list256 r).
Lemma round256_fips W r t : regs256_ok r -> round256 W r t = fips_round256 W r t /\ regs256_ok (round256 W r t).
Proof.
  destruct r as [A B C D E F G H]. unfold regs256_ok, list256. cbn [rA rB rC rD rE rF rG rH]. rewrite !Forall_cons.
  intros (HA & HB & HC & HD & HE & HF & HG & HH & _). split.
  - cbn [round256 fips_round256]. unfold Sum0, Sum1. rewrite !ror_ROTR by (done || lia). rewrite maj_code, ch_code, !parity_code by auto with u32. done.
  - cbn [round256 rA rB rC rD rE rF rG rH]. split_and!; auto with u32.
Qed.
Lemma regs256_list s : length s = 8%nat -> list256 (regs256 s) = s.
Proof. intros Hl. do 9 (destruct s as [|? s]; try done). Qed.
Lemma rounds256_fips W ts : forall r, regs256_ok r -> foldl (round256 W) r ts = foldl (fips_round256 W) r ts.
Proof.
  induction ts as [|t ts IH]; intros r Hr; cbn [foldl]; [reflexivity|]. destruct (round256_fips W r t Hr) as [E Hr'].
  rewrite IH by exact Hr'. rewrite E. reflexivity.
Qed.
Lemma SHA256_Transform_fips s block : Forall is_u32 s -> length s = 8%nat -> bytes_ok block ->
  SHA256_Transform s block = fips_compress256 s block.
Proof.
  intros Hs Hl Hb. unfold SHA256_Transform, fips_compress256. rewrite words256_fips by exact Hb.
  assert (Hr : regs256_ok (regs256 s)) by (unfold regs256_ok; rewrite regs256_list; assumption).
  cbv zeta. rewrite rounds256_fips by exact Hr. rewrite regs256_list by exact Hl. reflexivity.
Qed.
Lemma feed_forward_ok xs ys : Forall is_u32 (zip_with (fun a b => u32 (a + b)) xs ys) /\
  length (zip_with (fun a b => u32 (a + b)) xs ys) = Nat.min (length xs) (length ys).
Proof.
  split; [|apply length_zip_with]. revert ys. induction xs as [|x xs IH]; intros [|y ys]; try constructor; [apply u32_range|apply IH].
Qed.
Lemma SHA256_Transform_ok s block : Forall is_u32 (SHA256_Transform s block) /\ length (SHA256_Transform s block) = 8%nat.
Proof. unfold SHA256_Transform. apply feed_forward_ok. Qed.

Lemma schedule1_fips W t : Forall is_u32 W ->
  schedule1 W t = W ++ [ROTL 1 (Z.lxor (Parity (word W (t - 3)) (word W (t - 8)) (word W (t - 14))) (word W (t - 16)))] /\
  Forall is_u32 (schedule1 W t).
Proof.
  intros HW. pose proof (fun t => word_u32 W t HW) as Hw.
  assert (Hx : is_u32 (Z.lxor (Parity (word W (t - 3)) (word W (t - 8)) (word W (t - 14))) (word W (t - 16)))).
  { apply lxor_word; [apply bits32_u32|by apply Hw]. }
  unfold schedule1. rewrite (parity_code (word W (t - 3))), rol_ROTL by (auto with u32 || lia). split; [done|]. apply Forall_app. split; [done|].
  constructor; [apply bits32_u32|constructor].
Qed.
Lemma words1_fips block : bytes_ok block -> words1 block = fips_words1 block.
Proof.
  intros Hb. unfold words1, fips_words1. destruct (load_words_be block Hb) as [<- HF]. revert HF. generalize (load_words block).
  induction (seq 16 64) as [|t ts IH]; intros W HW; cbn [foldl]; [done|]. destruct (schedule1_fips W t HW) as [E HF].
  rewrite IH by done. by rewrite E.
Qed.
Definition regs1_ok (r : Regs1) : Prop := Forall is_u32 (list1 r).
Lemma u32_add_l x y : u32 (u32 x + y) = u32 (x + y).
Proof. unfold u32. by rewrite Zplus_mod_idemp_l. Qed.
Lemma round1_fips W r t : regs1_ok r -> round1 W r t = fips_round1 W r t /\ regs1_ok (round1 W r t).
Proof.
  destruct r as [A B C D E]. unfold regs1_ok, list1. cbn [qA qB qC qD qE]. rewrite !Forall_cons.
  intros (HA & HB & HC & HD & HE & _). split.
  - cbn [round1 fips_round1]. unfold fips_f, fips_K1. rewrite !rol_ROTL, ch_code_xor, parity_code, maj_code_or by (done || lia). rewrite u32_add_l.
    f_equal. f_equal. destruct (Nat.ltb_spec t 20), (Nat.leb_spec t 19); try lia.
    destruct (Nat.ltb_spec t 40), (Nat.leb_spec t 39); try lia. destruct (Nat.ltb_spec t 60), (Nat.leb_spec t 59); lia.
  - cbn [round1 qA qB qC qD qE]. rewrite (rol_ROTL 30) by (done || lia). split_and!; auto with u32.
Qed.
Lemma regs1_list s : length s = 5%nat -> list1 (regs1 s) = s.
Proof. intros Hl. do 6 (destruct s as [|? s]; try done). Qed.
Lemma rounds1_fips W ts : forall r, regs1_ok r -> foldl (round1 W) r ts = foldl (fips_round1 W) r ts.
Proof.
  induction ts as [|t ts IH]; intros r Hr; cbn [foldl]; [reflexivity|]. destruct (round1_fips W r t Hr) as [E Hr'].
  rewrite IH by exact Hr'. rewrite E. reflexivity.
Qed.
Lemma SHA1_Transform_fips s block : Forall is_u32 s -> length s = 5%nat -> bytes_ok block ->
  SHA1_Transform s block = fips_compress1 s block.
Proof.
  intros Hs Hl Hb. unfold SHA1_Transform, fips_compress1. rewrite words1_fips by exact Hb.
  assert (Hr : regs1_ok (regs1 s)) by (unfold regs1_ok; rewrite regs1_list; assumption).
  cbv zeta. rewrite rounds1_fips by exact Hr. rewrite regs1_list by exact Hl. reflexivity.
Qed.
Lemma SHA1_Transform_ok s block : Forall is_u32 (SHA1_Transform s block) /\ length (SHA1_Transform s block) = 5%nat.
Proof. unfold SHA1_Transform. apply feed_forward_ok. Qed.

(** ** The stream *)
Section Fed.
Variable T : list Z -> list Z -> list Z.
Variable H0 : list Z.
(** The buffer and the state after the bytes [M]. *)
Record holds (M : list Z) (ctx : HASH_CTX) : Prop := MkHolds {
  hd_buf : length (buf ctx) = 64%nat;
  hd_state : state ctx = foldl T H0 (blocks M);
  hd_tail : take (Z.to_nat (blen M mod 64)) (buf ctx) = drop (Z.to_nat (64 * (blen M / 64))) M }.
Definition fed (M : list Z) (ctx : HASH_CTX) : Prop := holds M ctx /\ count ctx = u64 (blen M).

Lemma slice_app_l off n (M N : list Z) : 0 <= off -> 0 <= n -> off + n <= blen M -> slice off n (M ++ N) = slice off n M.
Proof.
  intros Ho Hn Hb. unfold slice, blen in *. rewrite drop_app_le by lia. rewrite take_app_le; [done|]. rewrite length_drop. lia.
Qed.
Lemma blocks_snoc_same M b : (blen M + 1) mod 64 ≠ 0 -> blocks (M ++ [b]) = blocks M.
Proof.
  intros Hm. unfold blocks. rewrite blen_app. change (blen [b]) with 1. pose proof (blen_nonneg M).
  replace ((blen M + 1) / 64) with (blen M / 64) by (Z.div_mod_to_equations; lia).
  apply list_fmap_ext. intros k i Hk. apply lookup_seqZ in Hk as [-> Hi]. apply slice_app_l; Z.div_mod_to_equations; lia.
Qed.
Lemma blocks_snoc_full M b : (blen M + 1) mod 64 = 0 -> blocks (M ++ [b]) = blocks M ++ [drop (Z.to_nat (64 * (blen M / 64))) M ++ [b]].
Proof.
  intros Hm. unfold blocks. rewrite blen_app. change (blen [b]) with 1. pose proof (blen_nonneg M).
  replace ((blen M + 1) / 64) with (blen M / 64 + 1) by (Z.div_mod_to_equations; lia).
  rewrite seqZ_app, fmap_app by (Z.div_mod_to_equations; lia). rewrite seqZ_one. cbn [fmap list_fmap]. f_equal.
  - apply list_fmap_ext. intros k i Hk. apply lookup_seqZ in Hk as [-> Hi]. apply slice_app_l; Z.div_mod_to_equations; lia.
  - rewrite Z.add_0_l. unfold slice. f_equal. unfold blen in *. rewrite drop_app_le by (Z.div_mod_to_equations; lia).
    apply take_ge. rewrite length_app, length_drop. change (length [b]) with 1%nat. Z.div_mod_to_equations; lia.
Qed.
Lemma update_byte_holds M ctx b : holds M ctx ->
  exists ctx', update_byte T (Z.to_nat (blen M mod 64), ctx) b = (Z.to_nat (blen (M ++ [b]) mod 64), ctx') /\
    holds (M ++ [b]) ctx' /\ count ctx' = count ctx.
Proof.
  intros [Hl Hs Ht]. pose proof (blen_nonneg M). pose proof (Z.mod_pos_bound (blen M) 64). rewrite blen_app. change (blen [b]) with 1.
  set (i := Z.to_nat (blen M mod 64)) in *. unfold update_byte. set (buf' := <[i := b]> (buf ctx)).
  assert (Hb' : take (S i) buf' = drop (Z.to_nat (64 * (blen M / 64))) M ++ [b]).
  { unfold buf'. rewrite (take_S_r _ i b) by (apply list_lookup_insert_eq; lia). by rewrite take_insert_ge, Ht by lia. }
  destruct (Nat.eqb_spec (S i) 64) as [E|E]; cbn [count buf state].
  - assert (Hm : (blen M + 1) mod 64 = 0) by (Z.div_mod_to_equations; lia). rewrite Hm. eexists. split; [done|]. split; [|done].
    assert (Hall : take 64 buf' = buf') by (apply take_ge; unfold buf'; rewrite length_insert; lia). rewrite E, Hall in Hb'.
    split; cbn [buf state]; [unfold buf'; by rewrite length_insert| |].
    + by rewrite blocks_snoc_full, foldl_app, Hs, Hb'.
    + rewrite blen_app. change (blen [b]) with 1. rewrite Hm. cbn [Z.to_nat take]. rewrite drop_ge; [done|]. rewrite length_app. change (length [b]) with 1%nat.
      unfold blen in *. Z.div_mod_to_equations; lia.
  - assert (Hm : (blen M + 1) mod 64 ≠ 0) by (Z.div_mod_to_equations; lia).
    replace (Z.to_nat ((blen M + 1) mod 64)) with (S i) by (unfold i; Z.div_mod_to_equations; lia).
    eexists. split; [done|]. split; [|done]. split; cbn [buf state]; [unfold buf'; by rewrite length_insert|by rewrite blocks_snoc_same|].
    rewrite blen_app. change (blen [b]) with 1.
    replace (Z.to_nat ((blen M + 1) mod 64)) with (S i) by (unfold i; Z.div_mod_to_equations; lia). rewrite Hb'.
    replace ((blen M + 1) / 64) with (blen M / 64) by (Z.div_mod_to_equations; lia).
    rewrite drop_app_le; [done|]. unfold blen in *. Z.div_mod_to_equations; lia.
Qed.
Lemma update_bytes_holds data : forall M ctx, holds M ctx ->
  exists ctx', foldl (update_byte T) (Z.to_nat (blen M mod 64), ctx) data = (Z.to_nat (blen (M ++ data) mod 64), ctx') /\
    holds (M ++ data) ctx' /\ count ctx' = count ctx.
Proof.
  induction data as [|b data IH]; intros M ctx Hh; cbn [foldl]; [exists ctx; by rewrite app_nil_r|].
  destruct (update_byte_holds M ctx b Hh) as (ctx1 & -> & Hh1 & Hc1). destruct (IH _ _ Hh1) as (ctx2 & -> & Hh2 & Hc2).
  exists ctx2. rewrite <- app_assoc in *. split; [done|]. split; [done|]. congruence.
Qed.
Lemma count_place n : 0 <= n -> Z.to_nat (Z.land (u64 n) 63) = Z.to_nat (n mod 64).
Proof.
  intros Hn. f_equal. change 63 with (Z.ones 6). rewrite Z.land_ones by lia. unfold u64. change (2 ^ 6) with 64.
  apply Z.mod_mod_divide. exists (2 ^ 58). lia.
Qed.
Lemma update_fed M ctx data : fed M ctx -> fed (M ++ data) (update T ctx data).
Proof.
  intros [Hh Hc]. unfold update. rewrite Hc, count_place by apply blen_nonneg.
  destruct (update_bytes_holds data M (MkCtx (u64 (u64 (blen M) + blen data)) (buf ctx) (state ctx))) as (ctx' & -> & Hh' & Hc').
  { destruct Hh. by split. }
  split; [done|]. cbn [snd]. rewrite Hc'. cbn [count]. rewrite blen_app. unfold u64. by rewrite Zplus_mod_idemp_l.
Qed.
Lemma pad_zeros_fed fuel : forall M ctx, fed M ctx -> (56 - blen M) mod 64 <= Z.of_nat fuel ->
  fed (M ++ replicate (Z.to_nat ((56 - blen M) mod 64)) 0) (pad_zeros T fuel ctx).
Proof.
  induction fuel as [|fuel IH]; intros M ctx Hf Hk; pose proof (blen_nonneg M);
    assert (Hp : Z.land (count ctx) 63 = blen M mod 64)
      by (destruct Hf as [_ ->]; apply Z2Nat.inj; [apply Z.land_nonneg; right; lia|apply Z.mod_pos_bound; lia|by apply count_place]);
    cbn [pad_zeros]; rewrite Hp.
  - replace ((56 - blen M) mod 64) with 0 by (Z.div_mod_to_equations; lia). cbn [Z.to_nat replicate]. rewrite app_nil_r. by case_match.
  - destruct (Z.eqb_spec (blen M mod 64) 56) as [E|E].
    + replace ((56 - blen M) mod 64) with 0 by (Z.div_mod_to_equations; lia). by rewrite app_nil_r.
    + assert (Hn : (56 - blen (M ++ [0])) mod 64 = (56 - blen M) mod 64 - 1)
        by (rewrite blen_app; change (blen [0]) with 1; Z.div_mod_to_equations; lia).
      specialize (IH (M ++ [0]) (update T ctx [0]) (update_fed _ _ _ Hf)). rewrite Hn in IH.
      replace (Z.to_nat ((56 - blen M) mod 64)) with (S (Z.to_nat ((56 - blen M) mod 64 - 1))) by (Z.div_mod_to_equations; lia).
      cbn [replicate]. rewrite <- app_assoc in IH. apply IH. lia.
Qed.
Lemma foldl_update_fed (f : Z -> Z) l : forall M ctx, fed M ctx ->
  fed (M ++ (f <$> l)) (foldl (fun ctx i => update T ctx [f i]) ctx l).
Proof.
  induction l as [|x l IH]; intros M ctx Hf; cbn [foldl fmap list_fmap]; [by rewrite app_nil_r|].
  specialize (IH _ _ (update_fed M ctx [f x] Hf)). by rewrite <- app_assoc in IH.
Qed.
Lemma length_bytes8 n : be_bytes 8 n = (fun i => u8 (Z.shiftr n ((7 - i) * 8))) <$> seqZ 0 8.
Proof.
  unfold be_bytes. apply list_fmap_ext. intros k i Hi. apply lookup_seqZ in Hi as [-> Hi]. unfold u8.
  rewrite Z.shiftr_div_pow2 by lia. do 3 f_equal. lia.
Qed.
Lemma store_word_be v : store_word v = be_bytes 4 v.
Proof.
  unfold store_word, u8. rewrite !Z.shiftr_div_pow2 by lia. unfold be_bytes.
  change (seqZ 0 (Z.of_nat 4)) with [0; 1; 2; 3]. cbn [fmap list_fmap]. by rewrite Z.div_1_r.
Qed.
Lemma length_store ws : length (ws ≫= store_word) = (4 * length ws)%nat.
Proof. induction ws as [|w ws IH]; [done|]. rewrite bind_cons, length_app, IH. cbn [length store_word]. lia. Qed.
(** The digest is that of the padded message, for any pieces. *)
Lemma final_fed words M ctx : fed M ctx -> 8 * blen M < 2 ^ 64 -> (4 * words <= 64)%nat ->
  (forall s b, length (T s b) = words) -> length H0 = words ->
  take (4 * words) (final T words ctx) = fips_hash T H0 M.
Proof.
  intros Hf Hb Hw HT HH0. pose proof (blen_nonneg M). unfold final.
  assert (Hcnt : u64 (count ctx * 8) = 8 * blen M).
  { destruct Hf as [_ ->]. rewrite (u64_id (blen M)), u64_id by (unfold is_u64; lia). lia. }
  rewrite Hcnt. apply (update_fed _ _ [0x80]) in Hf.
  assert (Hz : (56 - blen (M ++ [0x80])) mod 64 = (55 - blen M) mod 64) by (rewrite blen_app; change (blen [0x80]) with 1; f_equal; lia).
  apply (pad_zeros_fed 64) in Hf; [|pose proof (Z.mod_pos_bound (56 - blen (M ++ [0x80])) 64); lia]. rewrite Hz in Hf.
  apply (foldl_update_fed (fun i => u8 (Z.shiftr (8 * blen M) ((7 - i) * 8))) (seqZ 0 8)) in Hf. rewrite <- length_bytes8 in Hf.
  rewrite <- !app_assoc in Hf. fold (fips_pad M) in Hf. destruct Hf as [[Hl Hs _] _].
  rewrite Hs. unfold fips_hash. set (st := foldl T H0 (blocks (fips_pad M))).
  assert (Hst : length st = words). { unfold st. destruct (blocks (fips_pad M)) using rev_ind; [done|]. rewrite foldl_app. apply HT. }
  rewrite (take_ge st) by lia. rewrite overwrite_all, take_app_le, take_ge by (rewrite length_store; lia).
  apply list_bind_ext; [|done]. intros w. apply store_word_be.
Qed.
End Fed.

(** ** The digests *)
Lemma be_bytes_ok n v : bytes_ok (be_bytes n v).
Proof. unfold be_bytes. apply Forall_fmap, Forall_true. intros i. unfold is_byte. cbn. apply Z.mod_pos_bound. lia. Qed.
Lemma fips_pad_ok M : bytes_ok M -> bytes_ok (fips_pad M).
Proof.
  intros HM. unfold fips_pad. repeat (apply Forall_app; split); [done|constructor; [unfold is_byte; lia|constructor]| |apply be_bytes_ok].
  apply Forall_replicate. unfold is_byte. lia.
Qed.
Lemma blocks_ok M : bytes_ok M -> Forall bytes_ok (blocks M).
Proof. intros HM. unfold blocks. apply Forall_fmap, Forall_true. intros i. by apply slice_ok. Qed.
Section Digests.
Variables T C : list Z -> list Z -> list Z.
Variables (H0 : list Z) (words : nat).
Hypothesis HT : forall s b, Forall is_u32 (T s b) /\ length (T s b) = words.
Hypothesis HC : forall s b, Forall is_u32 s -> length s = words -> bytes_ok b -> T s b = C s b.
Hypothesis HH : Forall is_u32 H0 /\ length H0 = words.
Hypothesis Hwords : (4 * words <= 64)%nat.
Lemma fips_hash_same M : bytes_ok M -> fips_hash T H0 M = fips_hash C H0 M.
Proof.
  intros HM. unfold fips_hash. f_equal. pose proof (blocks_ok _ (fips_pad_ok M HM)) as Hb. revert Hb. destruct HH as [H1 H2].
  revert H1 H2. generalize H0. induction (blocks (fips_pad M)) as [|b bs IH]; intros s H1 H2 Hb; cbn [foldl]; [reflexivity|].
  apply Forall_cons in Hb as [Hb Hbs]. destruct (HT s b) as [H3 H4]. rewrite IH by assumption. rewrite HC by assumption. reflexivity.
Qed.
Lemma stream_exact junk chunks : length junk = 64%nat -> Forall bytes_ok chunks -> 8 * blen (concat chunks) < 2 ^ 64 ->
  take (4 * words) (final T words (foldl (update T) (MkCtx 0 junk H0) chunks)) = fips_hash C H0 (concat chunks).
Proof.
  intros Hj Hc Hb. destruct HH as [H1 H2].
  assert (Hf : fed T H0 (concat chunks) (foldl (update T) (MkCtx 0 junk H0) chunks)).
  { assert (Hnil : fed T H0 [] (MkCtx 0 junk H0)) by (split; [split; [done|done|done]|done]).
    clear Hb Hc. revert Hnil. generalize (MkCtx 0 junk H0). change (concat chunks) with ([] ++ concat chunks). generalize (@nil Z).
    induction chunks as [|c chunks IH]; intros M ctx Hm; cbn [foldl concat]; [by rewrite app_nil_r|].
    rewrite app_assoc. apply IH. by apply update_fed. }
  rewrite (final_fed T H0 words _ _ Hf Hb Hwords (fun s b => proj2 (HT s b)) H2). apply fips_hash_same.
  clear Hb Hf. induction Hc as [|c chunks Hc _ IH]; [constructor|]. cbn [concat]. by apply Forall_app.
Qed.
End Digests.
Lemma initial_u32 : Forall is_u32 SHA256_state /\ Forall is_u32 SHA_state.
Proof. split; (repeat (apply Forall_cons; split; [unfold is_u32; lia|])); apply Forall_nil; exact I. Qed.

(** C22: the streaming SHA-256 and SHA-1 of libmincrypt are those of FIPS
    180-4. Whatever a buffer held before and however a message of less than
    2^61 bytes is cut into pieces, init, the updates and final give the digest of
    the standard: the message padded as a whole, the functions bit by bit. *)
Theorem mincrypt_sha_exact (junk : list Z) (chunks : list (list Z)) :
  length junk = 64%nat -> Forall bytes_ok chunks -> blen (concat chunks) < 2 ^ 61 ->
  take SHA256_DIGEST_SIZE (SHA256_final (foldl SHA256_update (SHA256_init junk) chunks)) = fips_sha256 (concat chunks) /\
  take SHA_DIGEST_SIZE (SHA_final (foldl SHA_update (SHA_init junk) chunks)) = fips_sha1 (concat chunks).
Proof.
  intros Hj Hc Hb. destruct initial_u32 as [I1 I2]. split.
  - apply (stream_exact SHA256_Transform fips_compress256 SHA256_state 8 SHA256_Transform_ok SHA256_Transform_fips
      (conj I1 eq_refl) ltac:(lia) junk chunks Hj Hc). lia.
  - apply (stream_exact SHA1_Transform fips_compress1 SHA_state 5 SHA1_Transform_ok SHA1_Transform_fips
      (conj I2 eq_refl) ltac:(lia) junk chunks Hj Hc). lia.
Qed.
Lemma mincrypt_sha_exact_witness :
  fips_sha256 [0x61; 0x62; 0x63] = [0xba; 0x78; 0x16; 0xbf; 0x8f; 0x01; 0xcf; 0xea; 0x41; 0x41; 0x40; 0xde; 0x5d; 0xae; 0x22; 0x23;
    0xb0; 0x03; 0x61; 0xa3; 0x96; 0x17; 0x7a; 0x9c; 0xb4; 0x10; 0xff; 0x61; 0xf2; 0x00; 0x15; 0xad] /\
  fips_sha1 [0x61; 0x62; 0x63] = [0xa9; 0x99; 0x3e; 0x36; 0x47; 0x06; 0x81; 0x6a; 0xba; 0x3e; 0x25; 0x71; 0x78; 0x50; 0xc2; 0x6c;
    0x9c; 0xd0; 0xd8; 0x9d].
Proof.
  destruct (mincrypt_sha_exact (replicate 64 7) [[0x61]; []; [0x62; 0x63]]) as [H1 H2].
  - reflexivity.
  - repeat (apply Forall_cons; split); try apply Forall_nil; try exact I; unfold is_byte; lia.
  - reflexivity.
  - change (concat [[0x61]; []; [0x62; 0x63]]) with [0x61; 0x62; 0x63] in *. rewrite <- H1, <- H2. split; vm_compute; reflexivity.
Defined.
