(* ===== verification/MincryptRsa.v ===== *)
(** libmincrypt/rsa.c: verification of 2048-bit RSA signatures with PKCS #1
    v1.5 padding, by Montgomery multiplication on arrays of 32-bit words.

    An array of key->len words is the list of its words, least significant
    first. Signed and unsigned 64-bit accumulators wrap as in C. *)
From stdpp Require Import base list.
From Stdlib Require Import ZArith Znumtheory Lia Setoid Morphisms.
From S2P Require Import Prelude Kernel MincryptSha.

(** ** rsa.h *)
Definition RSANUMBYTES : Z := 256.
Definition RSANUMWORDS : Z := RSANUMBYTES / 4.
Record RSAPublicKey := MkKey { len : Z; n0inv : Z; n : list Z; rr : list Z; exponent : Z }.

(** ** rsa.c *)
(** Conversion to int64_t. *)
Definition s64 (z : Z) : Z := (z + 2 ^ 63) mod 2 ^ 64 - 2 ^ 63.
Fixpoint subM_loop (A : Z) (a m : list Z) : list Z :=
  match a, m with
  | x :: a, y :: m => let A := s64 (A + u64 (x - y)) in u32 A :: subM_loop (Z.shiftr A 32) a m
  | _, _ => []
  end.
Definition subM (key : RSAPublicKey) (a : list Z) : list Z := subM_loop 0 a (n key).
(** From the most significant word down. *)
Fixpoint geM_loop (a m : list Z) : bool :=
  match a, m with
  | x :: a, y :: m => if x <? y then false else if y <? x then true else geM_loop a m
  | _, _ => true
  end.
Definition geM (key : RSAPublicKey) (a : list Z) : bool := geM_loop (rev a) (rev (n key)).
(** The words c[0] to c[len - 2] and the last values of A and B. *)
Fixpoint montMulAdd_loop (a d0 : Z) (b c m : list Z) (A B : Z) : list Z * Z * Z :=
  match b, c, m with
  | x :: b, y :: c, z :: m =>
      let A := u64 (Z.shiftr A 32 + a * x + y) in
      let B := u64 (Z.shiftr B 32 + d0 * z + u32 A) in
      let '(out, A', B') := montMulAdd_loop a d0 b c m A B in (u32 B :: out, A', B')
  | _, _, _ => ([], A, B)
  end.
Definition montMulAdd (key : RSAPublicKey) (c : list Z) (a : Z) (b : list Z) : list Z :=
  match b, c, n key with
  | b0 :: bs, c0 :: cs, m0 :: ms =>
      let A := u64 (a * b0 + c0) in
      let d0 := u32 (u32 A * n0inv key) in
      let B := u64 (d0 * m0 + u32 A) in
      let '(out, A, B) := montMulAdd_loop a d0 bs cs ms A B in
      let A := u64 (Z.shiftr A 32 + Z.shiftr B 32) in
      let c := out ++ [u32 A] in
      if negb (Z.shiftr A 32 =? 0) then subM key c else c
  | _, _, _ => c
  end.
Definition montMul (key : RSAPublicKey) (a b : list Z) : list Z :=
  foldl (fun c x => montMulAdd key c x b) (replicate (Z.to_nat (len key)) 0) a.
(** for (i = 0; i < 16; i += 2): two squarings a round. *)
Fixpoint square_twice (rounds : nat) (key : RSAPublicKey) (aR : list Z) : list Z :=
  match rounds with
  | O => aR
  | S rounds => let aaR := montMul key aR aR in square_twice rounds key (montMul key aaR aaR)
  end.
(** [None]: the null pointer aaa is used. *)
Definition modpow (key : RSAPublicKey) (inout : list Z) : option (list Z) :=
  let a := rev (load_words inout) in
  aaa ← (if exponent key =? 65537 then
           let aR := montMul key a (rr key) in
           Some (montMul key (square_twice 8 key aR) a)
         else if exponent key =? 3 then
           let aR := montMul key a (rr key) in
           let aaR := montMul key aR aR in
           Some (montMul key aaR a)
         else None);
  let aaa := if geM key aaa then subM key aaa else aaa in
  Some (rev aaa ≫= store_word).
Definition kExpectedPadShaRsa2048 : list Z := [
  0xdc; 0xbd; 0xbe; 0x42; 0xd5; 0xf5; 0xa7; 0x2e; 0x6e; 0xfc; 0xf5; 0x5d; 0xaf; 0x9d; 0xea; 0x68;
  0x7c; 0xfb; 0xf1; 0x67].
Definition kExpectedPadSha256Rsa2048 : list Z := [
  0xab; 0x28; 0x8d; 0x8a; 0xd7; 0xd9; 0x59; 0x92; 0xba; 0xcc; 0xf8; 0x67; 0x20; 0xe1; 0x15; 0x2e;
  0x39; 0x8d; 0x80; 0x36; 0xd6; 0x6f; 0xf0; 0xfd; 0x90; 0xe8; 0x7d; 0x8b; 0xe1; 0x7c; 0x87; 0x59].
Definition xor_tail (buf hash : list Z) : list Z :=
  let k := (length buf - length hash)%nat in take k buf ++ zip_with Z.lxor (drop k buf) hash.
(** [junk]: the uninitialised buffer of the hash context. *)
Definition RSA_verify (junk : list Z) (key : RSAPublicKey) (signature hash : list Z) : option Z :=
  if negb (len key =? RSANUMWORDS) then Some 0
  else if negb (blen signature =? RSANUMBYTES) then Some 0
  else if negb (length hash =? SHA_DIGEST_SIZE)%nat && negb (length hash =? SHA256_DIGEST_SIZE)%nat then Some 0
  else if negb (exponent key =? 3) && negb (exponent key =? 65537) then Some 0
  else
  buf ← modpow key signature;
  let buf := xor_tail buf hash in
  let '(digest, padding_hash) :=
    if (length hash =? SHA_DIGEST_SIZE)%nat then (SHA_hash junk buf, kExpectedPadShaRsa2048)
    else (SHA256_hash junk buf, kExpectedPadSha256Rsa2048) in
  if bool_decide (digest = padding_hash) then Some 1 else Some 0.

(** ** Numbers *)
Fixpoint value (ws : list Z) : Z := match ws with [] => 0 | w :: ws => w + 2 ^ 32 * value ws end.
Definition radix (k : nat) : Z := 2 ^ (32 * Z.of_nat k).
Definition be_value (bs : list Z) : Z := foldl (fun v b => v * 2 ^ 8 + b) 0 bs.
Lemma radix_S k : radix (S k) = 2 ^ 32 * radix k.
Proof. unfold radix. rewrite Nat2Z.inj_succ, <- Z.pow_add_r by lia. f_equal. lia. Qed.
Lemma radix_pos k : 0 < radix k.
Proof. unfold radix. apply Z.pow_pos_nonneg; lia. Qed.
Lemma value_range ws : Forall is_u32 ws -> 0 <= value ws < radix (length ws).
Proof.
  induction 1 as [|w ws Hw _ IH]; cbn [value length]; [unfold radix; cbn; lia|]. rewrite radix_S. unfold is_u32 in Hw. lia.
Qed.
Lemma value_app a b : value (a ++ b) = value a + radix (length a) * value b.
Proof.
  induction a as [|w a IH]; cbn [app value length]; [unfold radix; cbn; lia|]. rewrite IH, radix_S. lia.
Qed.
Lemma value_inj a : forall b, Forall is_u32 a -> Forall is_u32 b -> length a = length b -> value a = value b -> a = b.
Proof.
  induction a as [|x a IH]; intros [|y b] Ha Hb Hl E; try discriminate Hl; [done|].
  apply Forall_cons in Ha as [Hx Ha]. apply Forall_cons in Hb as [Hy Hb]. cbn [value] in E. unfold is_u32 in Hx, Hy.
  assert (x = y) as -> by lia. f_equal. apply IH; [done|done|by injection Hl|lia].
Qed.
Lemma value_zeros k : value (replicate k 0) = 0.
Proof. induction k as [|k IH]; cbn [replicate value]; [done|]. lia. Qed.
Lemma lo_hi x : x = u32 x + 2 ^ 32 * Z.shiftr x 32.
Proof. unfold u32. rewrite Z.shiftr_div_pow2 by lia. pose proof (Z.div_mod x (2 ^ 32)). lia. Qed.
Lemma s64_id x : - 2 ^ 63 <= x < 2 ^ 63 -> s64 (u64 x) = x.
Proof. intros Hx. unfold s64, u64. rewrite Zplus_mod_idemp_l, Z.mod_small by lia. lia. Qed.
Lemma s64_step A x y : - 1 <= A <= 0 -> is_u32 x -> is_u32 y -> s64 (A + u64 (x - y)) = A + x - y.
Proof.
  intros HA Hx Hy. unfold is_u32 in *. transitivity (s64 (u64 (A + x - y))); [|apply s64_id; lia].
  unfold s64. f_equal. unfold u64. rewrite <- (Zplus_mod_idemp_l (A + _)), <- (Zplus_mod_idemp_l ((A + x - y) mod _)).
  rewrite Zmod_mod, Zplus_mod_idemp_r. do 3 f_equal. lia.
Qed.
Lemma subM_loop_spec a : forall m A, Forall is_u32 a -> Forall is_u32 m -> length a = length m -> - 1 <= A <= 0 ->
  Forall is_u32 (subM_loop A a m) /\ length (subM_loop A a m) = length m /\
  exists A', - 1 <= A' <= 0 /\ value a - value m + A = value (subM_loop A a m) + radix (length m) * A'.
Proof.
  induction a as [|x a IH]; intros [|y m] A Ha Hm Hl HA; try discriminate Hl; cbn [subM_loop].
  { split; [constructor|]. split; [done|]. exists A. split; [done|]. cbn. unfold radix. cbn. lia. }
  apply Forall_cons in Ha as [Hx Ha]. apply Forall_cons in Hm as [Hy Hm]. rewrite s64_step by done. unfold is_u32 in Hx, Hy.
  set (D := A + x - y). pose proof (lo_hi D) as Hd. pose proof (u32_range D) as Hlo. unfold is_u32 in Hlo.
  assert (HA' : - 1 <= Z.shiftr D 32 <= 0) by lia.
  destruct (IH m (Z.shiftr D 32) Ha Hm ltac:(injection Hl; done) HA') as (H1 & H2 & A' & H3 & H4).
  split; [constructor; [apply u32_range|done]|]. split; [cbn [length]; by rewrite H2|]. exists A'. split; [done|].
  cbn [value length]. rewrite radix_S. unfold D in *. lia.
Qed.
Lemma geM_loop_app a m x y : length a = length m ->
  geM_loop (a ++ [x]) (m ++ [y]) = if bool_decide (a = m) then y <=? x else geM_loop a m.
Proof.
  revert m. induction a as [|u a IH]; intros [|v m] Hl; try discriminate Hl; cbn [app geM_loop].
  - rewrite bool_decide_eq_true_2 by done. destruct (Z.ltb_spec x y), (Z.ltb_spec y x), (Z.leb_spec y x); try lia; done.
  - rewrite IH by (injection Hl; done). destruct (Z.ltb_spec u v); [rewrite bool_decide_eq_false_2 by (intros [=]; lia); done|].
    destruct (Z.ltb_spec v u); [rewrite bool_decide_eq_false_2 by (intros [=]; lia); done|]. assert (u = v) as -> by lia.
    destruct (decide (a = m)) as [->|Hne]; [by rewrite !bool_decide_eq_true_2|]. rewrite !bool_decide_eq_false_2; [done|congruence|done].
Qed.
Lemma geM_spec key a : Forall is_u32 a -> Forall is_u32 (n key) -> length a = length (n key) -> geM key a = (value (n key) <=? value a).
Proof.
  unfold geM. generalize (n key). intros m Ha. revert m. induction Ha as [|x a Hx Ha IH]; intros [|y m] Hm Hl; try discriminate Hl; [done|].
  apply Forall_cons in Hm as [Hy Hm]. assert (Hl' : length a = length m) by (injection Hl; done). cbn [rev value].
  rewrite geM_loop_app by (rewrite !length_rev; done). unfold is_u32 in Hx, Hy. rewrite IH by done.
  case_bool_decide as E.
  - apply (f_equal (@rev Z)) in E. rewrite !rev_involutive in E. subst m.
    destruct (Z.leb_spec y x), (Z.leb_spec (y + 2 ^ 32 * value a) (x + 2 ^ 32 * value a)); lia.
  - assert (Hne : value a ≠ value m) by (intros Ev; apply E; f_equal; by apply value_inj).
    destruct (Z.leb_spec (value m) (value a)), (Z.leb_spec (y + 2 ^ 32 * value m) (x + 2 ^ 32 * value a)); lia.
Qed.
Lemma montMulAdd_loop_spec a d0 b : is_u32 a -> is_u32 d0 -> forall c m A B,
  Forall is_u32 b -> Forall is_u32 c -> Forall is_u32 m -> length b = length m -> length c = length m -> is_u64 A -> is_u64 B ->
  let '(out, A', B') := montMulAdd_loop a d0 b c m A B in
  Forall is_u32 out /\ length out = length m /\ is_u64 A' /\ is_u64 B' /\
  value out + radix (length m) * (Z.shiftr A' 32 + Z.shiftr B' 32) =
    a * value b + value c + d0 * value m + Z.shiftr A 32 + Z.shiftr B 32.
Proof.
  intros Ha Hd. unfold is_u32 in Ha, Hd. induction b as [|x b IH]; intros [|y c] [|z m] A B Hb Hc Hm H1 H2 HA HB; try discriminate H1; try discriminate H2; cbn [montMulAdd_loop].
  { split_and!; try done. cbn. unfold radix. cbn. lia. }
  apply Forall_cons in Hb as [Hx Hb]. apply Forall_cons in Hc as [Hy Hc]. apply Forall_cons in Hm as [Hz Hm].
  unfold is_u32, is_u64 in Hx, Hy, Hz, HA, HB.
  pose proof (lo_hi A). pose proof (u32_range A) as HloA. pose proof (lo_hi B). pose proof (u32_range B) as HloB. unfold is_u32 in HloA, HloB.
  assert (HAx : 0 <= Z.shiftr A 32 + a * x + y < 2 ^ 64) by nia. rewrite (u64_id _ HAx). set (A1 := Z.shiftr A 32 + a * x + y) in *.
  pose proof (lo_hi A1) as E1. pose proof (u32_range A1) as HloA1. unfold is_u32 in HloA1.
  assert (HBx : 0 <= Z.shiftr B 32 + d0 * z + u32 A1 < 2 ^ 64) by nia. rewrite (u64_id _ HBx). set (B1 := Z.shiftr B 32 + d0 * z + u32 A1) in *.
  pose proof (lo_hi B1) as E2.
  specialize (IH c m A1 B1 Hb Hc Hm ltac:(injection H1; done) ltac:(injection H2; done) HAx HBx).
  destruct (montMulAdd_loop a d0 b c m A1 B1) as [[out A'] B']. destruct IH as (I1 & I2 & I3 & I4 & I5).
  split_and!; [constructor; [apply u32_range|done]|cbn [length]; by rewrite I2|done|done|].
  cbn [value length]. rewrite radix_S. set (top := Z.shiftr A' 32 + Z.shiftr B' 32) in *.
  replace (u32 B1 + 2 ^ 32 * value out + 2 ^ 32 * radix (length m) * top) with (u32 B1 + 2 ^ 32 * (value out + radix (length m) * top)) by lia.
  rewrite I5. lia.
Qed.

(** ** Congruence *)
Definition cong (m x y : Z) : Prop := (m | x - y).
#[global] Instance cong_equiv m : Equivalence (cong m).
Proof.
  split.
  - intros x. exists 0. lia.
  - intros x y [k E]. exists (- k). lia.
  - intros x y z [k E] [l F]. exists (k + l). lia.
Qed.
#[global] Instance cong_add m : Proper (cong m ==> cong m ==> cong m) Z.add.
Proof. intros x x' [k E] y y' [l F]. exists (k + l). lia. Qed.
#[global] Instance cong_mul m : Proper (cong m ==> cong m ==> cong m) Z.mul.
Proof. intros x x' [k E] y y' [l F]. exists (k * y + l * x'). nia. Qed.
Lemma cong_eq m x y : x = y -> cong m x y.
Proof. by intros ->. Qed.
Lemma cong_mod m x y : cong m x y -> 0 < m -> 0 <= x < m -> x = y mod m.
Proof. intros [k E] Hm Hx. apply (Z.mod_unique_pos _ _ (- k)); lia. Qed.
Lemma cong_mod_eq m x y : 0 < m -> cong m x y -> x mod m = y mod m.
Proof. intros Hm [k E]. replace x with (y + k * m) by lia. apply Z_mod_plus_full. Qed.
Lemma mod_cong m x : 0 < m -> cong m (x mod m) x.
Proof. intros Hm. exists (- (x / m)). pose proof (Z.div_mod x m). lia. Qed.
Lemma cong_cancel m r t x y : cong m (r * t) 1 -> cong m (x * r) (y * r) -> cong m x y.
Proof.
  intros Ht Hc. transitivity (x * (r * t)); [rewrite Ht; apply cong_eq; lia|]. transitivity (y * (r * t)); [|rewrite Ht; apply cong_eq; lia].
  rewrite !Z.mul_assoc. by rewrite Hc.
Qed.

(** ** Montgomery multiplication *)
Record key_ok (key : RSAPublicKey) : Prop := MkKeyOk {
  ko_len : len key = Z.of_nat (length (n key));
  ko_pos : n key ≠ [];
  ko_n : Forall is_u32 (n key);
  ko_rr : Forall is_u32 (rr key) /\ length (rr key) = length (n key);
  ko_inv : (n0inv key * value (n key) + 1) mod 2 ^ 32 = 0;
  ko_top : radix (length (n key)) < 2 * value (n key);
  ko_R2 : cong (value (n key)) (value (rr key)) (radix (length (n key)) * radix (length (n key))) }.
Section Mont.
Context (key : RSAPublicKey) (Hk : key_ok key).
Definition modulus : Z := value (n key).
Definition R : Z := radix (length (n key)).
Definition words (ws : list Z) : Prop := Forall is_u32 ws /\ length ws = length (n key).
Lemma words_range ws : words ws -> 0 <= value ws < R.
Proof. intros [H1 H2]. unfold R. rewrite <- H2. by apply value_range. Qed.
Lemma words_n : words (n key).
Proof. split; [apply Hk|done]. Qed.
Lemma modulus_range : 0 < modulus < R.
Proof. pose proof (words_range _ words_n). pose proof (ko_top _ Hk). pose proof (radix_pos (length (n key))). unfold modulus, R in *. lia. Qed.
Lemma rsa_subM_spec a : words a -> words (subM key a) /\ exists k, 0 <= k <= 1 /\ value (subM key a) = value a - modulus + k * R.
Proof.
  intros [H1 H2]. destruct (subM_loop_spec a (n key) 0 H1 (ko_n _ Hk) H2 ltac:(lia)) as (S1 & S2 & A & S3 & S4).
  split; [by split|]. exists (- A). split; [lia|]. unfold subM, modulus, R. lia.
Qed.
Lemma low_word_cancel a0 m0 : is_u32 m0 -> m0 = modulus mod 2 ^ 32 -> u32 (u32 (a0 * n0inv key) * m0 + a0) = 0.
Proof.
  intros Hm E. unfold u32. rewrite Zplus_mod, Zmult_mod_idemp_l, <- Zplus_mod, E.
  rewrite <- (Zplus_mod_idemp_l (a0 * _ * _)), Zmult_mod_idemp_r, Zplus_mod_idemp_l.
  replace (a0 * n0inv key * modulus + a0) with (a0 * (n0inv key * modulus + 1)) by lia.
  rewrite Zmult_mod. unfold modulus. rewrite (ko_inv _ Hk), Z.mul_0_r. reflexivity.
Qed.
(** The last carry: the number [V] is brought below R. *)
Lemma carry_out out top V : Forall is_u32 out -> S (length out) = length (n key) -> 0 <= top < 2 ^ 33 ->
  V = value out + radix (length out) * top -> V < R + modulus ->
  let c := out ++ [u32 top] in let c' := if negb (Z.shiftr top 32 =? 0) then subM key c else c in
  words c' /\ cong modulus (value c') V.
Proof.
  intros Ho Hl Ht HV HR c. pose proof modulus_range as HN. pose proof (value_range out Ho) as Hov. pose proof (lo_hi top) as Et.
  pose proof (u32_range top) as Hlo. assert (ER : R = 2 ^ 32 * radix (length out)) by (unfold R; rewrite <- Hl; apply radix_S).
  assert (Hc : words c).
  { split; [apply Forall_app; split; [done|by constructor]|]. unfold c. rewrite length_app. cbn [length]. lia. }
  assert (Hv : value c = V - R * Z.shiftr top 32).
  { unfold c. rewrite value_app. cbn [value]. rewrite ER, HV. rewrite Et at 2. lia. }
  destruct (Z.eqb_spec (Z.shiftr top 32) 0) as [E|E]; cbn [negb]; [rewrite E in Hv; split; [done|apply cong_eq; lia]|].
  pose proof (words_range c Hc) as Hcr. unfold is_u32 in Hlo. assert (E1 : Z.shiftr top 32 = 1) by lia. rewrite E1 in Hv.
  destruct (rsa_subM_spec c Hc) as (Hw & k & Hk01 & Hs). pose proof (words_range _ Hw). split; [done|].
  exists (-1). assert (k = 1) as -> by nia. lia.
Qed.
(** One word of the multiplier. *)
Lemma montMulAdd_spec c a b : words c -> words b -> is_u32 a ->
  words (montMulAdd key c a b) /\ cong modulus (2 ^ 32 * value (montMulAdd key c a b)) (value c + a * value b).
Proof.
  intros Hc Hb Ha. pose proof modulus_range as HN. pose proof (words_range c Hc) as Hcr. pose proof (words_range b Hb) as Hbr.
  destruct Hc as [Hc1 Hc2], Hb as [Hb1 Hb2]. unfold montMulAdd. pose proof (ko_n _ Hk) as Hn. pose proof (ko_pos _ Hk) as Hne.
  destruct (n key) as [|m0 m] eqn:En; [done|]. destruct b as [|b0 b]; [done|]. destruct c as [|c0 c]; [done|].
  pose proof Hc1 as Hc0. pose proof Hb1 as Hb0. apply Forall_cons in Hc0 as [Hc0 Hcs]. apply Forall_cons in Hb0 as [Hb0 Hbs]. apply Forall_cons in Hn as [Hm0 Hms].
  unfold is_u32 in Ha, Hb0, Hc0, Hm0.
  assert (HA : 0 <= a * b0 + c0 < 2 ^ 64) by nia. rewrite (u64_id _ HA). set (A := a * b0 + c0) in *.
  pose proof (lo_hi A) as EA. pose proof (u32_range A) as HloA. unfold is_u32 in HloA.
  set (d0 := u32 (u32 A * n0inv key)). pose proof (u32_range (u32 A * n0inv key)) as Hd0. fold d0 in Hd0. unfold is_u32 in Hd0.
  assert (HB : 0 <= d0 * m0 + u32 A < 2 ^ 64) by nia. rewrite (u64_id _ HB). set (B := d0 * m0 + u32 A) in *.
  assert (HB0 : u32 B = 0).
  { apply low_word_cancel; [done|]. unfold modulus. rewrite En. cbn [value]. rewrite Z.mul_comm, Z_mod_plus_full, Z.mod_small; lia. }
  pose proof (lo_hi B) as EB. rewrite HB0 in EB.
  pose proof (montMulAdd_loop_spec a d0 b Ha Hd0 c m A B Hbs Hcs Hms ltac:(injection Hb2; done) ltac:(injection Hc2; done) HA HB) as HL.
  destruct (montMulAdd_loop a d0 b c m A B) as [[out A'] B']. destruct HL as (L1 & L2 & L3 & L4 & L5).
  unfold is_u64 in L3, L4. pose proof (lo_hi A'). pose proof (u32_range A') as HloA'. pose proof (lo_hi B'). pose proof (u32_range B') as HloB'.
  unfold is_u32 in HloA', HloB'. set (top := Z.shiftr A' 32 + Z.shiftr B' 32) in *. rewrite (u64_id top) by (unfold is_u64; lia).
  set (V := value out + radix (length m) * top) in *.
  assert (EV : 2 ^ 32 * V = value (c0 :: c) + a * value (b0 :: b) + d0 * modulus).
  { unfold modulus. rewrite En. cbn [value]. rewrite L5. assert (A = a * b0 + c0) by reflexivity. assert (B = d0 * m0 + u32 A) by reflexivity. lia. }
  destruct (carry_out out top V L1) as [Hw Hcong]; [rewrite En; cbn [length]; by rewrite L2|lia|by rewrite L2|nia|].
  split; [exact Hw|]. rewrite Hcong, EV. exists d0. lia.
Qed.
Lemma foldl_mont a b : words b -> Forall is_u32 a -> forall c, words c ->
  words (foldl (fun c x => montMulAdd key c x b) c a) /\
  cong modulus (radix (length a) * value (foldl (fun c x => montMulAdd key c x b) c a)) (value c + value a * value b).
Proof.
  intros Hb. induction 1 as [|x a Hx Ha IH]; intros c Hc; cbn [foldl value length].
  { split; [done|]. apply cong_eq. unfold radix. cbn. lia. }
  destruct (montMulAdd_spec c x b Hc Hb Hx) as [Hw Hcong]. destruct (IH _ Hw) as [Hw' IH']. split; [done|].
  rewrite radix_S, <- Z.mul_assoc, IH', Z.mul_add_distr_l, Hcong. apply cong_eq. lia.
Qed.
Lemma words_zeros : words (replicate (Z.to_nat (len key)) 0).
Proof.
  split; [apply Forall_replicate; unfold is_u32; lia|]. rewrite length_replicate, (ko_len _ Hk). lia.
Qed.
Lemma montMul_spec a b : words a -> words b ->
  words (montMul key a b) /\ cong modulus (value (montMul key a b) * R) (value a * value b).
Proof.
  intros [Ha Hl] Hb. destruct (foldl_mont a b Hb Ha _ words_zeros) as [Hw Hc]. split; [done|].
  rewrite value_zeros, Hl in Hc. rewrite Z.mul_comm. exact Hc.
Qed.
Lemma R_inverse : exists t, cong modulus (R * t) 1.
Proof.
  assert (Hinv : exists t, cong modulus (2 ^ 32 * t) 1).
  { exists ((n0inv key * modulus + 1) / 2 ^ 32). exists (n0inv key). pose proof (Z.div_mod (n0inv key * modulus + 1) (2 ^ 32) ltac:(lia)) as E.
    unfold modulus in *. rewrite (ko_inv _ Hk) in E. lia. }
  destruct Hinv as [t Ht]. unfold R. induction (length (n key)) as [|k [u IH]]; [exists 1; apply cong_eq; done|].
  exists (t * u). rewrite radix_S. replace (2 ^ 32 * radix k * (t * u)) with ((2 ^ 32 * t) * (radix k * u)) by lia. rewrite Ht, IH. done.
Qed.
(** [w] is the Montgomery form of [x]. *)
Definition form (w : list Z) (x : Z) : Prop := words w /\ cong modulus (value w) (x * R).
Lemma form_mul v w x y : form v x -> form w y -> form (montMul key v w) (x * y).
Proof.
  intros [Hv Ex] [Hw Ey]. destruct (montMul_spec v w Hv Hw) as [Hm Em]. split; [done|]. destruct R_inverse as [t Ht].
  apply (cong_cancel _ R t _ _ Ht). rewrite Em, Ex, Ey. apply cong_eq. lia.
Qed.
Lemma form_enter a : words a -> form (montMul key a (rr key)) (value a).
Proof.
  intros Ha. destruct (montMul_spec a (rr key) Ha (ko_rr _ Hk)) as [Hm Em]. split; [done|]. destruct R_inverse as [t Ht].
  apply (cong_cancel _ R t _ _ Ht). rewrite Em, (ko_R2 _ Hk). apply cong_eq. fold R. lia.
Qed.
Lemma form_leave w x a : form w x -> words a -> words (montMul key w a) /\ cong modulus (value (montMul key w a)) (x * value a).
Proof.
  intros [Hw Ex] Ha. destruct (montMul_spec w a Hw Ha) as [Hm Em]. split; [done|]. destruct R_inverse as [t Ht].
  apply (cong_cancel _ R t _ _ Ht). rewrite Em, Ex. apply cong_eq. lia.
Qed.
Lemma square_twice_form rounds : forall w x, form w x -> form (square_twice rounds key w) (x ^ (4 ^ Z.of_nat rounds)).
Proof.
  induction rounds as [|rounds IH]; intros w x Hw; cbn [square_twice]; [by rewrite Z.pow_1_r|].
  pose proof (form_mul _ _ _ _ Hw Hw) as H2. pose proof (IH _ _ (form_mul _ _ _ _ H2 H2)) as H4.
  replace (x ^ (4 ^ Z.of_nat (S rounds))) with ((x * x * (x * x)) ^ (4 ^ Z.of_nat rounds)); [done|].
  rewrite Nat2Z.inj_succ, Z.pow_succ_r, Z.pow_mul_r by lia. f_equal. lia.
Qed.
(** The last subtraction. *)
Lemma reduce_spec a x : words a -> cong modulus (value a) x ->
  let r := if geM key a then subM key a else a in words r /\ value r = x mod modulus.
Proof.
  intros Ha Hx. pose proof (words_range a Ha). pose proof modulus_range. pose proof (ko_top _ Hk) as Ht. fold R in Ht. fold modulus in Ht.
  destruct Ha as [Ha1 Ha2]. rewrite geM_spec by (done || apply Hk). fold modulus.
  destruct (Z.leb_spec modulus (value a)).
  - destruct (rsa_subM_spec a) as (Hw & k & Hk01 & Hs); [by split|]. pose proof (words_range _ Hw). split; [done|].
    assert (k = 0) as -> by nia. apply cong_mod; [|lia|lia]. rewrite <- Hx, Hs. exists (-1). lia.
  - split; [by split|]. apply cong_mod; [done|lia|lia].
Qed.

(** ** Bytes *)
Lemma be_value_acc bs v : foldl (fun v b => v * 2 ^ 8 + b) v bs = v * 2 ^ (8 * Z.of_nat (length bs)) + be_value bs.
Proof.
  unfold be_value. revert v. induction bs as [|b bs IH]; intros v; cbn [foldl length]; [cbn; lia|].
  rewrite (IH (v * _ + b)), (IH (0 * _ + b)), Nat2Z.inj_succ, <- (Z.mul_1_r 8), Z.mul_1_r.
  replace (8 * Z.succ (Z.of_nat (length bs))) with (8 + 8 * Z.of_nat (length bs)) by lia. rewrite Z.pow_add_r by lia. lia.
Qed.
Lemma be_value_cons b bs : be_value (b :: bs) = b * 2 ^ (8 * Z.of_nat (length bs)) + be_value bs.
Proof. unfold be_value at 1. cbn [foldl]. by rewrite be_value_acc, Z.mul_0_l, Z.add_0_l. Qed.
Lemma value_rev_words bs : forall k, length bs = (4 * k)%nat -> bytes_ok bs ->
  Forall is_u32 (rev (load_words bs)) /\ length (rev (load_words bs)) = k /\ value (rev (load_words bs)) = be_value bs.
Proof.
  intros k. revert bs. induction k as [|k IH]; intros bs Hl Hb.
  { destruct bs; [|done]. split_and!; [constructor|done|done]. }
  destruct bs as [|a [|b [|c [|d bs]]]]; try (cbn in Hl; lia). pose proof Hb as Hb'. unfold bytes_ok in Hb'. rewrite !Forall_cons in Hb'.
  destruct Hb' as (Ha & Hb1 & Hc & Hd & Hbs). destruct (IH bs ltac:(cbn in Hl; lia) Hbs) as (H1 & H2 & H3).
  destruct (load_words_be _ Hb) as [E HF]. rewrite E in *. destruct (load_words_be _ Hbs) as [E' _]. rewrite E' in *. cbn [be_words] in *.
  apply Forall_cons in HF as [HF _]. cbn [rev]. rewrite length_app, value_app, H2. cbn [length value].
  split_and!; [apply Forall_app; split; [done|by constructor]|lia|].
  rewrite H3. change (be_value (a :: b :: c :: d :: bs)) with (foldl (fun v b => v * 2 ^ 8 + b) ((((0 * 2 ^ 8 + a) * 2 ^ 8 + b) * 2 ^ 8 + c) * 2 ^ 8 + d) bs).
  rewrite be_value_acc. unfold radix. replace (8 * Z.of_nat (length bs)) with (32 * Z.of_nat k) by (cbn in Hl; lia). lia.
Qed.
Lemma be_bytes_snoc k v : be_bytes (S k) v = be_bytes k (v / 2 ^ 8) ++ [v mod 2 ^ 8].
Proof.
  unfold be_bytes. rewrite Nat2Z.inj_succ, <- Z.add_1_r, seqZ_app, seqZ_one, fmap_app by lia. f_equal.
  - apply list_fmap_ext. intros i x Hx. apply lookup_seqZ in Hx as [-> Hx]. rewrite Z.div_div by lia.
    rewrite <- Z.pow_add_r by lia. do 3 f_equal. lia.
  - cbn [fmap list_fmap]. do 2 f_equal. replace (8 * (Z.of_nat k + 1 - 1 - (0 + Z.of_nat k))) with 0 by lia. by rewrite Z.div_1_r.
Qed.
Lemma be_bytes_app j k v : be_bytes (j + k) v = be_bytes j (v / 2 ^ (8 * Z.of_nat k)) ++ be_bytes k v.
Proof.
  revert v. induction k as [|k IH]; intros v; [rewrite Nat.add_0_r, Z.div_1_r; cbn; by rewrite app_nil_r|].
  rewrite Nat.add_succ_r, !be_bytes_snoc, IH, app_assoc. do 2 f_equal. rewrite Z.div_div by lia. rewrite <- Z.pow_add_r by lia. do 3 f_equal. lia.
Qed.
Lemma be_bytes_mod k v w : v mod 2 ^ (8 * Z.of_nat k) = w mod 2 ^ (8 * Z.of_nat k) -> be_bytes k v = be_bytes k w.
Proof.
  revert v w. induction k as [|k IH]; intros v w E; [done|]. rewrite !be_bytes_snoc.
  replace (8 * Z.of_nat (S k)) with (8 + 8 * Z.of_nat k) in E by lia. rewrite Z.pow_add_r in E by lia.
  rewrite !Z.rem_mul_r in E by lia.
  pose proof (Z.mod_pos_bound v (2 ^ 8)). pose proof (Z.mod_pos_bound w (2 ^ 8)). f_equal; [apply IH; lia|f_equal; lia].
Qed.
Lemma be_bytes_value bs : bytes_ok bs -> be_bytes (length bs) (be_value bs) = bs.
Proof.
  induction bs as [|b bs IH] using rev_ind; intros Hb; [done|]. apply Forall_app in Hb as [Hbs Hb]. apply Forall_cons in Hb as [Hb _].
  rewrite length_app, Nat.add_1_r, be_bytes_snoc. unfold be_value. rewrite foldl_app. cbn [foldl]. fold (be_value bs). unfold is_byte in Hb.
  rewrite Z.add_comm, Z.div_add, Z.div_small, Z.add_0_l, IH, Z_mod_plus_full, Z.mod_small by (done || lia). done.
Qed.
Lemma store_words ws : Forall is_u32 ws -> rev ws ≫= store_word = be_bytes (4 * length ws) (value ws).
Proof.
  induction 1 as [|w ws Hw _ IH]; [done|]. cbn [rev value length]. rewrite bind_app, IH. cbn [mbind list_bind]. rewrite app_nil_r.
  replace (4 * S (length ws))%nat with (4 * length ws + 4)%nat by lia. rewrite be_bytes_app, store_word_be.
  unfold is_u32 in Hw. change (8 * Z.of_nat 4) with 32. f_equal.
  - f_equal. rewrite Z.mul_comm, Z.div_add, Z.div_small by lia. lia.
  - apply be_bytes_mod. change (8 * Z.of_nat 4) with 32. by rewrite Z.mul_comm, Z_mod_plus_full.
Qed.
End Mont.

Lemma modpow_spec key sig : key_ok key -> exponent key = 3 \/ exponent key = 65537 ->
  length sig = (4 * length (n key))%nat -> bytes_ok sig ->
  modpow key sig = Some (be_bytes (4 * length (n key)) (be_value sig ^ exponent key mod value (n key))).
Proof.
  intros Hk He Hl Hb. destruct (value_rev_words sig _ Hl Hb) as (W1 & W2 & W3). set (a := rev (load_words sig)) in *.
  assert (Ha : words key a) by (by split). pose proof (form_enter key Hk a Ha) as HaR. rewrite W3 in HaR.
  assert (Hout : forall aaa x, words key aaa -> cong (modulus key) (value aaa) x ->
    rev (if geM key aaa then subM key aaa else aaa) ≫= store_word = be_bytes (4 * length (n key)) (x mod value (n key))).
  { intros aaa x Hw Hx. destruct (reduce_spec key Hk aaa x Hw Hx) as [[R1 R2] R3]. rewrite store_words, R2, R3 by done. done. }
  unfold modpow. fold a. destruct He as [He|He]; rewrite He; cbn [Z.eqb Pos.eqb]; rewrite some_bind; f_equal.
  - destruct (form_leave key Hk _ _ a (form_mul key Hk _ _ _ _ HaR HaR) Ha) as [Hw Hc]. apply Hout; [exact Hw|]. rewrite Hc, W3. apply cong_eq. lia.
  - destruct (form_leave key Hk _ _ a (square_twice_form key Hk 8 _ _ HaR) Ha) as [Hw Hc]. apply Hout; [exact Hw|]. rewrite Hc, W3. apply cong_eq.
    change (4 ^ Z.of_nat 8) with 65536. change 65537 with (Z.succ 65536). rewrite Z.pow_succ_r by lia. lia.
Qed.

(** ** PKCS #1 v1.5 *)
(** The padding of the comments: 00 01 ff .. ff 00, the DER prefix of the hash
    and the hash. *)
Definition sha_prefix : list Z := [0x30; 0x21; 0x30; 0x09; 0x06; 0x05; 0x2b; 0x0e; 0x03; 0x02; 0x1a; 0x05; 0x00; 0x04; 0x14].
Definition sha256_prefix : list Z :=
  [0x30; 0x31; 0x30; 0x0d; 0x06; 0x09; 0x60; 0x86; 0x48; 0x01; 0x65; 0x03; 0x04; 0x02; 0x01; 0x05; 0x00; 0x04; 0x20].
Definition padding (hash_len : nat) : list Z :=
  if (hash_len =? SHA_DIGEST_SIZE)%nat then [0x00; 0x01] ++ replicate 218 0xff ++ [0x00] ++ sha_prefix
  else [0x00; 0x01] ++ replicate 202 0xff ++ [0x00] ++ sha256_prefix.
Definition emsa (hash : list Z) : list Z := padding (length hash) ++ hash.
Definition digest_of (hash_len : nat) : list Z -> list Z := if (hash_len =? SHA_DIGEST_SIZE)%nat then fips_sha1 else fips_sha256.
Lemma SHA256_hash_fips junk data : length junk = 64%nat -> bytes_ok data -> blen data < 2 ^ 61 -> SHA256_hash junk data = fips_sha256 data.
Proof.
  intros Hj Hd Hb. pose proof (stream_exact SHA256_Transform fips_compress256 SHA256_state 8 SHA256_Transform_ok SHA256_Transform_fips
    (conj (proj1 initial_u32) eq_refl) ltac:(lia) junk [data] Hj) as H. cbn [concat foldl] in H. rewrite app_nil_r in H. apply H; [by constructor|lia].
Qed.
Lemma SHA_hash_fips junk data : length junk = 64%nat -> bytes_ok data -> blen data < 2 ^ 61 -> SHA_hash junk data = fips_sha1 data.
Proof.
  intros Hj Hd Hb. pose proof (stream_exact SHA1_Transform fips_compress1 SHA_state 5 SHA1_Transform_ok SHA1_Transform_fips
    (conj (proj2 initial_u32) eq_refl) ltac:(lia) junk [data] Hj) as H. cbn [concat foldl] in H. rewrite app_nil_r in H. apply H; [by constructor|lia].
Qed.
Definition blank (hash_len : nat) : list Z := padding hash_len ++ replicate hash_len 0.
Definition expected (hash_len : nat) : list Z :=
  if (hash_len =? SHA_DIGEST_SIZE)%nat then kExpectedPadShaRsa2048 else kExpectedPadSha256Rsa2048.
Lemma expected_blank k : k = SHA_DIGEST_SIZE \/ k = SHA256_DIGEST_SIZE -> digest_of k (blank k) = expected k.
Proof.
  intros [-> | ->].
  - change (digest_of SHA_DIGEST_SIZE) with fips_sha1. rewrite <- (SHA_hash_fips (replicate 64 0)); [vm_compute; reflexivity|reflexivity| |reflexivity].
    apply bytes_ok_check. vm_compute. reflexivity.
  - change (digest_of SHA256_DIGEST_SIZE) with fips_sha256. rewrite <- (SHA256_hash_fips (replicate 64 0)); [vm_compute; reflexivity|reflexivity| |reflexivity].
    apply bytes_ok_check. vm_compute. reflexivity.
Qed.
Lemma lxor_zeros xs hs : length xs = length hs -> zip_with Z.lxor xs hs = replicate (length hs) 0 <-> xs = hs.
Proof.
  revert hs. induction xs as [|x xs IH]; intros [|h hs] Hl; try discriminate Hl; [done|]. cbn [zip_with length replicate].
  injection Hl as Hl. specialize (IH hs Hl). split.
  - intros [= Hx Hr]. apply Z.lxor_eq in Hx as ->. f_equal. by apply IH.
  - intros [= -> ->]. rewrite Z.lxor_nilpotent. f_equal. by apply IH.
Qed.
Lemma length_padding k : k = SHA_DIGEST_SIZE \/ k = SHA256_DIGEST_SIZE -> length (padding k) = (256 - k)%nat.
Proof. by intros [-> | ->]. Qed.
Lemma xor_tail_blank m hash : length m = 256%nat -> length hash = SHA_DIGEST_SIZE \/ length hash = SHA256_DIGEST_SIZE ->
  xor_tail m hash = blank (length hash) <-> m = emsa hash.
Proof.
  intros Hm Hh. pose proof (length_padding _ Hh) as Hp. unfold xor_tail, blank, emsa. rewrite Hm.
  set (k := (256 - length hash)%nat) in *. assert (Hk : (length hash <= 256)%nat) by (destruct Hh as [-> | ->]; unfold SHA_DIGEST_SIZE, SHA256_DIGEST_SIZE; lia).
  assert (Hd : length (drop k m) = length hash) by (rewrite length_drop; lia). split.
  - intros E. apply app_inj_1 in E as [E1 E2]; [|rewrite length_take; lia]. apply (proj1 (lxor_zeros _ _ Hd)) in E2.
    rewrite <- E1, <- E2 at 1. by rewrite take_drop.
  - intros ->. rewrite take_app_length', drop_app_length' by (symmetry; exact Hp). f_equal. by apply (proj2 (lxor_zeros hash hash eq_refl)).
Qed.

Lemma lxor_byte a b : is_byte a -> is_byte b -> is_byte (Z.lxor a b).
Proof.
  unfold is_byte. intros Ha Hb. assert (Hn : 0 <= Z.lxor a b) by (apply Z.lxor_nonneg; lia). split; [done|].
  assert (E : Z.lxor a b = Z.lxor a b mod 2 ^ 8); [|rewrite E; apply Z.mod_pos_bound; lia].
  apply Z.bits_inj'. intros i Hi. destruct (Z.lt_ge_cases i 8); [by rewrite Z.mod_pow2_bits_low|].
  rewrite Z.mod_pow2_bits_high, Z.lxor_spec, !(testbit_high _ 8 i) by lia. done.
Qed.
Lemma xor_tail_ok m hash : bytes_ok m -> bytes_ok hash -> bytes_ok (xor_tail m hash).
Proof.
  intros Hm Hh. unfold xor_tail. apply Forall_app. split; [by apply Forall_take|].
  apply (Forall_drop _ (length m - length hash)) in Hm. revert Hm. generalize (drop (length m - length hash) m). intros xs Hx. revert hash Hh.
  induction Hx as [|x xs Hx Hxs IH]; intros hs Hh; [constructor|]. destruct Hh as [|h hs Hh Hhs]; [constructor|]. constructor; [by apply lxor_byte|by apply IH].
Qed.
Lemma length_xor_tail m hash : (length hash <= length m)%nat -> length (xor_tail m hash) = length m.
Proof. intros Hl. unfold xor_tail. rewrite length_app, length_take, length_zip_with, length_drop. lia. Qed.

(** ** An example *)
(** A key made for the example, the SHA-256 hash of a short text and its
    signature. *)
Definition demo_n : list Z := [
  862397563; 1273954900; 1776846179; 1341955676; 2723274204; 3200171809; 1272700949; 2643770753;
  3303646369; 1853659181; 1637629027; 3861117570; 3157366013; 1564021319; 3598440322; 1390343529;
  1139948675; 2182341474; 2660685642; 4123350379; 1841006468; 2774480990; 4076277910; 1890414519;
  2834815074; 1681170869; 68067648; 3386861226; 3340591189; 2084133878; 4240849070; 3764810796;
  2459062143; 1797314945; 3841168722; 4061331797; 1805005054; 1531186535; 342887611; 1087409864;
  2628671027; 1347928029; 1150364423; 727006131; 697603312; 1679588345; 3794114781; 3228204245;
  1529796395; 3646732711; 2143844189; 3325187376; 2003116795; 388036139; 2989238845; 2772806310;
  3628515672; 3701112168; 349391462; 1659927646; 3818519159; 2708003898; 4090875738; 2165918109].
Definition demo_rr : list Z := [
  3559287991; 3765963526; 3787233986; 54530463; 3987756533; 2187741526; 2028380946; 1375690793;
  121419270; 2663160384; 3813818152; 241630643; 168934898; 2625897373; 1269300832; 1407242564;
  81300841; 601425452; 1501242102; 2707416053; 124085792; 2964638827; 2832201017; 680995304;
  971041758; 1562018634; 4066431157; 2124621726; 444101244; 1988933820; 1330442896; 1931738156;
  2695232415; 2686764189; 1762715838; 970145877; 1291792802; 2972298674; 2835532258; 939020437;
  4153117940; 3239113662; 873843342; 1081746630; 2247463852; 1594836129; 4063086652; 749901289;
  4190968235; 3441201416; 1551504704; 2799182899; 3085242611; 2440959830; 3015274323; 2572986034;
  451714893; 2490443110; 3829834010; 3319521643; 1389302442; 1406855494; 3598170128; 2014333205].
Definition demo_signature : list Z := [
  0; 0; 0; 0; 0; 0; 0; 0; 0; 0; 0; 0; 0; 0; 0; 0; 0; 0; 0; 0; 0; 0; 0; 0;
  0; 0; 0; 0; 0; 0; 0; 0; 0; 0; 0; 0; 0; 0; 0; 0; 0; 0; 0; 0; 0; 0; 0; 0;
  0; 0; 0; 0; 0; 0; 0; 0; 0; 0; 0; 0; 0; 0; 0; 0; 0; 0; 0; 0; 0; 0; 0; 0;
  0; 0; 0; 0; 0; 0; 0; 0; 0; 0; 0; 0; 0; 0; 0; 0; 0; 0; 0; 0; 0; 0; 0; 0;
  0; 0; 0; 0; 0; 0; 0; 0; 0; 0; 0; 0; 0; 0; 0; 0; 0; 0; 0; 0; 0; 0; 0; 0;
  0; 0; 0; 0; 0; 0; 0; 0; 0; 0; 0; 0; 0; 0; 0; 0; 0; 0; 0; 0; 0; 0; 0; 0;
  0; 0; 0; 0; 0; 0; 0; 0; 0; 0; 0; 0; 0; 0; 0; 0; 0; 0; 0; 0; 0; 0; 0; 0;
  0; 0; 5; 13; 221; 204; 242; 76; 21; 1; 202; 177; 114; 24; 141; 107; 203; 37; 243; 147; 189; 142; 233; 123;
  247; 138; 43; 176; 121; 40; 99; 164; 253; 114; 144; 29; 106; 187; 157; 228; 102; 191; 84; 106; 24; 34; 7; 96;
  86; 89; 139; 6; 134; 2; 216; 21; 69; 229; 98; 203; 168; 240; 4; 0; 0; 0; 0; 0; 0; 0; 0; 0;
  0; 0; 0; 0; 0; 0; 0; 0; 0; 0; 0; 0; 0; 0; 48; 58].
Definition demo_key : RSAPublicKey := MkKey 64 529065293 demo_n demo_rr 3.
Definition demo_hash : list Z := [186; 120; 22; 191; 143; 1; 207; 234; 65; 65; 64; 222; 93; 174; 34; 35; 176; 3; 97; 163; 150; 23; 122; 156; 180; 16; 255; 97; 242; 0; 21; 173].
Lemma u32_check ws : forallb (fun w => (0 <=? w) && (w <? 2 ^ 32)) ws = true -> Forall is_u32 ws.
Proof.
  rewrite forallb_forall. intros H. apply List.Forall_forall. intros w Hw%H. apply andb_true_iff in Hw as [H1 H2]. unfold is_u32. lia.
Qed.
Lemma demo_key_ok : key_ok demo_key.
Proof.
  apply MkKeyOk; [vm_compute; reflexivity|discriminate| | |vm_compute; reflexivity|vm_compute; reflexivity|].
  - apply u32_check. vm_compute. reflexivity.
  - split; [apply u32_check; vm_compute; reflexivity|vm_compute; reflexivity].
  - exists ((value demo_rr - radix 64 * radix 64) / value demo_n). vm_compute. reflexivity.
Qed.
