(* ===== verification/MincryptP256.v ===== *)
(** libmincrypt/p256.c: arithmetic on 256-bit integers.

    A p256_int is the list of its eight 32-bit digits, least significant first.
    An assertion that fails is [None]. *)
From stdpp Require Import base list.
From Stdlib Require Import ZArith Lia.
From S2P Require Import Prelude Kernel MincryptSha MincryptRsa.

(** ** p256.h and constants *)
Definition P256_NDIGITS : nat := 8.
Definition P256_NBYTES : nat := 32.
Definition minus1 : Z := 2 ^ 32 - 1.
Definition SECP256r1_n : list Z := [0xfc632551; 0xf3b9cac2; 0xa7179e84; 0xbce6faad; minus1; minus1; 0; minus1].
Definition SECP256r1_p : list Z := [minus1; minus1; minus1; 0; 0; 0; 1; minus1].
Definition SECP256r1_b : list Z :=
  [0x27d2604b; 0x3bce3c3e; 0xcc53b0f6; 0x651d06b0; 0x769886bc; 0xb3ebbd55; 0xaa3a93e7; 0x5ac635d8].
Definition P256_ZERO : list Z := replicate 8 0.
Definition P256_ONE : list Z := 1 :: replicate 7 0.

Definition p256_init (a : list Z) : list Z := replicate 8 0.
Definition p256_get_bit (scalar : list Z) (bit : Z) : Z :=
  Z.land (Z.shiftr (word scalar (Z.to_nat (bit / 32))) (Z.land bit 31)) 1.
Definition p256_is_zero (a : list Z) : bool := foldl Z.lor 0 a =? 0.
Definition p256_is_odd (a : list Z) : bool := negb (Z.land (word a 0) 1 =? 0).
Definition p256_is_even (a : list Z) : bool := Z.land (word a 0) 1 =? 0.

(** ** Digit loops *)
(** The digits and the last carry. *)
Fixpoint mulAdd_loop (a : list Z) (b : Z) (c : list Z) (carry : Z) : list Z * Z :=
  match a, c with
  | x :: a, y :: c =>
      let carry := u64 (carry + y) in
      let carry := u64 (carry + x * b) in
      let '(out, last) := mulAdd_loop a b c (Z.shiftr carry 32) in (u32 carry :: out, last)
  | _, _ => ([], carry)
  end.
Definition mulAdd (a : list Z) (b top : Z) (c : list Z) : Z * list Z :=
  let '(c, carry) := mulAdd_loop a b c 0 in (u32 (top + u32 carry), c).
Fixpoint sub_loop (c a : list Z) (borrow : Z) : list Z * Z :=
  match c, a with
  | x :: c, y :: a =>
      let borrow := s64 (s64 (borrow + x) - y) in
      let '(out, last) := sub_loop c a (Z.shiftr borrow 32) in (u32 borrow :: out, last)
  | _, _ => ([], borrow)
  end.
Fixpoint add_loop (c a : list Z) (carry : Z) : list Z * Z :=
  match c, a with
  | x :: c, y :: a =>
      let carry := u64 (u64 (carry + x) + y) in
      let '(out, last) := add_loop c a (Z.shiftr carry 32) in (u32 carry :: out, last)
  | _, _ => ([], carry)
  end.
Definition subTop (top_a : Z) (a : list Z) (top_c : Z) (c : list Z) : option (Z * list Z) :=
  let '(c, borrow) := sub_loop c a 0 in
  let borrow := s64 (s64 (borrow + top_c) - top_a) in
  if negb (Z.shiftr borrow 32 =? 0) then None else Some (u32 borrow, c).
Definition masked (MOD : list Z) (mask : Z) : list Z := (fun d => Z.land d mask) <$> MOD.
Definition subM (MOD : list Z) (top : Z) (c : list Z) (mask : Z) : Z * list Z :=
  let '(c, borrow) := sub_loop c (masked MOD mask) 0 in (u32 (top + u32 borrow), c).
Definition addM (MOD : list Z) (top : Z) (c : list Z) (mask : Z) : Z * list Z :=
  let '(c, carry) := add_loop c (masked MOD mask) 0 in (u32 (top + u32 carry), c).

(** ** p256_modmul *)
(** The eight digits of [tmp] from [i], and tmp with them replaced. *)
Definition window (i : nat) (tmp : list Z) : list Z := take 8 (drop i tmp).
Definition set_window (i : nat) (w tmp : list Z) : list Z := take i tmp ++ w ++ drop (i + 8) tmp.
(** Multiply/add into tmp, one digit of b. *)
Definition mul_digit (a : list Z) (digit : Z) (i : nat) (s : Z * list Z) : Z * list Z :=
  let '(top, tmp) := s in
  let tmp := if (i =? 0)%nat then tmp else <[(i + 7)%nat := top]> tmp in
  let '(top, w) := mulAdd a digit 0 (window i tmp) in (top, set_window i w tmp).
Fixpoint mul_digits (a b : list Z) (i : nat) (s : Z * list Z) : Z * list Z :=
  match b with
  | [] => s
  | digit :: b => mul_digits a b (S i) (mul_digit a digit i s)
  end.
(** One round of the reduction, at place [i]. *)
Definition reduce_digit (MOD : list Z) (i : nat) (s : Z * list Z) : option (Z * list Z) :=
  let '(top, tmp) := s in
  let '(top_reducer, reducer) := mulAdd MOD top 0 (replicate 8 0) in
  r ← subTop top_reducer reducer top (window i tmp);
  let '(top, w) := r in
  if negb (top <=? 1) then None
  else
  let '(top, w) := subM MOD top w (not32 (u32 (top - 1))) in
  if negb (top =? 0) then None
  else let tmp := set_window i w tmp in Some (word tmp (i + 7), tmp).
(** for (; i >= 0; --i) *)
Fixpoint reduce_digits (MOD : list Z) (i : nat) (s : Z * list Z) : option (Z * list Z) :=
  s ← reduce_digit MOD i s;
  match i with O => Some s | S i => reduce_digits MOD i s end.
Definition reduce_once (MOD c : list Z) : list Z :=
  let '(mask, c) := subM MOD 0 c minus1 in (addM MOD 0 c mask).2.
Definition p256_modmul (MOD a : list Z) (top_b : Z) (b : list Z) : option (list Z) :=
  let s := mul_digits a (b ++ [top_b]) 0 (0, replicate 17 0) in
  s ← reduce_digits MOD 8 s;
  Some (reduce_once MOD (take 8 s.2)).
Definition p256_mod (MOD in_ : list Z) : list Z := reduce_once MOD in_.

(** ** Shifts, comparison, sums *)
Fixpoint shr1_loop (a : list Z) (highbit : Z) : list Z :=
  match a with
  | [] => []
  | [x] => [Z.lor (Z.shiftr x 1) (u32 (Z.shiftl highbit 31))]
  | x :: (y :: _) as a => Z.lor (Z.shiftr x 1) (u32 (Z.shiftl y 31)) :: shr1_loop a highbit
  end.
Definition p256_shr1 (a : list Z) (highbit : Z) : list Z := shr1_loop a highbit.
(** [None]: a shift by 32, undefined, when n is a multiple of 32. *)
Fixpoint shr_loop (a : list Z) (n : Z) : list Z :=
  match a with
  | [] => []
  | [x] => [Z.shiftr x n]
  | x :: (y :: _) as a => Z.lor (Z.shiftr x n) (u32 (Z.shiftl y (32 - n))) :: shr_loop a n
  end.
Definition p256_shr (a : list Z) (n : Z) : option (list Z) :=
  let n := Z.rem n 32 in if n =? 0 then None else Some (shr_loop a n).
Fixpoint shl_loop (below : option Z) (a : list Z) (n : Z) : list Z :=
  match a with
  | [] => []
  | x :: a =>
      Z.lor (u32 (Z.shiftl x n)) (match below with None => 0 | Some y => Z.shiftr y (32 - n) end) :: shl_loop (Some x) a n
  end.
Definition p256_shl (a : list Z) (n : Z) : option (Z * list Z) :=
  let n := Z.rem n 32 in
  if n =? 0 then None
  else Some (u32 (Z.shiftr (u64 (Z.shiftl (word a 7) n)) 32), shl_loop None a n).
Fixpoint cmp_loop (a b : list Z) (borrow notzero : Z) : Z * Z :=
  match a, b with
  | x :: a, y :: b =>
      let borrow := s64 (borrow + (x - y)) in
      cmp_loop a b (Z.shiftr borrow 32) (Z.lor notzero (if u32 borrow =? 0 then 0 else 1))
  | _, _ => (borrow, notzero)
  end.
Definition p256_cmp (a b : list Z) : Z := let '(borrow, notzero) := cmp_loop a b 0 0 in Z.lor borrow notzero.
Definition p256_sub (a b : list Z) : Z * list Z := let '(c, borrow) := sub_loop a b 0 in (borrow, c).
Definition p256_add (a b : list Z) : Z * list Z := let '(c, carry) := add_loop a b 0 in (carry, c).
Definition p256_add_d (a : list Z) (d : Z) : Z * list Z :=
  let '(c, carry) := add_loop a (replicate (length a) 0) d in (carry, c).

(** ** p256_modinv_vartime *)
Record Euclid := MkEuclid { eR : list Z; eS : list Z; eU : list Z; eV : list Z }.
(** R/2 or (R + MOD)/2. *)
Definition half_mod (MOD x : list Z) : list Z :=
  if p256_is_even x then p256_shr1 x 0 else let '(carry, y) := p256_add x MOD in p256_shr1 y carry.
(** x - y, plus MOD on a borrow. *)
Definition sub_mod (MOD x y : list Z) : list Z :=
  let '(borrow, z) := p256_sub x y in if negb (borrow =? 0) then (p256_add z MOD).2 else z.
(** One round; [true]: break. *)
Definition euclid_round (MOD : list Z) (e : Euclid) : bool * Euclid :=
  let '(MkEuclid R S' U V) := e in
  if p256_is_even U then (false, MkEuclid (half_mod MOD R) S' (p256_shr1 U 0) V)
  else if p256_is_even V then (false, MkEuclid R (half_mod MOD S') U (p256_shr1 V 0))
  else if (p256_sub V U).1 =? 0 then
    let V := (p256_sub V U).2 in (p256_is_zero V, MkEuclid R (sub_mod MOD S' R) U V)
  else (false, MkEuclid (sub_mod MOD R S') S' (p256_sub U V).2 V).
(** [None]: the loop has not ended after [fuel] rounds. *)
Fixpoint euclid (fuel : nat) (MOD : list Z) (e : Euclid) : option Euclid :=
  match fuel with
  | O => None
  | S fuel => let '(stop, e) := euclid_round MOD e in if stop : bool then Some e else euclid fuel MOD e
  end.
Definition p256_modinv_vartime (fuel : nat) (MOD a : list Z) : option (list Z) :=
  e ← euclid fuel MOD (MkEuclid P256_ZERO P256_ONE MOD a);
  Some (p256_mod MOD (eR e)).

(** ** p256_is_valid_point *)
Definition p256_is_valid_point (x y : list Z) : option bool :=
  if (p256_cmp SECP256r1_p x <=? 0) || (p256_cmp SECP256r1_p y <=? 0) || p256_is_zero x || p256_is_zero y then Some false
  else
  y2 ← p256_modmul SECP256r1_p y 0 y;
  x3 ← p256_modmul SECP256r1_p x 0 x;
  x3 ← p256_modmul SECP256r1_p x 0 x3;
  let x3 := sub_mod SECP256r1_p x3 x in
  let x3 := sub_mod SECP256r1_p x3 x in
  let x3 := sub_mod SECP256r1_p x3 x in
  let '(carry, x3) := p256_add x3 SECP256r1_b in
  let x3 := if negb (carry =? 0) then (p256_sub x3 SECP256r1_p).2 else x3 in
  Some (p256_cmp y2 x3 =? 0).

Definition p256_from_bin (src : list Z) : list Z := rev (load_words (take P256_NBYTES src)).

(** ** The loops *)
Lemma s64_small x : - 2 ^ 63 <= x < 2 ^ 63 -> s64 x = x.
Proof. intros Hx. unfold s64. rewrite Z.mod_small; lia. Qed.
Lemma mulAdd_loop_spec b : is_u32 b -> forall a c carry, Forall is_u32 a -> Forall is_u32 c -> length a = length c -> is_u32 carry ->
  let '(out, last) := mulAdd_loop a b c carry in
  Forall is_u32 out /\ length out = length c /\ is_u32 last /\ value out + radix (length c) * last = value c + value a * b + carry.
Proof.
  intros Hb. unfold is_u32 in Hb. induction a as [|x a IH]; intros [|y c] carry Ha Hc Hl Hcar; try discriminate Hl; cbn [mulAdd_loop].
  { split_and!; try done. unfold radix. cbn. lia. }
  apply Forall_cons in Ha as [Hx Ha]. apply Forall_cons in Hc as [Hy Hc]. unfold is_u32 in Hx, Hy, Hcar.
  rewrite (u64_id (carry + y)) by (unfold is_u64; lia). rewrite u64_id by (unfold is_u64; nia). set (D := carry + y + x * b).
  pose proof (lo_hi D) as E. pose proof (u32_range D) as Hlo. unfold is_u32 in Hlo.
  assert (Hhi : is_u32 (Z.shiftr D 32)) by (unfold is_u32, D in *; nia).
  specialize (IH c (Z.shiftr D 32) Ha Hc ltac:(by injection Hl) Hhi). destruct (mulAdd_loop a b c _) as [out last].
  destruct IH as (I1 & I2 & I3 & I4). split_and!; [by constructor|cbn [length]; by rewrite I2|done|].
  cbn [value length]. rewrite radix_S. unfold D in *. nia.
Qed.
Lemma sub_loop_spec c : forall a borrow, Forall is_u32 a -> Forall is_u32 c -> length a = length c -> - 1 <= borrow <= 0 ->
  let '(out, last) := sub_loop c a borrow in
  Forall is_u32 out /\ length out = length c /\ - 1 <= last <= 0 /\ value out + radix (length c) * last = value c - value a + borrow.
Proof.
  induction c as [|x c IH]; intros [|y a] borrow Ha Hc Hl Hb; try discriminate Hl; cbn [sub_loop].
  { split_and!; try done; try lia. unfold radix. cbn. lia. }
  apply Forall_cons in Ha as [Hy Ha]. apply Forall_cons in Hc as [Hx Hc]. unfold is_u32 in Hx, Hy.
  rewrite (s64_small (borrow + x)), s64_small by lia. set (D := borrow + x - y).
  pose proof (lo_hi D) as E. pose proof (u32_range D) as Hlo. unfold is_u32 in Hlo.
  specialize (IH a (Z.shiftr D 32) Ha Hc ltac:(by injection Hl) ltac:(unfold D in *; lia)). destruct (sub_loop c a _) as [out last].
  destruct IH as (I1 & I2 & I3 & I4). split_and!; [by constructor|cbn [length]; by rewrite I2|lia|lia|].
  cbn [value length]. rewrite radix_S. unfold D in *. lia.
Qed.
Lemma add_loop_spec c : forall a carry, Forall is_u32 a -> Forall is_u32 c -> length a = length c -> is_u32 carry ->
  let '(out, last) := add_loop c a carry in
  Forall is_u32 out /\ length out = length c /\ is_u32 last /\ value out + radix (length c) * last = value c + value a + carry.
Proof.
  induction c as [|x c IH]; intros [|y a] carry Ha Hc Hl Hcar; try discriminate Hl; cbn [add_loop].
  { split_and!; try done. unfold radix. cbn. lia. }
  apply Forall_cons in Ha as [Hy Ha]. apply Forall_cons in Hc as [Hx Hc]. unfold is_u32 in Hx, Hy, Hcar.
  rewrite (u64_id (carry + x)), u64_id by (unfold is_u64; lia). set (D := carry + x + y).
  pose proof (lo_hi D) as E. pose proof (u32_range D) as Hlo. unfold is_u32 in Hlo.
  specialize (IH a (Z.shiftr D 32) Ha Hc ltac:(by injection Hl) ltac:(unfold is_u32, D in *; lia)). destruct (add_loop c a _) as [out last].
  destruct IH as (I1 & I2 & I3 & I4). split_and!; [by constructor|cbn [length]; by rewrite I2|done|].
  cbn [value length]. rewrite radix_S. unfold D in *. lia.
Qed.

(** ** 256-bit numbers *)
Definition digits (d : list Z) : Prop := Forall is_u32 d /\ length d = 8%nat.
Lemma radix_8 : radix 8 = 2 ^ 256.
Proof. reflexivity. Qed.
Lemma digits_range d : digits d -> 0 <= value d < 2 ^ 256.
Proof. intros [H1 H2]. rewrite <- radix_8, <- H2. by apply value_range. Qed.
Lemma digits_inj a b : digits a -> digits b -> value a = value b -> a = b.
Proof. intros [A1 A2] [B1 B2]. apply value_inj; congruence. Qed.
Lemma mulAdd_spec a b c : digits a -> digits c -> is_u32 b ->
  let '(top, out) := mulAdd a b 0 c in digits out /\ is_u32 top /\ value out + 2 ^ 256 * top = value c + value a * b.
Proof.
  intros [A1 A2] [C1 C2] Hb. unfold mulAdd. pose proof (mulAdd_loop_spec b Hb a c 0 A1 C1 ltac:(congruence) ltac:(unfold is_u32; lia)) as H.
  destruct (mulAdd_loop a b c 0) as [out last]. destruct H as (H1 & H2 & H3 & H4). rewrite C2, radix_8 in H4.
  rewrite Z.add_0_l, !(u32_id last) by (unfold is_u32; done || apply H3). split; [split; congruence|]. split; [done|lia].
Qed.
Lemma p256_sub_spec a b : digits a -> digits b ->
  let '(borrow, c) := p256_sub a b in digits c /\ - 1 <= borrow <= 0 /\ value c + 2 ^ 256 * borrow = value a - value b.
Proof.
  intros [A1 A2] [B1 B2]. unfold p256_sub. pose proof (sub_loop_spec a b 0 B1 A1 ltac:(congruence) ltac:(lia)) as H.
  destruct (sub_loop a b 0) as [c borrow]. destruct H as (H1 & H2 & H3 & H4). rewrite A2, radix_8 in H4. split; [split; congruence|]. lia.
Qed.
Lemma p256_add_spec a b : digits a -> digits b ->
  let '(carry, c) := p256_add a b in digits c /\ 0 <= carry <= 1 /\ value c + 2 ^ 256 * carry = value a + value b.
Proof.
  intros Ha Hb. pose proof (digits_range a Ha). pose proof (digits_range b Hb). destruct Ha as [A1 A2], Hb as [B1 B2]. unfold p256_add.
  pose proof (add_loop_spec a b 0 B1 A1 ltac:(congruence) ltac:(unfold is_u32; lia)) as H1.
  destruct (add_loop a b 0) as [c carry]. destruct H1 as (H1 & H2 & H3 & H4). rewrite A2, radix_8 in H4.
  assert (Hc : digits c) by (split; congruence). pose proof (digits_range c Hc). split; [done|]. unfold is_u32 in H3. lia.
Qed.
Lemma p256_is_zero_spec a : Forall is_u32 a -> p256_is_zero a = (value a =? 0).
Proof.
  intros Ha. unfold p256_is_zero. assert (H : forall l z, Forall is_u32 l -> 0 <= z -> (foldl Z.lor z l =? 0) = (z =? 0) && (value l =? 0)).
  { clear a Ha. induction l as [|x l IH]; intros z Hl Hz; cbn [foldl value]; [by rewrite andb_true_r|]. apply Forall_cons in Hl as [Hx Hl].
    pose proof (value_range l Hl) as [Hv _]. unfold is_u32 in Hx. rewrite IH by (done || apply Z.lor_nonneg; lia).
    assert (Hor : Z.lor z x = 0 <-> z = 0 /\ x = 0) by (apply Z.lor_eq_0_iff).
    destruct (Z.eqb_spec (Z.lor z x) 0), (Z.eqb_spec z 0), (Z.eqb_spec (value l) 0), (Z.eqb_spec (x + 2 ^ 32 * value l) 0); cbn; lia || tauto. }
  rewrite H by (done || lia). done.
Qed.
Lemma even_spec a : digits a -> p256_is_even a = Z.even (value a).
Proof.
  intros [A1 A2]. unfold p256_is_even, word. destruct a as [|x a]; [done|]. cbn [nth value].
  rewrite Z.even_add, Z.even_mul. cbn [Z.even]. change (Z.even (2 ^ 32)) with true. cbn [orb].
  change 1 with (Z.ones 1). rewrite Z.land_ones by lia. change (2 ^ 1) with 2. rewrite Zmod_even. by destruct (Z.even x).
Qed.

(** ** Reduction *)
Lemma masked_all MOD : Forall is_u32 MOD -> masked MOD minus1 = MOD.
Proof.
  induction 1 as [|d MOD Hd _ IH]; [done|]. cbn. f_equal; [|exact IH]. change minus1 with (Z.ones 32). rewrite Z.land_ones by lia.
  apply Z.mod_small. exact Hd.
Qed.
Lemma masked_none MOD : masked MOD 0 = replicate (length MOD) 0.
Proof. induction MOD as [|d MOD IH]; [done|]. cbn. rewrite Z.land_0_r. f_equal. exact IH. Qed.
Lemma digits_zeros : digits (replicate 8 0).
Proof. split; [|done]. apply Forall_replicate. unfold is_u32. lia. Qed.
Lemma digits_masked MOD m : digits MOD -> m = 0 \/ m = minus1 -> digits (masked MOD m) /\ value (masked MOD m) = if m =? 0 then 0 else value MOD.
Proof.
  intros [H1 H2] [-> | ->].
  - rewrite masked_none, H2. split; [apply digits_zeros|]. apply value_zeros.
  - rewrite masked_all by done. by split.
Qed.
Lemma subM_spec MOD top c m : digits MOD -> digits c -> is_u32 top -> m = 0 \/ m = minus1 ->
  let '(t, out) := subM MOD top c m in digits out /\ exists borrow, - 1 <= borrow <= 0 /\ t = u32 (top + borrow) /\
    value out + 2 ^ 256 * borrow = value c - (if m =? 0 then 0 else value MOD).
Proof.
  intros HM [C1 C2] Ht Hm. destruct (digits_masked MOD m HM Hm) as [[D1 D2] <-]. unfold subM.
  pose proof (sub_loop_spec c (masked MOD m) 0 D1 C1 ltac:(congruence) ltac:(lia)) as H. destruct (sub_loop c _ 0) as [out borrow].
  destruct H as (H1 & H2 & H3 & H4). rewrite C2, radix_8 in H4. split; [split; congruence|]. exists borrow. split; [done|]. split; [|lia].
  unfold u32. by rewrite Zplus_mod_idemp_r.
Qed.
Lemma addM_spec MOD c m : digits MOD -> digits c -> m = 0 \/ m = minus1 ->
  let out := (addM MOD 0 c m).2 in digits out /\ exists carry, 0 <= carry <= 1 /\
    value out + 2 ^ 256 * carry = value c + (if m =? 0 then 0 else value MOD).
Proof.
  intros HM Hc Hm. pose proof (digits_range c Hc). destruct (digits_masked MOD m HM Hm) as [HD Ev]. pose proof (digits_range _ HD). rewrite Ev in *.
  destruct Hc as [C1 C2], HD as [D1 D2]. unfold addM.
  pose proof (add_loop_spec c (masked MOD m) 0 D1 C1 ltac:(congruence) ltac:(unfold is_u32; lia)) as H1. destruct (add_loop c _ 0) as [out carry].
  destruct H1 as (H1 & H2 & H3 & H4). rewrite C2, radix_8 in H4. cbn [snd]. assert (Ho : digits out) by (split; congruence).
  pose proof (digits_range out Ho). split; [done|]. exists carry. unfold is_u32 in H3. lia.
Qed.
Lemma reduce_once_spec MOD c : digits MOD -> digits c -> value c < 2 * value MOD ->
  digits (reduce_once MOD c) /\ value (reduce_once MOD c) = value c mod value MOD.
Proof.
  intros HM Hc H2. pose proof (digits_range c Hc) as Hcr. pose proof (digits_range MOD HM) as HMr. unfold reduce_once.
  pose proof (subM_spec MOD 0 c minus1 HM Hc ltac:(unfold is_u32; lia) (or_intror eq_refl)) as Hs.
  destruct (subM MOD 0 c minus1) as [mask d]. destruct Hs as (Hd & borrow & Hb & -> & Es). change (minus1 =? 0) with false in Es. cbn iota in Es.
  pose proof (digits_range d Hd) as Hdr.
  assert (Hmask : u32 (0 + borrow) = if borrow =? 0 then 0 else minus1).
  { destruct (Z.eqb_spec borrow 0) as [->|]; [done|]. assert (borrow = -1) as -> by lia. done. }
  rewrite Hmask. destruct (addM_spec MOD d (if borrow =? 0 then 0 else minus1) HM Hd) as (Ho & carry & Hcar & Ea); [destruct (borrow =? 0); auto|].
  pose proof (digits_range _ Ho). split; [done|]. destruct (Z.eqb_spec borrow 0) as [->|].
  - cbn [Z.eqb] in Ea. apply (Z.mod_unique_pos _ _ 1); lia.
  - assert (borrow = -1) as -> by lia. change (minus1 =? 0) with false in Ea. cbn iota in Ea. apply (Z.mod_unique_pos _ _ 0); lia.
Qed.
(** A modulus whose most significant digit is all ones. *)
Definition good_mod (MOD : list Z) : Prop := digits MOD /\ word MOD 7 = minus1.
Lemma good_mod_range MOD : good_mod MOD -> 2 ^ 256 - 2 ^ 224 <= value MOD < 2 ^ 256.
Proof.
  intros [[H1 H2] H7]. split; [|by apply digits_range]. do 9 (destruct MOD as [|? MOD]; try done). unfold word in H7. cbn [nth] in H7. subst.
  rewrite !Forall_cons in H1. destruct H1 as (?&?&?&?&?&?&?&?&_). unfold is_u32 in *. cbn [value]. unfold minus1. lia.
Qed.
Lemma reduce_once_good MOD c : good_mod MOD -> digits c -> digits (reduce_once MOD c) /\ value (reduce_once MOD c) = value c mod value MOD.
Proof. intros HM Hc. apply reduce_once_spec; [apply HM|done|]. pose proof (good_mod_range MOD HM). pose proof (digits_range c Hc). lia. Qed.
Lemma subTop_spec ta a tc c : digits a -> digits c -> is_u32 ta -> is_u32 tc ->
  0 <= value c + 2 ^ 256 * tc - (value a + 2 ^ 256 * ta) < 2 ^ 288 ->
  exists t out, subTop ta a tc c = Some (t, out) /\ digits out /\ is_u32 t /\
    value out + 2 ^ 256 * t = value c + 2 ^ 256 * tc - (value a + 2 ^ 256 * ta).
Proof.
  intros [A1 A2] [C1 C2] Hta Htc Hr. unfold subTop. unfold is_u32 in Hta, Htc.
  pose proof (sub_loop_spec c a 0 A1 C1 ltac:(congruence) ltac:(lia)) as H. destruct (sub_loop c a 0) as [out borrow].
  destruct H as (H1 & H2 & H3 & H4). rewrite C2, radix_8 in H4. rewrite (s64_small (borrow + tc)), s64_small by lia.
  assert (Ho : digits out) by (split; congruence). pose proof (digits_range out Ho).
  assert (Ht : is_u32 (borrow + tc - ta)) by (unfold is_u32; lia).
  rewrite Z.shiftr_div_pow2, Z.div_small by (apply Ht || lia). exists (u32 (borrow + tc - ta)), out. rewrite u32_id by done.
  split; [done|]. split; [done|]. split; [done|]. lia.
Qed.
(** The whole round, on the digits it touches. *)
Lemma reduce_window MOD i top tmp : good_mod MOD -> Forall is_u32 tmp -> (i + 8 <= length tmp)%nat -> is_u32 top ->
  exists w, reduce_digit MOD i (top, tmp) = Some (word (set_window i w tmp) (i + 7), set_window i w tmp) /\ digits w /\
    cong (value MOD) (value w) (value (window i tmp) + 2 ^ 256 * top).
Proof.
  intros HM Htmp Hi Ht. pose proof (good_mod_range MOD HM) as HMr. unfold is_u32 in Ht. unfold reduce_digit.
  assert (Hw : digits (window i tmp)).
  { split; [apply Forall_take, Forall_drop, Htmp|]. unfold window. rewrite length_take, length_drop. lia. }
  pose proof (digits_range _ Hw) as Hwr.
  pose proof (mulAdd_spec MOD top (replicate 8 0) (proj1 HM) digits_zeros Ht) as Hm. destruct (mulAdd MOD top 0 (replicate 8 0)) as [ta a].
  destruct Hm as (Ha & Hta & Em). rewrite value_zeros in Em.
  destruct (subTop_spec ta a top (window i tmp) Ha Hw Hta Ht) as (t & out & -> & Ho & Htt & Et); [nia|]. rewrite some_bind.
  pose proof (digits_range _ Ho) as Hor. unfold is_u32 in Htt. assert (Ht1 : 0 <= t <= 1) by nia.
  destruct (Z.leb_spec t 1); [|lia]. cbn [negb].
  assert (Hmask : not32 (u32 (t - 1)) = if t =? 0 then 0 else minus1) by (assert (t = 0 \/ t = 1) as [-> | ->] by lia; done).
  rewrite Hmask. pose proof (subM_spec MOD t out (if t =? 0 then 0 else minus1) (proj1 HM) Ho Htt ltac:(destruct (t =? 0); auto)) as Hs.
  destruct (subM MOD t out _) as [t' w]. destruct Hs as (Hww & borrow & Hb & -> & Es). pose proof (digits_range _ Hww).
  exists w. assert (Htop : u32 (t + borrow) = 0 /\ cong (value MOD) (value w) (value out + 2 ^ 256 * t)).
  { destruct (Z.eqb_spec t 0) as [->|]; cbn [Z.eqb] in Es.
    - assert (borrow = 0) as -> by lia. split; [done|]. apply cong_eq. lia.
    - assert (t = 1) as -> by lia. change (minus1 =? 0) with false in Es. cbn iota in Es. assert (borrow = -1) as -> by nia. split; [done|].
      exists (-1). lia. }
  destruct Htop as [-> Hc]. cbn [negb Z.eqb]. split; [done|]. split; [done|]. rewrite Hc, Et. exists (- top). lia.
Qed.
Lemma window_value i tmp : value (take (i + 8) tmp) = value (take i tmp) + radix (length (take i tmp)) * value (window i tmp).
Proof. unfold window. rewrite <- value_app. f_equal. rewrite <- take_take_drop. done. Qed.
Lemma take_set_window i w tmp : (i + 8 <= length tmp)%nat -> length w = 8%nat -> take (i + 8) (set_window i w tmp) = take i tmp ++ w.
Proof.
  intros Hi Hw. unfold set_window. rewrite app_assoc, take_app_length'; [done|]. rewrite length_app, length_take. lia.
Qed.
Lemma set_window_ok i w tmp : Forall is_u32 tmp -> digits w -> (i + 8 <= length tmp)%nat ->
  Forall is_u32 (set_window i w tmp) /\ length (set_window i w tmp) = length tmp.
Proof.
  intros Ht [W1 W2] Hi. unfold set_window. split; [repeat (apply Forall_app; split); [by apply Forall_take|done|by apply Forall_drop]|].
  rewrite !length_app, length_take, length_drop. lia.
Qed.
(** The digits below the place and the carry, as one number. *)
Definition total (i : nat) (top : Z) (tmp : list Z) : Z := value (take (i + 8) tmp) + radix (i + 8) * top.
Lemma reduce_digits_spec MOD i : good_mod MOD -> forall top tmp, Forall is_u32 tmp -> (i + 8 <= length tmp)%nat -> is_u32 top ->
  exists top' tmp', reduce_digits MOD i (top, tmp) = Some (top', tmp') /\ digits (take 8 tmp') /\
    cong (value MOD) (value (take 8 tmp')) (total i top tmp).
Proof.
  intros HM. induction i as [|i IH]; intros top tmp Htmp Hi Ht; cbn [reduce_digits];
    (destruct (reduce_window MOD _ top tmp HM Htmp Hi Ht) as (w & -> & Hw & Hc)); rewrite some_bind;
    destruct (set_window_ok _ w tmp Htmp Hw Hi) as [S1 S2]; pose proof (take_set_window _ w tmp Hi (proj2 Hw)) as Etake; set (tmp' := set_window _ w tmp) in *.
  - exists (word tmp' 7), tmp'. split; [done|]. cbn [Nat.add take app] in Etake. rewrite Etake. split; [done|]. rewrite Hc. apply cong_eq.
    unfold total, window. cbn [Nat.add drop]. by rewrite radix_8.
  - destruct (IH (word tmp' (S i + 7)) tmp' S1 ltac:(lia) (word_u32 _ _ S1)) as (top2 & tmp2 & -> & D2 & C2). exists top2, tmp2.
    split; [done|]. split; [done|]. rewrite C2.
    assert (E : total i (word tmp' (S i + 7)) tmp' = value (take (S i + 8) tmp')).
    { unfold total. replace (S i + 8)%nat with (S (i + 8)) by lia. replace (S i + 7)%nat with (i + 8)%nat by lia.
      destruct (lookup_lt_is_Some_2 tmp' (i + 8)) as [d Hd]; [lia|]. rewrite (take_S_r _ _ d) by done. rewrite value_app, length_take. cbn [value].
      unfold word. rewrite nth_lookup, Hd. cbn [default from_option id]. rewrite Nat.min_l by lia. lia. }
    rewrite E, Etake, value_app. unfold total. rewrite window_value, length_take, Nat.min_l by lia. rewrite Hc. apply cong_eq.
    replace (radix (S i + 8)) with (radix (S i) * 2 ^ 256); [lia|]. rewrite <- radix_8. unfold radix. rewrite <- Z.pow_add_r by lia. f_equal. lia.
Qed.
Lemma mul_window a digit i tmp : digits a -> is_u32 digit -> Forall is_u32 tmp -> (i + 8 <= length tmp)%nat ->
  let '(top, w) := mulAdd a digit 0 (window i tmp) in
  Forall is_u32 (set_window i w tmp) /\ length (set_window i w tmp) = length tmp /\ is_u32 top /\
  total i top (set_window i w tmp) = value (take (i + 8) tmp) + radix i * value a * digit.
Proof.
  intros Ha Hd Htmp Hi. assert (Hw : digits (window i tmp)).
  { split; [apply Forall_take, Forall_drop, Htmp|]. unfold window. rewrite length_take, length_drop. lia. }
  pose proof (mulAdd_spec a digit (window i tmp) Ha Hw Hd) as H. destruct (mulAdd a digit 0 (window i tmp)) as [top w].
  destruct H as (H1 & H2 & H3). destruct (set_window_ok i w tmp Htmp H1 Hi) as [S1 S2]. split_and!; try done.
  unfold total. rewrite take_set_window, value_app, window_value, length_take, Nat.min_l by (done || apply H1 || lia).
  replace (radix (i + 8)) with (radix i * 2 ^ 256); [nia|]. rewrite <- radix_8. unfold radix. rewrite <- Z.pow_add_r by lia. f_equal. lia.
Qed.
Lemma mul_digits_spec a b : digits a -> Forall is_u32 b -> forall i top tmp, Forall is_u32 tmp -> is_u32 top ->
  (i + 8 + length b <= length tmp)%nat ->
  let '(top', tmp') := mul_digits a b (S i) (top, tmp) in
  Forall is_u32 tmp' /\ length tmp' = length tmp /\ is_u32 top' /\
  total (i + length b) top' tmp' = total i top tmp + radix (S i) * value a * value b.
Proof.
  intros Ha. induction 1 as [|digit b Hd Hb IH]; intros i top tmp Htmp Ht Hi; cbn [mul_digits length value] in *.
  { rewrite Nat.add_0_r, Z.mul_0_r, Z.add_0_r. by split_and!. }
  unfold mul_digit. cbn [Nat.eqb]. set (tmp1 := <[(S i + 7)%nat := top]> tmp).
  assert (T1 : Forall is_u32 tmp1) by (by apply Forall_insert). assert (T2 : length tmp1 = length tmp) by apply length_insert.
  assert (T3 : value (take (S i + 8) tmp1) = total i top tmp).
  { unfold total, tmp1. replace (S i + 8)%nat with (S (S i + 7)) by lia. rewrite (take_S_r _ _ top) by (apply list_lookup_insert_eq; lia).
    rewrite take_insert_ge, value_app, length_take by lia. cbn [value]. replace (S i + 7)%nat with (i + 8)%nat by lia. rewrite Nat.min_l by lia. lia. }
  pose proof (mul_window a digit (S i) tmp1 Ha Hd T1 ltac:(lia)) as Hw. destruct (mulAdd a digit 0 (window (S i) tmp1)) as [top1 w].
  destruct Hw as (W1 & W2 & W3 & W4). specialize (IH (S i) top1 (set_window (S i) w tmp1) W1 W3 ltac:(lia)).
  destruct (mul_digits a b (S (S i)) (top1, _)) as [top' tmp']. destruct IH as (I1 & I2 & I3 & I4).
  split_and!; [done|lia|done|]. replace (i + S (length b))%nat with (S i + length b)%nat by lia. rewrite I4, W4, T3, (radix_S (S i)). nia.
Qed.
Lemma modmul_spec MOD a top_b b : good_mod MOD -> digits a -> digits b -> is_u32 top_b ->
  exists c, p256_modmul MOD a top_b b = Some c /\ digits c /\
    value c = (value a * (value b + 2 ^ 256 * top_b)) mod value MOD.
Proof.
  intros HM Ha [B1 B2] Ht. unfold p256_modmul. destruct b as [|d0 b]; [done|]. apply Forall_cons in B1 as [Hd B1]. injection B2 as B2.
  cbn [app mul_digits]. unfold mul_digit at 1. cbn [Nat.eqb]. set (tmp := replicate 17 0).
  assert (Htmp : Forall is_u32 tmp) by (apply Forall_replicate; unfold is_u32; lia).
  pose proof (mul_window a d0 0 tmp Ha Hd Htmp ltac:(unfold tmp; rewrite length_replicate; lia)) as Hw.
  destruct (mulAdd a d0 0 (window 0 tmp)) as [top1 w]. destruct Hw as (W1 & W2 & W3 & W4).
  assert (HB : Forall is_u32 (b ++ [top_b])) by (apply Forall_app; split; [done|by constructor]).
  pose proof (mul_digits_spec a (b ++ [top_b]) Ha HB 0 top1 (set_window 0 w tmp) W1 W3) as Hm.
  destruct (mul_digits a (b ++ [top_b]) 1 _) as [top2 tmp2]. rewrite length_app, B2, W2 in Hm.
  destruct Hm as (M1 & M2 & M3 & M4); [unfold tmp; rewrite length_replicate; cbn; lia|]. cbn [length Nat.add] in M4.
  destruct (reduce_digits_spec MOD 8 HM top2 tmp2 M1) as (top3 & tmp3 & -> & D3 & C3); [unfold tmp in M2; rewrite M2, length_replicate; cbn; lia|done|].
  rewrite some_bind. cbn [snd]. destruct (reduce_once_good MOD (take 8 tmp3) HM D3) as [R1 R2]. eexists. split; [done|]. split; [done|].
  pose proof (good_mod_range MOD HM). rewrite R2.
  assert (E : total 8 top2 tmp2 = value a * (value (d0 :: b) + 2 ^ 256 * top_b)).
  { rewrite M4, W4. unfold tmp. rewrite value_app, B2. cbn [value]. change (value (take (0 + 8) (replicate 17 0))) with 0.
    change (radix 0) with 1. change (radix 1) with (2 ^ 32). change (radix 7) with (2 ^ 224). nia. }
  rewrite <- E. symmetry. apply cong_mod_eq; [lia|]. by symmetry.
Qed.
(** P256_modmul computes the product modulo MOD, for every operand and
    every modulus whose top digit is all ones, as those of the curve are: no
    assertion fails, no carry is lost and the result is fully reduced. *)
Theorem p256_modmul_exact MOD a top_b b : good_mod MOD -> digits a -> digits b -> is_u32 top_b ->
  exists c, p256_modmul MOD a top_b b = Some c /\ digits c /\
    value c = (value a * (value b + 2 ^ 256 * top_b)) mod value MOD.
Proof. apply modmul_spec. Qed.

(** ** Inversion *)
Lemma shr1_digit x y : is_u32 x -> Z.lor (Z.shiftr x 1) (u32 (Z.shiftl y 31)) = x / 2 + (y mod 2) * 2 ^ 31.
Proof.
  intros Hx. unfold is_u32 in Hx. assert (E : u32 (Z.shiftl y 31) = Z.shiftl (y mod 2) 31).
  { unfold u32. rewrite !Z.shiftl_mul_pow2 by lia. change (2 ^ 32) with (2 * 2 ^ 31). rewrite Z.mul_mod_distr_r by lia. done. }
  rewrite E, Z.shiftr_div_pow2 by lia. change (2 ^ 1) with 2. apply lor_shiftl_add; [lia|]. split; [apply Z.div_pos; lia|apply Z.div_lt_upper_bound; lia].
Qed.
Lemma shr1_spec a h : Forall is_u32 a -> a ≠ [] -> 0 <= h <= 1 ->
  Forall is_u32 (p256_shr1 a h) /\ length (p256_shr1 a h) = length a /\
  2 * value (p256_shr1 a h) = value a - value a mod 2 + h * radix (length a).
Proof.
  unfold p256_shr1. intros Ha Hne Hh. induction Ha as [|x a Hx Ha IH]; [done|]. destruct a as [|y a].
  - cbn [shr1_loop length value]. rewrite shr1_digit, (Z.mod_small h) by (done || lia). unfold is_u32 in *. change (radix 1) with (2 ^ 32).
    pose proof (Z.div_mod x 2). pose proof (Z.mod_pos_bound x 2). split; [constructor; [unfold is_u32; lia|constructor]|]. split; [done|].
    rewrite Z.mul_0_r, !Z.add_0_r. lia.
  - destruct IH as (I1 & I2 & I3); [done|]. change (shr1_loop (x :: y :: a) h) with (Z.lor (Z.shiftr x 1) (u32 (Z.shiftl y 31)) :: shr1_loop (y :: a) h).
    rewrite shr1_digit by done. unfold is_u32 in Hx. pose proof (Z.div_mod x 2). pose proof (Z.mod_pos_bound x 2). pose proof (Z.mod_pos_bound y 2).
    split; [constructor; [unfold is_u32; lia|done]|]. split; [cbn [length]; by rewrite I2|]. cbn [value length] in *. rewrite (radix_S (S (length a))).
    set (v := y + 2 ^ 32 * value a) in *.
    assert (Ev : v mod 2 = y mod 2) by (unfold v; change (2 ^ 32) with (2 ^ 31 * 2); rewrite (Z.mul_comm (2 ^ 31) 2), <- Z.mul_assoc, Z.mul_comm, Z_mod_plus_full; done).
    assert (Ex : (x + 2 ^ 32 * v) mod 2 = x mod 2) by (change (2 ^ 32) with (2 * 2 ^ 31); rewrite <- Z.mul_assoc, Z.mul_comm, Z_mod_plus_full; done).
    rewrite Ex. rewrite Ev in I3. lia.
Qed.
Lemma digits_shr1 a h : digits a -> 0 <= h <= 1 ->
  digits (p256_shr1 a h) /\ 2 * value (p256_shr1 a h) = value a - value a mod 2 + h * 2 ^ 256.
Proof.
  intros [A1 A2] Hh. destruct (shr1_spec a h A1) as (S1 & S2 & S3); [by intros ->|done|]. rewrite A2, radix_8 in S3. split; [split; congruence|done].
Qed.
Lemma half_mod_spec MOD x : digits MOD -> Z.odd (value MOD) = true -> digits x -> value x < value MOD ->
  digits (half_mod MOD x) /\ value (half_mod MOD x) < value MOD /\ cong (value MOD) (2 * value (half_mod MOD x)) (value x).
Proof.
  intros HM Hodd Hx Hlt. unfold half_mod. rewrite even_spec by done. pose proof (digits_range x Hx). pose proof (digits_range MOD HM).
  rewrite <- Z.negb_even, negb_true_iff in Hodd. destruct (Z.even (value x)) eqn:Ex.
  - destruct (digits_shr1 x 0 Hx ltac:(lia)) as [S1 S2]. rewrite Zmod_even, Ex in S2. split; [done|]. split; [lia|]. apply cong_eq. lia.
  - pose proof (p256_add_spec x MOD Hx HM) as Ha. destruct (p256_add x MOD) as [carry y]. destruct Ha as (A1 & A2 & A3).
    destruct (digits_shr1 y carry A1 A2) as [S1 S2]. assert (Ey : Z.even (value y) = true).
    { replace (value y) with (value x + value MOD - 2 ^ 256 * carry) by lia. rewrite Z.even_sub, Z.even_add, Ex, Hodd, Z.even_mul. done. }
    rewrite Zmod_even, Ey in S2. split; [done|]. split; [lia|]. exists 1. lia.
Qed.
Lemma sub_mod_spec MOD x y : digits MOD -> digits x -> digits y -> value x < value MOD -> value y < value MOD ->
  digits (sub_mod MOD x y) /\ value (sub_mod MOD x y) = (value x - value y) mod value MOD.
Proof.
  intros HM Hx Hy Lx Ly. unfold sub_mod. pose proof (p256_sub_spec x y Hx Hy) as Hs. destruct (p256_sub x y) as [borrow z]. destruct Hs as (S1 & S2 & S3).
  pose proof (digits_range x Hx). pose proof (digits_range y Hy). pose proof (digits_range z S1). pose proof (digits_range MOD HM).
  destruct (Z.eqb_spec borrow 0) as [->|]; cbn [negb]; [split; [done|]; apply Z.mod_unique_pos with 0; lia|].
  pose proof (p256_add_spec z MOD S1 HM) as Ha. destruct (p256_add z MOD) as [carry w]. destruct Ha as (A1 & A2 & A3).
  pose proof (digits_range w A1). cbn [snd]. split; [done|]. assert (borrow = -1) as -> by lia. apply Z.mod_unique_pos with (-1); nia.
Qed.
Lemma gcd_half u v : Z.gcd (2 * u) v = 1 -> Z.gcd u v = 1.
Proof.
  intros E. pose proof (Z.gcd_divide_l u v) as H1. pose proof (Z.gcd_divide_r u v) as H2. assert (H : (Z.gcd u v | Z.gcd (2 * u) v)).
  { apply Z.gcd_greatest; [by apply Z.divide_mul_r|done]. }
  rewrite E in H. apply Z.divide_1_r_nonneg in H; [done|apply Z.gcd_nonneg].
Qed.
Lemma gcd_sub u v : Z.gcd u v = 1 -> Z.gcd u (v - u) = 1.
Proof. intros E. by rewrite Z.gcd_sub_diag_r. Qed.
(** The binary Euclidean algorithm: the rows R, U and S, V stay proportional. *)
Record euclid_inv (M a : Z) (e : Euclid) : Prop := MkEuclidInv {
  ei_R : digits (eR e) /\ value (eR e) < M; ei_S : digits (eS e) /\ value (eS e) < M;
  ei_U : digits (eU e) /\ 0 < value (eU e); ei_V : digits (eV e) /\ 0 < value (eV e);
  ei_gcd : Z.gcd (value (eU e)) (value (eV e)) = 1;
  ei_RU : cong M (value (eR e) * a) (value (eU e)); ei_SV : cong M (value (eS e) * a) (value (eV e)) }.
Definition both_odd (e : Euclid) : Z := if Z.odd (value (eU e)) && Z.odd (value (eV e)) then 1 else 0.
(** Halvings count twice, so that a subtraction, which makes one row even,
    counts as well. *)
Definition euclid_size (e : Euclid) : Z := 2 * (Z.log2 (value (eU e)) + Z.log2 (value (eV e))) + both_odd e.
Definition euclid_end (M a : Z) (e : Euclid) : Prop := digits (eR e) /\ value (eR e) < M /\ cong M (value (eR e) * a) 1.
Lemma both_odd_range e : 0 <= both_odd e <= 1.
Proof. unfold both_odd. destruct (_ && _); lia. Qed.
Lemma log2_half u : Z.even u = true -> 0 < u -> 0 < u / 2 /\ Z.log2 (u / 2) = Z.log2 u - 1 /\ u = 2 * (u / 2).
Proof.
  intros He Hu. apply Z.even_spec in He as [k ->]. rewrite Z.mul_comm, Z.div_mul by lia. split; [lia|]. split; [|lia].
  rewrite Z.mul_comm, Z.log2_double by lia. lia.
Qed.
Lemma inverse_of_two M : Z.odd M = true -> exists t, cong M (2 * t) 1.
Proof. intros [k E]%Z.odd_spec. exists (k + 1). exists 1. lia. Qed.
Lemma half_row M R U a h : Z.odd M = true -> cong M (2 * h) R -> cong M (R * a) (2 * U) -> cong M (h * a) U.
Proof.
  intros Ho Hh Hr. destruct (inverse_of_two M Ho) as [t Ht]. apply (cong_cancel M 2 t _ _ Ht).
  replace (h * a * 2) with (2 * h * a) by lia. rewrite Hh, Hr. apply cong_eq. lia.
Qed.
Lemma shr1_even a : digits a -> Z.even (value a) = true -> digits (p256_shr1 a 0) /\ value (p256_shr1 a 0) = value a / 2.
Proof.
  intros Ha He. destruct (digits_shr1 a 0 Ha ltac:(lia)) as [S1 S2]. rewrite Zmod_even, He in S2. split; [done|].
  apply Z.even_spec in He as [k Hk]. rewrite Hk, Z.mul_comm, Z.div_mul by lia. lia.
Qed.
Section Rounds.
Context (MOD : list Z) (a : Z) (HM : digits MOD) (Hodd : Z.odd (value MOD) = true).
Definition progress (r : bool * Euclid) (size : Z) : Prop :=
  if r.1 then euclid_end (value MOD) a r.2 else euclid_inv (value MOD) a r.2 /\ euclid_size r.2 < size.
Lemma round_U_even e : euclid_inv (value MOD) a e -> Z.even (value (eU e)) = true ->
  progress (false, MkEuclid (half_mod MOD (eR e)) (eS e) (p256_shr1 (eU e) 0) (eV e)) (euclid_size e).
Proof.
  intros [[R1 R2] HS [U1 U2] HV Hg HRU HSV] He. destruct (half_mod_spec MOD (eR e) HM Hodd R1 R2) as (H1 & H2 & H3).
  destruct (shr1_even (eU e) U1 He) as [S1 S2]. destruct (log2_half _ He U2) as (L1 & L2 & L3).
  split; [split; cbn [fst snd eR eS eU eV]; rewrite ?S2; try done|].
  - apply gcd_half. by rewrite <- L3.
  - eapply half_row; [done|exact H3|]. by rewrite <- L3.
  - unfold euclid_size at 1. cbn [snd eU eV]. rewrite S2, L2. unfold euclid_size, both_odd at 2. rewrite <- (Z.negb_even (value (eU e))), He. cbn [negb andb].
    set (e' := MkEuclid _ _ _ _). pose proof (both_odd_range e'). lia.
Qed.
Lemma round_V_even e : euclid_inv (value MOD) a e -> Z.even (value (eV e)) = true ->
  progress (false, MkEuclid (eR e) (half_mod MOD (eS e)) (eU e) (p256_shr1 (eV e) 0)) (euclid_size e).
Proof.
  intros [HR [S1 S2] HU [V1 V2] Hg HRU HSV] He. destruct (half_mod_spec MOD (eS e) HM Hodd S1 S2) as (H1 & H2 & H3).
  destruct (shr1_even (eV e) V1 He) as [W1 W2]. destruct (log2_half _ He V2) as (L1 & L2 & L3).
  split; [split; cbn [fst snd eR eS eU eV]; rewrite ?W2; try done|].
  - rewrite Z.gcd_comm. apply gcd_half. by rewrite <- L3, Z.gcd_comm.
  - eapply half_row; [done|exact H3|]. by rewrite <- L3.
  - unfold euclid_size at 1. cbn [snd eU eV]. rewrite W2, L2. unfold euclid_size, both_odd at 2. rewrite <- (Z.negb_even (value (eV e))), He. cbn [negb].
    rewrite andb_false_r. set (e' := MkEuclid _ _ _ _). pose proof (both_odd_range e'). lia.
Qed.
Lemma sub_row R S U V d : cong (value MOD) (value d) (R - S) -> cong (value MOD) (R * a) U -> cong (value MOD) (S * a) V ->
  cong (value MOD) (value d * a) (U - V).
Proof. intros Hd HR HS. rewrite Hd, Z.mul_sub_distr_r. rewrite <- !Z.add_opp_r, HR. rewrite <- Z.mul_opp_l, Z.mul_opp_l, <- (Z.mul_1_l (S * a)), <- Z.mul_opp_l, HS. apply cong_eq. lia. Qed.
Lemma odd_sub u v : Z.odd u = true -> Z.odd v = true -> Z.odd (u - v) = false.
Proof. intros Hu Hv. by rewrite Z.odd_sub, Hu, Hv. Qed.
Lemma round_V_larger e : euclid_inv (value MOD) a e -> Z.odd (value (eU e)) = true -> Z.odd (value (eV e)) = true ->
  value (eU e) <= value (eV e) ->
  let V := (p256_sub (eV e) (eU e)).2 in
  progress (p256_is_zero V, MkEuclid (eR e) (sub_mod MOD (eS e) (eR e)) (eU e) V) (euclid_size e).
Proof.
  intros [[R1 R2] [S1 S2] [U1 U2] [V1 V2] Hg HRU HSV] Ou Ov Hle V. pose proof (p256_sub_spec (eV e) (eU e) V1 U1) as Hs.
  destruct (p256_sub (eV e) (eU e)) as [borrow d]. destruct Hs as (D1 & D2 & D3). cbn [snd] in V. subst V.
  pose proof (digits_range d D1). pose proof (digits_range _ V1). pose proof (digits_range _ U1). assert (borrow = 0) as -> by lia.
  pose proof (digits_range MOD HM). pose proof (digits_range _ R1).
  destruct (sub_mod_spec MOD (eS e) (eR e) HM S1 R1 S2 R2) as [M1 M2]. pose proof (Z.mod_pos_bound (value (eS e) - value (eR e)) (value MOD)).
  rewrite p256_is_zero_spec by apply D1. unfold progress. cbn [fst snd]. destruct (Z.eqb_spec (value d) 0) as [Ez|Ez].
  - split; [done|]. split; [done|]. cbn [eR]. assert (Euv : value (eV e) = value (eU e)) by lia. rewrite Euv, Z.gcd_diag in Hg.
    rewrite HRU. apply cong_eq. lia.
  - split.
    + split; cbn [eR eS eU eV]; try done; try (split; [done|lia]).
      * replace (value d) with (value (eV e) - value (eU e)) by lia. by apply gcd_sub.
      * replace (value d) with (value (eV e) - value (eU e)) by lia. eapply sub_row; [rewrite M2; apply mod_cong; lia|done|done].
    + unfold euclid_size, both_odd. cbn [eU eV]. rewrite Ou, Ov. replace (value d) with (value (eV e) - value (eU e)) by lia.
      rewrite (odd_sub _ _ Ov Ou). cbn [andb]. pose proof (Z.log2_le_mono (value (eV e) - value (eU e)) (value (eV e))). lia.
Qed.
Lemma round_U_larger e : euclid_inv (value MOD) a e -> Z.odd (value (eU e)) = true -> Z.odd (value (eV e)) = true ->
  value (eV e) < value (eU e) ->
  progress (false, MkEuclid (sub_mod MOD (eR e) (eS e)) (eS e) (p256_sub (eU e) (eV e)).2 (eV e)) (euclid_size e).
Proof.
  intros [[R1 R2] [S1 S2] [U1 U2] [V1 V2] Hg HRU HSV] Ou Ov Hlt. pose proof (p256_sub_spec (eU e) (eV e) U1 V1) as Hs.
  destruct (p256_sub (eU e) (eV e)) as [borrow d]. destruct Hs as (D1 & D2 & D3). cbn [snd].
  pose proof (digits_range d D1). pose proof (digits_range _ V1). pose proof (digits_range _ U1). assert (borrow = 0) as -> by lia.
  pose proof (digits_range MOD HM). pose proof (digits_range _ S1).
  destruct (sub_mod_spec MOD (eR e) (eS e) HM R1 S1 R2 S2) as [M1 M2]. pose proof (Z.mod_pos_bound (value (eR e) - value (eS e)) (value MOD)).
  split.
  - split; cbn [eR eS eU eV fst snd]; try done; try (split; [done|lia]).
    + replace (value d) with (value (eU e) - value (eV e)) by lia. rewrite Z.gcd_comm. apply gcd_sub. by rewrite Z.gcd_comm.
    + replace (value d) with (value (eU e) - value (eV e)) by lia. eapply sub_row; [rewrite M2; apply mod_cong; lia|done|done].
  - unfold euclid_size, both_odd. cbn [eU eV fst snd]. rewrite Ou, Ov. replace (value d) with (value (eU e) - value (eV e)) by lia.
    rewrite (odd_sub _ _ Ou Ov). cbn [andb]. pose proof (Z.log2_le_mono (value (eU e) - value (eV e)) (value (eU e))). lia.
Qed.
Lemma euclid_round_spec e : euclid_inv (value MOD) a e -> progress (euclid_round MOD e) (euclid_size e).
Proof.
  intros Hi. pose proof (ei_U _ _ _ Hi) as [U1 _]. pose proof (ei_V _ _ _ Hi) as [V1 _]. unfold euclid_round.
  destruct e as [R S' U V] eqn:Ee. cbn [eU eV] in *. rewrite !even_spec by done.
  destruct (Z.even (value U)) eqn:Eu; [exact (round_U_even _ Hi Eu)|]. destruct (Z.even (value V)) eqn:Ev; [exact (round_V_even _ Hi Ev)|].
  assert (Ou : Z.odd (value U) = true) by (by rewrite <- Z.negb_even, Eu). assert (Ov : Z.odd (value V) = true) by (by rewrite <- Z.negb_even, Ev).
  pose proof (p256_sub_spec V U V1 U1) as Hs. destruct (p256_sub V U) as [borrow d] eqn:Es. destruct Hs as (D1 & D2 & D3). cbn [fst snd].
  pose proof (digits_range d D1). pose proof (digits_range V V1). pose proof (digits_range U U1).
  destruct (Z.eqb_spec borrow 0) as [->|].
  - pose proof (round_V_larger _ Hi Ou Ov ltac:(cbn [eU eV]; lia)) as Hr. cbn [eR eS eU eV] in Hr. by rewrite Es in Hr.
  - exact (round_U_larger _ Hi Ou Ov ltac:(cbn [eU eV]; lia)).
Qed.
Lemma euclid_ends fuel : forall e, euclid_inv (value MOD) a e -> euclid_size e < Z.of_nat fuel ->
  exists e', euclid fuel MOD e = Some e' /\ euclid_end (value MOD) a e'.
Proof.
  induction fuel as [|fuel IH]; intros e Hi Hf; cbn [euclid].
  { pose proof (both_odd_range e). unfold euclid_size in Hf. pose proof (Z.log2_nonneg (value (eU e))). pose proof (Z.log2_nonneg (value (eV e))). lia. }
  pose proof (euclid_round_spec e Hi) as Hp. unfold progress in Hp. destruct (euclid_round MOD e) as [[] e']; cbn [fst snd] in Hp; [by exists e'|].
  destruct Hp as [Hi' Hs]. apply IH; [done|lia].
Qed.
End Rounds.
Lemma euclid_start MOD a : digits MOD -> digits a -> 1 < value MOD -> 0 < value a -> Z.gcd (value MOD) (value a) = 1 ->
  euclid_inv (value MOD) (value a) (MkEuclid P256_ZERO P256_ONE MOD a) /\ euclid_size (MkEuclid P256_ZERO P256_ONE MOD a) < 1024.
Proof.
  intros HM Ha H1 H0 Hg. pose proof (digits_range MOD HM). pose proof (digits_range a Ha).
  assert (E1 : value P256_ONE = 1) by reflexivity. assert (E0 : value P256_ZERO = 0) by reflexivity. split.
  - split; cbn [eR eS eU eV]; rewrite ?E0, ?E1; try done; try (split; [|lia]); try done.
    + apply digits_zeros.
    + split; [|done]. apply Forall_cons. split; [unfold is_u32; lia|]. apply Forall_replicate. unfold is_u32. lia.
    + exists (-1). lia.
    + apply cong_eq. lia.
  - unfold euclid_size. cbn [eU eV]. pose proof (both_odd_range (MkEuclid P256_ZERO P256_ONE MOD a)).
    assert (Z.log2 (value MOD) < 256) by (apply Z.log2_lt_pow2; lia). assert (Z.log2 (value a) < 256) by (apply Z.log2_lt_pow2; lia). lia.
Qed.

(** ** Points *)
Lemma cmp_loop_sub a : forall b borrow nz, Forall is_u32 a -> Forall is_u32 b -> length b = length a -> - 1 <= borrow <= 0 -> nz = 0 \/ nz = 1 ->
  cmp_loop a b borrow nz = let '(out, last) := sub_loop a b borrow in (last, if (nz =? 0) && (value out =? 0) then 0 else 1).
Proof.
  induction a as [|x a IH]; intros [|y b] borrow nz Ha Hb Hl Hbor Hnz; try discriminate Hl; cbn [cmp_loop sub_loop].
  { cbn [value]. by destruct Hnz as [-> | ->]. }
  apply Forall_cons in Ha as [Hx Ha]. apply Forall_cons in Hb as [Hy Hb]. unfold is_u32 in Hx, Hy.
  rewrite (s64_small (borrow + (x - y))), (s64_small (borrow + x)), s64_small by lia. replace (borrow + (x - y)) with (borrow + x - y) by lia.
  set (D := borrow + x - y). pose proof (lo_hi D) as E. pose proof (u32_range D) as Hlo. unfold is_u32 in Hlo.
  assert (Hb' : - 1 <= Z.shiftr D 32 <= 0) by (unfold D in *; lia).
  rewrite IH; [|done|done|by injection Hl|done|destruct Hnz as [-> | ->], (u32 D =? 0); auto].
  pose proof (sub_loop_spec a b (Z.shiftr D 32) Hb Ha ltac:(by injection Hl) Hb') as Hs. destruct (sub_loop a b _) as [out last].
  destruct Hs as (S1 & _). pose proof (value_range out S1) as [Hv _]. cbn [value]. f_equal.
  destruct (Z.eqb_spec (u32 D) 0) as [Ed|Ed], (Z.eqb_spec (value out) 0) as [Eo|Eo], (Z.eqb_spec (u32 D + 2 ^ 32 * value out) 0); destruct Hnz as [-> | ->]; cbn; lia || done.
Qed.
Lemma p256_cmp_spec a b : digits a -> digits b -> p256_cmp a b = if value a <? value b then -1 else if value a =? value b then 0 else 1.
Proof.
  intros Ha Hb. pose proof (digits_range a Ha). pose proof (digits_range b Hb). unfold p256_cmp. destruct Ha as [A1 A2], Hb as [B1 B2].
  rewrite cmp_loop_sub by (done || lia || (by left) || congruence). pose proof (sub_loop_spec a b 0 B1 A1 ltac:(congruence) ltac:(lia)) as Hs.
  destruct (sub_loop a b 0) as [out last]. destruct Hs as (S1 & S2 & S3 & S4). pose proof (value_range out S1) as Hv. rewrite S2 in Hv. rewrite A2, radix_8 in *.
  cbn [Z.eqb andb]. destruct (Z.ltb_spec (value a) (value b)).
  - assert (last = -1) as -> by lia. by destruct (value out =? 0).
  - assert (last = 0) as -> by lia. destruct (Z.eqb_spec (value out) 0), (Z.eqb_spec (value a) (value b)); lia || done.
Qed.
Definition prime : Z := value SECP256r1_p.
Definition curve_b : Z := value SECP256r1_b.
Lemma good_p : good_mod SECP256r1_p.
Proof. split; [split; [apply u32_check; vm_compute; reflexivity|done]|done]. Qed.
Lemma good_n : good_mod SECP256r1_n.
Proof. split; [split; [apply u32_check; vm_compute; reflexivity|done]|done]. Qed.
Lemma digits_b : digits SECP256r1_b.
Proof. split; [apply u32_check; vm_compute; reflexivity|done]. Qed.
Lemma constants : prime = 2 ^ 256 - 2 ^ 224 + 2 ^ 192 + 2 ^ 96 - 1 /\ 0 < curve_b < prime.
Proof. vm_compute. done. Qed.
(** x^3 - 3x mod p, by the three subtractions of the code. *)
Lemma cube_minus_spec x x3 : digits x -> digits x3 -> value x < prime -> value x3 = value x * value x * value x mod prime ->
  let sub d := sub_mod SECP256r1_p d x in
  digits (sub (sub (sub x3))) /\ value (sub (sub (sub x3))) = (value x * value x * value x - 3 * value x) mod prime.
Proof.
  intros Hx H3 Lx E3 sub. destruct constants as [Ep Hb]. pose proof (proj1 good_p) as HP. fold prime in *.
  assert (Hstep : forall d v, digits d /\ value d = v mod prime -> digits (sub d) /\ value (sub d) = (v - value x) mod prime).
  { intros d v [Hd Ed]. pose proof (Z.mod_pos_bound v prime ltac:(lia)). destruct (sub_mod_spec SECP256r1_p d x HP Hd Hx ltac:(fold prime; lia) Lx) as [S1 S2].
    split; [done|]. unfold sub. rewrite S2. fold prime. rewrite Ed. apply Zminus_mod_idemp_l. }
  destruct (Hstep _ _ (Hstep _ _ (Hstep _ _ (conj H3 E3)))) as [S1 S2]. split; [done|]. rewrite S2. f_equal. lia.
Qed.
(** The last addition and its reduction. *)
Lemma add_b_spec d : digits d -> value d < prime ->
  let '(carry, c) := p256_add d SECP256r1_b in
  let z := if negb (carry =? 0) then (p256_sub c SECP256r1_p).2 else c in
  digits z /\ value z = if 2 ^ 256 <=? value d + curve_b then value d + curve_b - prime else value d + curve_b.
Proof.
  intros Hd Ld. destruct constants as [Ep Hb]. pose proof (proj1 good_p) as HP. pose proof (digits_range d Hd).
  pose proof (p256_add_spec d SECP256r1_b Hd digits_b) as Ha. destruct (p256_add d SECP256r1_b) as [carry c]. destruct Ha as (A1 & A2 & A3).
  fold curve_b in A3. pose proof (digits_range c A1). destruct (Z.eqb_spec carry 0) as [->|]; cbn [negb].
  - destruct (Z.leb_spec (2 ^ 256) (value d + curve_b)); [lia|]. split; [done|lia].
  - assert (carry = 1) as -> by lia. destruct (Z.leb_spec (2 ^ 256) (value d + curve_b)); [|lia].
    pose proof (p256_sub_spec c SECP256r1_p A1 HP) as Hs. destruct (p256_sub c SECP256r1_p) as [borrow z]. destruct Hs as (S1 & S2 & S3). fold prime in S3.
    pose proof (digits_range z S1). cbn [snd]. split; [done|]. lia.
Qed.
Lemma right_side t v : 0 <= t < prime -> 0 <= v < prime ->
  v = (if 2 ^ 256 <=? t + curve_b then t + curve_b - prime else t + curve_b) <->
  v = (t + curve_b) mod prime /\ ~ (prime <= t + curve_b < 2 ^ 256).
Proof.
  intros Ht Hv. destruct constants as [Ep Hb]. destruct (Z.lt_ge_cases (t + curve_b) prime) as [Hlt|Hge].
  - rewrite Z.mod_small by lia. destruct (Z.leb_spec (2 ^ 256) (t + curve_b)); lia.
  - replace ((t + curve_b) mod prime) with (t + curve_b - prime) by (apply (Z.mod_unique_pos _ _ 1); lia).
    destruct (Z.leb_spec (2 ^ 256) (t + curve_b)); lia.
Qed.
(** The guard of p256_is_valid_point: a coordinate that is zero, or not below p. *)
Lemma cmp_le a b : digits a -> digits b -> (p256_cmp a b <=? 0) = (value a <=? value b).
Proof.
  intros Ha Hb. rewrite p256_cmp_spec by done.
  destruct (Z.ltb_spec (value a) (value b)), (Z.eqb_spec (value a) (value b)), (Z.leb_spec (value a) (value b)); done || lia.
Qed.
Lemma point_guard x y : digits x -> digits y ->
  (p256_cmp SECP256r1_p x <=? 0) || (p256_cmp SECP256r1_p y <=? 0) || p256_is_zero x || p256_is_zero y = false <->
  0 < value x < prime /\ 0 < value y < prime.
Proof.
  intros Hx Hy. pose proof (digits_range x Hx). pose proof (digits_range y Hy). pose proof (proj1 good_p) as HP.
  rewrite !cmp_le, !p256_is_zero_spec by (done || apply Hx || apply Hy). fold prime.
  rewrite !orb_false_iff, !Z.leb_gt, !Z.eqb_neq. lia.
Qed.
Definition base_x : list Z := [0xd898c296; 0xf4a13945; 0x2deb33a0; 0x77037d81; 0x63a440f2; 0xf8bce6e5; 0xe12c4247; 0x6b17d1f2].
Definition base_y : list Z := [0x37bf51f5; 0xcbb64068; 0x6b315ece; 0x2bce3357; 0x7c0f9e16; 0x8ee7eb4a; 0xfe1a7f9b; 0x4fe342e2].
Lemma base_digits : digits base_x /\ digits base_y.
Proof. split; (split; [apply u32_check; vm_compute; reflexivity|done]). Qed.
Lemma p256_modmul_exact_witness : exists c, p256_modmul SECP256r1_p base_x 0 base_y = Some c /\ digits c /\
  value c = (value base_x * value base_y) mod value SECP256r1_p.
Proof.
  destruct (p256_modmul_exact SECP256r1_p base_x 0 base_y good_p (proj1 base_digits) (proj2 base_digits)) as (c & E & D & V).
  { unfold is_u32. lia. }
  exists c. split; [exact E|]. split; [exact D|]. rewrite V. rewrite Z.mul_0_r, Z.add_0_r. reflexivity.
Defined.
(** A point of the curve that the code turns down: its right side lies in the gap. *)
Definition gap_x : list Z := [3733840343; 2977363602; 2215649994; 1291824949; 3946078084; 177369996; 1187864792; 3610402166].
Definition gap_y : list Z := 5 :: replicate 7 0.
Lemma gap_point_rejected :
  (value gap_y * value gap_y) mod prime = (value gap_x * value gap_x * value gap_x - 3 * value gap_x + curve_b) mod prime /\
  0 < value gap_x < prime /\ p256_is_valid_point gap_x gap_y = Some false.
Proof. split_and!; vm_compute; reflexivity. Qed.
