(* ===== verification/MincryptDsa.v ===== *)
(** libmincrypt/dsa_sig.c: the signature format of ECDSA.

    A read outside the signature is [None]; a rejected signature [Some None]. *)
From stdpp Require Import base list.
From Stdlib Require Import ZArith Lia.
From S2P Require Import Prelude Kernel MincryptSha MincryptRsa MincryptP256.

(** ** dsa_sig.c *)
(** The loop over leading zeros of src: the byte is read before the length is
    looked at. *)
Fixpoint skip_zeros (fuel : nat) (sig : list Z) (src src_len : Z) : option (Z * Z) :=
  c ← rd8 sig src;
  match fuel with
  | O => Some (src, src_len)
  | S fuel => if (c =? 0) && (0 <? src_len) then skip_zeros fuel sig (src + 1) (src_len - 1) else Some (src, src_len)
  end.
Definition trim_to_p256_bytes (sig : list Z) (src src_len : Z) : option (option (list Z)) :=
  r ← skip_zeros (Z.to_nat src_len) sig src src_len;
  let '(src, src_len) := r in
  if (32 <? src_len) || (src_len <? 1) then Some None
  else
  bytes ← bytes_at sig src src_len;
  Some (Some (replicate (Z.to_nat (32 - src_len)) 0 ++ bytes)).
Definition dsa_sig_unpack (sig : list Z) : option (option (list Z * list Z)) :=
  let sig_len := blen sig in
  if sig_len <? 8 then Some None
  else
  b0 ← rd8 sig 0; b2 ← rd8 sig 2;
  if negb (b0 =? 0x30) || negb (b2 =? 0x02) then Some None
  else
  seq_len ← rd8 sig 1;
  if (seq_len <=? 0) || negb (seq_len + 2 =? sig_len) then Some None
  else
  r_len ← rd8 sig 3;
  if (r_len <? 1) || (seq_len - 5 <? r_len) then Some None
  else
  tag ← rd8 sig (4 + r_len);
  if negb (tag =? 0x02) then Some None
  else
  s_len ← rd8 sig (5 + r_len);
  if (s_len <? 1) || negb (s_len =? seq_len - 4 - r_len) then Some None
  else
  r_bytes ← trim_to_p256_bytes sig 4 r_len;
  match r_bytes with
  | None => Some None
  | Some r_bytes =>
      s_bytes ← trim_to_p256_bytes sig (6 + r_len) s_len;
      match s_bytes with
      | None => Some None
      | Some s_bytes => Some (Some (p256_from_bin r_bytes, p256_from_bin s_bytes))
      end
  end.

(** ** The format *)
(** SEQUENCE { INTEGER r, INTEGER s } with one-byte lengths. *)
Definition der (r s : list Z) : list Z := [0x30; blen r + blen s + 4; 0x02; blen r] ++ r ++ [0x02; blen s] ++ s.
Definition der_ok (r s : list Z) : Prop := bytes_ok r /\ bytes_ok s /\ r <> [] /\ s <> [] /\ blen r + blen s + 4 <= 255.
Fixpoint strip (bs : list Z) : list Z :=
  match bs with [] => [] | b :: bs' => if b =? 0 then strip bs' else bs end.
(** What the two integers make of a well-formed signature. *)
Definition unpacked (r s : list Z) (res : option (option (list Z * list Z))) : Prop :=
  if (be_value r =? 0) || (2 ^ 256 <=? be_value r) then res = Some None
  else if be_value s =? 0 then res = None
  else if 2 ^ 256 <=? be_value s then res = Some None
  else exists r_int s_int, res = Some (Some (r_int, s_int)) /\ digits r_int /\ digits s_int /\
         value r_int = be_value r /\ value s_int = be_value s.

Lemma strip_suffix bs : exists k, bs = replicate k 0 ++ strip bs.
Proof.
  induction bs as [|b bs [k IH]]; [by exists 0%nat|]. cbn [strip]. destruct (Z.eqb_spec b 0) as [->|]; [|by exists 0%nat].
  exists (S k). cbn. by rewrite <- IH.
Qed.
Lemma be_value_zeros k bs : be_value (replicate k 0 ++ bs) = be_value bs.
Proof. induction k as [|k IH]; [done|]. cbn [replicate app]. rewrite be_value_cons, IH. lia. Qed.
Lemma be_value_bound bs : bytes_ok bs -> 0 <= be_value bs < 2 ^ (8 * blen bs).
Proof.
  unfold blen. induction 1 as [|b bs Hb _ IH]; [done|]. unfold is_byte in Hb. rewrite be_value_cons. cbn [length].
  replace (8 * Z.of_nat (S (length bs))) with (8 + 8 * Z.of_nat (length bs)) by lia. rewrite Z.pow_add_r by lia. nia.
Qed.
Lemma strip_ok bs : bytes_ok bs -> bytes_ok (strip bs).
Proof. intros Hb. destruct (strip_suffix bs) as [k E]. rewrite E in Hb. by apply Forall_app in Hb as [_ ?]. Qed.
Lemma strip_value bs : be_value (strip bs) = be_value bs.
Proof. destruct (strip_suffix bs) as [k E]. rewrite E at 2. by rewrite be_value_zeros. Qed.
(** A stripped number of [k] bytes is at least 256^(k - 1). *)
Lemma strip_low bs : bytes_ok bs -> strip bs = [] \/ 2 ^ (8 * (blen (strip bs) - 1)) <= be_value bs.
Proof.
  induction 1 as [|b bs Hb Hbs IH]; [by left|]. cbn [strip]. destruct (Z.eqb_spec b 0) as [->|].
  - rewrite be_value_cons. destruct IH as [?|IH]; [by left|right; lia].
  - right. unfold blen. rewrite be_value_cons. cbn [length]. replace (8 * (Z.of_nat (S (length bs)) - 1)) with (8 * Z.of_nat (length bs)) by lia.
    pose proof (be_value_bound bs Hbs). unfold is_byte in Hb. pose proof (Z.pow_pos_nonneg 2 (8 * Z.of_nat (length bs)) ltac:(lia) ltac:(lia)). nia.
Qed.
Lemma strip_nil bs : bytes_ok bs -> strip bs = [] <-> be_value bs = 0.
Proof.
  intros Hb. rewrite <- strip_value. split; [by intros ->|]. destruct (strip_low bs Hb) as [E|Hl]; [done|]. rewrite strip_value. intros E.
  destruct (strip bs) as [|c t]; [done|]. unfold blen in Hl. cbn [length] in Hl.
  pose proof (Z.pow_pos_nonneg 2 (8 * (Z.of_nat (S (length t)) - 1)) ltac:(lia) ltac:(lia)). lia.
Qed.
Lemma strip_wide bs : bytes_ok bs -> (32 <? blen (strip bs)) = (2 ^ 256 <=? be_value bs).
Proof.
  intros Hb. pose proof (be_value_bound _ (strip_ok bs Hb)) as Hr. rewrite strip_value in Hr.
  assert (0 <= blen (strip bs)) by (unfold blen; lia). destruct (Z.ltb_spec 32 (blen (strip bs))), (Z.leb_spec (2 ^ 256) (be_value bs)); try done; exfalso.
  - destruct (strip_low bs Hb) as [E|Hl]; [rewrite E in *; done|].
    assert (2 ^ 256 <= 2 ^ (8 * (blen (strip bs) - 1))) by (apply Z.pow_le_mono_r; lia). lia.
  - assert (2 ^ (8 * blen (strip bs)) <= 2 ^ 256) by (apply Z.pow_le_mono_r; lia). lia.
Qed.

(** ** The parser *)
Lemma rd8_at pre x post : rd8 (pre ++ x :: post) (blen pre) = Some x.
Proof. unfold rd8, blen. destruct (Z.ltb_spec (Z.of_nat (length pre)) 0); [lia|]. rewrite Nat2Z.id. by apply list_lookup_middle. Qed.
Lemma rd8_end bs : rd8 bs (blen bs) = None.
Proof. unfold rd8, blen. destruct (Z.ltb_spec (Z.of_nat (length bs)) 0); [done|]. rewrite Nat2Z.id. by apply lookup_ge_None. Qed.
Lemma skip_zeros_spec bs : forall pre post,
  skip_zeros (length bs) (pre ++ bs ++ post) (blen pre) (blen bs) =
  match strip bs, post with
  | [], [] => None
  | _, _ => Some (blen pre + (blen bs - blen (strip bs)), blen (strip bs))
  end.
Proof.
  induction bs as [|b bs IH]; intros pre post.
  - cbn [skip_zeros length app strip]. destruct post as [|c post]; [by rewrite app_nil_r, rd8_end|].
    rewrite rd8_at, some_bind. f_equal. f_equal. unfold blen. cbn. lia.
  - cbn [skip_zeros length app strip]. rewrite rd8_at, some_bind. assert (Hl : blen (b :: bs) = blen bs + 1) by (unfold blen; cbn; lia).
    destruct (Z.eqb_spec b 0) as [->|]; cbn [andb]; [|f_equal; f_equal; lia].
    destruct (Z.ltb_spec 0 (blen (0 :: bs))) as [_|]; [|unfold blen in *; lia]. rewrite Hl, Z.add_simpl_r.
    pose proof (IH (pre ++ [0]) post) as IH'. rewrite <- !app_assoc in IH'. cbn [app] in IH'.
    replace (blen (pre ++ [0])) with (blen pre + 1) in IH' by (unfold blen; rewrite length_app; cbn; lia). rewrite IH'.
    destruct (strip bs), post; try done; (f_equal; f_equal; lia).
Qed.
Lemma trim_spec pre bs post : bytes_ok bs -> trim_to_p256_bytes (pre ++ bs ++ post) (blen pre) (blen bs) =
  if be_value bs =? 0 then match post with [] => None | _ => Some None end
  else if 2 ^ 256 <=? be_value bs then Some None
  else Some (Some (replicate (32 - length (strip bs)) 0 ++ strip bs)).
Proof.
  intros Hb. unfold trim_to_p256_bytes. replace (Z.to_nat (blen bs)) with (length bs) by (unfold blen; lia). rewrite skip_zeros_spec, <- strip_wide by done.
  destruct (Z.eqb_spec (be_value bs) 0) as [Ez|Ez].
  { apply strip_nil in Ez; [|done]. rewrite Ez. by destruct post. }
  assert (Hne : strip bs <> []) by (intros E; by apply strip_nil in E). destruct (strip_suffix bs) as [k E].
  assert (Hlen : length bs = (k + length (strip bs))%nat) by (rewrite E at 1; by rewrite length_app, length_replicate).
  transitivity (Some (blen pre + (blen bs - blen (strip bs)), blen (strip bs)) ≫= (λ r : Z * Z, let '(src, src_len) := r in
    if (32 <? src_len) || (src_len <? 1) then Some None else bytes ← bytes_at (pre ++ bs ++ post) src src_len;
    Some (Some (replicate (Z.to_nat (32 - src_len)) 0 ++ bytes)))); [by destruct (strip bs), post|]. rewrite some_bind.
  destruct (Z.ltb_spec (blen (strip bs)) 1) as [Hs|_]; [destruct (strip bs); [done|unfold blen in Hs; cbn in Hs; lia]|]. rewrite orb_false_r.
  destruct (Z.ltb_spec 32 (blen (strip bs))) as [|Hs]; [done|].
  rewrite bytes_at_Some, some_bind by (unfold blen in *; rewrite ?length_app; lia). do 3 f_equal; [f_equal; unfold blen in *; lia|].
  replace (Z.to_nat (blen pre + (blen bs - blen (strip bs)))) with (length pre + k)%nat by (unfold blen; lia).
  rewrite drop_app_add. rewrite E at 2. rewrite <- app_assoc, <- (length_replicate k 0) at 1. rewrite drop_app_length.
  unfold blen. rewrite Nat2Z.id. apply take_app_length.
Qed.
Lemma from_bin_spec bs : bytes_ok bs -> be_value bs < 2 ^ 256 ->
  let d := p256_from_bin (replicate (32 - length (strip bs)) 0 ++ strip bs) in digits d /\ value d = be_value bs.
Proof.
  intros Hb Hv d. assert (Hw : (32 <? blen (strip bs)) = false) by (rewrite strip_wide by done; apply Z.leb_gt; lia).
  apply Z.ltb_ge in Hw. unfold blen in Hw. set (full := replicate _ 0 ++ strip bs) in *.
  assert (Hl : length full = 32%nat) by (unfold full; rewrite length_app, length_replicate; lia).
  assert (Hf : bytes_ok full) by (apply Forall_app; split; [apply Forall_replicate; done|by apply strip_ok]).
  destruct (value_rev_words full 8 Hl Hf) as (W1 & W2 & W3). unfold d, p256_from_bin. rewrite take_ge by (rewrite Hl; done).
  split; [by split|]. rewrite W3. unfold full. by rewrite be_value_zeros, strip_value.
Qed.
Lemma dsa_reads r s : let sig := der r s in
  blen sig = blen r + blen s + 6 /\ rd8 sig 0 = Some 0x30 /\ rd8 sig 1 = Some (blen r + blen s + 4) /\ rd8 sig 2 = Some 0x02 /\
  rd8 sig 3 = Some (blen r) /\ rd8 sig (4 + blen r) = Some 0x02 /\ rd8 sig (5 + blen r) = Some (blen s).
Proof.
  intros sig. set (hd := [0x30; blen r + blen s + 4; 0x02; blen r]). split_and!; try done.
  - unfold sig, der, blen. rewrite !length_app. cbn. lia.
  - replace (4 + blen r) with (blen (hd ++ r)) by (unfold blen; rewrite length_app; cbn; lia).
    unfold sig, der. fold hd. rewrite app_assoc. cbn [app]. apply rd8_at.
  - replace (5 + blen r) with (blen (hd ++ r ++ [0x02])) by (unfold blen; rewrite !length_app; cbn; lia).
    replace sig with ((hd ++ r ++ [0x02]) ++ blen s :: s) by (unfold sig, der; fold hd; by rewrite <- !app_assoc). apply rd8_at.
Qed.
Lemma dsa_unpack_der r s : der_ok r s -> unpacked r s (dsa_sig_unpack (der r s)).
Proof.
  intros (Hr & Hs & Nr & Ns & Hl). destruct (dsa_reads r s) as (L & R0 & R1 & R2 & R3 & R4 & R5). unfold dsa_sig_unpack.
  assert (1 <= blen r) by (destruct r; [done|unfold blen; cbn; lia]). assert (1 <= blen s) by (destruct s; [done|unfold blen; cbn; lia]).
  rewrite L, (proj2 (Z.ltb_ge _ _)) by lia. rewrite R0, R2, R1, R3, !some_bind. cbn [Z.eqb negb orb].
  rewrite (proj2 (Z.leb_gt _ 0)), (proj2 (Z.eqb_eq (_ + 4 + 2) _)) by lia. cbn [negb orb].
  rewrite (proj2 (Z.ltb_ge (blen r) 1)), (proj2 (Z.ltb_ge _ (blen r))) by lia. cbn [orb]. rewrite R4, R5, !some_bind. cbn [Z.eqb negb].
  rewrite (proj2 (Z.ltb_ge (blen s) 1)), (proj2 (Z.eqb_eq (blen s) _)) by lia. cbn [negb orb].
  set (hd := [0x30; blen r + blen s + 4; 0x02; blen r]).
  pose proof (trim_spec hd r ([0x02; blen s] ++ s) Hr) as T1. pose proof (trim_spec (hd ++ r ++ [0x02; blen s]) s [] Hs) as T2.
  replace (blen (hd ++ r ++ [0x02; blen s])) with (6 + blen r) in T2 by (unfold blen; rewrite !length_app; cbn; lia).
  rewrite app_nil_r, <- !app_assoc in T2. change (blen hd) with 4 in T1. unfold der. fold hd. rewrite T1, T2. unfold unpacked.
  destruct (Z.eqb_spec (be_value r) 0); [done|]. destruct (Z.leb_spec (2 ^ 256) (be_value r)); [done|]. cbn [orb]. rewrite some_bind.
  destruct (Z.eqb_spec (be_value s) 0); [done|]. destruct (Z.leb_spec (2 ^ 256) (be_value s)); [done|]. rewrite some_bind.
  destruct (from_bin_spec r Hr) as [D1 D2]; [done|]. destruct (from_bin_spec s Hs) as [E1 E2]; [done|]. eexists _, _. by split_and!.
Qed.
Lemma four_bytes (sig : list Z) b0 b1 b2 b3 : rd8 sig 0 = Some b0 -> rd8 sig 1 = Some b1 -> rd8 sig 2 = Some b2 -> rd8 sig 3 = Some b3 ->
  exists rest, sig = b0 :: b1 :: b2 :: b3 :: rest.
Proof.
  change (rd8 sig 0) with (sig !! 0%nat). change (rd8 sig 1) with (sig !! 1%nat). change (rd8 sig 2) with (sig !! 2%nat).
  change (rd8 sig 3) with (sig !! 3%nat). destruct sig as [|c0 [|c1 [|c2 [|c3 rest]]]]; cbn; intros; simplify_eq. by exists rest.
Qed.
Lemma split_two (l : list Z) n : 0 <= n -> n + 2 <= Z.of_nat (length l) -> exists r t u s, l = r ++ t :: u :: s /\ blen r = n.
Proof.
  intros H0 Hn. exists (take (Z.to_nat n) l). destruct (drop (Z.to_nat n) l) as [|t [|u s]] eqn:E.
  1,2: apply (f_equal length) in E; rewrite length_drop in E; cbn in E; lia.
  exists t, u, s. rewrite <- E, take_drop. split; [done|]. unfold blen. rewrite length_take. lia.
Qed.
(** A signature that passes the guards has the format. *)
Lemma dsa_rejects sig : bytes_ok sig -> dsa_sig_unpack sig = Some None \/ exists r s, der_ok r s /\ sig = der r s.
Proof.
  intros Hb. unfold dsa_sig_unpack. destruct (Z.ltb_spec (blen sig) 8) as [|Hlen]; [by left|].
  destruct (rd8_Some sig 0) as [b0 E0]; [lia|]. destruct (rd8_Some sig 1) as [b1 E1]; [lia|].
  destruct (rd8_Some sig 2) as [b2 E2]; [lia|]. destruct (rd8_Some sig 3) as [b3 E3]; [lia|].
  pose proof (rd8_range _ _ _ Hb E1) as Hb1. pose proof (rd8_range _ _ _ Hb E3) as Hb3.
  destruct (four_bytes sig b0 b1 b2 b3 E0 E1 E2 E3) as [rest Es]. rewrite E0, E1, E2, E3, !some_bind.
  destruct (Z.eqb_spec b0 0x30) as [->|]; [|by left]. destruct (Z.eqb_spec b2 0x02) as [->|]; [|by left]. cbn [negb orb].
  destruct (Z.leb_spec b1 0); [by left|]. destruct (Z.eqb_spec (b1 + 2) (blen sig)) as [El|]; [|by left]. cbn [negb orb].
  destruct (Z.ltb_spec b3 1); [by left|]. destruct (Z.ltb_spec (b1 - 5) b3); [by left|]. cbn [orb].
  assert (Hrest : Z.of_nat (length rest) = b1 - 2) by (rewrite Es in El; unfold blen in El; cbn [length] in El; lia).
  destruct (split_two rest b3) as (r & t & sl & s & -> & Hr); [lia|lia|].
  assert (Esig : sig = ([0x30; b1; 0x02; b3] ++ r) ++ t :: sl :: s) by (rewrite Es; by rewrite <- app_assoc).
  assert (E4 : rd8 sig (4 + b3) = Some t).
  { rewrite Esig. replace (4 + b3) with (blen ([0x30; b1; 0x02; b3] ++ r)) by (unfold blen; rewrite length_app; cbn [length]; unfold blen in Hr; lia). apply rd8_at. }
  assert (E5 : rd8 sig (5 + b3) = Some sl).
  { rewrite Esig. change (t :: sl :: s) with ([t] ++ sl :: s). rewrite app_assoc.
    replace (5 + b3) with (blen (([0x30; b1; 0x02; b3] ++ r) ++ [t])) by (unfold blen in *; rewrite !length_app; cbn [length]; lia). apply rd8_at. }
  rewrite E4, some_bind. destruct (Z.eqb_spec t 0x02) as [->|]; [|by left]. cbn [negb]. rewrite E5, some_bind.
  destruct (Z.ltb_spec sl 1); [by left|]. destruct (Z.eqb_spec sl (b1 - 4 - b3)) as [E6|]; [|by left]. cbn [negb orb]. right. exists r, s.
  rewrite length_app in Hrest. cbn [length] in Hrest. unfold blen in Hr. rewrite Esig in Hb. unfold bytes_ok in Hb. rewrite !Forall_app, !Forall_cons in Hb.
  split; [split_and!; try tauto; unfold blen; try lia; intros ->; cbn in *; lia|].
  rewrite Esig. unfold der, blen. rewrite <- app_assoc. cbn [app]. repeat f_equal; lia.
Qed.
(** Dsa_sig_unpack on any signature. One that is SEQUENCE { INTEGER r,
    INTEGER s } with one-byte lengths that add up gives both integers as 256-bit
    numbers, whatever their leading zeros, or is refused when r is zero or one of
    them needs more than 256 bits; when s is zero the scan over its leading zeros
    reads the byte after the signature. Every other byte string is refused. *)
Theorem dsa_sig_unpack_exact sig : bytes_ok sig ->
  (forall r s, der_ok r s -> sig = der r s -> unpacked r s (dsa_sig_unpack sig)) /\
  ((forall r s, der_ok r s -> sig <> der r s) -> dsa_sig_unpack sig = Some None).
Proof.
  intros Hb. split; [intros r s Hd ->; by apply dsa_unpack_der|]. intros Hn.
  destruct (dsa_rejects sig Hb) as [|(r & s & Hd & E)]; [done|]. by destruct (Hn r s Hd).
Qed.
Lemma demo_der_ok : der_ok [0; 1; 2] [0x80].
Proof. split_and!; try done; apply bytes_ok_check; reflexivity. Qed.
Lemma dsa_sig_unpack_exact_witness :
  bytes_ok (der [0; 1; 2] [0x80]) /\ unpacked [0; 1; 2] [0x80] (dsa_sig_unpack (der [0; 1; 2] [0x80])).
Proof.
  assert (Hb : bytes_ok (der [0; 1; 2] [0x80])) by (apply bytes_ok_check; reflexivity).
  split; [exact Hb|]. exact (proj1 (dsa_sig_unpack_exact _ Hb) _ _ demo_der_ok eq_refl).
Defined.
