(* ===== verification/FlashMounts.v ===== *)
(** aera_image_flash_mounts.hpp: the mounts that are released before partitions
    are written, and how they are put back.

    The kernel's table is a list of rows, shown as the text of
    /proc/self/mountinfo; a system call takes its outcome from the answers of
    the environment and changes the table as mount(2) and umount(2) say. [None]
    is undefined behaviour: a number sscanf cannot store. *)
From stdpp Require Import base list strings gmap sorting.
From Stdlib Require Import ZArith Lia Ascii.
From S2P Require Import Prelude CxxString.

(** ** sys/mount.h, sys/sysmacros.h *)
Definition MS_RDONLY : Z := 1.
Definition MS_NOSUID : Z := 2.
Definition MS_NODEV : Z := 4.
Definition MS_NOEXEC : Z := 8.
Definition MS_SYNCHRONOUS : Z := 16.
Definition MS_DIRSYNC : Z := 128.
Definition MS_NOATIME : Z := 1024.
Definition MS_NODIRATIME : Z := 2048.
Definition MS_UNBINDABLE : Z := 2 ^ 17.
Definition MS_PRIVATE : Z := 2 ^ 18.
Definition MS_SHARED : Z := 2 ^ 20.
Definition MS_RELATIME : Z := 2 ^ 21.
Definition MS_LAZYTIME : Z := 2 ^ 25.
Definition makedev (major minor : Z) : Z :=
  Z.lor (Z.lor (Z.lor (Z.shiftl (Z.land major 0xfffff000) 32) (Z.shiftl (Z.land major 0xfff) 8))
               (Z.shiftl (Z.land minor 0xffffff00) 12)) (Z.land minor 0xff).

(** ** sscanf *)
Definition digit_value (c : ascii) : option Z :=
  let n := Z.of_nat (nat_of_ascii c) in
  if (48 <=? n) && (n <=? 57) then Some (n - 48)
  else if (97 <=? n) && (n <=? 102) then Some (n - 87)
  else if (65 <=? n) && (n <=? 70) then Some (n - 55)
  else None.
Fixpoint scan_digits (base : Z) (s : string) (acc : option Z) : option Z * string :=
  match s with
  | EmptyString => (acc, s)
  | String c s' =>
      match digit_value c with
      | Some d => if d <? base then scan_digits base s' (Some (default 0 acc * base + d)) else (acc, s)
      | None => (acc, s)
      end
  end.
(** %u and %x: white space, a sign, 0x before hexadecimal digits. *)
Definition scan_uint (base : Z) (s : string) : option (bool * Z * string) :=
  let s := skip_space s in
  let '(neg, s) := match s with String "-" s' => (true, s') | String "+" s' => (false, s') | _ => (false, s) end in
  let s := if base =? 16 then match s with String "0" (String x s') => if Ascii.eqb x "x" || Ascii.eqb x "X" then s' else s | _ => s end else s in
  match scan_digits base s None with
  | (Some v, rest) => Some (neg, v, rest)
  | (None, _) => None
  end.
(** The value does not fit into the unsigned int it is stored in. *)
Definition unstorable (neg : bool) (v : Z) : bool := (UINT32_MAX <? v) || (neg && negb (v =? 0)).
(** sscanf(s, "%u:%u%c", ...) == 2, with the two numbers. *)
Definition scan_device (base : Z) (s : string) : option (option (Z * Z)) :=
  match scan_uint base s with
  | None => Some None
  | Some (neg, major_id, rest) =>
      if unstorable neg major_id then None
      else
      match rest with
      | String ":" rest =>
          match scan_uint base rest with
          | None => Some None
          | Some (neg, minor_id, rest) =>
              if unstorable neg minor_id then None
              else match rest with EmptyString => Some (Some (major_id, minor_id)) | _ => Some None end
          end
      | _ => Some None
      end
  end.

(** ** The words of a line: repeated [row >> word]. *)
Fixpoint words_aux (s word : string) : list string :=
  match s with
  | EmptyString => if String.eqb word "" then [] else [word]
  | String c s' =>
      if is_space c then if String.eqb word "" then words_aux s' "" else word :: words_aux s' ""
      else words_aux s' (word ++ String c "")
  end.
Definition words (s : string) : list string := words_aux s "".

(** ** FlashMount *)
Record FlashMount := MkFlashMount {
  fm_device : Z; fm_root : string; fm_target : string; fm_options : string; fm_type : string; fm_source : string;
  fm_super_options : string; fm_propagation : Z; fm_removed : bool }.
Definition octal (c : ascii) : option Z :=
  let n := Z.of_nat (nat_of_ascii c) in if (48 <=? n) && (n <=? 55) then Some (n - 48) else None.
Definition backslash : ascii := ascii_of_nat 92.
Fixpoint DecodeMountPath (value : string) : string :=
  match value with
  | EmptyString => EmptyString
  | String c rest =>
      match rest with
      | String x (String y (String z after)) =>
          match octal x, octal y, octal z with
          | Some a, Some b, Some d =>
              if Ascii.eqb c backslash
              then String (ascii_of_nat (Z.to_nat (u8 (a * 64 + b * 8 + d)))) (DecodeMountPath after)
              else String c (DecodeMountPath rest)
          | _, _, _ => String c (DecodeMountPath rest)
          end
      | _ => String c (DecodeMountPath rest)
      end
  end.
(** The optional fields, to the separator: shared, slave, propagation and what follows. *)
Fixpoint optional_fields (row : list string) (shared slave : bool) (propagation : Z) : option (bool * bool * Z * list string) :=
  match row with
  | [] => None
  | field :: row =>
      if String.eqb field "-" then Some (shared, slave, propagation, row)
      else optional_fields row (shared || String.prefix "shared:" field) (slave || String.prefix "master:" field)
             (if String.eqb field "unbindable" then MS_UNBINDABLE else propagation)
  end.
Definition absolute (s : string) : bool := match s with String c _ => Ascii.eqb c "/" | EmptyString => false end.
(** One line; [Some None]: return false. *)
Definition parse_row (line : string) : option (option FlashMount) :=
  match words line with
  | _ :: _ :: device :: root :: target :: options :: row =>
      dev ← scan_device 10 device;
      match dev with
      | None => Some None
      | Some (major_id, minor_id) =>
          match optional_fields row false false MS_PRIVATE with
          | Some (shared, slave, propagation, type :: source :: super_options :: _) =>
              let propagation := if shared && slave then 0 else if shared then MS_SHARED else if slave then 0 else propagation in
              let root := DecodeMountPath root in
              let target := DecodeMountPath target in
              if negb (absolute root) || negb (absolute target) then Some None
              else Some (Some (MkFlashMount (makedev major_id minor_id) root target options type (DecodeMountPath source)
                                            super_options propagation false))
          | _ => Some None
          end
      end
  | _ => Some None
  end.
(** The result, and the mounts pushed back before a return. *)
Fixpoint parse_rows (rows : list string) (mounts : list FlashMount) : option (bool * list FlashMount) :=
  match rows with
  | [] => Some (true, mounts)
  | line :: rows =>
      if String.eqb line "" then parse_rows rows mounts
      else
      m ← parse_row line;
      match m with
      | None => Some (false, mounts)
      | Some m => parse_rows rows (mounts ++ [m])
      end
  end.
Definition ParseFlashMounts (text : string) : option (bool * list FlashMount) := parse_rows (lines text) [].

(** ** MapsUseFlashDevices *)
Fixpoint maps_use (rows : list string) (devices : gset Z) : option bool :=
  match rows with
  | [] => Some false
  | line :: rows =>
      match words line with
      | _ :: _ :: _ :: device :: _ :: _ =>
          dev ← scan_device 16 device;
          match dev with
          | Some (major_id, minor_id) => if decide (makedev major_id minor_id ∈ devices) then Some true else maps_use rows devices
          | None => maps_use rows devices
          end
      | _ => maps_use rows devices
      end
  end.
Definition MapsUseFlashDevices (text : string) (devices : gset Z) : option bool := maps_use (lines text) devices.

(** ** The plan *)
Definition BelowMount (path parent : string) : bool :=
  String.eqb path parent ||
  ((String.length parent <? String.length path)%nat && String.prefix parent path &&
   match String.get (String.length parent) path with Some c => Ascii.eqb c "/" | None => false end).
Fixpoint plan_selected (all : list FlashMount) (roots : list string) (paths : list string) : string + list FlashMount :=
  match all with
  | [] => inr []
  | m :: all =>
      if negb (existsb (fun root => BelowMount (fm_target m) root) roots) then plan_selected all roots paths
      else if String.eqb (fm_target m) "/" || (fm_propagation m =? 0) || bool_decide (fm_target m ∈ paths)
      then inl ("Cannot safely release stacked/root/shared-slave mount " ++ fm_target m)%string
      else
        match plan_selected all roots (fm_target m :: paths) with
        | inl e => inl e
        | inr selected => inr (m :: selected)
        end
  end.
(** std::sort by a.size() > b.size(). Elements of equal size may come in any order. *)
Class SizeSort := {
  size_sort {A : Type} (size : A -> nat) : list A -> list A;
  size_sort_perm {A} (size : A -> nat) l : size_sort size l ≡ₚ l;
  size_sort_sorted {A} (size : A -> nat) l : StronglySorted (fun a b => (size b <= size a)%nat) (size_sort size l) }.
Definition target_size (m : FlashMount) : nat := String.length (fm_target m).
Definition PlanFlashMounts `{SizeSort} (all : list FlashMount) (devices : gset Z) : string + list FlashMount :=
  let roots := fm_target <$> filter (fun m => fm_device m ∈ devices) all in
  match plan_selected all roots [] with
  | inl error => inl error
  | inr selected => inr (size_sort target_size selected)
  end.

(** ** Mount options *)
Definition option_flag (option : string) : Z :=
  if String.eqb option "ro" then MS_RDONLY
  else if String.eqb option "nosuid" then MS_NOSUID
  else if String.eqb option "nodev" then MS_NODEV
  else if String.eqb option "noexec" then MS_NOEXEC
  else if String.eqb option "noatime" then MS_NOATIME
  else if String.eqb option "nodiratime" then MS_NODIRATIME
  else if String.eqb option "relatime" then MS_RELATIME
  else if String.eqb option "sync" then MS_SYNCHRONOUS
  else if String.eqb option "dirsync" then MS_DIRSYNC
  else if String.eqb option "lazytime" then MS_LAZYTIME
  else 0.
Definition FlashMountFlags (options : string) : Z :=
  foldl (fun flags option => Z.lor flags (option_flag option)) 0 (getlines "," options).
Definition generic : list string :=
  ["ro"; "rw"; "nosuid"; "nodev"; "noexec"; "noatime"; "nodiratime"; "relatime"; "sync"; "dirsync"; "lazytime"; "seclabel"]%string.
Definition FlashFilesystemOptions (options : string) : string :=
  foldl (fun out option =>
    if bool_decide (option ∈ generic) then out
    else (out ++ (if String.eqb out "" then "" else ",") ++ option)%string) ""%string (getlines "," options).

(** ** The kernel's table *)
Record Row := MkRow {
  r_id : string; r_parent : string; r_major : Z; r_minor : Z; r_root : string; r_target : string; r_options : string;
  r_fields : list string; r_type : string; r_source : string; r_super : string }.
(** mountinfo escapes some characters of a path as a backslash and three octal digits. *)
Definition octal_digit (d : Z) : ascii := ascii_of_nat (Z.to_nat (48 + d)).
Definition escape (c : ascii) (rest : string) : string :=
  let n := byte_of c in
  String backslash (String (octal_digit (n / 64)) (String (octal_digit (n / 8 mod 8)) (String (octal_digit (n mod 8)) rest))).
Fixpoint EncodeMountPath (esc : ascii -> bool) (s : string) : string :=
  match s with
  | EmptyString => EmptyString
  | String c s => if esc c then escape c (EncodeMountPath esc s) else String c (EncodeMountPath esc s)
  end.
Definition row_words (esc : ascii -> bool) (r : Row) : list string :=
  [r_id r; r_parent r; (to_string (r_major r) ++ ":" ++ to_string (r_minor r))%string;
   EncodeMountPath esc (r_root r); EncodeMountPath esc (r_target r); r_options r] ++
  r_fields r ++ ["-"%string; r_type r; EncodeMountPath esc (r_source r); r_super r].
Definition render (esc : ascii -> bool) (rows : list Row) : string :=
  String.concat "" ((fun r => (String.concat " " (row_words esc r) ++ newline)%string) <$> rows).
(** The characters mountinfo escapes. *)
Definition kernel_esc (c : ascii) : bool := is_space c || Ascii.eqb c backslash.
Definition row_propagation (fields : list string) : Z :=
  let shared := existsb (String.prefix "shared:") fields in
  let slave := existsb (String.prefix "master:") fields in
  if slave then 0 else if shared then MS_SHARED
  else if existsb (String.eqb "unbindable") fields then MS_UNBINDABLE else MS_PRIVATE.
Definition as_mount (r : Row) : FlashMount :=
  MkFlashMount (makedev (r_major r) (r_minor r)) (r_root r) (r_target r) (r_options r) (r_type r) (r_source r) (r_super r)
               (row_propagation (r_fields r)) false.
Definition row_device (r : Row) : Z := makedev (r_major r) (r_minor r).
Definition row_flags (r : Row) : Z := FlashMountFlags (r_options r ++ "," ++ r_super r).

(** What the kernel shows: words, absolute paths, 32-bit numbers. *)
Definition is_word (s : string) : bool := negb (String.eqb s "") && all_chars word_char s.
Definition row_okb (r : Row) : bool :=
  is_word (r_id r) && is_word (r_parent r) && (0 <=? r_major r) && (r_major r <=? UINT32_MAX) && (0 <=? r_minor r) && (r_minor r <=? UINT32_MAX) &&
  absolute (r_root r) && absolute (r_target r) && is_word (r_options r) &&
  forallb (fun f => is_word f && negb (String.eqb f "-")) (r_fields r) &&
  is_word (r_type r) && negb (String.eqb (r_source r) "") && is_word (r_super r).

(** ** System calls *)
(** What the environment says to a call: no, yes, yes with the row a mount
    makes of itself, or yes with the name of a new directory. *)
Inductive Answer := Deny | Grant | GrantRow (r : Row) | GrantName (s : string).
(** Whether stat finds a block device, and its number. *)
Inductive Node := NoNode | OtherNode (dev : Z) | BlockNode (dev rdev : Z).
Record World := MkWorld { rows : list Row; node : string -> Node; answers : list Answer }.
Definition M (A : Type) : Type := World -> option (A * World).
#[global] Instance M_ret : MRet M := fun _ x w => Some (x, w).
#[global] Instance M_bind : MBind M := fun _ _ k m w => '(x, w) ← m w; k x w.
Definition undefined {A} : M A := fun _ => None.
Definition answer : M Answer := fun w =>
  match answers w with
  | [] => Some (Deny, w)
  | a :: rest => Some (a, MkWorld (rows w) (node w) rest)
  end.
Definition get_rows : M (list Row) := fun w => Some (rows w, w).
Definition put_rows (t : list Row) : M () := fun w => Some ((), MkWorld t (node w) (answers w)).
Definition stat_node (path : string) : M Node := fun w => Some (node w path, w).
(** /proc/self/mountinfo, or an error. *)
Definition read_mountinfo : M (option string) :=
  a ← answer;
  match a with Grant => t ← get_rows; mret (Some (render kernel_esc t)) | _ => mret None end.
Definition at_target (target : string) (r : Row) : bool := String.eqb (r_target r) target.
(** The topmost mount at [target], replaced or removed. *)
Fixpoint replace_top (target : string) (new : list Row) (t : list Row) : option (list Row) :=
  match t with
  | [] => None
  | r :: t =>
      match replace_top target new t with
      | Some t => Some (r :: t)
      | None => if at_target target r then Some (new ++ t) else None
      end
  end.
Fixpoint top_at (target : string) (t : list Row) : option Row :=
  match t with
  | [] => None
  | r :: t => match top_at target t with Some r => Some r | None => if at_target target r then Some r else None end
  end.
(** A mount that makes a new row fitting the call. *)
Definition mount_new (fits : Row -> bool) : M bool :=
  a ← answer;
  match a with
  | GrantRow r => if row_okb r && fits r then t ← get_rows; _ ← put_rows (t ++ [r]); mret true else mret false
  | _ => mret false
  end.
(** A mount that changes the row on top of [target]. *)
Definition mount_change (target : string) (fits : Row -> Row -> bool) : M bool :=
  a ← answer; t ← get_rows;
  match a, top_at target t with
  | GrantRow r, Some old =>
      if row_okb r && fits old r then match replace_top target [r] t with Some t => _ ← put_rows t; mret true | None => mret false end
      else mret false
  | _, _ => mret false
  end.
Definition same_mount (old r : Row) : bool :=
  String.eqb (r_target r) (r_target old) && (row_device r =? row_device old) && String.eqb (r_root r) (r_root old) &&
  String.eqb (r_type r) (r_type old).
(** mount(source, target, type, flags, data) of a block device; what the file
    system makes of its own options [data] is not constrained. *)
Definition mount_device (source target type : string) (flags : Z) (data : string) : M bool :=
  n ← stat_node source;
  match n with
  | BlockNode _ rdev =>
      mount_new (fun r => String.eqb (r_target r) target && (row_device r =? rdev) && String.eqb (r_root r) "/" &&
                          String.eqb (r_type r) type && (row_flags r =? flags))
  | _ => mret false
  end.
(** mount(source, target, MS_BIND), source the path [root] in the file system on [dir]. *)
Definition mount_bind (dir root target : string) : M bool :=
  t ← get_rows;
  match top_at dir t with
  | Some old => mount_new (fun r => String.eqb (r_target r) target && (row_device r =? row_device old) &&
                                    String.eqb (r_root r) root && String.eqb (r_type r) (r_type old))
  | None => mret false
  end.
(** MS_BIND | MS_REMOUNT | flags sets the flags of the mount, a propagation type its peers. *)
Definition mount_remount (target : string) (flags : Z) : M bool :=
  mount_change target (fun old r => same_mount old r && (row_flags r =? flags) && (row_propagation (r_fields r) =? row_propagation (r_fields old))).
Definition mount_propagation (target : string) (propagation : Z) : M bool :=
  mount_change target (fun old r => same_mount old r && (row_flags r =? row_flags old) && (row_propagation (r_fields r) =? propagation)).
(** umount2: nothing mounted there, busy, or done. A mount below keeps it busy. *)
Inductive Unmount := NotMounted | Busy | Unmounted.
Definition strictly_below (path parent : string) : bool := BelowMount path parent && negb (String.eqb path parent).
Definition umount2 (target : string) : M Unmount :=
  a ← answer; t ← get_rows;
  match replace_top target [] t with
  | None => mret NotMounted
  | Some t' =>
      match a with
      | Grant => if existsb (fun r => strictly_below (r_target r) target) t then mret Busy else _ ← put_rows t'; mret Unmounted
      | _ => mret Busy
      end
  end.
(** A directory that did not exist, with nothing mounted on it. *)
Definition temporary_prefix : string := "/tmp/aera-flash-mount-".
Definition mkdtemp : M (option string) :=
  a ← answer; t ← get_rows;
  match a with
  | GrantName s => if String.prefix temporary_prefix s && negb (existsb (at_target s) t) then mret (Some s) else mret None
  | _ => mret None
  end.

(** ** RestoreFlashMount *)
(** How many mounts are at saved.target, and whether all of them match. *)
Definition count_existing (saved : FlashMount) (flags rdev : Z) (current : list FlashMount) : nat * bool :=
  foldl (fun '(existing, matches) m =>
    if negb (String.eqb (fm_target m) (fm_target saved)) then (existing, matches)
    else (S existing, matches && (fm_device m =? rdev) && String.eqb (fm_root m) (fm_root saved) && String.eqb (fm_type m) (fm_type saved) &&
                      (FlashMountFlags (fm_options m ++ "," ++ fm_super_options m) =? flags))) (0%nat, true) current.
(** The bind through a temporary mount. *)
Definition restore_bind (saved : FlashMount) (flags : Z) (options : string) : M bool :=
  tmp ← mkdtemp;
  match tmp with
  | None => mret false
  | Some temporary =>
      mounted ← mount_device (fm_source saved) temporary (fm_type saved) flags options;
      if negb mounted then mret false
      else
      ok ← mount_propagation temporary MS_PRIVATE;
      ok ← (if ok : bool then mount_bind temporary (fm_root saved) (fm_target saved) else mret false);
      ok ← (if ok : bool then
              remounted ← mount_remount (fm_target saved) flags;
              if remounted : bool then mret true else _ ← umount2 (fm_target saved); mret false
            else mret false);
      u ← umount2 temporary;
      match u with
      | Unmounted => mret ok
      | _ => mret false
      end
  end.
Definition RestoreFlashMount (saved : FlashMount) : M bool :=
  let flags := FlashMountFlags (fm_options saved ++ "," ++ fm_super_options saved) in
  let options := FlashFilesystemOptions (fm_super_options saved) in
  text ← read_mountinfo;
  match text with
  | None => mret false
  | Some text =>
      match ParseFlashMounts text with
      | None => undefined
      | Some (parsed, current) =>
          if negb parsed || bool_decide (current = []) then mret false
          else
          n ← stat_node (fm_source saved);
          match n with
          | BlockNode _ rdev =>
              let '(existing, matches) := count_existing saved flags rdev current in
              if negb (existing =? 0)%nat then
                if negb (existing =? 1)%nat || negb matches then mret false
                else mount_propagation (fm_target saved) (fm_propagation saved)
              else
              ok ← (if String.eqb (fm_root saved) "/" then mount_device (fm_source saved) (fm_target saved) (fm_type saved) flags options
                    else restore_bind saved flags options);
              if negb ok then mret false
              else mount_propagation (fm_target saved) (fm_propagation saved)
          | _ => mret false
          end
      end
  end.

(** ** The text of the table reads back *)
Lemma octal_octal_digit d : 0 <= d < 8 -> octal (octal_digit d) = Some d.
Proof.
  intros Hd. unfold octal, octal_digit. rewrite nat_ascii_embedding by lia. rewrite Z2Nat.id by lia.
  destruct (Z.leb_spec 48 (48 + d)), (Z.leb_spec (48 + d) 55); cbn [andb]; try lia. f_equal. lia.
Qed.
Lemma decode_other c s : Ascii.eqb c backslash = false -> DecodeMountPath (String c s) = String c (DecodeMountPath s).
Proof.
  intros Hc. cbn [DecodeMountPath]. destruct s as [|x [|y [|z after]]]; try done. destruct (octal x), (octal y), (octal z); try done. by rewrite Hc.
Qed.
Lemma decode_escape c s : DecodeMountPath (escape c s) = String c (DecodeMountPath s).
Proof.
  unfold escape. pose proof (byte_of_range c) as Hb. unfold is_byte in Hb.
  assert (H1 : 0 <= byte_of c / 64 < 8) by (split; [apply Z.div_pos; lia|apply Z.div_lt_upper_bound; lia]).
  cbn [DecodeMountPath]. rewrite !octal_octal_digit by (done || (apply Z.mod_pos_bound; lia)). rewrite Ascii.eqb_refl.
  f_equal. replace (byte_of c / 64 * 64 + byte_of c / 8 mod 8 * 8 + byte_of c mod 8) with (byte_of c).
  { unfold u8. rewrite Z.mod_small by lia. unfold byte_of. rewrite Nat2Z.id. apply ascii_nat_embedding. }
  replace 64 with (8 * 8) by lia. rewrite <- Z.div_div by lia. pose proof (Z.div_mod (byte_of c) 8 ltac:(lia)).
  pose proof (Z.div_mod (byte_of c / 8) 8 ltac:(lia)). lia.
Qed.
Lemma decode_encode esc s : esc backslash = true -> DecodeMountPath (EncodeMountPath esc s) = s.
Proof.
  intros He. induction s as [|c s IH]; [done|]. cbn [EncodeMountPath]. destruct (esc c) eqn:E; [by rewrite decode_escape, IH|].
  rewrite decode_other, IH; [done|]. apply Ascii.eqb_neq. congruence.
Qed.
Lemma octal_digit_word d : 0 <= d < 8 -> word_char (octal_digit d) = true.
Proof.
  intros Hd. unfold word_char, is_space, octal_digit. rewrite nat_ascii_embedding by lia. replace (Z.to_nat (48 + d)) with (48 + Z.to_nat d)%nat by lia.
  destruct (Nat.eqb_spec (48 + Z.to_nat d) 32), (Nat.leb_spec 9 (48 + Z.to_nat d)), (Nat.leb_spec (48 + Z.to_nat d) 13); cbn; lia || done.
Qed.
Lemma encode_word esc s : (forall c, is_space c = true -> esc c = true) -> all_chars word_char (EncodeMountPath esc s) = true.
Proof.
  intros He. induction s as [|c s IH]; [done|]. cbn [EncodeMountPath]. destruct (esc c) eqn:E.
  - unfold escape. cbn [all_chars]. rewrite IH. pose proof (byte_of_range c) as Hb. unfold is_byte in Hb.
    rewrite !octal_digit_word; [done|apply Z.mod_pos_bound; lia|apply Z.mod_pos_bound; lia|].
    split; [apply Z.div_pos; lia|apply Z.div_lt_upper_bound; lia].
  - cbn [all_chars]. rewrite IH, andb_true_r. unfold word_char. destruct (is_space c) eqn:Es; [|done]. rewrite He in E by done. done.
Qed.
Lemma encode_nonempty esc s : s ≠ ""%string -> EncodeMountPath esc s ≠ ""%string.
Proof. destruct s as [|c s]; [done|]. cbn [EncodeMountPath]. by destruct (esc c). Qed.
Lemma app_String c s t : (String c s ++ t)%string = String c (s ++ t).
Proof. done. Qed.
Lemma words_aux_word w : forall s cur, all_chars word_char w = true -> words_aux (w ++ s) cur = words_aux s (cur ++ w).
Proof.
  induction w as [|c w IH]; intros s cur Hw; [by rewrite string_app_nil|]. rewrite app_String. cbn [all_chars] in Hw. apply andb_true_iff in Hw as [Hc Hw].
  cbn [words_aux]. unfold word_char in Hc. apply negb_true_iff in Hc. rewrite Hc, IH by done. f_equal. by rewrite <- string_app_assoc.
Qed.
Lemma is_word_facts s : is_word s = true -> s ≠ ""%string /\ all_chars word_char s = true.
Proof. unfold is_word. intros [H1 H2]%andb_true_iff. split; [|done]. by apply negb_true_iff, String.eqb_neq in H1. Qed.
Lemma words_concat ws : Forall (fun w => is_word w = true) ws -> words (String.concat " " ws) = ws.
Proof.
  unfold words. induction 1 as [|w ws Hw Hws IH]; [done|]. apply is_word_facts in Hw as [Hn Ha]. apply String.eqb_neq in Hn.
  destruct ws as [|v ws].
  - cbn [String.concat]. rewrite <- (string_app_nil w) at 1. rewrite words_aux_word by done. change ("" ++ w)%string with w. cbn [words_aux]. by rewrite Hn.
  - change (String.concat " " (w :: v :: ws)) with (w ++ String " " (String.concat " " (v :: ws)))%string.
    rewrite words_aux_word by done. change ("" ++ w)%string with w. cbn [words_aux]. change (is_space " ") with true. cbn iota. rewrite Hn. by rewrite IH.
Qed.
Lemma getlines_aux_line c l : forall s cur, no_char c l = true -> getlines_aux c (l ++ String c s) cur = (cur ++ l)%string :: getlines_aux c s "".
Proof.
  induction l as [|d l IH]; intros s cur Hl; [change ("" ++ String c s)%string with (String c s); cbn [getlines_aux]; by rewrite Ascii.eqb_refl, string_app_nil|]. rewrite app_String. cbn [getlines_aux].
  cbn [no_char] in Hl. apply andb_true_iff in Hl as [Hd Hl]. apply negb_true_iff, bool_decide_eq_false in Hd.
  rewrite (proj2 (Ascii.eqb_neq d c)) by congruence. rewrite IH by done. f_equal. by rewrite <- string_app_assoc.
Qed.
Lemma word_no_newline s : all_chars word_char s = true -> no_char (ascii_of_nat 10) s = true.
Proof.
  induction s as [|c s IH]; [done|]. cbn [all_chars no_char]. intros [Hc Hs]%andb_true_iff. rewrite IH by done.
  rewrite bool_decide_eq_false_2; [done|]. by intros <-.
Qed.
Lemma concat_no_newline ws : Forall (fun w => is_word w = true) ws -> no_char (ascii_of_nat 10) (String.concat " " ws) = true.
Proof.
  induction 1 as [|w ws Hw Hws IH]; [done|]. apply is_word_facts in Hw as [_ Ha]. apply word_no_newline in Ha. destruct ws as [|v ws]; [done|].
  change (String.concat " " (w :: v :: ws)) with (w ++ String " " (String.concat " " (v :: ws)))%string. rewrite no_char_app, Ha. exact IH.
Qed.
Lemma scan_digits_10 s : forall acc, scan_digits 10 s acc = digits s acc.
Proof.
  induction s as [|c s IH]; intros acc; [done|]. cbn [scan_digits digits]. unfold digit_value, is_digit. set (n := nat_of_ascii c).
  destruct (Z.leb_spec 48 (Z.of_nat n)), (Z.leb_spec (Z.of_nat n) 57), (Nat.leb_spec 48 n), (Nat.leb_spec n 57); cbn [andb]; try lia;
    try (rewrite (proj2 (Z.ltb_lt _ 10)) by lia; apply IH).
  all: destruct (Z.leb_spec 97 (Z.of_nat n)), (Z.leb_spec (Z.of_nat n) 102); cbn [andb]; try (rewrite (proj2 (Z.ltb_ge _ 10)) by lia; done).
  all: destruct (Z.leb_spec 65 (Z.of_nat n)), (Z.leb_spec (Z.of_nat n) 70); cbn [andb]; try done; rewrite (proj2 (Z.ltb_ge _ 10)) by lia; done.
Qed.
Lemma digit_head c : is_digit c = true -> is_space c = false /\ c ≠ "-"%char /\ c ≠ "+"%char.
Proof. intros H. split; [by apply digit_not_space|]. by split; intros ->. Qed.
Lemma scan_uint_to_string z rest : 0 <= z -> stops rest = true -> scan_uint 10 (to_string z ++ rest) = Some (false, z, rest).
Proof.
  intros Hz Hr. unfold scan_uint. pose proof (digits_to_string z rest Hz Hr) as E. destruct (to_string_head z) as (c & s & Es & Hc). rewrite Es in *.
  rewrite app_String in *. destruct (digit_head c Hc) as (H1 & H2 & H3). cbn [skip_space]. rewrite H1. cbn [Z.eqb].
  transitivity (match scan_digits 10 (String c (s ++ rest)) None with (Some v, r) => Some (false, v, r) | (None, _) => None end).
  { by destruct c as [[] [] [] [] [] [] [] []]. }
  by rewrite scan_digits_10, E.
Qed.
Lemma scan_device_to_string major minor : is_u32 major -> is_u32 minor ->
  scan_device 10 (to_string major ++ ":" ++ to_string minor) = Some (Some (major, minor)).
Proof.
  intros Hm Hn. unfold is_u32 in *. unfold scan_device. rewrite scan_uint_to_string by (done || lia).
  assert (Hs : forall v, 0 <= v < 2 ^ 32 -> unstorable false v = false).
  { intros v Hv. unfold unstorable, UINT32_MAX. rewrite orb_false_r. apply Z.ltb_ge. lia. }
  rewrite Hs by done. change (":" ++ to_string minor)%string with (String ":" (to_string minor)). cbn iota.
  rewrite <- (string_app_nil (to_string minor)), scan_uint_to_string by (done || lia). by rewrite Hs.
Qed.
Lemma optional_fields_spec fields rest : forallb (fun f => is_word f && negb (String.eqb f "-")) fields = true -> forall shared slave p,
  optional_fields (fields ++ "-"%string :: rest) shared slave p =
  Some (shared || existsb (String.prefix "shared:") fields, slave || existsb (String.prefix "master:") fields,
        if existsb (String.eqb "unbindable") fields then MS_UNBINDABLE else p, rest).
Proof.
  induction fields as [|f fields IH]; intros Hf shared slave p; cbn [app optional_fields existsb]; [by rewrite !orb_false_r|].
  cbn [forallb] in Hf. apply andb_true_iff in Hf as [Hf Hfs]. apply andb_true_iff in Hf as [_ Hf]. apply negb_true_iff in Hf. rewrite Hf.
  rewrite IH by done. rewrite <- !orb_assoc. rewrite (String.eqb_sym "unbindable" f). destruct (String.eqb f "unbindable"), (existsb (String.eqb "unbindable") fields); done.
Qed.
Section Text.
Context (esc : ascii -> bool) (Hspace : forall c, is_space c = true -> esc c = true) (Hback : esc backslash = true).
Lemma encode_is_word s : s ≠ ""%string -> is_word (EncodeMountPath esc s) = true.
Proof. intros Hs. unfold is_word. rewrite encode_word by done. by rewrite (proj2 (String.eqb_neq _ _) (encode_nonempty esc s Hs)). Qed.
Lemma absolute_nonempty s : absolute s = true -> s ≠ ""%string.
Proof. by intros H ->. Qed.
Lemma digits_word s : all_chars is_digit s = true -> all_chars word_char s = true.
Proof. induction s as [|c s IH]; [done|]. cbn [all_chars]. intros [Hc Hs]%andb_true_iff. rewrite IH by done. unfold word_char. by rewrite digit_not_space. Qed.
Lemma row_is_words r : row_okb r = true -> Forall (fun w => is_word w = true) (row_words esc r).
Proof.
  unfold row_okb. rewrite !andb_true_iff, !negb_true_iff, String.eqb_neq.
  intros ((((((((((((H1 & H2) & _) & _) & _) & _) & H3) & H4) & H5) & H6) & H7) & H8) & H9). unfold row_words.
  repeat (apply Forall_cons; split); try done; try (apply encode_is_word; by apply absolute_nonempty).
  - destruct (to_string_digits (r_major r)) as [D1 N1], (to_string_digits (r_minor r)) as [D2 N2]. unfold is_word.
    rewrite all_chars_app. change (":" ++ to_string (r_minor r))%string with (String ":" (to_string (r_minor r))). cbn [all_chars]. rewrite !digits_word by done.
    destruct (to_string (r_major r)); done.
  - apply Forall_app. split.
    + apply Forall_forall. intros f Hf%list_elem_of_In. rewrite forallb_forall in H6. by apply H6, andb_true_iff in Hf as [? _].
    + repeat (apply Forall_cons; split); try done. by apply encode_is_word.
Qed.
Lemma parse_row_words r : row_okb r = true -> parse_row (String.concat " " (row_words esc r)) = Some (Some (as_mount r)).
Proof.
  intros Hr. unfold parse_row. rewrite words_concat by (by apply row_is_words). unfold row_words. cbn [app].
  pose proof Hr as Hk. unfold row_okb in Hk. rewrite !andb_true_iff, !Z.leb_le in Hk. destruct Hk as ((((((((((((_ & _) & M1) & M2) & N1) & N2) & H3) & H4) & _) & H6) & _) & _) & _).
  rewrite scan_device_to_string by (unfold is_u32, UINT32_MAX in *; lia). cbn [mbind option_bind].
  rewrite optional_fields_spec by done. cbn [orb]. rewrite !decode_encode by done. rewrite H3, H4. cbn [negb orb]. unfold as_mount, row_propagation. do 2 f_equal.
  destruct (existsb (String.prefix "shared:") (r_fields r)), (existsb (String.prefix "master:") (r_fields r)); done.
Qed.
Lemma concat_nil_cons s l : String.concat "" (s :: l) = (s ++ String.concat "" l)%string.
Proof. destruct l as [|t l]; [by rewrite string_app_nil|done]. Qed.
Lemma lines_render rs : Forall (fun r => row_okb r = true) rs -> lines (render esc rs) = (fun r => String.concat " " (row_words esc r)) <$> rs.
Proof.
  unfold lines, getlines, render. induction 1 as [|r rs Hr Hrs IH]; [done|]. cbn [fmap list_fmap].
  rewrite concat_nil_cons. unfold newline. rewrite <- string_app_assoc, app_String.
  rewrite getlines_aux_line by (by apply concat_no_newline, row_is_words). f_equal. exact IH.
Qed.
End Text.
Lemma parse_rows_render esc rs : (forall c, is_space c = true -> esc c = true) -> esc backslash = true ->
  Forall (fun r => row_okb r = true) rs -> forall acc,
  parse_rows ((fun r => String.concat " " (row_words esc r)) <$> rs) acc = Some (true, acc ++ (as_mount <$> rs)).
Proof.
  intros Hs Hb. induction 1 as [|r rs Hr Hrs IH]; intros acc; cbn [fmap list_fmap parse_rows]; [by rewrite app_nil_r|].
  rewrite parse_row_words by done. rewrite (proj2 (String.eqb_neq _ _)).
  - cbn [mbind option_bind]. rewrite IH. by rewrite <- app_assoc.
  - pose proof (row_is_words esc Hs r Hr) as Hw. apply Forall_cons in Hw as [Hw _]. apply is_word_facts in Hw as [Hn _]. cbn [row_words app] in *.
    cbn [String.concat]. by destruct (r_id r).
Qed.
Lemma parse_render esc rs : (forall c, is_space c = true -> esc c = true) -> esc backslash = true -> Forall (fun r => row_okb r = true) rs ->
  ParseFlashMounts (render esc rs) = Some (true, as_mount <$> rs).
Proof. intros Hs Hb Hr. unfold ParseFlashMounts. rewrite lines_render by done. by rewrite parse_rows_render. Qed.
(** The mount table reads back from its text. Whatever characters of the
    paths the kernel escapes beyond white space and the backslash, a table of
    well-formed rows parses to its devices, paths, options and propagation
    types, spaces and line breaks in paths included. *)
Theorem mountinfo_roundtrip esc rs : (forall c, is_space c = true -> esc c = true) -> esc backslash = true ->
  Forall (fun r => row_okb r = true) rs -> ParseFlashMounts (render esc rs) = Some (true, as_mount <$> rs).
Proof. apply parse_render. Qed.

(** ** The plan is exact *)
Definition covered (devices : gset Z) (all : list FlashMount) (m : FlashMount) : Prop :=
  exists top, top ∈ all /\ fm_device top ∈ devices /\ BelowMount (fm_target m) (fm_target top) = true.
#[global] Instance covered_dec devices all m : Decision (covered devices all m).
Proof.
  refine (cast_if (decide (Exists (fun top => fm_device top ∈ devices /\ BelowMount (fm_target m) (fm_target top) = true) all))); unfold covered.
  - abstract (apply Exists_exists in e as (top & ? & ? & ?); eauto).
  - abstract (intros (top & ? & ? & ?); apply n, Exists_exists; eauto).
Defined.
Definition affected (devices : gset Z) (all : list FlashMount) : list FlashMount := filter (covered devices all) all.
(** Neither the root, nor a slave of another mount, nor stacked. *)
Definition releasable (ms : list FlashMount) : Prop :=
  Forall (fun m => fm_target m ≠ "/"%string /\ fm_propagation m ≠ 0) ms /\ NoDup (fm_target <$> ms).
Lemma covered_roots devices all m :
  existsb (fun root => BelowMount (fm_target m) root) (fm_target <$> filter (fun m => fm_device m ∈ devices) all) = true <-> covered devices all m.
Proof.
  rewrite existsb_exists. split.
  - intros (root & Hr%list_elem_of_In & Hb). apply list_elem_of_fmap in Hr as (top & -> & Ht). apply list_elem_of_filter in Ht as [Hd Ht]. by exists top.
  - intros (top & Ht & Hd & Hb). exists (fm_target top). split; [|done]. apply list_elem_of_In, list_elem_of_fmap. exists top. split; [done|].
    by apply list_elem_of_filter.
Qed.
Lemma plan_selected_spec devices full : forall all paths,
  let roots := fm_target <$> filter (fun m => fm_device m ∈ devices) full in
  let sel := filter (covered devices full) all in
  match plan_selected all roots paths with
  | inr selected => selected = sel /\ releasable sel /\ (forall m, m ∈ sel -> fm_target m ∉ paths)
  | inl _ => ~ (releasable sel /\ (forall m, m ∈ sel -> fm_target m ∉ paths))
  end.
Proof.
  induction all as [|m all IH]; intros paths roots sel; cbn [plan_selected].
  { split_and!; [done|split; [constructor|apply NoDup_nil; done]|]. intros m Hm. by apply elem_of_nil in Hm. }
  destruct (existsb _ roots) eqn:E; cbn [negb].
  - assert (Hc : covered devices full m) by (apply covered_roots; exact E). unfold sel. rewrite filter_cons_True by done.
    destruct (String.eqb_spec (fm_target m) "/") as [Er|Er]; cbn [orb].
    { intros [[Hf _] _]. apply Forall_cons in Hf as [[Hf _] _]. done. }
    destruct (Z.eqb_spec (fm_propagation m) 0) as [Ep|Ep]; cbn [orb].
    { intros [[Hf _] _]. apply Forall_cons in Hf as [[_ Hf] _]. done. }
    case_bool_decide as Ed.
    { intros [_ Hp]. by apply (Hp m); [left|]. }
    specialize (IH (fm_target m :: paths)). cbv zeta in IH. fold roots in IH. destruct (plan_selected all roots _) as [e|selected].
    + intros [[Hf Hn] Hp]. apply IH. apply Forall_cons in Hf as [_ Hf]. apply NoDup_cons in Hn as [Hn1 Hn]. split; [by split|].
      intros x Hx. apply not_elem_of_cons. split; [|apply Hp; by right]. intros Ex. apply Hn1, list_elem_of_fmap. by exists x.
    + destruct IH as (-> & [Hf Hn] & Hp). split; [done|]. split.
      * split; [by apply Forall_cons|]. cbn [fmap list_fmap]. apply NoDup_cons. split; [|done]. intros Hx. apply list_elem_of_fmap in Hx as (x & Ex & Hx).
        apply Hp in Hx. apply Hx. rewrite <- Ex. by left.
      * intros x [->|Hx]%elem_of_cons; [done|]. apply Hp in Hx. by apply not_elem_of_cons in Hx as [_ ?].
  - assert (Hc : ~ covered devices full m) by (intros H%covered_roots; unfold roots in E; congruence). unfold sel. rewrite filter_cons_False by done. apply IH.
Qed.
Lemma strictly_below_longer a b : strictly_below a b = true -> (String.length b < String.length a)%nat.
Proof.
  unfold strictly_below, BelowMount. rewrite andb_true_iff, negb_true_iff. intros [H1 H2]. rewrite H2 in H1. cbn [orb] in H1.
  apply andb_true_iff in H1 as [H1 _]. apply andb_true_iff in H1 as [H1 _]. by apply Nat.ltb_lt in H1.
Qed.
Definition children_first (ms : list FlashMount) : Prop :=
  StronglySorted (fun a b => strictly_below (fm_target b) (fm_target a) = false) ms.
Lemma plan_flash_mounts_spec `{SizeSort} all devices :
  match PlanFlashMounts all devices with
  | inr selected => releasable (affected devices all) /\ selected ≡ₚ affected devices all /\ children_first selected
  | inl _ => ~ releasable (affected devices all)
  end.
Proof.
  unfold PlanFlashMounts. pose proof (plan_selected_spec devices all all []) as Hs. cbv zeta in Hs. fold (affected devices all) in Hs.
  destruct (plan_selected all _ []) as [e|selected].
  - intros Hr. apply Hs. split; [done|]. intros m _. apply not_elem_of_nil.
  - destruct Hs as (-> & Hr & _). split; [done|]. split; [apply size_sort_perm|].
    unfold children_first. pose proof (size_sort_sorted target_size (affected devices all)) as Hsort. induction Hsort as [|a l Hl IH Hf]; constructor; [done|].
    eapply Forall_impl; [exact Hf|]. intros b Hb. cbn beta in Hb. destruct (strictly_below _ _) eqn:E; [|done]. apply strictly_below_longer in E. unfold target_size in Hb. lia.
Qed.
(** C33: PlanFlashMounts is exact. It succeeds exactly when no mount at or below
    a mount of a selected device is the root, is slave of another mount, or
    shares its target with another one of them; it then gives all of them, and
    nothing else, every mount before the ones it is mounted on. *)
Theorem plan_flash_mounts_exact `{SizeSort} all devices :
  match PlanFlashMounts all devices with
  | inr selected => releasable (affected devices all) /\ selected ≡ₚ affected devices all /\ children_first selected
  | inl _ => ~ releasable (affected devices all)
  end.
Proof. apply plan_flash_mounts_spec. Qed.

(** ** Putting a mount back *)
Definition here (target : string) (t : list Row) : list Row := filter (fun r => r_target r = target) t.
Definition others (target : string) (t : list Row) : list Row := filter (fun r => r_target r ≠ target) t.
Definition rows_ok (t : list Row) : Prop := Forall (fun r => row_okb r = true) t.
Lemma at_target_spec target r : at_target target r = true <-> r_target r = target.
Proof. apply String.eqb_eq. Qed.
Lemma here_app target a b : here target (a ++ b) = here target a ++ here target b.
Proof. apply filter_app. Qed.
Lemma others_app target a b : others target (a ++ b) = others target a ++ others target b.
Proof. apply filter_app. Qed.
Lemma here_one target r : here target [r] = if decide (r_target r = target) then [r] else [].
Proof. done. Qed.
Lemma others_one target r : others target [r] = if decide (r_target r ≠ target) then [r] else [].
Proof. done. Qed.
(** The row on top. *)
Lemma replace_top_split target new t :
  match replace_top target new t with
  | Some t' => exists a r b, t = a ++ r :: b /\ r_target r = target /\ here target b = [] /\ t' = a ++ new ++ b /\ top_at target t = Some r
  | None => here target t = [] /\ top_at target t = None
  end.
Proof.
  induction t as [|r t IH]; cbn [replace_top top_at]; [done|]. destruct (replace_top target new t) as [t'|].
  - destruct IH as (a & r' & b & -> & H1 & H2 & -> & H3). rewrite H3. by exists (r :: a), r', b.
  - destruct IH as [H1 H2]. rewrite H2. destruct (at_target target r) eqn:E.
    + apply at_target_spec in E. by exists [], r, t.
    + split; [|done]. unfold here. rewrite filter_cons_False; [done|]. intros Et%at_target_spec. congruence.
Qed.
Lemma answer_Some w a w' : answer w = Some (a, w') -> rows w' = rows w /\ node w' = node w.
Proof. unfold answer. destruct (answers w); by intros [= <- <-]. Qed.
Lemma bind_inv {A B} (m : M A) (k : A -> M B) w b w' : (x ← m; k x) w = Some (b, w') -> exists x w1, m w = Some (x, w1) /\ k x w1 = Some (b, w').
Proof. unfold mbind, M_bind. destruct (m w) as [[x w1]|]; [|done]. intros H. by exists x, w1. Qed.
Ltac step_as H x w E := apply bind_inv in H as (x & w & E & H).
Ltac step H := let x := fresh "x" in let w := fresh "w" in let E := fresh "E" in step_as H x w E.
Ltac run H := unfold mbind, M_bind, get_rows, put_rows, stat_node, mret, M_ret in H; cbn [mbind option_bind] in H.
Lemma mount_new_Some fits w ok w' : mount_new fits w = Some (ok, w') -> node w' = node w /\
  if ok then exists r, row_okb r = true /\ fits r = true /\ rows w' = rows w ++ [r] else rows w' = rows w.
Proof.
  unfold mount_new. intros H. step_as H a w0 E. apply answer_Some in E as [Er En].
  destruct a as [| |r|]; try (injection H as <- <-; by rewrite Er).
  destruct (row_okb r && fits r) eqn:Ef; [|injection H as <- <-; by rewrite Er]. apply andb_true_iff in Ef as [E1 E2].
  run H. injection H as <- <-. cbn [rows node]. split; [done|]. exists r. by rewrite Er.
Qed.
Lemma mount_change_Some target fits w ok w' : mount_change target fits w = Some (ok, w') -> node w' = node w /\
  if ok then exists a old b r, rows w = a ++ old :: b /\ r_target old = target /\ here target b = [] /\ row_okb r = true /\ fits old r = true /\
                               rows w' = a ++ r :: b else rows w' = rows w.
Proof.
  unfold mount_change. intros H. step_as H a w0 E. apply answer_Some in E as [Er En]. run H.
  destruct a as [| |r|]; try (injection H as <- <-; by rewrite Er).
  pose proof (replace_top_split target [r] (rows w0)) as Hs. destruct (replace_top target [r] (rows w0)) as [t'|].
  - destruct Hs as (a & old & b & Et & H1 & H2 & Et' & Htop). rewrite Htop in H. destruct (row_okb r && fits old r) eqn:Ef; [|injection H as <- <-; by rewrite Er].
    apply andb_true_iff in Ef as [E1 E2]. run H. injection H as <- <-. cbn [rows node]. split; [done|]. exists a, old, b, r. rewrite <- Er. by subst t'.
  - destruct Hs as [_ Ht]. rewrite Ht in H. injection H as <- <-. by rewrite Er.
Qed.
Lemma umount2_Some target w u w' : umount2 target w = Some (u, w') -> node w' = node w /\
  match u with
  | Unmounted => exists a old b, rows w = a ++ old :: b /\ r_target old = target /\ here target b = [] /\ rows w' = a ++ b /\
                   (forall r, r ∈ rows w -> strictly_below (r_target r) target = false)
  | NotMounted => here target (rows w) = [] /\ rows w' = rows w
  | Busy => rows w' = rows w
  end.
Proof.
  unfold umount2. intros H. step_as H a w0 E. apply answer_Some in E as [Er En]. run H.
  pose proof (replace_top_split target [] (rows w0)) as Hs. destruct (replace_top target [] (rows w0)) as [t'|].
  - destruct Hs as (a' & old & b & Et & H1 & H2 & Et' & _). destruct a; try (injection H as <- <-; by rewrite Er).
    destruct (existsb _ (rows w0)) eqn:Eb; [injection H as <- <-; by rewrite Er|]. run H. injection H as <- <-. cbn [rows node]. split; [done|].
    exists a', old, b. rewrite <- Er. split_and!; try done. intros r Hr. destruct (strictly_below (r_target r) target) eqn:Es; [|done].
    exfalso. assert (existsb (fun r => strictly_below (r_target r) target) (rows w0) = true); [|congruence]. apply existsb_exists. exists r. by rewrite <- list_elem_of_In.
  - destruct Hs as [H1 _]. injection H as <- <-. rewrite Er in *. done.
Qed.
Lemma here_nil target t r : here target t = [] -> r ∈ t -> r_target r ≠ target.
Proof. intros Hn Hr Et. assert (r ∈ here target t) as Hx by (by apply list_elem_of_filter). rewrite Hn in Hx. by apply elem_of_nil in Hx. Qed.
Lemma unique_split target a x b l y m : a ++ x :: b = l ++ y :: m -> r_target x = target -> r_target y = target ->
  here target l = [] -> here target m = [] -> a = l /\ x = y /\ b = m.
Proof.
  revert l. induction a as [|z a IH]; intros [|z' l] E Hx Hy Hl Hm; cbn in E; simplify_eq.
  - done.
  - by destruct (here_nil _ _ z' Hl (list_elem_of_here _ _)).
  - assert (x ∈ a ++ x :: b) as Hin by (apply elem_of_app; right; left). by destruct (here_nil _ _ x Hm Hin).
  - assert (Hl' : here (r_target x) l = []).
    { pose proof (here_nil _ _ z' Hl (list_elem_of_here _ _)). unfold here in *. by rewrite filter_cons_False in Hl. }
    destruct (IH l) as (-> & -> & ->); done.
Qed.
Lemma rows_ok_change a old b r : rows_ok (a ++ old :: b) -> row_okb r = true -> rows_ok (a ++ r :: b).
Proof. unfold rows_ok. rewrite !Forall_app, !Forall_cons. tauto. Qed.
Lemma rows_ok_remove a old b : rows_ok (a ++ old :: b) -> rows_ok (a ++ b).
Proof. unfold rows_ok. rewrite !Forall_app, !Forall_cons. tauto. Qed.
Lemma mount_new_ok fits w ok w' : mount_new fits w = Some (ok, w') -> rows_ok (rows w) -> rows_ok (rows w') /\ node w' = node w.
Proof.
  intros [En H]%mount_new_Some Hr. split; [|done]. destruct ok; [|by rewrite H]. destruct H as (r & H1 & _ & ->). apply Forall_app. split; [done|]. by constructor.
Qed.
Lemma mount_change_ok target fits w ok w' : mount_change target fits w = Some (ok, w') -> rows_ok (rows w) -> rows_ok (rows w') /\ node w' = node w.
Proof.
  intros [En H]%mount_change_Some Hr. split; [|done]. destruct ok; [|by rewrite H]. destruct H as (a & old & b & r & E & _ & _ & H1 & _ & ->).
  rewrite E in Hr. by eapply rows_ok_change.
Qed.
Lemma umount2_ok target w u w' : umount2 target w = Some (u, w') -> rows_ok (rows w) -> rows_ok (rows w') /\ node w' = node w.
Proof.
  intros [En H]%umount2_Some Hr. split; [|done]. destruct u; [by destruct H as [_ ->]|by rewrite H|].
  destruct H as (a & old & b & E & _ & _ & -> & _). rewrite E in Hr. by eapply rows_ok_remove.
Qed.
Lemma mount_device_Some source target type flags data w ok w' : mount_device source target type flags data w = Some (ok, w') ->
  node w' = node w /\
  if ok then exists dev rdev r, node w source = BlockNode dev rdev /\ row_okb r = true /\ rows w' = rows w ++ [r] /\ r_target r = target /\
               row_device r = rdev /\ r_root r = "/"%string /\ r_type r = type /\ row_flags r = flags
  else rows w' = rows w.
Proof.
  unfold mount_device. intros H. run H. destruct (node w source) as [| |dev rdev] eqn:En; try (injection H as <- <-; done).
  apply mount_new_Some in H as [Hn H]. split; [done|]. destruct ok; [|done]. destruct H as (r & H1 & H2 & H3). exists dev, rdev, r.
  rewrite !andb_true_iff, !String.eqb_eq, !Z.eqb_eq in H2. tauto.
Qed.
Lemma mkdtemp_Some w tmp w' : mkdtemp w = Some (tmp, w') -> node w' = node w /\ rows w' = rows w /\
  match tmp with Some s => String.prefix temporary_prefix s = true /\ here s (rows w) = [] | None => True end.
Proof.
  unfold mkdtemp. intros H. step_as H a w0 E. apply answer_Some in E as [Er En]. run H. destruct a as [| | |s]; try (injection H as <- <-; done).
  destruct (String.prefix temporary_prefix s && _) eqn:E; injection H as <- <-; [|done]. apply andb_true_iff in E as [E1 E2]. split_and!; try done.
  apply negb_true_iff in E2. rewrite <- Er. unfold here. clear -E2. induction (rows w0) as [|r t IH]; [done|]. cbn [existsb] in E2. apply orb_false_iff in E2 as [E1 E2].
  rewrite filter_cons_False; [by apply IH|]. intros Et%at_target_spec. congruence.
Qed.
Definition saved_flags (saved : FlashMount) : Z := FlashMountFlags (fm_options saved ++ "," ++ fm_super_options saved).
(** The row is the saved mount again, of the device now behind its source. *)
Definition as_saved (saved : FlashMount) (rdev : Z) (r : Row) : Prop :=
  r_target r = fm_target saved /\ row_device r = rdev /\ r_root r = fm_root saved /\ r_type r = fm_type saved /\ row_flags r = saved_flags saved.
Lemma same_mount_spec old r : same_mount old r = true <->
  r_target r = r_target old /\ row_device r = row_device old /\ r_root r = r_root old /\ r_type r = r_type old.
Proof. unfold same_mount. rewrite !andb_true_iff, !String.eqb_eq, Z.eqb_eq. tauto. Qed.
(** A change of the only row of a target, in place. *)
Lemma change_last target fits l d m w w' : mount_change target fits w = Some (true, w') -> rows w = l ++ d :: m -> r_target d = target ->
  here target l = [] -> here target m = [] -> exists r, row_okb r = true /\ fits d r = true /\ rows w' = l ++ r :: m.
Proof.
  intros [_ (a & old & b & r & E & Ho & _ & H1 & H2 & E')]%mount_change_Some Ew Hd Hl Hm. rewrite Ew in E.
  symmetry in E. destruct (unique_split target a old b l d m E Ho Hd Hl Hm) as (-> & -> & ->). by exists r.
Qed.
Lemma umount_last target l d m w w' : umount2 target w = Some (Unmounted, w') -> rows w = l ++ d :: m -> r_target d = target ->
  here target l = [] -> here target m = [] -> rows w' = l ++ m.
Proof.
  intros [_ (a & old & b & E & Ho & _ & E' & _)]%umount2_Some Ew Hd Hl Hm. rewrite Ew in E.
  symmetry in E. by destruct (unique_split target a old b l d m E Ho Hd Hl Hm) as (-> & -> & ->).
Qed.
Lemma here_cons_ne target r t : r_target r ≠ target -> here target (r :: t) = here target t.
Proof. intros H. unfold here. by rewrite filter_cons_False. Qed.
Lemma mount_bind_Some dir root target l d w w' : mount_bind dir root target w = Some (true, w') -> rows w = l ++ [d] -> r_target d = dir ->
  exists r, row_okb r = true /\ rows w' = rows w ++ [r] /\ r_target r = target /\ row_device r = row_device d /\ r_root r = root /\ r_type r = r_type d.
Proof.
  unfold mount_bind. intros H Ew Hd. run H. pose proof (replace_top_split dir [] (rows w)) as Hs. destruct (replace_top dir [] (rows w)) as [t'|].
  - destruct Hs as (a & old & b & E & Ho & Hb & _ & Ht). rewrite Ht in H. rewrite Ew in E.
    assert (b = [] /\ old = d) as [-> ->].
    { destruct b as [|x b] using rev_ind; [by apply app_inj_tail in E as [_ ->]|]. clear IHb. exfalso. rewrite app_comm_cons, app_assoc in E. apply app_inj_tail in E as [_ <-].
      apply (here_nil _ _ d Hb); [|done]. apply elem_of_app. right. by left. }
    apply mount_new_Some in H as [_ (r & H1 & H2 & H3)]. exists r. rewrite !andb_true_iff, !String.eqb_eq, Z.eqb_eq in H2. tauto.
  - destruct Hs as [Hn _]. exfalso. apply (here_nil _ _ d Hn); [|done]. rewrite Ew. apply elem_of_app. right. by left.
Qed.
(** After the bind: the temporary mount is gone and the new one is in place. *)
Lemma bind_steps saved flags tmp l d w w1 w2 w3 : rows w = l ++ [d] -> r_target d = tmp -> here tmp l = [] -> tmp ≠ fm_target saved ->
  here (fm_target saved) l = [] -> flags = saved_flags saved -> r_type d = fm_type saved ->
  mount_bind tmp (fm_root saved) (fm_target saved) w = Some (true, w1) -> mount_remount (fm_target saved) flags w1 = Some (true, w2) ->
  umount2 tmp w2 = Some (Unmounted, w3) -> exists r, row_okb r = true /\ as_saved saved (row_device d) r /\ rows w3 = l ++ [r].
Proof.
  intros Ew Hd Hl Hne HT -> Hty Hb Hr Hu. destruct (mount_bind_Some _ _ _ _ _ _ _ Hb Ew Hd) as (r2 & _ & E2 & T2 & D2 & R2 & Y2).
  rewrite Ew, <- app_assoc in E2. cbn [app] in E2.
  destruct (change_last (fm_target saved) _ (l ++ [d]) r2 [] w1 w2 Hr) as (r3 & O3 & F3 & E3); [by rewrite E2, <- app_assoc|done| |done|].
  { rewrite here_app, HT, here_cons_ne by congruence. done. }
  rewrite <- app_assoc in E3. cbn [app] in E3. rewrite !andb_true_iff, same_mount_spec, !Z.eqb_eq in F3. destruct F3 as [[(S1 & S2 & S3 & S4) F] _].
  assert (E4 : rows w3 = l ++ [r3]).
  { eapply (umount_last tmp l d [r3]); [exact Hu|done|done|done|]. rewrite here_cons_ne by congruence. done. }
  exists r3. split; [done|]. split; [|done]. split_and!; congruence.
Qed.
(** The calls always return. *)
Definition total {A} (m : M A) : Prop := forall w, is_Some (m w).
Lemma total_ret {A} (x : A) : total (mret x).
Proof. intros w. by eexists. Qed.
Lemma total_bind {A B} (m : M A) (k : A -> M B) : total m -> (forall x, total (k x)) -> total (x ← m; k x).
Proof. intros Hm Hk w. unfold mbind, M_bind. destruct (Hm w) as [[x w'] E]. rewrite E. cbn [mbind option_bind]. apply Hk. Qed.
Lemma total_answer : total answer.
Proof. intros w. unfold answer. destruct (answers w); by eexists. Qed.
Lemma total_get_rows : total get_rows.
Proof. intros w. by eexists. Qed.
Lemma total_put_rows t : total (put_rows t).
Proof. intros w. by eexists. Qed.
Lemma total_stat path : total (stat_node path).
Proof. intros w. by eexists. Qed.
Ltac total := repeat first [progress intros | apply total_bind | apply total_ret | apply total_answer | apply total_get_rows | apply total_put_rows | apply total_stat
  | match goal with |- total (match ?x with _ => _ end) => destruct x | |- total (if ?b then _ else _) => destruct b end].
Lemma total_mount_new fits : total (mount_new fits).
Proof. unfold mount_new. total. Qed.
Lemma total_mount_change target fits : total (mount_change target fits).
Proof. unfold mount_change. total. Qed.
Lemma total_umount2 target : total (umount2 target).
Proof. unfold umount2. total. Qed.
Lemma total_mount_device source target type flags data : total (mount_device source target type flags data).
Proof. unfold mount_device. total; apply total_mount_new. Qed.
Lemma total_mount_bind dir root target : total (mount_bind dir root target).
Proof. unfold mount_bind. total; apply total_mount_new. Qed.
Lemma total_mkdtemp : total mkdtemp.
Proof. unfold mkdtemp. total. Qed.
Lemma total_read_mountinfo : total read_mountinfo.
Proof. unfold read_mountinfo. total. Qed.
Ltac total_calls := total; auto using total_mount_new, total_mount_change, total_umount2, total_mount_device, total_mount_bind, total_mkdtemp.
Lemma total_restore_bind saved flags options : total (restore_bind saved flags options).
Proof. unfold restore_bind, mount_propagation, mount_remount. total_calls. Qed.

Lemma read_mountinfo_Some w text w' : read_mountinfo w = Some (text, w') ->
  rows w' = rows w /\ node w' = node w /\ (forall t, text = Some t -> t = render kernel_esc (rows w)).
Proof.
  unfold read_mountinfo. intros E. step_as E a w1 Ea. apply answer_Some in Ea as [H1 H2]. destruct a; try (injection E as <- <-; done). run E. injection E as <- <-.
  split_and!; try done. intros t [= <-]. by rewrite H1.
Qed.
(** What a step keeps: well-formed rows and the device nodes. *)
Definition keeps {A} (m : M A) : Prop := forall w x w', m w = Some (x, w') -> rows_ok (rows w) -> rows_ok (rows w') /\ node w' = node w.
Lemma keeps_ret {A} (x : A) : keeps (mret x).
Proof. intros w y w' [= <- <-]. done. Qed.
Lemma keeps_bind {A B} (m : M A) (k : A -> M B) : keeps m -> (forall x, keeps (k x)) -> keeps (x ← m; k x).
Proof.
  intros Hm Hk w y w' H Hr. step H. destruct (Hm _ _ _ E Hr) as [H1 H2]. destruct (Hk _ _ _ _ H H1) as [H3 H4]. split; [done|congruence].
Qed.
Lemma keeps_mount_device source target type flags data : keeps (mount_device source target type flags data).
Proof.
  intros w ok w' [Hn H]%mount_device_Some Hr. split; [|done]. destruct ok; [|by rewrite H]. destruct H as (dev & rdev & r & _ & H1 & -> & _).
  apply Forall_app. split; [done|]. by constructor.
Qed.
Lemma keeps_mount_change target fits : keeps (mount_change target fits).
Proof. intros w ok w'. apply mount_change_ok. Qed.
Lemma keeps_umount2 target : keeps (umount2 target).
Proof. intros w u w'. apply umount2_ok. Qed.
Lemma keeps_mount_bind dir root target : keeps (mount_bind dir root target).
Proof.
  intros w ok w' H Hr. unfold mount_bind in H. run H. destruct (top_at dir (rows w)); [by eapply mount_new_ok|]. by injection H as <- <-.
Qed.
Lemma keeps_mkdtemp : keeps mkdtemp.
Proof. intros w x w' (H1 & H2 & _)%mkdtemp_Some Hr. by rewrite H2. Qed.
Ltac keeps := repeat first [progress intros | apply keeps_mount_device | apply keeps_mount_change | apply keeps_umount2
  | apply keeps_mount_bind | apply keeps_mkdtemp | apply keeps_ret | apply keeps_bind
  | match goal with |- keeps (match ?x with _ => _ end) => destruct x | |- keeps (if ?b then _ else _) => destruct b end].
Lemma keeps_restore_bind saved flags options : keeps (restore_bind saved flags options).
Proof. unfold restore_bind, mount_propagation, mount_remount. keeps. Qed.
Lemma restore_bind_Some saved options w w' : restore_bind saved (saved_flags saved) options w = Some (true, w') ->
  String.prefix temporary_prefix (fm_target saved) = false -> here (fm_target saved) (rows w) = [] ->
  exists dev rdev r, node w (fm_source saved) = BlockNode dev rdev /\ row_okb r = true /\ as_saved saved rdev r /\ rows w' = rows w ++ [r].
Proof.
  intros H Hp HT. unfold restore_bind in H. step_as H o w0 E. apply mkdtemp_Some in E as (N0 & R0 & Htmp). destruct o as [tmp|]; [|discriminate H]. destruct Htmp as [Ht Hf].
  assert (Hne : tmp ≠ fm_target saved) by (intros ->; congruence). rewrite <- R0, <- N0 in *. clear R0 N0.
  step_as H b w1 E. apply mount_device_Some in E as [N1 E]. destruct b; [|discriminate H]. destruct E as (dev & rdev & d & Hnode & Od & Ed & Td & Dd & Rd & Yd & Fd).
  cbn [negb] in H. step_as H b w2 E. step_as H b2 w3 E2. step_as H b3 w4 E3. step_as H u w5 E4. destruct u, b3; try discriminate H. injection H as <-.
  destruct b2; [|discriminate E3]. destruct b; [|discriminate E2]. step_as E3 b4 w6 E5. destruct b4; [|by step_as E3 u w7 E6]. injection E3 as <-.
  destruct (change_last tmp _ (rows w0) d [] w1 w2 E) as (d' & O' & F' & E'); try done.
  rewrite !andb_true_iff, same_mount_spec in F'. destruct F' as [[(S1 & S2 & S3 & S4) _] _].
  destruct (bind_steps saved (saved_flags saved) tmp (rows w0) d' w2 w3 w6 w5) as (r & Or & Hs & Hr); try done; try congruence.
  exists dev, rdev, r. split; [done|]. split; [done|]. split; [|done]. unfold as_saved in *. intuition congruence.
Qed.
Definition row_matches (saved : FlashMount) (flags rdev : Z) (r : Row) : bool :=
  (row_device r =? rdev) && String.eqb (r_root r) (fm_root saved) && String.eqb (r_type r) (fm_type saved) && (row_flags r =? flags).
Lemma count_existing_spec saved flags rdev t :
  count_existing saved flags rdev (as_mount <$> t) =
  (length (here (fm_target saved) t), forallb (row_matches saved flags rdev) (here (fm_target saved) t)).
Proof.
  unfold count_existing. enough (H : forall n b, foldl (fun '(existing, matches) m =>
    if negb (String.eqb (fm_target m) (fm_target saved)) then (existing, matches)
    else (S existing, matches && (fm_device m =? rdev) && String.eqb (fm_root m) (fm_root saved) && String.eqb (fm_type m) (fm_type saved) &&
                      (FlashMountFlags (fm_options m ++ "," ++ fm_super_options m) =? flags))) (n, b) (as_mount <$> t) =
    ((n + length (here (fm_target saved) t))%nat, b && forallb (row_matches saved flags rdev) (here (fm_target saved) t))) by (apply H).
  induction t as [|r t IH]; intros n b; [cbn; by rewrite Nat.add_0_r, andb_true_r|]. cbn [fmap list_fmap foldl].
  destruct (String.eqb_spec (r_target r) (fm_target saved)) as [E|E].
  - unfold here. rewrite filter_cons_True by done. fold (here (fm_target saved) t). cbn [as_mount fm_target fm_device fm_root fm_type fm_options fm_super_options].
    rewrite (proj2 (String.eqb_eq _ _) E). cbn [negb]. rewrite IH. cbn [length forallb]. f_equal; [lia|]. unfold row_matches, row_flags, row_device.
    by rewrite !andb_assoc.
  - rewrite here_cons_ne by done. cbn [as_mount fm_target]. rewrite (proj2 (String.eqb_neq _ _) E). cbn [negb]. apply IH.
Qed.
Lemma others_snoc target l r : r_target r = target -> others target (l ++ [r]) = others target l.
Proof. intros E. rewrite others_app. unfold others at 2. rewrite filter_cons_False by (intros Hn; by apply Hn). cbn. by rewrite app_nil_r. Qed.
Lemma here_snoc target l r : r_target r = target -> here target (l ++ [r]) = here target l ++ [r].
Proof. intros E. rewrite here_app. f_equal. unfold here. by rewrite filter_cons_True. Qed.
(** The last step: the propagation type of the one row at the target. *)
Definition restored (saved : FlashMount) (rdev : Z) (before after : list Row) : Prop :=
  exists r, here (fm_target saved) after = [r] /\ as_saved saved rdev r /\ row_propagation (r_fields r) = fm_propagation saved /\
            others (fm_target saved) after = others (fm_target saved) before.
Lemma propagation_restored saved rdev d before w w' : mount_propagation (fm_target saved) (fm_propagation saved) w = Some (true, w') ->
  here (fm_target saved) (rows w) = [d] -> as_saved saved rdev d -> others (fm_target saved) (rows w) = others (fm_target saved) before ->
  restored saved rdev before (rows w').
Proof.
  intros [_ (a & old & b & r & E & Ho & Hb & _ & F & E')]%mount_change_Some Hh Hs Hoth. rewrite !andb_true_iff, same_mount_spec, !Z.eqb_eq in F.
  destruct F as [[(S1 & S2 & S3 & S4) F] P]. set (T := fm_target saved) in *.
  assert (here T a = [] /\ old = d) as [Ha ->].
  { rewrite E, here_app in Hh. unfold here at 2 in Hh. rewrite filter_cons_True in Hh by done. fold (here T b) in Hh. rewrite Hb in Hh.
    by apply (app_inj_tail _ []) in Hh as [-> ->]. }
  exists r. fold T. rewrite E'. rewrite here_app, others_app. unfold here at 2, others at 2. rewrite filter_cons_True, filter_cons_False by (congruence || (intros Hn; apply Hn; congruence)).
  fold (here T b) (others T b). rewrite Ha, Hb. split; [done|]. split; [unfold as_saved in *; fold T in Hs |- *; intuition congruence|]. split; [done|].
  rewrite <- Hoth, E, others_app. unfold others at 4. rewrite filter_cons_False by (intros Hn; by apply Hn). done.
Qed.
Lemma restore_finish saved rdev d before w : rows_ok (rows w) -> here (fm_target saved) (rows w) = [d] -> as_saved saved rdev d ->
  others (fm_target saved) (rows w) = others (fm_target saved) before ->
  exists ok w', mount_propagation (fm_target saved) (fm_propagation saved) w = Some (ok, w') /\ rows_ok (rows w') /\ node w' = node w /\
    (ok = true -> restored saved rdev before (rows w')) /\ (ok = false -> rows w' = rows w).
Proof.
  intros Hr Hh Hs Ho. unfold mount_propagation. set (fits := fun old r => _).
  destruct (total_mount_change (fm_target saved) fits w) as [[ok w'] E]. exists ok, w'. destruct (keeps_mount_change _ _ _ _ _ E Hr) as [K1 K2].
  split_and!; try done; intros ->; [by eapply propagation_restored|by apply mount_change_Some in E as [_ ?]].
Qed.
(** Nothing is mounted at the target: the mount, then its propagation type. *)
Lemma restore_fresh saved options w : rows_ok (rows w) -> String.prefix temporary_prefix (fm_target saved) = false -> here (fm_target saved) (rows w) = [] ->
  let m := if String.eqb (fm_root saved) "/" then mount_device (fm_source saved) (fm_target saved) (fm_type saved) (saved_flags saved) options
           else restore_bind saved (saved_flags saved) options in
  exists ok w', m w = Some (ok, w') /\ rows_ok (rows w') /\ node w' = node w /\
    (ok = true -> exists dev rdev d, node w (fm_source saved) = BlockNode dev rdev /\ as_saved saved rdev d /\ rows w' = rows w ++ [d]).
Proof.
  intros Hr Hp Hh m. unfold m. clear m. destruct (String.eqb_spec (fm_root saved) "/") as [Er|_].
  - destruct (total_mount_device (fm_source saved) (fm_target saved) (fm_type saved) (saved_flags saved) options w) as [[ok w'] E].
    exists ok, w'. destruct (keeps_mount_device _ _ _ _ _ _ _ _ E Hr) as [K1 K2]. split_and!; try done. intros ->.
    apply mount_device_Some in E as [_ (dev & rdev & d & En & _ & Ed & Td & Dd & Rd & Yd & Fd)]. exists dev, rdev, d. unfold as_saved. split_and!; congruence.
  - destruct (total_restore_bind saved (saved_flags saved) options w) as [[ok w'] E]. exists ok, w'. destruct (keeps_restore_bind _ _ _ _ _ _ E Hr) as [K1 K2].
    split_and!; try done. intros ->. destruct (restore_bind_Some _ _ _ _ E Hp Hh) as (dev & rdev & d & En & _ & Hs & Ed). by exists dev, rdev, d.
Qed.
Lemma restore_flash_mount_spec saved w : rows_ok (rows w) -> String.prefix temporary_prefix (fm_target saved) = false ->
  exists ok w', RestoreFlashMount saved w = Some (ok, w') /\ rows_ok (rows w') /\ node w' = node w /\
    (ok = true -> exists dev rdev, node w (fm_source saved) = BlockNode dev rdev /\ restored saved rdev (rows w) (rows w')) /\
    (ok = false -> here (fm_target saved) (rows w) ≠ [] -> rows w' = rows w).
Proof.
  intros Hr Hp. unfold RestoreFlashMount. fold (saved_flags saved). unfold mbind at 1, M_bind at 1.
  destruct (total_read_mountinfo w) as [[text w0] E]. rewrite E. cbn [mbind option_bind]. apply read_mountinfo_Some in E as (R0 & N0 & Htext).
  rewrite <- R0, <- N0 in *. destruct text as [t|]; [|by exists false, w0].
  rewrite (Htext t eq_refl), parse_render by (done || (by intros c Hc; unfold kernel_esc; rewrite Hc)). cbn [negb orb].
  case_bool_decide as Ec; [by exists false, w0|]. unfold mbind at 1, M_bind at 1, stat_node at 1. cbn [mbind option_bind].
  destruct (node w0 (fm_source saved)) as [| |dev rdev] eqn:En; try by exists false, w0. rewrite count_existing_spec.
  destruct (here (fm_target saved) (rows w0)) as [|d [|d' rest]] eqn:Eh; cbn [length Nat.eqb negb orb forallb]; [| |by exists false, w0].
  - unfold mbind at 1, M_bind at 1. destruct (restore_fresh saved (FlashFilesystemOptions (fm_super_options saved)) w0 Hr Hp Eh) as (ok & w1 & E1 & K1 & K2 & Hok).
    cbv zeta in E1. rewrite E1. cbn [mbind option_bind]. destruct ok; cbn [negb]; [|by exists false, w1].
    destruct (Hok eq_refl) as (dev' & rdev' & d & En' & Hs & Ed). rewrite En in En'. simplify_eq.
    destruct (restore_finish saved rdev' d (rows w0) w1 K1) as (ok & w2 & E2 & K3 & K4 & Hr2 & _); [by rewrite Ed, here_snoc, Eh by apply Hs|done|by rewrite Ed, others_snoc by apply Hs|].
    exists ok, w2. split_and!; try done; [congruence|]. intros ->. exists dev', rdev'. split; [done|]. by apply Hr2.
  - rewrite andb_true_r. destruct (row_matches saved (saved_flags saved) rdev d) eqn:Em; cbn [negb]; [|by exists false, w0].
    assert (Hd : as_saved saved rdev d).
    { unfold row_matches in Em. rewrite !andb_true_iff, !String.eqb_eq, !Z.eqb_eq in Em. unfold as_saved. split_and!; try tauto.
      assert (Hd : d ∈ here (fm_target saved) (rows w0)) by (rewrite Eh; left). by apply list_elem_of_filter in Hd as [? _]. }
    destruct (restore_finish saved rdev d (rows w0) w0 Hr Eh Hd eq_refl) as (ok & w2 & E2 & K3 & K4 & Hr2 & Hf).
    exists ok, w2. split_and!; try done; [|intros -> _; by apply Hf]. intros ->. exists dev, rdev. split; [done|]. by apply Hr2.
Qed.

(** ** A run *)
(** Insertion into a list ordered by size. *)
Fixpoint insert_by {A} (size : A -> nat) (x : A) (l : list A) : list A :=
  match l with
  | [] => [x]
  | y :: l' => if (size y <=? size x)%nat then x :: l else y :: insert_by size x l'
  end.
Definition sort_by {A} (size : A -> nat) (l : list A) : list A := foldr (insert_by size) [] l.
Lemma insert_by_perm {A} (size : A -> nat) x l : insert_by size x l ≡ₚ x :: l.
Proof. induction l as [|y l IH]; [done|]. cbn. destruct (_ <=? _)%nat; [done|]. rewrite IH. constructor. Qed.
Lemma insert_by_sorted {A} (size : A -> nat) x l : StronglySorted (fun a b => (size b <= size a)%nat) l ->
  StronglySorted (fun a b => (size b <= size a)%nat) (insert_by size x l).
Proof.
  induction 1 as [|y l Hl IH Hy]; [repeat constructor|]. cbn. destruct (Nat.leb_spec (size y) (size x)).
  - constructor; [by constructor|]. constructor; [done|]. eapply Forall_impl; [exact Hy|]. cbn. lia.
  - constructor; [done|]. rewrite insert_by_perm. constructor; [lia|done].
Qed.
Lemma sort_by_perm {A} (size : A -> nat) l : sort_by size l ≡ₚ l.
Proof. induction l as [|x l IH]; [done|]. cbn. by rewrite insert_by_perm, IH. Qed.
Lemma sort_by_sorted {A} (size : A -> nat) l : StronglySorted (fun a b => (size b <= size a)%nat) (sort_by size l).
Proof. induction l as [|x l IH]; [constructor|]. cbn. by apply insert_by_sorted. Qed.
#[export] Instance demo_sort : SizeSort :=
  { size_sort A := sort_by; size_sort_perm A := sort_by_perm; size_sort_sorted A := sort_by_sorted }.
Definition demo_row (id : string) (major minor : Z) (target type source : string) : Row :=
  MkRow id "1" major minor "/" target "ro,relatime" [] type source "ro".
Definition demo_root : Row := demo_row "1" 0 2 "/" "rootfs" "rootfs".
Definition demo_vendor : Row := demo_row "20" 253 0 "/vendor" "ext4" "/dev/block/dm-0".
Definition demo_dsp : Row := demo_row "21" 8 5 "/vendor/d s p" "ext4" "/dev/block/sda5".
Lemma mountinfo_roundtrip_witness : ParseFlashMounts (render kernel_esc [demo_vendor; demo_dsp]) = Some (true, as_mount <$> [demo_vendor; demo_dsp]).
Proof.
  apply mountinfo_roundtrip.
  - intros c Hc. unfold kernel_esc. rewrite Hc. reflexivity.
  - reflexivity.
  - repeat constructor.
Defined.
Definition demo_plan : string + list FlashMount := PlanFlashMounts (as_mount <$> [demo_root; demo_vendor; demo_dsp]) {[makedev 253 0]}.
Lemma demo_plan_ok : match demo_plan with inr selected => (length selected =? 2)%nat | inl _ => false end = true.
Proof. vm_compute. reflexivity. Qed.
Lemma plan_flash_mounts_exact_witness : exists selected, demo_plan = inr selected /\ children_first selected /\ (length selected =? 2)%nat = true.
Proof.
  pose proof (plan_flash_mounts_exact (as_mount <$> [demo_root; demo_vendor; demo_dsp]) {[makedev 253 0]}) as H. pose proof demo_plan_ok as Hk.
  fold demo_plan in H. destruct demo_plan as [e|selected]; [discriminate Hk|]. exists selected. split; [reflexivity|]. split; [apply H|exact Hk].
Defined.
