(* ===== verification/FlashRelease.v ===== *)
(** partitionmanager.cpp: the release of mounts and services before partitions
    are written ([QuiesceDynamicPartitionUsers]) and their return, around an
    update package ([Run_Zip_Install]); SameFlashMetadata of
    aera_image_flash_layout.hpp.

    Works on the mount table of FlashMounts.v. What /proc, the property service
    and the device mapper show at the time of the call is the record [Env];
    each request to a service takes its outcome from the answers of the world. *)
From stdpp Require Import base list strings gmap sorting.
From Stdlib Require Import ZArith Lia Ascii.
From S2P Require Import Prelude Libbase CxxString PayloadFlash FlashMounts.

(** ** What the environment shows *)
(** The devices behind exe, cwd and root, the maps, the descriptors. *)
Record Process := MkProcess { p_links : list (option Z); p_maps : option string; p_fds : option (list (string * option Z)) }.
Record Env := MkEnv {
  env_mapper : option (list string);
  env_realpath : string -> option string;
  env_mounts : option string;
  env_properties : list (string * string);
  env_process : Z -> Process;
  env_bootstrap : string }.

(** ** CollectInitServicePid *)
Definition LONG_MAX : Z := 2 ^ 63 - 1.
(** strtol(s, &end, 10): the value and what is left, [None] without digits. *)
Definition strtol (s : string) : option (Z * string) :=
  let s := skip_space s in
  let '(neg, s) := match s with String "-" s' => (true, s') | String "+" s' => (false, s') | _ => (false, s) end in
  match digits s None with
  | (Some v, rest) => Some (Z.max (- LONG_MAX - 1) (Z.min LONG_MAX (if neg : bool then - v else v)), rest)
  | (None, _) => None
  end.
(** static_cast<pid_t> *)
Definition as_pid (v : Z) : Z := (v + 2 ^ 31) mod 2 ^ 32 - 2 ^ 31.
Definition pid_prefix : string := "init.svc_debug_pid.".
Definition CollectInitServicePid (name value : string) : option (string * Z) :=
  if negb (String.prefix pid_prefix name) || String.eqb value "" then None
  else
  match strtol value with
  | Some (pid, EmptyString) => if pid <=? 1 then None else Some (str_drop (String.length pid_prefix) name, as_pid pid)
  | _ => None
  end.
Definition init_services (env : Env) : list (string * Z) :=
  omap (fun '(name, value) => CollectInitServicePid name value) (env_properties env).

(** ** ProcessUsesFlashDevices *)
Definition on_device (devices : gset Z) (dev : option Z) : bool :=
  match dev with Some d => bool_decide (d ∈ devices) | None => false end.
Definition ProcessUsesFlashDevices (p : Process) (devices : gset Z) : option bool :=
  if existsb (on_device devices) (p_links p) then Some true
  else
  by_maps ← match p_maps p with Some maps => MapsUseFlashDevices maps devices | None => Some false end;
  if by_maps : bool then Some true
  else
  match p_fds p with
  | None => Some false
  | Some fds => Some (existsb (fun '(name, dev) => negb (String.prefix "." name) && on_device devices dev) fds)
  end.

(** ** DynamicMapperDevices, DynamicPartitionMounts *)
Definition mapper_dir : string := "/dev/block/mapper/".
(** std::set: a sorted list without duplicates. *)
Definition set_insert (s : string) (l : smap ()) : smap () := smap_set s () l.
Definition DynamicMapperDevices (env : Env) : list string :=
  match env_mapper env with
  | None => []
  | Some entries =>
      (foldl (fun devices name =>
        if String.prefix "." name || String.eqb name "userdata" then devices
        else
          let path := (mapper_dir ++ name)%string in
          let devices := set_insert path devices in
          match env_realpath env path with Some resolved => set_insert resolved devices | None => devices end) [] entries).*1
  end.
Definition DynamicPartitionMounts `{SizeSort} `{AndroidBase} (env : Env) : option (list string) :=
  let devices := DynamicMapperDevices env in
  match env_mounts env with
  | None => None
  | Some text =>
      let targets := foldl (fun targets line =>
        match base_Split line " " with
        | f0 :: f1 :: _ =>
            let source := default f0 (env_realpath env f0) in
            if bool_decide (f0 ∈ devices) || bool_decide (source ∈ devices) then set_insert f1 targets else targets
        | _ => targets
        end) [] (base_Split text newline) in
      Some (size_sort String.length (targets.*1))
  end.

(** ** State *)
Record Flash := MkFlash { fl_world : World; fl_services : list string; fl_mounts : list FlashMount }.
Definition F (A : Type) : Type := Flash -> option (A * Flash).
#[global] Instance F_ret : MRet F := fun _ x s => Some (x, s).
#[global] Instance F_bind : MBind F := fun _ _ k m s => '(x, s) ← m s; k x s.
Definition lift {A} (m : M A) : F A := fun s => '(x, w) ← m (fl_world s); Some (x, MkFlash w (fl_services s) (fl_mounts s)).
Definition ub {A} : F A := fun _ => None.
Definition get_mounts : F (list FlashMount) := fun s => Some (fl_mounts s, s).
Definition put_mounts (ms : list FlashMount) : F () := fun s => Some ((), MkFlash (fl_world s) (fl_services s) ms).
Definition put_services (names : list string) : F () := fun s => Some ((), MkFlash (fl_world s) names (fl_mounts s)).
Definition push_service (name : string) : F () := fun s => Some ((), MkFlash (fl_world s) (fl_services s ++ [name]) (fl_mounts s)).
Definition granted (a : Answer) : bool := match a with Grant => true | _ => false end.

(** ** StopDynamicService *)
(** Up to 50 looks at init.svc.<name>. *)
Fixpoint await_stopped (attempts : nat) : F bool :=
  match attempts with
  | O => mret false
  | S attempts => a ← lift answer; if granted a then mret true else await_stopped attempts
  end.
Definition StopDynamicService (name : string) : F bool :=
  a ← lift answer;
  if negb (granted a) then mret false
  else _ ← push_service name; await_stopped 50.

(** ** QuiesceDynamicPartitionUsers *)
(** The mapper's block devices: their numbers, and the path of each number. *)
Definition mapper_blocks (env : Env) (nodes : string -> Node) : list (Z * string) :=
  omap (fun block => if negb (String.prefix mapper_dir block) then None
                     else match nodes block with BlockNode _ rdev => Some (rdev, block) | _ => None end) (DynamicMapperDevices env).
(** stable_mapper_paths[device]: the last one entered. *)
Definition stable_path (blocks : list (Z * string)) (device : Z) : option string :=
  foldl (fun found b => if b.1 =? device then Some b.2 else found) None blocks.
Definition with_source (m : FlashMount) (source : string) : FlashMount :=
  MkFlashMount (fm_device m) (fm_root m) (fm_target m) (fm_options m) (fm_type m) source (fm_super_options m) (fm_propagation m) (fm_removed m).
Definition with_removed (m : FlashMount) : FlashMount :=
  MkFlashMount (fm_device m) (fm_root m) (fm_target m) (fm_options m) (fm_type m) (fm_source m) (fm_super_options m) (fm_propagation m) true.
(** Stable sources; [false] at the first mount that could not be put back. *)
Fixpoint stable_sources (blocks : list (Z * string)) (nodes : string -> Node) (ms : list FlashMount) : bool * list FlashMount :=
  match ms with
  | [] => (true, [])
  | m :: ms =>
      let m := match stable_path blocks (fm_device m) with Some path => with_source m path | None => m end in
      match nodes (fm_source m) with
      | BlockNode _ rdev =>
          if negb (rdev =? fm_device m) then (false, m :: ms)
          else let '(ok, ms) := stable_sources blocks nodes ms in (ok, m :: ms)
      | _ => (false, m :: ms)
      end
  end.
(** std::sort by size, then by text, and std::unique. *)
Definition longer_first (a b : string) : Prop :=
  (String.length b < String.length a)%nat \/ (String.length a = String.length b /\ String.compare a b ≠ Gt).
#[global] Instance longer_first_dec a b : Decision (longer_first a b).
Proof. unfold longer_first. solve_decision. Defined.
Fixpoint unique (l : list string) : list string :=
  match l with
  | a :: (b :: _) as l' => if String.eqb a b then unique l' else a :: unique l'
  | l => l
  end.
Definition sorted_targets (ms : list FlashMount) : list string := unique (merge_sort longer_first (fm_target <$> ms)).
(** The plan from /proc/self/mountinfo: the targets to unmount, or an error. *)
Definition plan_physical `{SizeSort} (env : Env) (physical_devices : gset Z) : F (option (list string)) :=
  nodes ← lift (fun w => Some (node w, w));
  let blocks := mapper_blocks env nodes in
  let devices := physical_devices ∪ list_to_set blocks.*1 in
  text ← lift read_mountinfo;
  match text with
  | None => mret None
  | Some text =>
      match ParseFlashMounts text with
      | None => ub
      | Some (false, _) => mret None
      | Some (true, all) =>
          match PlanFlashMounts all devices with
          | inl _ => mret None
          | inr selected =>
              let '(ok, selected) := stable_sources blocks nodes selected in
              _ ← put_mounts selected;
              mret (if ok : bool then Some (sorted_targets selected) else None)
          end
      end
  end.
Fixpoint stop_users (env : Env) (devices : gset Z) (services : list (string * Z)) : F bool :=
  match services with
  | [] => mret true
  | (name, pid) :: services =>
      if String.eqb name "recovery" then stop_users env devices services
      else
      match ProcessUsesFlashDevices (env_process env pid) devices with
      | None => ub
      | Some false => stop_users env devices services
      | Some true => ok ← StopDynamicService name; if negb ok then mret false else stop_users env devices services
      end
  end.
Definition mark_removed (target : string) (ms : list FlashMount) : list FlashMount :=
  (fun m => if String.eqb (fm_target m) target then with_removed m else m) <$> ms.
Fixpoint unmount_all (physical : bool) (mounts : list string) : F bool :=
  match mounts with
  | [] => mret true
  | mount :: mounts =>
      u ← lift (umount2 mount);
      match u with
      | Busy => mret false
      | _ => ms ← get_mounts; _ ← put_mounts (if physical then mark_removed mount ms else ms); unmount_all physical mounts
      end
  end.
Definition QuiesceDynamicPartitionUsers `{SizeSort} `{AndroidBase} (env : Env) (stop_bootstrap physical : bool) (physical_devices : gset Z) : F bool :=
  _ ← put_services [];
  ready ← (if stop_bootstrap && (String.eqb (env_bootstrap env) "running" || String.eqb (env_bootstrap env) "restarting")
           then StopDynamicService "aera-audio-bootstrap" else mret true);
  if negb ready then mret false
  else
  match DynamicPartitionMounts env with
  | None => mret false
  | Some dynamic =>
      plan ← (if physical then plan_physical env physical_devices else mret (Some dynamic));
      match plan with
      | None => mret false
      | Some [] => mret true
      | Some mounts =>
          text ← lift read_mountinfo;
          match text with
          | None => mret false
          | Some text =>
              match ParseFlashMounts text with
              | None => ub
              | Some (false, _) => mret false
              | Some (true, identities) =>
                  let backing := list_to_set (fm_device <$> filter (fun m => fm_target m ∈ mounts) identities) in
                  ok ← stop_users env backing (init_services env);
                  if negb ok then mret false else unmount_all physical mounts
              end
          end
      end
  end.

(** ** SameFlashMetadata *)
(** The tables of LpMetadata, as the bytes of their structs. *)
Record LpTables := MkLpTables {
  lp_geometry : list Z; lp_header : list Z; lp_parts : list (list Z); lp_extents : list (list Z); lp_grps : list (list Z); lp_devices : list (list Z) }.
Definition same_table (a b : list (list Z)) : bool :=
  (length a =? length b)%nat && (bool_decide (a = []) || bool_decide (concat a = concat b)).
Definition SameFlashMetadata (left right : LpTables) : bool :=
  bool_decide (lp_geometry left = lp_geometry right) && bool_decide (lp_header left = lp_header right) &&
  same_table (lp_parts left) (lp_parts right) && same_table (lp_extents left) (lp_extents right) &&
  same_table (lp_grps left) (lp_grps right) && same_table (lp_devices left) (lp_devices right).

(** ** Run_Zip_Install *)
(** RestartDynamicServices: ctl.start for each service that is not running. *)
Fixpoint RestartDynamicServices (services : list string) : F (list string) :=
  match services with
  | [] => mret []
  | service :: services =>
      a ← lift answer;
      started ← RestartDynamicServices services;
      mret (if granted a then started else service :: started)
  end.
(** The mounts in reverse order; whether all of them came back. *)
Fixpoint restore_each (ms : list FlashMount) : F bool :=
  match ms with
  | [] => mret true
  | m :: ms =>
      if negb (fm_removed m) then restore_each ms
      else
      ok ← lift (RestoreFlashMount m);
      rest ← restore_each ms;
      mret (ok && rest)
  end.
Inductive Event := Replayed | Restarted (services : list string).
(** [operation] acts on the world and on the journal of nested calls.
    The variables of the call: the journal of the outer services, the result of
    the operation and what the restoration did at its end. *)
Record Zip := MkZip { z_flash : Flash; z_services : list string; z_result : Z; z_events : list Event }.
Section Zip.
Context `{SizeSort} `{AndroidBase} (env : Env) (replay : bool) (super : string).
Context (before : option LpTables) (ReadMetadata : World -> option LpTables) (operation : World -> list string -> option (Z * World * list string)).
Definition zip_prepare (z : Zip) : option (bool * Zip) :=
  '(ready, s) ← QuiesceDynamicPartitionUsers env true true ∅ (z_flash z);
  Some (ready, MkZip (MkFlash (fl_world s) [] (fl_mounts s)) (fl_services s) (z_result z) (z_events z)).
Definition zip_operation (z : Zip) : option (bool * Zip) :=
  '(result, w, journal) ← operation (fl_world (z_flash z)) (fl_services (z_flash z));
  Some (true, MkZip (MkFlash w journal (fl_mounts (z_flash z))) (z_services z) result (z_events z)).
Definition metadata_kept (s : Flash) : bool :=
  match before, ReadMetadata (fl_world s) with
  | Some before, Some after => SameFlashMetadata before after
  | _, _ => false
  end.
Definition zip_restore (z : Zip) : option Zip :=
  let s := z_flash z in
  if negb (bool_decide (fl_mounts s = [])) && negb (String.eqb super "") && negb (metadata_kept s) then Some z
  else
  '(restored, s) ← restore_each (rev (fl_mounts s)) s;
  if negb restored then Some (MkZip s (z_services z) (z_result z) (z_events z))
  else
  let events := if replay && (negb (bool_decide (fl_mounts s = [])) || negb (bool_decide (z_services z = []))) then z_events z ++ [Replayed] else z_events z in
  '(started, s) ← RestartDynamicServices (z_services z) s;
  Some (MkZip s (z_services z) (z_result z) (events ++ [Restarted started])).
(** [active]: zip_install_active_. *)
Definition Run_Zip_Install (image_flash_batch active : bool) (s : Flash) : option (Z * bool * Zip) :=
  if image_flash_batch || active || negb (bool_decide (fl_services s = [])) then Some (-1, active, MkZip s [] (-1) [])
  else
  let run (f : Zip -> option (bool * Zip)) (z : option Zip) : bool * option Zip :=
    match z ≫= f with Some (ok, z) => (ok, Some z) | None => (false, None) end in
  let start := MkZip (MkFlash (fl_world s) (fl_services s) []) [] (-1) [] in
  let '(_, (active, z)) := RunImageFlashBatch (run zip_prepare) (run zip_operation) (fun z => z ≫= zip_restore) active (Some start) in
  z ← z; Some (z_result z, active, z).
End Zip.

(** ** What the helpers leave alone *)
Definition same_world (w w' : World) : Prop := rows w' = rows w /\ node w' = node w.
Definition still (s s' : Flash) : Prop := same_world (fl_world s) (fl_world s') /\ fl_mounts s' = fl_mounts s.
Definition quiet {A} (m : F A) : Prop := forall s x s', m s = Some (x, s') -> still s s'.
Lemma flash_still_refl s : still s s.
Proof. done. Qed.
Lemma flash_still_trans a b c : still a b -> still b c -> still a c.
Proof. unfold still, same_world. intuition congruence. Qed.
Lemma F_bind_inv {A B} (m : F A) (k : A -> F B) s b s' : (x ← m; k x) s = Some (b, s') -> exists x s1, m s = Some (x, s1) /\ k x s1 = Some (b, s').
Proof. unfold mbind, F_bind. destruct (m s) as [[x s1]|]; [|done]. intros H. by exists x, s1. Qed.
Ltac fstep H x s E := apply F_bind_inv in H as (x & s & E & H).
Lemma lift_inv {A} (m : M A) s x s' : lift m s = Some (x, s') ->
  exists w, m (fl_world s) = Some (x, w) /\ s' = MkFlash w (fl_services s) (fl_mounts s).
Proof. unfold lift. destruct (m (fl_world s)) as [[y w]|]; [|done]. intros [= <- <-]. by exists w. Qed.
Lemma quiet_ret {A} (x : A) : quiet (mret x).
Proof. intros s y s' [= <- <-]. apply flash_still_refl. Qed.
Lemma quiet_bind {A B} (m : F A) (k : A -> F B) : quiet m -> (forall x, quiet (k x)) -> quiet (x ← m; k x).
Proof. intros Hm Hk s y s' H. fstep H x s1 E. eapply flash_still_trans; [by eapply Hm|by eapply Hk]. Qed.
Lemma quiet_answer : quiet (lift answer).
Proof. intros s x s' (w & [H1 H2]%answer_Some & ->)%lift_inv. by split. Qed.
Lemma quiet_push name : quiet (push_service name).
Proof. intros s x s' [= <- <-]. by split. Qed.
Lemma quiet_services names : quiet (put_services names).
Proof. intros s x s' [= <- <-]. by split. Qed.
Lemma quiet_mountinfo : quiet (lift read_mountinfo).
Proof. intros s x s' (w & (H1 & H2 & _)%read_mountinfo_Some & ->)%lift_inv. by split. Qed.
Lemma quiet_await n : quiet (await_stopped n).
Proof. induction n as [|n IH]; cbn [await_stopped]; [apply quiet_ret|]. apply quiet_bind; [apply quiet_answer|]. intros a. destruct (granted a); [apply quiet_ret|done]. Qed.
Lemma quiet_stop name : quiet (StopDynamicService name).
Proof.
  unfold StopDynamicService. apply quiet_bind; [apply quiet_answer|]. intros a. destruct (negb _); [apply quiet_ret|].
  apply quiet_bind; [apply quiet_push|]. intros _. apply quiet_await.
Qed.
Lemma quiet_stop_users env devices services : quiet (stop_users env devices services).
Proof.
  induction services as [|[name pid] services IH]; cbn [stop_users]; [apply quiet_ret|]. destruct (String.eqb name "recovery"); [done|].
  destruct (ProcessUsesFlashDevices _ _) as [[]|]; [|done|by intros s x s' [=]]. apply quiet_bind; [apply quiet_stop|]. intros ok. destruct (negb ok); [apply quiet_ret|done].
Qed.

(** ** Unmounting *)
Definition mark_all (done_ : list string) (ms : list FlashMount) : list FlashMount :=
  (fun m => if decide (fm_target m ∈ done_) then with_removed m else m) <$> ms.
Definition without (targets : list string) (t : list Row) : list Row := filter (fun r => r_target r ∉ targets) t.
Lemma without_nil t : without [] t = t.
Proof. unfold without. induction t as [|r t IH]; [done|]. rewrite filter_cons_True by apply not_elem_of_nil. by rewrite IH. Qed.
Lemma without_cons x l t : without (x :: l) t = without l (others x t).
Proof.
  unfold without, others. rewrite list_filter_filter. apply list_filter_iff. intros r. rewrite not_elem_of_cons. tauto.
Qed.
Lemma mark_all_nil ms : mark_all [] ms = ms.
Proof. unfold mark_all. induction ms as [|m ms IH]; [done|]. cbn. rewrite IH. done. Qed.
Lemma mark_all_cons x l ms : mark_all (x :: l) ms = mark_all l (mark_removed x ms).
Proof.
  unfold mark_all, mark_removed. rewrite <- list_fmap_compose. apply list_fmap_ext. intros i m _. cbn [compose].
  destruct (String.eqb_spec (fm_target m) x) as [E|E]; cbn [fm_target with_removed].
  - rewrite decide_True by (rewrite E; left). by destruct (decide (fm_target m ∈ l)).
  - destruct (decide (fm_target m ∈ l)); [rewrite decide_True by (by right); done|]. rewrite decide_False; [done|]. by rewrite not_elem_of_cons.
Qed.
Lemma others_split x a old b : r_target old = x -> here x (a ++ b) = [] -> others x (a ++ old :: b) = a ++ b.
Proof.
  intros Ho Hh. rewrite others_app. unfold others at 2. rewrite filter_cons_False by (intros Hn; by apply Hn). fold (others x b). rewrite <- others_app.
  unfold others. revert Hh. generalize (a ++ b) as l. induction l as [|r l IH]; [done|]. intros Hh.
  assert (Hr : r_target r ≠ x) by (eapply here_nil; [exact Hh|left]). rewrite filter_cons_True by done. rewrite IH; [done|]. by rewrite here_cons_ne in Hh.
Qed.
Lemma unmount_all_spec mounts : forall s ok s', unmount_all true mounts s = Some (ok, s') -> NoDup mounts ->
  (forall x, x ∈ mounts -> (length (here x (rows (fl_world s))) <= 1)%nat) ->
  exists gone left, mounts = gone ++ left /\ rows (fl_world s') = without gone (rows (fl_world s)) /\ node (fl_world s') = node (fl_world s) /\
    fl_mounts s' = mark_all gone (fl_mounts s) /\ (ok = true -> left = []).
Proof.
  induction mounts as [|x mounts IH]; intros s ok s' H Hn Hu; cbn [unmount_all] in H.
  { injection H as <- <-. exists [], []. by rewrite without_nil, mark_all_nil. }
  apply NoDup_cons in Hn as [Hx Hn]. fstep H u s1 E. apply lift_inv in E as (w & [Hnode E]%umount2_Some & ->).
  assert (Hcase : u = Busy /\ rows w = rows (fl_world s) \/ u ≠ Busy /\ rows w = others x (rows (fl_world s))).
  { destruct u; [right|by left|right].
    - destruct E as [Hh ->]. split; [done|]. unfold others. revert Hh. generalize (rows (fl_world s)) as t. induction t as [|r t IHt]; [done|]. intros Hh.
      assert (Hr : r_target r ≠ x) by (eapply here_nil; [exact Hh|left]). rewrite filter_cons_True by done. rewrite here_cons_ne in Hh by done. f_equal. by apply IHt.
    - split; [done|]. destruct E as (a & old & b & Et & Ho & Hb & -> & _). rewrite Et, others_split; [done|done|]. specialize (Hu x (list_elem_of_here _ _)).
      rewrite Et, here_app in Hu. unfold here at 2 in Hu. rewrite filter_cons_True in Hu by done. fold (here x b) in Hu. rewrite length_app in Hu. cbn [length] in Hu.
      rewrite here_app, Hb, app_nil_r. destruct (here x a); [done|cbn in Hu; lia]. }
  destruct Hcase as [[-> Er]|[Hnb Er]].
  { injection H as <- <-. exists [], (x :: mounts). cbn [fl_world fl_mounts]. by rewrite without_nil, mark_all_nil. }
  assert (H' : unmount_all true mounts (MkFlash w (fl_services s) (mark_removed x (fl_mounts s))) = Some (ok, s')) by (by destruct u).
  apply IH in H' as (gone & left & -> & R & N & Mk & Ok); [|done|].
  - exists (x :: gone), left. cbn [fl_world fl_mounts] in *. rewrite without_cons, mark_all_cons, <- Er. split_and!; try done. congruence.
  - cbn [fl_world]. intros y Hy. rewrite Er. unfold here, others. rewrite list_filter_filter.
    etrans; [|apply (Hu y); by right]. unfold here.
    rewrite (list_filter_iff _ (fun r => r_target r = y)); [done|]. intros r. split; [tauto|]. intros Et. assert (y ≠ x) by (intros ->; done). split; congruence.
Qed.

(** ** The plan *)
Definition resourced (m m' : FlashMount) : Prop := m' = with_source m (fm_source m').
Definition backed (nodes : string -> Node) (m : FlashMount) : Prop := exists dev, nodes (fm_source m) = BlockNode dev (fm_device m).
Lemma resourced_refl m : resourced m m.
Proof. by destruct m. Qed.
Lemma stable_sources_spec blocks nodes ms : forall ok ms', stable_sources blocks nodes ms = (ok, ms') ->
  Forall2 resourced ms ms' /\ (ok = true -> Forall (backed nodes) ms').
Proof.
  assert (Hall : forall l, Forall2 resourced l l) by (intros l; apply Forall_Forall2_diag, Forall_true; intros; apply resourced_refl).
  induction ms as [|m ms IH]; intros ok ms' E; cbn [stable_sources] in E; [injection E as <- <-; by split|].
  set (m1 := match stable_path blocks (fm_device m) with Some path => with_source m path | None => m end) in *.
  assert (Hm : resourced m m1 /\ fm_device m1 = fm_device m) by (unfold m1; destruct (stable_path blocks (fm_device m)); split; done || apply resourced_refl).
  destruct Hm as [Hm Hd]. destruct (nodes (fm_source m1)) as [| |dev rdev] eqn:En.
  1,2: injection E as <- <-; by split; [constructor|].
  destruct (Z.eqb_spec rdev (fm_device m1)) as [->|]; cbn [negb] in E; [|injection E as <- <-; by split; [constructor|]].
  destruct (stable_sources blocks nodes ms) as [ok1 ms1] eqn:E1. injection E as <- <-. destruct (IH _ _ eq_refl) as [H1 H2].
  split; [by constructor|]. intros Hok. constructor; [by exists dev|by apply H2].
Qed.
Lemma unique_NoDup l : NoDup l -> unique l = l.
Proof.
  induction l as [|a l IH]; [done|]. intros [Ha Hl]%NoDup_cons. destruct l as [|b l]; [done|]. cbn [unique] in *.
  destruct (String.eqb_spec a b) as [->|]; [by destruct Ha; left|]. f_equal. by apply IH.
Qed.
Lemma sorted_targets_perm ms : NoDup (fm_target <$> ms) -> sorted_targets ms ≡ₚ fm_target <$> ms.
Proof.
  intros Hn. unfold sorted_targets. rewrite unique_NoDup; [apply merge_sort_Permutation|]. by rewrite merge_sort_Permutation.
Qed.
Lemma resourced_targets ms ms' : Forall2 resourced ms ms' -> fm_target <$> ms' = fm_target <$> ms.
Proof. induction 1 as [|m m' ms ms' Hm _ IH]; [done|]. cbn. rewrite IH, Hm. done. Qed.
(** The devices whose mounts are released. *)
Definition released_devices (env : Env) (nodes : string -> Node) (physical_devices : gset Z) : gset Z :=
  physical_devices ∪ list_to_set (mapper_blocks env nodes).*1.
(** What a plan leaves in the state: the mounts of those devices with stable sources. *)
Record planned (devices : gset Z) (t : list Row) (saved : list FlashMount) : Prop := MkPlanned {
  pl_safe : releasable (affected devices (as_mount <$> t));
  pl_all : exists selected, selected ≡ₚ affected devices (as_mount <$> t) /\ children_first selected /\ Forall2 resourced selected saved }.
Lemma plan_physical_spec `{HS : SizeSort} env physical_devices s r s' : plan_physical env physical_devices s = Some (r, s') -> rows_ok (rows (fl_world s)) -> fl_mounts s = [] ->
  same_world (fl_world s) (fl_world s') /\
  (fl_mounts s' = [] \/ planned (released_devices env (node (fl_world s)) physical_devices) (rows (fl_world s)) (fl_mounts s')) /\
  (forall targets, r = Some targets ->
     planned (released_devices env (node (fl_world s)) physical_devices) (rows (fl_world s)) (fl_mounts s') /\
     targets = sorted_targets (fl_mounts s') /\ Forall (backed (node (fl_world s))) (fl_mounts s')).
Proof.
  intros H Hr Hm. unfold plan_physical in H. fstep H nodes s1 E. apply lift_inv in E as (w & [= <- <-] & ->). fold (released_devices env (node (fl_world s)) physical_devices) in H.
  fstep H text s2 E. apply lift_inv in E as (w & (R1 & R2 & Ht)%read_mountinfo_Some & ->). cbn [fl_world fl_services fl_mounts] in *.
  destruct text as [text|]; [|injection H as <- <-; cbn; split; [done|split; [by left|done]]].
  rewrite (Ht _ eq_refl), parse_render in H by (done || (by intros c Hc; unfold kernel_esc; rewrite Hc)).
  set (D := released_devices env (node (fl_world s)) physical_devices) in *. pose proof (plan_flash_mounts_spec (as_mount <$> rows (fl_world s)) D) as Hp.
  destruct (PlanFlashMounts _ D) as [e|selected]; [injection H as <- <-; cbn; split; [done|split; [by left|done]]|]. destruct Hp as (Hs & Hperm & Hcf).
  destruct (stable_sources _ _ selected) as [ok saved] eqn:Es. apply stable_sources_spec in Es as [Hres Hback]. fstep H u s3 E. injection E as <- <-. injection H as <- <-.
  cbn [fl_world fl_mounts]. assert (Hpl : planned D (rows (fl_world s)) saved) by (split; [done|by exists selected]).
  split; [done|]. split; [by right|]. intros targets Et. destruct ok; [|discriminate Et]. injection Et as <-. split_and!; try done. by apply Hback.
Qed.

(** ** QuiesceDynamicPartitionUsers *)
Lemma NoDup_fiber {A} (f : A -> string) l x : NoDup (f <$> l) -> (length (filter (fun a => f a = x) l) <= 1)%nat.
Proof.
  induction l as [|a l IH]; [cbn; lia|]. cbn [fmap list_fmap]. intros [Ha Hn]%NoDup_cons. destruct (decide (f a = x)) as [E|E].
  - rewrite filter_cons_True by done. cbn [length]. replace (filter (fun a => f a = x) l) with (@nil A); [cbn; lia|]. symmetry.
    destruct (filter (fun a => f a = x) l) as [|b rest] eqn:Ef; [done|]. exfalso. apply Ha, list_elem_of_fmap. exists b.
    assert (b ∈ filter (fun a => f a = x) l) as Hb by (rewrite Ef; left). apply list_elem_of_filter in Hb as [Hb1 Hb2]. by split; [congruence|].
  - rewrite filter_cons_False by done. by apply IH.
Qed.
Lemma covered_target devices all m m' : fm_target m = fm_target m' -> covered devices all m -> covered devices all m'.
Proof. intros E (top & H1 & H2 & H3). exists top. by rewrite <- E. Qed.
Lemma length_here_mounts x t : length (here x t) = length (filter (fun m => fm_target m = x) (as_mount <$> t)).
Proof.
  unfold here. induction t as [|r t IH]; [done|]. cbn [fmap list_fmap]. destruct (decide (r_target r = x)) as [E|E].
  - rewrite !filter_cons_True by done. cbn [length]. by rewrite IH.
  - rewrite !filter_cons_False by done. exact IH.
Qed.
Lemma releasable_once devices t x : releasable (affected devices (as_mount <$> t)) -> x ∈ fm_target <$> affected devices (as_mount <$> t) ->
  (length (here x t) <= 1)%nat.
Proof.
  intros [_ Hn] Hx. rewrite length_here_mounts. apply list_elem_of_fmap in Hx as (m & -> & Hm). apply list_elem_of_filter in Hm as [Hc Hm].
  etrans; [|apply (NoDup_fiber fm_target _ (fm_target m) Hn)]. unfold affected. rewrite list_filter_filter.
  rewrite (list_filter_iff (fun a => fm_target a = fm_target m /\ covered devices (as_mount <$> t) a) (fun a => fm_target a = fm_target m)); [done|].
  intros a. split; [tauto|]. intros E. split; [done|]. by eapply covered_target.
Qed.
Record quiesced (env : Env) (physical_devices : gset Z) (w : World) (ok : bool) (s' : Flash)
    (qu_saved : list FlashMount) (qu_gone : list string) : Prop := MkQuiesced {
  qu_mounts : fl_mounts s' = mark_all qu_gone qu_saved;
  qu_rows : rows (fl_world s') = without qu_gone (rows w);
  qu_node : node (fl_world s') = node w;
  qu_plan : qu_saved = [] /\ qu_gone = [] \/ planned (released_devices env (node w) physical_devices) (rows w) qu_saved;
  qu_sub : NoDup qu_gone /\ (forall x, x ∈ qu_gone -> x ∈ fm_target <$> qu_saved);
  qu_backed : qu_gone = [] \/ Forall (backed (node w)) qu_saved;
  qu_done : ok = true -> planned (released_devices env (node w) physical_devices) (rows w) qu_saved /\ qu_gone ≡ₚ fm_target <$> qu_saved }.
Lemma quiesced_idle env devs w s' : same_world w (fl_world s') -> fl_mounts s' = [] -> quiesced env devs w false s' [] [].
Proof. intros [H1 H2] H3. split; try done; [by rewrite without_nil|by left|split; [by apply NoDup_nil|done]|by left]. Qed.
Lemma planned_idle env devs w s' : same_world w (fl_world s') -> planned (released_devices env (node w) devs) (rows w) (fl_mounts s') ->
  quiesced env devs w false s' (fl_mounts s') [].
Proof.
  intros [H1 H2] H3. split; try done; [by rewrite mark_all_nil|by rewrite without_nil|by right|split; [by apply NoDup_nil|]|by left]. intros x Hx. by apply elem_of_nil in Hx.
Qed.
Lemma planned_targets devices t saved : planned devices t saved ->
  NoDup (fm_target <$> saved) /\ (forall x, x ∈ fm_target <$> saved <-> x ∈ fm_target <$> affected devices (as_mount <$> t)).
Proof.
  intros [[_ Hn] (selected & Hp & _ & Hr)]. rewrite (resourced_targets _ _ Hr). split; [by rewrite Hp|]. intros x. by rewrite Hp.
Qed.
Lemma unmount_quiesced env devs s s1 targets ok s' : planned (released_devices env (node (fl_world s)) devs) (rows (fl_world s)) (fl_mounts s1) ->
  Forall (backed (node (fl_world s))) (fl_mounts s1) -> same_world (fl_world s) (fl_world s1) -> targets = sorted_targets (fl_mounts s1) ->
  unmount_all true targets s1 = Some (ok, s') -> exists gone, quiesced env devs (fl_world s) ok s' (fl_mounts s1) gone.
Proof.
  intros Hp Hb [W1 W2] Et H. destruct (planned_targets _ _ _ Hp) as [Hn Ht]. pose proof (sorted_targets_perm _ Hn) as Hperm. rewrite <- Et in Hperm.
  apply unmount_all_spec in H as (gone & left & El & R & N & Mk & Ok).
  - exists gone. rewrite El in Hperm. split; try done; [by rewrite R, W1|congruence|by right| |by right|].
    + split; [|intros x Hx; rewrite <- Hperm; apply elem_of_app; by left]. rewrite <- Hperm in Hn. by apply NoDup_app in Hn as [? _].
    + intros Hok. split; [done|]. rewrite Ok, app_nil_r in Hperm by done. done.
  - by rewrite Hperm.
  - intros x Hx. rewrite W1. eapply releasable_once; [apply Hp|]. apply Ht. by rewrite <- Hperm.
Qed.
Lemma quiesce_spec `{HS : SizeSort} `{HB : AndroidBase} env sb devs s ok s' :
  QuiesceDynamicPartitionUsers env sb true devs s = Some (ok, s') -> rows_ok (rows (fl_world s)) -> fl_mounts s = [] ->
  exists saved gone, quiesced env devs (fl_world s) ok s' saved gone.
Proof.
  intros H Hr Hm. unfold QuiesceDynamicPartitionUsers in H. fstep H u s1 E. apply quiet_services in E as [W1 M1]. rewrite Hm in M1.
  fstep H ready s2 E. assert (Q : quiet (if sb && (String.eqb (env_bootstrap env) "running" || String.eqb (env_bootstrap env) "restarting")
    then StopDynamicService "aera-audio-bootstrap" else mret true)) by (destruct (_ && _); [apply quiet_stop|apply quiet_ret]).
  apply Q in E as [W2 M2]. clear Q. rewrite M1 in M2. assert (W : same_world (fl_world s) (fl_world s2)) by (unfold same_world in *; intuition congruence).
  assert (Hidle : forall s3, still s2 s3 -> exists saved gone, quiesced env devs (fl_world s) false s3 saved gone).
  { intros s3 [W3 M3]. exists [], []. apply quiesced_idle; [unfold same_world in *; intuition congruence|congruence]. }
  destruct ready; cbn [negb] in H; [|injection H as <- <-; apply Hidle, flash_still_refl].
  destruct (DynamicPartitionMounts env); [|injection H as <- <-; apply Hidle, flash_still_refl].
  fstep H plan s3 E. destruct W as [Wr Wn]. rewrite <- Wr in Hr. apply plan_physical_spec in E as (W3 & Hpl & Hsome); [|done|done].
  rewrite Wr, Wn in Hpl, Hsome. assert (W3' : same_world (fl_world s) (fl_world s3)) by (unfold same_world in *; intuition congruence).
  assert (Hstop : forall s4, still s3 s4 -> exists saved gone, quiesced env devs (fl_world s) false s4 saved gone).
  { intros s4 [W4 M4]. assert (same_world (fl_world s) (fl_world s4)) by (unfold same_world in *; intuition congruence).
    destruct Hpl as [Hn|Hp]; [exists [], []; apply quiesced_idle; [done|congruence]|]. exists (fl_mounts s4), []. apply planned_idle; [done|]. by rewrite M4. }
  destruct plan as [targets|]; [|injection H as <- <-; apply Hstop, flash_still_refl]. destruct (Hsome targets eq_refl) as (Hp & Et & Hb).
  destruct targets as [|x targets].
  { injection H as <- <-. destruct (unmount_quiesced env devs s s3 [] true s3 Hp Hb W3' Et eq_refl) as [gone Hq]. by exists (fl_mounts s3), gone. }
  set (all := x :: targets) in *. fstep H text s4 E. apply lift_inv in E as (w4 & (R1 & R2 & Htx)%read_mountinfo_Some & ->).
  assert (St4 : still s3 (MkFlash w4 (fl_services s3) (fl_mounts s3))) by done.
  destruct text as [text|]; [|injection H as <- <-; by apply Hstop]. rewrite (Htx _ eq_refl), parse_render in H;
    [|by intros c Hc; unfold kernel_esc; rewrite Hc|done|destruct W3' as [-> _]; by rewrite <- Wr].
  fstep H stopped s5 E. apply quiet_stop_users in E. pose proof (flash_still_trans _ _ _ St4 E) as St5.
  destruct stopped; cbn [negb] in H; [|injection H as <- <-; by apply Hstop]. destruct St5 as [W5 M5]. rewrite <- M5 in Hp, Hb, Et.
  destruct (unmount_quiesced env devs s s5 all ok s' Hp Hb) as [gone Hq]; [unfold same_world in *; intuition congruence|done|done|]. by exists (fl_mounts s5), gone.
Qed.

(** ** Putting everything back *)
Lemma others_here x y a b : others x a = others x b -> y ≠ x -> here y a = here y b.
Proof.
  intros E Hne. assert (H : forall t, here y t = here y (others x t)).
  { intros t. unfold here, others. rewrite list_filter_filter. apply list_filter_iff. intros r. split; [|tauto]. intros Hr. split; congruence. }
  by rewrite (H a), (H b), E.
Qed.
Lemma without_here y l a b : without l a = without l b -> y ∉ l -> here y a = here y b.
Proof.
  intros E Hn. assert (H : forall t, here y t = here y (without l t)).
  { intros t. unfold here, without. rewrite list_filter_filter. apply list_filter_iff. intros r. split; [|tauto]. intros Hr. split; congruence. }
  by rewrite (H a), (H b), E.
Qed.
Lemma without_others x l t : without l (others x t) = others x (without l t).
Proof. unfold without, others. rewrite !list_filter_filter. apply list_filter_iff. tauto. Qed.
Definition removed_targets (ms : list FlashMount) : list string := fm_target <$> filter (fun m => fm_removed m = true) ms.
(** The mount [m] is back, alone at its target. *)
Definition back (m : FlashMount) (w : World) : Prop :=
  exists dev rdev r, node w (fm_source m) = BlockNode dev rdev /\ here (fm_target m) (rows w) = [r] /\ as_saved m rdev r /\
                     row_propagation (r_fields r) = fm_propagation m.
Definition nameable (ms : list FlashMount) : Prop :=
  NoDup (fm_target <$> ms) /\ Forall (fun m => String.prefix temporary_prefix (fm_target m) = false) ms.
Lemma removed_targets_sub ms x : x ∈ removed_targets ms -> x ∈ fm_target <$> ms.
Proof. intros (m & -> & Hm)%list_elem_of_fmap. apply list_elem_of_filter in Hm as [_ Hm]. apply list_elem_of_fmap. by exists m. Qed.
Lemma restore_each_spec ms : forall s, nameable ms -> rows_ok (rows (fl_world s)) ->
  exists ok s', restore_each ms s = Some (ok, s') /\ rows_ok (rows (fl_world s')) /\ node (fl_world s') = node (fl_world s) /\ fl_mounts s' = fl_mounts s /\
    fl_services s' = fl_services s /\
    (ok = true -> Forall (fun m => fm_removed m = true -> back m (fl_world s')) ms /\
                  without (removed_targets ms) (rows (fl_world s')) = without (removed_targets ms) (rows (fl_world s))).
Proof.
  induction ms as [|m ms IH]; intros s [Hn Hp] Hr; [by exists true, s|]. cbn [restore_each]. cbn [fmap list_fmap] in Hn.
  apply NoDup_cons in Hn as [Hm Hn]. apply Forall_cons in Hp as [Hpm Hp]. destruct (fm_removed m) eqn:Em; cbn [negb].
  - destruct (restore_flash_mount_spec m (fl_world s) Hr Hpm) as (ok1 & w1 & E1 & R1 & N1 & Hok1 & _).
    destruct (IH (MkFlash w1 (fl_services s) (fl_mounts s)) (conj Hn Hp) R1) as (ok2 & s' & E2 & R2 & N2 & M2 & S2 & Hok2). cbn [fl_world fl_mounts fl_services] in *.
    exists (ok1 && ok2), s'. split; [|split_and!; try done; [congruence|]].
    { unfold mbind at 1, F_bind at 1, lift. rewrite E1. cbn [mbind option_bind]. unfold mbind at 1, F_bind at 1. rewrite E2. done. }
    intros [-> ->]%andb_true_iff. destruct (Hok1 eq_refl) as (dev & rdev & Hnode & r & Hh & Hs & Hpr & Ho). destruct (Hok2 eq_refl) as [Hall Hw].
    assert (Hin : fm_target m ∉ removed_targets ms) by (intros Hx; by apply Hm, removed_targets_sub).
    split.
    + apply Forall_cons. split; [|done]. intros _. exists dev, rdev, r. rewrite N2, N1. rewrite (without_here (fm_target m) _ _ _ Hw Hin). done.
    + unfold removed_targets. rewrite filter_cons_True by done. cbn [fmap list_fmap]. fold (removed_targets ms).
      by rewrite !without_cons, <- Ho, !without_others, Hw.
  - destruct (IH s (conj Hn Hp) Hr) as (ok & s' & E & R & N & M1 & S1 & Hok). exists ok, s'. split_and!; try done. intros Ht.
    destruct (Hok Ht) as [Hall Hw]. unfold removed_targets. rewrite filter_cons_False by congruence. split; [|done]. apply Forall_cons. split; [congruence|done].
Qed.
(** What identifies a mount. *)
Definition identity (r : Row) : string * Z * string * string * Z * Z :=
  (r_target r, row_device r, r_root r, r_type r, row_flags r, row_propagation (r_fields r)).
Lemma here_others_perm x t : t ≡ₚ here x t ++ others x t.
Proof.
  induction t as [|r t IH]; [done|]. unfold here, others. destruct (decide (r_target r = x)) as [E|E].
  - rewrite filter_cons_True, filter_cons_False by (done || (intros Hn; by apply Hn)). cbn [app]. by constructor.
  - rewrite filter_cons_False, filter_cons_True by done. fold (here x t) (others x t). rewrite <- Permutation_middle. by constructor.
Qed.
Lemma fibers_perm g : forall t1 t2, NoDup g -> without g t1 = without g t2 -> (forall x, x ∈ g -> identity <$> here x t1 ≡ₚ identity <$> here x t2) ->
  identity <$> t1 ≡ₚ identity <$> t2.
Proof.
  induction g as [|x g IH]; intros t1 t2 Hn Hw Hg; [rewrite !without_nil in Hw; by rewrite Hw|]. apply NoDup_cons in Hn as [Hx Hn].
  rewrite (here_others_perm x t1), (here_others_perm x t2), !fmap_app. rewrite (Hg x (list_elem_of_here _ _)). apply Permutation_app_head.
  rewrite !without_cons in Hw. apply IH; [done|done|]. intros y Hy. assert (Hne : y ≠ x) by (intros ->; done).
  assert (H : forall t, here y (others x t) = here y t).
  { intros t. unfold here, others. rewrite list_filter_filter. apply list_filter_iff. intros r. split; [tauto|]. intros Hr. split; congruence. }
  rewrite !H. apply Hg. by right.
Qed.

(** ** Release and return *)
Lemma without_ext a b t : (forall x, x ∈ a <-> x ∈ b) -> without a t = without b t.
Proof. intros H. unfold without. apply list_filter_iff. intros r. by rewrite H. Qed.
Lemma without_twice a t : without a (without a t) = without a t.
Proof. unfold without. rewrite list_filter_filter. apply list_filter_iff. tauto. Qed.
Lemma planned_origin devices t saved m : planned devices t saved -> m ∈ saved ->
  exists r, r ∈ t /\ covered devices (as_mount <$> t) (as_mount r) /\ resourced (as_mount r) m.
Proof.
  intros [_ (selected & Hp & _ & Hr)] Hm. apply list_elem_of_lookup in Hm as [i Hi]. destruct (Forall2_lookup_r _ _ _ _ _ Hr Hi) as (m0 & H0 & Hres).
  apply list_elem_of_lookup_2 in H0. rewrite Hp in H0. apply list_elem_of_filter in H0 as [Hc H0]. apply list_elem_of_fmap in H0 as (r & -> & Hrt). by exists r.
Qed.
Lemma mark_all_elem gone saved m : Forall (fun m => fm_removed m = false) saved -> m ∈ mark_all gone saved /\ fm_removed m = true <->
  exists m0, m0 ∈ saved /\ fm_target m0 ∈ gone /\ m = with_removed m0.
Proof.
  intros Hf. unfold mark_all. rewrite list_elem_of_fmap. split.
  - intros [(m0 & E & H0) Hr]. exists m0. destruct (decide (fm_target m0 ∈ gone)); [done|]. subst m. rewrite Forall_forall in Hf. rewrite Hf in Hr by done. done.
  - intros (m0 & H0 & Hg & ->). split; [|done]. exists m0. split; [|done]. by rewrite decide_True.
Qed.
Lemma planned_unmarked devices t saved : planned devices t saved -> Forall (fun m => fm_removed m = false) saved.
Proof. intros Hp. apply Forall_forall. intros m Hm. destruct (planned_origin _ _ _ _ Hp Hm) as (r & _ & _ & ->). done. Qed.
Lemma quiesced_removed env devs w ok s' saved gone x : quiesced env devs w ok s' saved gone ->
  x ∈ removed_targets (rev (fl_mounts s')) <-> x ∈ gone.
Proof.
  intros Q. assert (Hf : Forall (fun m => fm_removed m = false) saved).
  { destruct (qu_plan _ _ _ _ _ _ _ Q) as [[-> _]|Hp]; [constructor|by eapply planned_unmarked]. }
  unfold removed_targets. rewrite (qu_mounts _ _ _ _ _ _ _ Q), list_elem_of_fmap. split.
  - intros (m & -> & [Hr Hm]%list_elem_of_filter).
    assert (Hm' : m ∈ mark_all gone saved) by (by apply list_elem_of_In, in_rev, list_elem_of_In).
    destruct (proj1 (mark_all_elem gone saved m Hf) (conj Hm' Hr)) as (m0 & _ & Hg & ->). done.
  - intros Hx. destruct (qu_sub _ _ _ _ _ _ _ Q) as [_ Hs]. apply Hs in Hx as Hx'. apply list_elem_of_fmap in Hx' as (m0 & -> & H0).
    exists (with_removed m0). split; [done|]. apply list_elem_of_filter. split; [done|]. apply list_elem_of_In, in_rev. rewrite rev_involutive. apply list_elem_of_In.
    unfold mark_all. apply list_elem_of_fmap. exists m0. split; [by rewrite decide_True|done].
Qed.
(** A mount that came back is the one that was taken away. *)
Lemma back_identity env devs w ok s1 saved gone w2 m0 : quiesced env devs w ok s1 saved gone -> node w2 = node w -> m0 ∈ saved -> fm_target m0 ∈ gone ->
  back (with_removed m0) w2 -> identity <$> here (fm_target m0) (rows w2) ≡ₚ identity <$> here (fm_target m0) (rows w).
Proof.
  intros Q Hn H0 Hg (dev & rdev & r2 & Hnode & Hh & Hs & Hpr). destruct (qu_plan _ _ _ _ _ _ _ Q) as [[-> _]|Hp]; [by apply elem_of_nil in H0|].
  destruct (planned_origin _ _ _ _ Hp H0) as (r & Hr & Hc & Hres). set (D := released_devices env (node w) devs) in *.
  assert (Ht : r_target r = fm_target m0) by (by rewrite Hres).
  assert (Hone : here (fm_target m0) (rows w) = [r]).
  { assert (Hin : r ∈ here (fm_target m0) (rows w)) by (by apply list_elem_of_filter).
    assert (Hl : (length (here (fm_target m0) (rows w)) <= 1)%nat).
    { eapply (releasable_once D); [apply Hp|]. apply list_elem_of_fmap. exists (as_mount r). split; [done|]. apply list_elem_of_filter. split; [done|].
      apply list_elem_of_fmap. by exists r. }
    destruct (here (fm_target m0) (rows w)) as [|a [|b l]]; [by apply elem_of_nil in Hin| |cbn in Hl; lia]. by apply list_elem_of_singleton in Hin as ->. }
  cbn [with_removed fm_target fm_source fm_propagation] in *. rewrite Hh, Hone. cbn [fmap list_fmap]. enough (identity r2 = identity r) as -> by done.
  destruct (qu_backed _ _ _ _ _ _ _ Q) as [Eg|Hb]; [rewrite Eg in Hg; by apply elem_of_nil in Hg|]. rewrite Forall_forall in Hb. destruct (Hb m0 H0) as [dev' Hd].
  rewrite Hn, Hd in Hnode. injection Hnode as <- <-. destruct Hs as (S1 & S2 & S3 & S4 & S5). cbn [with_removed fm_target fm_root fm_type] in *.
  unfold identity. rewrite S1, S2, S3, S4, S5, Hpr, Ht. rewrite Hres. cbn. unfold saved_flags. cbn [with_removed with_source as_mount fm_options fm_super_options]. done.
Qed.
Lemma quiesced_nameable env devs w ok s1 saved gone : quiesced env devs w ok s1 saved gone ->
  Forall (fun r => String.prefix temporary_prefix (r_target r) = false) (rows w) -> nameable (fl_mounts s1).
Proof.
  intros Q Hpre. rewrite (qu_mounts _ _ _ _ _ _ _ Q). unfold nameable, mark_all. rewrite <- list_fmap_compose.
  assert (Et : (fm_target ∘ (fun m => if decide (fm_target m ∈ gone) then with_removed m else m)) <$> saved = fm_target <$> saved).
  { apply list_fmap_ext. intros i m _. cbn. by destruct (decide (fm_target m ∈ gone)). }
  rewrite Et. destruct (qu_plan _ _ _ _ _ _ _ Q) as [[-> _]|Hp]; [by split; [apply NoDup_nil|]|]. split; [apply (planned_targets _ _ _ Hp)|].
  apply Forall_fmap, Forall_forall. intros m Hmm. cbn [compose]. destruct (planned_origin _ _ _ _ Hp Hmm) as (r & Hrt & _ & Hres).
  rewrite Forall_forall in Hpre. specialize (Hpre r Hrt). rewrite Hres. by destruct (decide _).
Qed.
Lemma quiesced_rows_ok env devs w ok s1 saved gone : quiesced env devs w ok s1 saved gone -> rows_ok (rows w) -> rows_ok (rows (fl_world s1)).
Proof.
  intros Q Hr. rewrite (qu_rows _ _ _ _ _ _ _ Q). unfold rows_ok, without in *. apply Forall_forall. intros r [_ Hx]%list_elem_of_filter.
  rewrite Forall_forall in Hr. by apply Hr.
Qed.
Lemma release_return_spec `{HS : SizeSort} `{HB : AndroidBase} env sb devs s ok s1 s2 :
  QuiesceDynamicPartitionUsers env sb true devs s = Some (ok, s1) -> rows_ok (rows (fl_world s)) -> fl_mounts s = [] ->
  Forall (fun r => String.prefix temporary_prefix (r_target r) = false) (rows (fl_world s)) ->
  same_world (fl_world s1) (fl_world s2) -> fl_mounts s2 = fl_mounts s1 ->
  exists done_ s3, restore_each (rev (fl_mounts s2)) s2 = Some (done_, s3) /\
    (done_ = true -> identity <$> rows (fl_world s3) ≡ₚ identity <$> rows (fl_world s)).
Proof.
  intros Hq Hr Hm Hpre [W1 W2] M2. destruct (quiesce_spec env sb devs s ok s1 Hq Hr Hm) as (saved & gone & Q).
  pose proof (qu_rows _ _ _ _ _ _ _ Q) as Rows. pose proof (qu_node _ _ _ _ _ _ _ Q) as Node.
  assert (Hrows : rows_ok (rows (fl_world s2))).
  { rewrite W1. by eapply quiesced_rows_ok. }
  assert (Hname : nameable (rev (fl_mounts s2))).
  { rewrite M2. destruct (quiesced_nameable _ _ _ _ _ _ _ Q Hpre) as [N1 N2]. split; [by rewrite <- Permutation_rev|by apply Forall_rev]. }
  destruct (restore_each_spec (rev (fl_mounts s2)) s2 Hname Hrows) as (done_ & s3 & E & R3 & N3 & _ & _ & Hok). exists done_, s3. split; [done|]. intros Hd.
  destruct (Hok Hd) as [Hall Hw]. rewrite M2 in Hall, Hw.
  rewrite !(without_ext (removed_targets (rev (fl_mounts s1))) gone) in Hw by (intros x; by eapply quiesced_removed). rewrite W1, Rows, without_twice in Hw.
  destruct (qu_sub _ _ _ _ _ _ _ Q) as [Hg Hsub]. apply (fibers_perm gone); [done|done|]. intros x Hx. apply Hsub in Hx as Hx'. apply list_elem_of_fmap in Hx' as (m0 & -> & H0).
  eapply (back_identity env devs (fl_world s) ok s1 saved gone); [done|congruence|done|done|]. rewrite Forall_forall in Hall. apply Hall; [|done].
  apply list_elem_of_In, in_rev. rewrite rev_involutive. apply list_elem_of_In. rewrite (qu_mounts _ _ _ _ _ _ _ Q). unfold mark_all. apply list_elem_of_fmap.
  exists m0. split; [by rewrite decide_True|done].
Qed.
Lemma list_filter_iff' {A} (P Q : A -> Prop) `{forall x, Decision (P x)} `{forall x, Decision (Q x)} (l : list A) :
  (forall x, x ∈ l -> P x <-> Q x) -> filter P l = filter Q l.
Proof.
  induction l as [|a l IH]; [done|]. intros E. pose proof (E a (list_elem_of_here _ _)) as Ea. assert (Hl : filter P l = filter Q l) by (apply IH; intros x Hx; apply E; by right).
  destruct (decide (P a)) as [Ha|Ha]; [rewrite !filter_cons_True by tauto|rewrite !filter_cons_False by tauto]; by rewrite Hl.
Qed.
(** The rows that are on no released device and below none. *)
Definition kept (devices : gset Z) (t t' : list Row) : list Row := filter (fun r => ~ covered devices (as_mount <$> t) (as_mount r)) t'.
Lemma covered_gone devices t saved r : planned devices t saved -> r ∈ t -> covered devices (as_mount <$> t) (as_mount r) <-> r_target r ∈ fm_target <$> saved.
Proof.
  intros Hp Hr. destruct (planned_targets _ _ _ Hp) as [_ Ht]. rewrite Ht, list_elem_of_fmap. split.
  - intros Hc. exists (as_mount r). split; [done|]. apply list_elem_of_filter. split; [done|]. apply list_elem_of_fmap. by exists r.
  - intros (m & E & [Hc _]%list_elem_of_filter). eapply covered_target; [|exact Hc]. by rewrite <- E.
Qed.

(** ** Run_Zip_Install *)
Lemma quiet_restart services : quiet (RestartDynamicServices services).
Proof.
  induction services as [|name services IH]; cbn [RestartDynamicServices]; [apply quiet_ret|].
  apply quiet_bind; [apply quiet_answer|]. intros a. apply quiet_bind; [done|]. intros started. apply quiet_ret.
Qed.
(** The restoration at the end of an installation: services are started only
    after every mount taken away is back and, when there was one, the Super
    layout is unchanged. *)
Definition safe_restart (super : string) (before : option LpTables) (ReadMetadata : World -> option LpTables) (s s' : Flash) : Prop :=
  Forall (fun m => fm_removed m = true -> back m (fl_world s')) (fl_mounts s) /\
  (fl_mounts s ≠ [] -> super ≠ ""%string ->
   exists lp lp', before = Some lp /\ ReadMetadata (fl_world s) = Some lp' /\ SameFlashMetadata lp lp' = true).
Lemma back_same m w w' : same_world w w' -> back m w -> back m w'.
Proof. intros [H1 H2] (dev & rdev & r & B). exists dev, rdev, r. by rewrite H1, H2. Qed.
Lemma zip_restore_spec replay super before ReadMetadata z z' : zip_restore replay super before ReadMetadata z = Some z' ->
  nameable (fl_mounts (z_flash z)) -> rows_ok (rows (fl_world (z_flash z))) -> z_events z = [] ->
  z_result z' = z_result z /\ (forall started, Restarted started ∈ z_events z' -> safe_restart super before ReadMetadata (z_flash z) (z_flash z')).
Proof.
  intros H [Hn1 Hn2] Hr He. unfold zip_restore in H. set (s := z_flash z) in *.
  destruct (negb (bool_decide (fl_mounts s = [])) && negb (String.eqb super "") && negb (metadata_kept before ReadMetadata s)) eqn:Eg.
  { injection H as <-. split; [done|]. rewrite He. intros started Hs. by apply elem_of_nil in Hs. }
  assert (Hname : nameable (rev (fl_mounts s))) by (split; [by rewrite <- Permutation_rev|by apply Forall_rev]).
  destruct (restore_each_spec (rev (fl_mounts s)) s Hname Hr) as (ok & s1 & E & _ & N1 & M1 & _ & Hok). rewrite E in H. cbn [mbind option_bind] in H.
  destruct ok; cbn [negb] in H; [|injection H as <-; split; [done|]; rewrite He; intros started Hs; by apply elem_of_nil in Hs].
  destruct (RestartDynamicServices (z_services z) s1) as [[started s2]|] eqn:E2; [|done]. cbn [mbind option_bind] in H. injection H as <-. cbn [z_result z_flash z_events].
  split; [done|]. intros _ _. apply quiet_restart in E2 as [W2 _]. destruct (Hok eq_refl) as [Hall _]. split.
  - apply Forall_rev in Hall. rewrite rev_involutive in Hall. eapply Forall_impl; [exact Hall|]. intros m Hm Hrm. eapply back_same; [exact W2|by apply Hm].
  - intros Hne Hsu. rewrite bool_decide_eq_false_2, (proj2 (String.eqb_neq _ _) Hsu) in Eg by done. cbn [negb andb] in Eg. apply negb_false_iff in Eg.
    unfold metadata_kept in Eg. destruct before as [lp|]; [|done]. destruct (ReadMetadata (fl_world s)) as [lp'|]; [|done]. by exists lp, lp'.
Qed.
(** C12: Run_Zip_Install. The package's updater runs exactly when the release
    succeeded, once and on the released system; otherwise the result is -1. The
    installation flag is clear afterwards. Whatever the updater, the kernel and
    the services did, the stopped services are started again only when every
    mount that was taken away is back, alone at its target and of the device now
    behind its source, and the Super layout is the one read before. *)
Theorem zip_install_sound `{HS : SizeSort} `{HB : AndroidBase} env replay super before ReadMetadata operation s result active z :
  Run_Zip_Install env replay super before ReadMetadata operation false false s = Some (result, active, z) -> fl_services s = [] ->
  rows_ok (rows (fl_world s)) -> Forall (fun r => String.prefix temporary_prefix (r_target r) = false) (rows (fl_world s)) ->
  (forall w j r w' j', operation w j = Some (r, w', j') -> rows_ok (rows w) -> rows_ok (rows w')) ->
  active = false /\
  exists ready s1 s2, QuiesceDynamicPartitionUsers env true true ∅ (MkFlash (fl_world s) [] []) = Some (ready, s1) /\ fl_mounts s2 = fl_mounts s1 /\
    (if ready : bool then operation (fl_world s1) [] = Some (result, fl_world s2, fl_services s2) else result = -1 /\ fl_world s2 = fl_world s1) /\
    (forall started, Restarted started ∈ z_events z -> safe_restart super before ReadMetadata s2 (z_flash z)).
Proof.
  intros H Hs Hr Hpre Hop. unfold Run_Zip_Install in H. rewrite Hs in H. cbn [orb negb] in H. rewrite bool_decide_eq_true_2 in H by done. cbn [negb] in H.
  unfold RunImageFlashBatch in H. cbn [mbind option_bind] in H. unfold zip_prepare at 1 in H. cbn [z_flash] in H.
  destruct (QuiesceDynamicPartitionUsers env true true ∅ (MkFlash (fl_world s) [] [])) as [[ready s1]|] eqn:Eq; [|done]. cbn [mbind option_bind z_result z_events z_services] in H.
  destruct (quiesce_spec env true ∅ (MkFlash (fl_world s) [] []) ready s1 Eq Hr eq_refl) as (saved & gone & Q). cbn [fl_world] in Q.
  pose proof (quiesced_nameable _ _ _ _ _ _ _ Q Hpre) as Hname. pose proof (quiesced_rows_ok _ _ _ _ _ _ _ Q Hr) as Hr1. destruct ready.
  - unfold zip_operation in H. cbn [z_flash fl_world fl_services z_services z_events fl_mounts mbind option_bind] in H.
    destruct (operation (fl_world s1) []) as [[[res w] j]|] eqn:Eo; [|done]. cbn [mbind option_bind] in H.
    set (z2 := MkZip (MkFlash w j (fl_mounts s1)) (fl_services s1) res []) in *.
    destruct (zip_restore replay super before ReadMetadata z2) as [z3|] eqn:Ez; [|done]. injection H as <- <- <-. split; [done|].
    destruct (zip_restore_spec _ _ _ _ z2 z3 Ez Hname (Hop _ _ _ _ _ Eo Hr1) eq_refl) as [Er Hst]. exists true, s1, (MkFlash w j (fl_mounts s1)). rewrite Er. split_and!; done.
  - set (z2 := MkZip (MkFlash (fl_world s1) [] (fl_mounts s1)) (fl_services s1) (-1) []) in *.
    rewrite some_bind in H. destruct (zip_restore replay super before ReadMetadata z2) as [z3|] eqn:Ez; [|done]. rewrite some_bind in H. injection H as <- <- <-. split; [done|].
    destruct (zip_restore_spec _ _ _ _ z2 z3 Ez Hname Hr1 eq_refl) as [Er Hst]. exists false, s1, (MkFlash (fl_world s1) [] (fl_mounts s1)). rewrite Er. split_and!; done.
Qed.

(** ** A run *)
Definition demo_node (path : string) : Node :=
  if String.eqb path "/dev/block/mapper/vendor_a" then BlockNode 5 (makedev 253 0)
  else if String.eqb path "/dev/block/sda5" then BlockNode 5 (makedev 8 5) else NoNode.
Definition demo_world : World := MkWorld [demo_root; demo_vendor; demo_dsp] demo_node
  [Grant; Grant; Grant; Grant; Grant; GrantRow demo_vendor; GrantRow demo_vendor; Grant; GrantRow demo_dsp; GrantRow demo_dsp].
Definition demo_env : Env := MkEnv (Some ["vendor_a"; "userdata"]%string) (fun _ => None) (Some ""%string) [] (fun _ => MkProcess [] None None) "".
Definition demo_start : Flash := MkFlash demo_world [] [].
Definition demo_tables : LpTables := MkLpTables [1] [2] [[3]] [] [] [].
Definition demo_operation (w : World) (j : list string) : option (Z * World * list string) := Some (0, w, j).
Definition demo_metadata (w : World) : option LpTables := Some demo_tables.
#[local] Abbreviation demo_run := (Run_Zip_Install demo_env false "/dev/block/super" (Some demo_tables) demo_metadata demo_operation false false demo_start).
#[local] Abbreviation demo_release := (QuiesceDynamicPartitionUsers demo_env true true ∅ demo_start).
Lemma demo_rows_ok : rows_ok (rows demo_world).
Proof. repeat constructor. Qed.
Lemma demo_no_temporary : Forall (fun r => String.prefix temporary_prefix (r_target r) = false) (rows demo_world).
Proof. repeat constructor. Qed.
Lemma demo_run_ok : match demo_run with Some (0, false, z) => match z_events z with [Restarted []] => true | _ => false end | _ => false end = true.
Proof. vm_compute. reflexivity. Qed.
Lemma demo_release_ok : match demo_release with Some (ok, _) => ok | None => false end = true.
Proof. vm_compute. reflexivity. Qed.
Lemma zip_install_sound_witness : exists z s2, demo_run = Some (0, false, z) /\ Restarted [] ∈ z_events z /\
  safe_restart "/dev/block/super" (Some demo_tables) demo_metadata s2 (z_flash z).
Proof.
  pose proof demo_run_ok as Hk. destruct demo_run as [[[result active] z]|] eqn:E; [|discriminate Hk].
  destruct (zip_install_sound demo_env false _ _ _ _ demo_start result active z E eq_refl demo_rows_ok demo_no_temporary) as (-> & ready & s1 & s2 & _ & _ & _ & H).
  { intros w j r w' j' [= <- <- <-] Hr. exact Hr. }
  destruct result; try discriminate Hk. assert (Hz : Restarted [] ∈ z_events z) by (destruct (z_events z) as [|[|[|]] [|]]; try discriminate Hk; left).
  exists z, s2. split; [reflexivity|]. split; [exact Hz|exact (H [] Hz)].
Defined.
