(* ===== verification/FlashLayout.v ===== *)
(** aera_image_flash_layout.hpp: the layout of the Super partition that a batch
    of images needs.

    liblp's MetadataBuilder is the class [Builder]; [BuilderLaws] states what
    liblp/builder.h says of its operations. A builder that is changed is passed
    on; the callers drop it when a plan fails. *)
From stdpp Require Import base list strings gmap.
From Stdlib Require Import ZArith Lia Ascii.
From S2P Require Import Prelude CxxString.

(** ** aera_image_flash_layout_types.hpp *)
Record RomImageGroup := MkRomGroup { rg_name : string; rg_maximum_bytes : Z }.
Record RomImagePartition := MkRomPartition { rp_name : string; rp_group : string; rp_attributes : Z }.
Record RomImageLayout := MkRomLayout { rl_groups : list RomImageGroup; rl_partitions : list RomImagePartition }.
Record LogicalImageSize := MkImage { im_name : string; im_bytes : Z }.

(** ** MetadataBuilder *)
Record Part := MkPart { pt_group : string; pt_size : Z; pt_attributes : Z }.
Class Builder (B : Type) := {
  FindPartition : B -> string -> option Part;
  FindGroup : B -> string -> option Z;
  ListGroups : B -> list string;
  ListPartitionsInGroup : B -> string -> list string;
  AddGroup : B -> string -> Z -> option B;
  ChangeGroupSize : B -> string -> Z -> option B;
  AddPartition : B -> string -> string -> Z -> option B;
  ChangePartitionGroup : B -> string -> string -> option B;
  set_attributes : B -> string -> Z -> B;
  RemovePartition : B -> string -> B;
  RemoveGroupAndPartitions : B -> string -> B;
  ResizePartition : B -> string -> Z -> option B }.

Section Plans.
Context {B : Type} `{!Builder B}.
(** ** PlanRomImageLayout *)
Definition has_suffix (suffix name : string) : bool :=
  (String.length suffix <? String.length name)%nat && ends_with name suffix.
(** groups.insert(group.name + suffix) for every group; [None]: return fail. *)
Fixpoint rom_groups (suffix : string) (gs : list RomImageGroup) (groups : gset string) : option (gset string) :=
  match gs with
  | [] => Some groups
  | g :: gs =>
      let name := (rg_name g ++ suffix)%string in
      if String.eqb (rg_name g) "" || (rg_maximum_bytes g =? 0) || bool_decide (name ∈ groups) then None
      else rom_groups suffix gs ({[name]} ∪ groups)
  end.
Fixpoint rom_desired (suffix : string) (selected groups : gset string) (ps : list RomImagePartition) (desired : gset string) : option (gset string) :=
  match ps with
  | [] => Some desired
  | p :: ps =>
      let name := (rp_name p ++ suffix)%string in
      if String.eqb (rp_name p) "" || bool_decide (name ∈ desired) || negb (bool_decide (name ∈ selected)) ||
         negb (bool_decide ((rp_group p ++ suffix)%string ∈ groups)) then None
      else rom_desired suffix selected groups ps ({[name]} ∪ desired)
  end.
Definition obsolete (b : B) (suffix : string) (desired : gset string) : list string :=
  ListGroups b ≫= fun g => filter (fun name => has_suffix suffix name = true /\ name ∉ desired) (ListPartitionsInGroup b g).
Fixpoint make_groups (suffix : string) (gs : list RomImageGroup) (b : B) : string + B :=
  match gs with
  | [] => inr b
  | g :: gs =>
      let name := (rg_name g ++ suffix)%string in
      match FindGroup b name with
      | None => match AddGroup b name (rg_maximum_bytes g) with Some b => make_groups suffix gs b | None => inl "Cannot create ROM partition group"%string end
      | Some _ => match ChangeGroupSize b name (rg_maximum_bytes g) with Some b => make_groups suffix gs b | None => inl "Cannot set ROM group limit"%string end
      end
  end.
Fixpoint make_partitions (suffix : string) (ps : list RomImagePartition) (b : B) : string + B :=
  match ps with
  | [] => inr b
  | p :: ps =>
      let name := (rp_name p ++ suffix)%string in
      let group := (rp_group p ++ suffix)%string in
      let entry := match FindPartition b name with Some _ => Some b | None => AddPartition b name group (rp_attributes p) end in
      match entry ≫= fun b => ChangePartitionGroup b name group with
      | Some b => make_partitions suffix ps (set_attributes b name (rp_attributes p))
      | None => inl "Cannot prepare ROM logical target"%string
      end
  end.
Definition drop_groups (suffix : string) (groups : gset string) (b : B) : B :=
  foldl (fun b group =>
    if has_suffix suffix group && negb (bool_decide (group ∈ groups)) && bool_decide (ListPartitionsInGroup b group = [])
    then RemoveGroupAndPartitions b group else b) b (ListGroups b).
Definition PlanRomImageLayout (b : B) (layout : RomImageLayout) (suffix : string) (images : list LogicalImageSize) : string + B :=
  if (negb (String.eqb suffix "_a") && negb (String.eqb suffix "_b")) || bool_decide (rl_partitions layout = [])
  then inl "ROM layout requires a known A/B slot"%string
  else
  let selected : gset string := list_to_set (im_name <$> images) in
  match rom_groups suffix (rl_groups layout) ∅ with
  | None => inl "Invalid ROM partition group"%string
  | Some groups =>
      match rom_desired suffix selected groups (rl_partitions layout) ∅ with
      | None => inl "Select every ROM logical image before applying its partition layout"%string
      | Some desired =>
          if negb (bool_decide (selected = desired)) then inl "Selected logical images differ from the ROM layout"%string
          else
          let b := foldl RemovePartition b (obsolete b suffix desired) in
          match make_groups suffix (rl_groups layout) b with
          | inl e => inl e
          | inr b =>
              match make_partitions suffix (rl_partitions layout) b with
              | inl e => inl e
              | inr b => inr (drop_groups suffix groups b)
              end
          end
      end
  end.

(** ** PlanImageFlashLayout *)
Fixpoint check_images (b : B) (images : list LogicalImageSize) (names : gset string) : string + gset string :=
  match images with
  | [] => inr names
  | image :: images =>
      if (im_bytes image =? 0) || negb (im_bytes image mod 512 =? 0) || bool_decide (im_name image ∈ names) ||
         negb (bool_decide (is_Some (FindPartition b (im_name image))))
      then inl ("Invalid or duplicate logical target: " ++ im_name image)%string
      else check_images b images ({[im_name image]} ∪ names)
  end.
Fixpoint check_cows (b : B) (names : gset string) (cows : list string) : option string :=
  match cows with
  | [] => None
  | name :: cows =>
      let bad := match FindPartition b name with
        | None => true
        | Some part => negb (String.eqb (pt_group part) "cow") || (String.length name <=? 4)%nat || negb (ends_with name "-cow") || bool_decide (name ∈ names)
        end in
      if bad then Some ("Invalid stale snapshot COW: " ++ name)%string else check_cows b names cows
  end.
(** One pass over the images, shrinking or growing. [None]: a null partition is used. *)
Fixpoint resize_pass (shrink : bool) (images : list LogicalImageSize) (b : B) : option (string + B) :=
  match images with
  | [] => Some (inr b)
  | image :: images =>
      part ← FindPartition b (im_name image);
      if (pt_size part =? im_bytes image) || negb (Bool.eqb (im_bytes image <? pt_size part) shrink) then resize_pass shrink images b
      else
      match ResizePartition b (im_name image) (im_bytes image) with
      | Some b => resize_pass shrink images b
      | None => Some (inl ("Cannot fit " ++ im_name image ++ " into its Super group after selected shrinks and stale-COW cleanup")%string)
      end
  end.
Definition PlanImageFlashLayout (b : B) (images : list LogicalImageSize) (stale_cows : list string) : option (string + B) :=
  match check_images b images ∅ with
  | inl error => Some (inl error)
  | inr names =>
      match check_cows b names stale_cows with
      | Some error => Some (inl error)
      | None =>
          let b := foldl RemovePartition b stale_cows in
          r ← resize_pass true images b;
          match r with
          | inl error => Some (inl error)
          | inr b => resize_pass false images b
          end
      end
  end.
End Plans.

(** ** What liblp/builder.h says *)
(** A size is rounded up to whole blocks of the device. *)
Definition with_group (p : Part) (g : string) : Part := MkPart g (pt_size p) (pt_attributes p).
Definition with_attributes (p : Part) (a : Z) : Part := MkPart (pt_group p) (pt_size p) a.
Definition with_size (p : Part) (size : Z) : Part := MkPart (pt_group p) size (pt_attributes p).
Definition sumZ (l : list Z) : Z := foldr Z.add 0 l.
Section Usage.
Context {B : Type} `{!Builder B}.
Definition size_of (b : B) (name : string) : Z := match FindPartition b name with Some p => pt_size p | None => 0 end.
Definition all_partitions (b : B) : list string := ListGroups b ≫= ListPartitionsInGroup b.
Definition used (b : B) (group : string) : Z := sumZ (size_of b <$> ListPartitionsInGroup b group).
Definition allocated (b : B) : Z := sumZ (size_of b <$> all_partitions b).
End Usage.
Class BuilderLaws (B : Type) `{!Builder B} := {
  align : Z -> Z;
  capacity : B -> Z;
  align_bound n : 0 <= n -> n <= align n;
  align_mono n m : 0 <= n <= m -> align n <= align m;
  size_nonneg b name p : FindPartition b name = Some p -> 0 <= pt_size p;
  listed b name p : FindPartition b name = Some p -> name ∈ ListPartitionsInGroup b (pt_group p);
  listed_find b name g : name ∈ ListPartitionsInGroup b g -> exists p, FindPartition b name = Some p /\ pt_group p = g;
  listed_once b g : NoDup (ListPartitionsInGroup b g);
  groups_once b : NoDup (ListGroups b);
  groups_listed b g : g ∈ ListGroups b <-> is_Some (FindGroup b g);
  group_of b name p : FindPartition b name = Some p -> is_Some (FindGroup b (pt_group p));
  remove_find b name n : FindPartition (RemovePartition b name) n = if decide (n = name) then None else FindPartition b n;
  remove_group b name g : FindGroup (RemovePartition b name) g = FindGroup b g;
  remove_capacity b name : capacity (RemovePartition b name) = capacity b;
  add_group_find b g size b' n : AddGroup b g size = Some b' -> FindPartition b' n = FindPartition b n;
  add_group_group b g size b' h : AddGroup b g size = Some b' -> FindGroup b' h = if decide (h = g) then Some size else FindGroup b h;
  change_size_find b g size b' n : ChangeGroupSize b g size = Some b' -> FindPartition b' n = FindPartition b n;
  change_size_group b g size b' h : ChangeGroupSize b g size = Some b' -> FindGroup b' h = if decide (h = g) then Some size else FindGroup b h;
  add_find b name g a b' n : AddPartition b name g a = Some b' -> FindPartition b' n = if decide (n = name) then Some (MkPart g 0 a) else FindPartition b n;
  add_keeps b name g a b' h : AddPartition b name g a = Some b' -> FindGroup b' h = FindGroup b h;
  regroup_find b name g b' n : ChangePartitionGroup b name g = Some b' ->
    FindPartition b' n = if decide (n = name) then (fun p => with_group p g) <$> FindPartition b n else FindPartition b n;
  regroup_keeps b name g b' h : ChangePartitionGroup b name g = Some b' -> FindGroup b' h = FindGroup b h;
  attributes_find b name a n : FindPartition (set_attributes b name a) n =
    if decide (n = name) then (fun p => with_attributes p a) <$> FindPartition b n else FindPartition b n;
  attributes_keeps b name a h : FindGroup (set_attributes b name a) h = FindGroup b h;
  drop_find b g n : FindPartition (RemoveGroupAndPartitions b g) n =
    match FindPartition b n with Some p => if decide (pt_group p = g) then None else Some p | None => None end;
  drop_group b g h : FindGroup (RemoveGroupAndPartitions b g) h = if decide (h = g) then None else FindGroup b h;
  resize_find b name size b' n : ResizePartition b name size = Some b' ->
    FindPartition b' n = if decide (n = name) then (fun p => with_size p (align size)) <$> FindPartition b n else FindPartition b n;
  resize_keeps b name size b' h : ResizePartition b name size = Some b' -> FindGroup b' h = FindGroup b h;
  resize_capacity b name size b' : ResizePartition b name size = Some b' -> capacity b' = capacity b;
  resize_shrinks b name size p : FindPartition b name = Some p -> 0 <= size <= pt_size p -> is_Some (ResizePartition b name size);
  (** Growing succeeds when the group's limit, zero for none, allows it and the
      whole allocation stays within [capacity], the space that is there however
      the extents lie. *)
  resize_grows b name size p limit : FindPartition b name = Some p -> 0 <= size -> FindGroup b (pt_group p) = Some limit ->
    limit = 0 \/ used b (pt_group p) - pt_size p + align size <= limit -> allocated b - pt_size p + align size <= capacity b ->
    is_Some (ResizePartition b name size) }.

(** ** What a plan should do *)
Definition names_of (images : list LogicalImageSize) : list string := im_name <$> images.
Fixpoint image_of (images : list LogicalImageSize) (name : string) : option LogicalImageSize :=
  match images with
  | [] => None
  | image :: images => if String.eqb (im_name image) name then Some image else image_of images name
  end.
(** The names a ROM layout gives its partitions and groups in the slot. *)
Definition rom_part (suffix : string) (p : RomImagePartition) : string := (rp_name p ++ suffix)%string.
Definition rom_group (suffix : string) (g : RomImageGroup) : string := (rg_name g ++ suffix)%string.
Section Contract.
Context {B : Type} `{HL : BuilderLaws B}.
(** The size a partition of [size] bytes gets for its image. *)
Definition fitted (bytes size : Z) : Z := if size =? bytes then bytes else align bytes.
Definition planned_size (images : list LogicalImageSize) (b : B) (name : string) : Z :=
  match image_of images name with Some image => fitted (im_bytes image) (size_of b name) | None => size_of b name end.
(** The targets and the copy-on-write partitions a plan accepts. *)
Definition targets_ok (b : B) (images : list LogicalImageSize) : Prop :=
  NoDup (names_of images) /\
  forall image, image ∈ images -> im_bytes image ≠ 0 /\ im_bytes image mod 512 = 0 /\ is_Some (FindPartition b (im_name image)).
Definition cows_ok (b : B) (images : list LogicalImageSize) (cows : list string) : Prop :=
  forall name, name ∈ cows -> exists p, FindPartition b name = Some p /\ pt_group p = "cow"%string /\ (4 < String.length name)%nat /\
    ends_with name "-cow" = true /\ name ∉ names_of images.
(** After the plan every group keeps its limit and Super its capacity. *)
Definition plan_fits (b : B) (images : list LogicalImageSize) (cows : list string) : Prop :=
  (forall g limit, FindGroup b g = Some limit ->
    limit = 0 \/ sumZ (planned_size images b <$> filter (.∉ cows) (ListPartitionsInGroup b g)) <= limit) /\
  sumZ (planned_size images b <$> filter (.∉ cows) (all_partitions b)) <= capacity b.
(** What the plan leaves of a partition. *)
Definition planned_part (images : list LogicalImageSize) (cows : list string) (name : string) (p : Part) : option Part :=
  if decide (name ∈ cows) then None
  else Some (match image_of images name with Some image => with_size p (fitted (im_bytes image) (pt_size p)) | None => p end).
Definition fresh (images : list LogicalImageSize) (names : gset string) : Prop := forall image, image ∈ images -> im_name image ∉ names.
(** What one pass makes of a partition. *)
Definition resized (shrink : bool) (image : LogicalImageSize) (p : Part) : Part :=
  if (pt_size p =? im_bytes image) || negb (Bool.eqb (im_bytes image <? pt_size p) shrink) then p else with_size p (align (im_bytes image)).
Definition passed (shrink : bool) (images : list LogicalImageSize) (name : string) (p : Part) : Part :=
  match image_of images name with Some image => resized shrink image p | None => p end.
(** A builder that differs in the sizes and in the removed partitions only. *)
Definition trimmed (cows : list string) (b c : B) : Prop :=
  forall name, (pt_group <$> FindPartition c name) = (if decide (name ∈ cows) then None else pt_group <$> FindPartition b name).
(** The builder while the images grow: no partition is larger than planned. *)
Record growing (b : B) (images : list LogicalImageSize) (cows : list string) (todo : list LogicalImageSize) (c : B) : Prop := {
  gr_trimmed : trimmed cows b c;
  gr_groups g : FindGroup c g = FindGroup b g;
  gr_capacity : capacity c = capacity b;
  gr_bound name : name ∉ cows -> size_of c name <= planned_size images b name;
  gr_todo image : image ∈ todo -> FindPartition c (im_name image) = resized true image <$> FindPartition b (im_name image) }.
End Contract.

(** ** Sums *)
Lemma sumZ_perm l k : l ≡ₚ k -> sumZ l = sumZ k.
Proof. induction 1 as [|x l k _ IH|x y l|l k m _ IH1 _ IH2]; cbn [sumZ foldr] in *; unfold sumZ in *; lia. Qed.
Lemma sumZ_le {A} (f g : A -> Z) l : (forall x, x ∈ l -> f x <= g x) -> sumZ (f <$> l) <= sumZ (g <$> l).
Proof.
  induction l as [|x l IH]; intros H; [done|]. cbn. pose proof (H x (list_elem_of_here _ _)). assert (sumZ (f <$> l) <= sumZ (g <$> l)); [|unfold sumZ in *; lia].
  apply IH. intros y Hy. apply H. by right.
Qed.
Lemma Permutation_middle_sum a x b : sumZ (x :: a ++ b) = sumZ (a ++ x :: b).
Proof. apply sumZ_perm, Permutation_middle. Qed.
(** One summand exchanged. *)
Lemma sumZ_exchange (f g : string -> Z) l n v : NoDup l -> n ∈ l -> (forall x, x ∈ l -> x ≠ n -> f x <= g x) -> v <= g n ->
  sumZ (f <$> l) - f n + v <= sumZ (g <$> l).
Proof.
  intros Hn Hin Hle Hv. apply list_elem_of_split in Hin as (a & b & ->). rewrite !fmap_app. cbn [fmap list_fmap].
  assert (Hs : forall (h : string -> Z), sumZ ((h <$> a) ++ h n :: (h <$> b)) = h n + sumZ (h <$> a ++ b)).
  { intros h. rewrite fmap_app, <- Permutation_middle_sum. done. }
  rewrite !Hs. apply NoDup_app in Hn as (_ & Hd & Hb). apply NoDup_cons in Hb as [Hb _].
  assert (sumZ (f <$> a ++ b) <= sumZ (g <$> a ++ b)); [|lia]. apply sumZ_le. intros x Hx. apply Hle; [set_solver|].
  intros ->. apply elem_of_app in Hx as [Hx|Hx]; [|done]. apply (Hd n Hx). left.
Qed.

(** ** The lists of a builder *)
Section Lists.
Context {B : Type} `{HL : BuilderLaws B}.
Implicit Types (b c : B) (images : list LogicalImageSize).
Lemma in_group b g name : name ∈ ListPartitionsInGroup b g <-> exists p, FindPartition b name = Some p /\ pt_group p = g.
Proof. split; [apply listed_find|]. intros (p & Hp & <-). by apply listed. Qed.
Lemma in_all b name : name ∈ all_partitions b <-> is_Some (FindPartition b name).
Proof.
  unfold all_partitions. rewrite list_elem_of_bind. split.
  - intros (g & Hn & _). apply listed_find in Hn as (p & -> & _). done.
  - intros [p Hp]. exists (pt_group p). split; [by apply listed|]. apply groups_listed. by apply (group_of b name).
Qed.
Lemma all_once b : NoDup (all_partitions b).
Proof.
  unfold all_partitions. generalize (groups_once b). generalize (ListGroups b). intros l. induction l as [|g l IH]; intros Hn; [constructor|].
  apply NoDup_cons in Hn as [Hg Hn]. cbn. apply NoDup_app. split_and!; [apply listed_once| |by apply IH].
  intros x Hx Hy. apply list_elem_of_bind in Hy as (h & Hh & Hl). apply listed_find in Hx as (p & Hp & <-). apply listed_find in Hh as (q & Hq & <-).
  rewrite Hp in Hq. injection Hq as <-. done.
Qed.
(** Two lists of names without repetitions and with the same members. *)
Lemma same_members (l k : list string) : NoDup l -> NoDup k -> (forall x, x ∈ l <-> x ∈ k) -> l ≡ₚ k.
Proof. intros. by apply NoDup_Permutation. Qed.
Lemma trimmed_group cows b c g : trimmed cows b c -> ListPartitionsInGroup c g ≡ₚ filter (.∉ cows) (ListPartitionsInGroup b g).
Proof.
  intros Ht. apply same_members; [apply listed_once|apply NoDup_filter, listed_once|]. intros x. rewrite list_elem_of_filter, !in_group. specialize (Ht x). split.
  - intros (p & Hp & Hg). rewrite Hp in Ht. case_decide; [done|]. destruct (FindPartition b x) as [q|]; [|done]. cbn in Ht. simplify_eq. eauto.
  - intros (Hx & p & Hp & Hg). rewrite decide_False, Hp in Ht by done. destruct (FindPartition c x) as [q|]; [|done]. cbn in Ht. simplify_eq. eauto.
Qed.
Lemma trimmed_all cows b c : trimmed cows b c -> all_partitions c ≡ₚ filter (.∉ cows) (all_partitions b).
Proof.
  intros Ht. apply same_members; [apply all_once|apply NoDup_filter, all_once|]. intros x. rewrite list_elem_of_filter, !in_all. specialize (Ht x).
  case_decide; destruct (FindPartition c x), (FindPartition b x); cbn in Ht; try done; split; try naive_solver; intros [? ?]; done.
Qed.
Lemma image_of_in images image : NoDup (names_of images) -> image ∈ images -> image_of images (im_name image) = Some image.
Proof.
  induction images as [|i images IH]; intros Hn Hi; [by apply elem_of_nil in Hi|]. cbn. apply NoDup_cons in Hn as [Hh Hn].
  apply elem_of_cons in Hi as [->|Hi]; [by rewrite String.eqb_refl|]. destruct (String.eqb_spec (im_name i) (im_name image)) as [E|E]; [|by apply IH].
  destruct Hh. rewrite E. by apply list_elem_of_fmap_2.
Qed.
Lemma image_of_Some images name image : image_of images name = Some image -> image ∈ images /\ im_name image = name.
Proof. induction images as [|i images IH]; cbn; [done|]. destruct (String.eqb_spec (im_name i) name); intros; simplify_eq; [split; [left|done]|]. destruct IH; [done|]. split; [by right|done]. Qed.
Lemma image_of_None images name : image_of images name = None <-> name ∉ names_of images.
Proof.
  induction images as [|i images IH]; cbn; [split; [intros _; apply not_elem_of_nil|done]|]. rewrite not_elem_of_cons. destruct (String.eqb_spec (im_name i) name); [naive_solver|].
  rewrite IH. naive_solver.
Qed.
Lemma targets_cons b i images names : (targets_ok b (i :: images) /\ fresh (i :: images) names) <->
  (im_bytes i ≠ 0 /\ im_bytes i mod 512 = 0 /\ (im_name i ∉ names) /\ is_Some (FindPartition b (im_name i))) /\
  (targets_ok b images /\ fresh images ({[im_name i]} ∪ names)).
Proof.
  unfold targets_ok, fresh. cbn [names_of fmap list_fmap]. unfold names_of. setoid_rewrite elem_of_cons. split.
  - cbn. rewrite NoDup_cons. intros (((Hi & Hn) & Ho) & Hf). destruct (Ho i (or_introl eq_refl)) as (? & ? & ?). split_and!; auto.
    intros j Hj. rewrite not_elem_of_union, not_elem_of_singleton. split; [|by auto]. intros E. apply Hi. rewrite <- E. by apply list_elem_of_fmap_2.
  - intros ((? & ? & ? & ?) & (Hn & Ho) & Hf). cbn. rewrite NoDup_cons. split_and!; [|done|naive_solver|].
    + intros (j & E & Hj)%list_elem_of_fmap. specialize (Hf j Hj). set_solver.
    + intros j [->|Hj]; [done|]. specialize (Hf j Hj). set_solver.
Qed.
Lemma check_images_spec b images names :
  match check_images b images names with
  | inr all => (targets_ok b images /\ fresh images names) /\ all = list_to_set (names_of images) ∪ names
  | inl _ => ~ (targets_ok b images /\ fresh images names)
  end.
Proof.
  revert names. induction images as [|i images IH]; intros names; cbn [check_images].
  - split; [|set_solver]. split; [split; [constructor|]|]; intros ? Hi; by apply elem_of_nil in Hi.
  - destruct (_ || _) eqn:E.
    + rewrite targets_cons. intros ((Hz & Hm & Hn & Hf) & _). rewrite bool_decide_eq_false_2, bool_decide_eq_true_2 in E by done. lia.
    + apply orb_false_iff in E as [E Ef]. apply orb_false_iff in E as [E En]. apply orb_false_iff in E as [Ez Em].
      apply negb_false_iff in Em, Ef. apply bool_decide_eq_false in En. apply bool_decide_eq_true in Ef.
      specialize (IH ({[im_name i]} ∪ names)). destruct (check_images _ _ _) as [e|all]; rewrite targets_cons; [naive_solver|].
      destruct IH as [IH ->]. split; [|set_solver]. split; [|done]. split_and!; [lia|lia|done|done].
Qed.
Lemma check_cows_spec b images cows :
  match check_cows b (list_to_set (names_of images)) cows with None => cows_ok b images cows | Some _ => ~ cows_ok b images cows end.
Proof.
  induction cows as [|c cows IH]; cbn [check_cows]; [intros ? Hi; by apply elem_of_nil in Hi|].
  assert (Hc : cows_ok b images (c :: cows) <-> (exists p, FindPartition b c = Some p /\ pt_group p = "cow"%string /\ (4 < String.length c)%nat /\
    ends_with c "-cow" = true /\ c ∉ names_of images) /\ cows_ok b images cows) by (unfold cows_ok; setoid_rewrite elem_of_cons; naive_solver).
  destruct (FindPartition b c) as [p|] eqn:Ep; [|rewrite Hc; naive_solver].
  destruct (_ || _) eqn:E.
  - rewrite Hc. intros ((q & Hq & Hg & Hl & He & Hn) & _). simplify_eq. rewrite Hg, He in E. cbn [String.eqb negb] in E.
    rewrite bool_decide_eq_false_2 in E by set_solver. destruct (Nat.leb_spec (String.length c) 4); [lia|done].
  - apply orb_false_iff in E as [E En]. apply orb_false_iff in E as [E Ee]. apply orb_false_iff in E as [Eg El].
    apply negb_false_iff in Eg, Ee. apply bool_decide_eq_false in En. apply String.eqb_eq in Eg. apply Nat.leb_gt in El.
    destruct (check_cows _ _ _); [rewrite Hc; naive_solver|]. apply Hc. split; [|done]. exists p. split_and!; try done; set_solver.
Qed.
End Lists.

(** ** The passes *)
Section Passes.
Context {B : Type} `{HL : BuilderLaws B}.
Implicit Types (b c : B) (images : list LogicalImageSize).
Lemma resized_group sh image p : pt_group (resized sh image p) = pt_group p.
Proof. unfold resized. by destruct (_ || _). Qed.
Lemma resize_pass_spec sh images b b' : NoDup (names_of images) -> resize_pass sh images b = Some (inr b') ->
  (forall n, FindPartition b' n = passed sh images n <$> FindPartition b n) /\ (forall g, FindGroup b' g = FindGroup b g) /\ capacity b' = capacity b.
Proof.
  revert b. induction images as [|i images IH]; intros b Hn Hr.
  - simplify_eq/=. split_and!; [|done|done]. intros n. by destruct (FindPartition b' n).
  - apply NoDup_cons in Hn as [Hi Hn]. cbn in Hr. destruct (FindPartition b (im_name i)) as [p|] eqn:Ep; [|done]. cbn in Hr.
    apply image_of_None in Hi. destruct (_ || _) eqn:E.
    + destruct (IH _ Hn Hr) as (Hf & Hg & Hc). split_and!; [|done|done]. intros n. rewrite Hf. unfold passed. cbn.
      destruct (String.eqb_spec (im_name i) n) as [<-|]; [|done]. rewrite Hi, Ep. cbn. unfold resized. by rewrite E.
    + destruct (ResizePartition _ _ _) as [c|] eqn:Ec; [|done]. destruct (IH _ Hn Hr) as (Hf & Hg & Hc).
      split_and!; [|intros g; rewrite Hg; by apply resize_keeps with (1 := Ec)|rewrite Hc; by apply resize_capacity with (1 := Ec)].
      intros n. rewrite Hf, (resize_find _ _ _ _ _ Ec). unfold passed. cbn. destruct (String.eqb_spec (im_name i) n) as [<-|].
      * rewrite Hi, Ep, decide_True by done. cbn. unfold resized. by rewrite E.
      * by rewrite decide_False by congruence.
Qed.
(** No pass meets a null partition. *)
Lemma resize_pass_total sh images b : (forall image, image ∈ images -> is_Some (FindPartition b (im_name image))) -> is_Some (resize_pass sh images b).
Proof.
  revert b. induction images as [|i images IH]; intros b H; cbn; [done|].
  destruct (H i (list_elem_of_here _ _)) as [p Hp]. rewrite Hp. cbn. destruct (_ || _); [apply IH; intros; apply H; by right|].
  destruct (ResizePartition _ _ _) as [c|] eqn:Ec; [|done]. apply IH. intros j Hj. rewrite (resize_find _ _ _ _ _ Ec).
  destruct (H j (list_elem_of_further _ _ _ Hj)) as [q ->]. by case_decide.
Qed.
Lemma shrink_pass_succeeds images b : NoDup (names_of images) -> (forall image, image ∈ images -> 0 <= im_bytes image /\ is_Some (FindPartition b (im_name image))) ->
  exists b', resize_pass true images b = Some (inr b').
Proof.
  revert b. induction images as [|i images IH]; intros b Hn H; cbn; [eauto|]. apply NoDup_cons in Hn as [Hi Hn].
  destruct (H i (list_elem_of_here _ _)) as (Hb & p & Hp). rewrite Hp. cbn. destruct (_ || _) eqn:E; [apply IH; [done|]; intros; apply H; by right|].
  apply orb_false_iff in E as [E1 E2]. apply negb_false_iff, eqb_prop in E2.
  destruct (resize_shrinks b (im_name i) (im_bytes i) p Hp) as [c Hc]; [lia|]. rewrite Hc. apply IH; [done|].
  intros j Hj. rewrite (resize_find _ _ _ _ _ Hc). destruct (H j (list_elem_of_further _ _ _ Hj)) as (? & q & ->). split; [done|]. by case_decide.
Qed.
Lemma removed_find l b n : FindPartition (foldl RemovePartition b l) n = if decide (n ∈ l) then None else FindPartition b n.
Proof.
  revert b. induction l as [|x l IH]; intros b; cbn; [by rewrite decide_False by apply not_elem_of_nil|].
  rewrite IH, remove_find. repeat case_decide; set_solver.
Qed.
Lemma removed_group l b g : FindGroup (foldl RemovePartition b l) g = FindGroup b g.
Proof. revert b. induction l as [|x l IH]; intros b; cbn; [done|]. by rewrite IH, remove_group. Qed.
Lemma removed_capacity l b : capacity (foldl RemovePartition b l) = capacity b.
Proof. revert b. induction l as [|x l IH]; intros b; cbn; [done|]. by rewrite IH, remove_capacity. Qed.

(** *** Growing *)
Lemma twice_resized image p : 0 <= im_bytes image ->
  resized false image (resized true image p) = with_size p (fitted (im_bytes image) (pt_size p)).
Proof.
  intros Hb. pose proof (align_bound _ Hb) as Ha. unfold resized, fitted. destruct p as [g s a]. cbn.
  destruct (Z.eqb_spec s (im_bytes image)) as [->|E]; cbn; [by rewrite Z.eqb_refl|].
  destruct (Z.ltb_spec (im_bytes image) s) as [L|L]; cbn.
  - destruct (_ || negb (Bool.eqb _ false)) eqn:F; [done|]. apply orb_false_iff in F as [F G]. apply negb_false_iff, eqb_prop in G. lia.
  - destruct (Z.eqb_spec s (im_bytes image)); [lia|]. cbn. by destruct (Z.ltb_spec (im_bytes image) s); [lia|].
Qed.
Lemma grow_step b images cows i todo c p : growing b images cows (i :: todo) c -> plan_fits b images cows -> im_name i ∉ cows ->
  image_of images (im_name i) = Some i -> 0 <= im_bytes i -> FindPartition c (im_name i) = Some p -> pt_size p < im_bytes i ->
  is_Some (ResizePartition c (im_name i) (im_bytes i)) /\ planned_size images b (im_name i) = align (im_bytes i).
Proof.
  intros [Ht Hg Hc Hb Hd] [Hlim Hcap] Hcow Hi Hpos Hp Hlt. pose proof (align_bound _ Hpos) as Ha. specialize (Hd i (list_elem_of_here _ _)).
  destruct (FindPartition b (im_name i)) as [q|] eqn:Hq; [|cbn in Hd; congruence].
  assert (Hplan : planned_size images b (im_name i) = align (im_bytes i)).
  { unfold planned_size, size_of. rewrite Hi, Hq. rewrite Hp in Hd. cbn in Hd. simplify_eq. unfold fitted.
    destruct (Z.eqb_spec (pt_size q) (im_bytes i)) as [E|]; [|done]. unfold resized in Hlt. rewrite (proj2 (Z.eqb_eq _ _) E) in Hlt. cbn in Hlt. lia. }
  split; [|done].
  assert (Hs : forall l, NoDup l -> im_name i ∈ l -> (forall x, x ∈ l -> x ∉ cows) ->
    sumZ (size_of c <$> l) - pt_size p + align (im_bytes i) <= sumZ (planned_size images b <$> l)).
  { intros l Hn Hin Hout. replace (pt_size p) with (size_of c (im_name i)) by (unfold size_of; by rewrite Hp).
    apply sumZ_exchange; [done|done| |lia]. intros x Hx _. by apply Hb, Hout. }
  destruct (group_of c _ _ Hp) as [limit Hl]. apply (resize_grows c _ _ p limit); [done|done|done| |].
  - rewrite Hg in Hl. destruct (Hlim _ _ Hl) as [|Hle]; [by left|right]. unfold used.
    rewrite <- (sumZ_perm _ _ (fmap_Permutation (planned_size images b) _ _ (trimmed_group _ _ _ (pt_group p) Ht))) in Hle.
    etrans; [apply Hs|exact Hle]; [apply listed_once|by apply listed|]. intros x Hx.
    rewrite (trimmed_group _ _ _ _ Ht) in Hx. by apply list_elem_of_filter in Hx as [? _].
  - rewrite Hc. unfold allocated. rewrite <- (sumZ_perm _ _ (fmap_Permutation (planned_size images b) _ _ (trimmed_all _ _ _ Ht))) in Hcap.
    etrans; [apply Hs|exact Hcap]; [apply all_once|apply in_all; eauto|]. intros x Hx.
    rewrite (trimmed_all _ _ _ Ht) in Hx. by apply list_elem_of_filter in Hx as [? _].
Qed.
Lemma grown b images cows i todo c c' : growing b images cows (i :: todo) c -> im_name i ∉ names_of todo ->
  planned_size images b (im_name i) = align (im_bytes i) -> ResizePartition c (im_name i) (im_bytes i) = Some c' ->
  growing b images cows todo c'.
Proof.
  intros [Ht Hg Hc Hb Hd] Hn Hplan Hr. pose proof (fun n => resize_find _ _ _ _ n Hr) as Hf. split.
  - intros n. rewrite <- (Ht n), Hf. case_decide; [|done]. by destruct (FindPartition c n).
  - intros g. rewrite (resize_keeps _ _ _ _ _ Hr). apply Hg.
  - rewrite (resize_capacity _ _ _ _ Hr). apply Hc.
  - intros n Hcow. specialize (Hb n Hcow). revert Hb. unfold size_of at 1 2. rewrite Hf. case_decide; subst; [|done].
    destruct (FindPartition c _); cbn; [lia|done].
  - intros j Hj. rewrite <- Hd by (by right). rewrite Hf, decide_False; [done|]. intros E. apply Hn. rewrite <- E. by apply list_elem_of_fmap_2.
Qed.
Lemma grow_pass_succeeds b images cows todo c : plan_fits b images cows -> NoDup (names_of todo) -> growing b images cows todo c ->
  (forall i, i ∈ todo -> (im_name i ∉ cows) /\ image_of images (im_name i) = Some i /\ 0 <= im_bytes i /\ is_Some (FindPartition b (im_name i))) ->
  exists b', resize_pass false todo c = Some (inr b').
Proof.
  intros Hfit. revert c. induction todo as [|i todo IH]; intros c Hn Hc Ht; cbn; [eauto|]. apply NoDup_cons in Hn as [Hi Hn].
  destruct (Ht i (list_elem_of_here _ _)) as (H1 & H2 & H3 & q & Hq). pose proof (gr_todo _ _ _ _ _ Hc i (list_elem_of_here _ _)) as Hp. rewrite Hq in Hp.
  rewrite Hp. cbn. destruct (_ || _) eqn:E.
  - apply IH; [done| |intros; apply Ht; by right]. destruct Hc. split; try done. intros; apply gr_todo0. by right.
  - apply orb_false_iff in E as [E1 E2]. apply negb_false_iff, eqb_prop in E2.
    destruct (grow_step _ _ _ _ _ _ _ Hc Hfit H1 H2 H3 Hp) as [[c' Hr] Hs]; [lia|]. rewrite Hr.
    apply IH; [done|by eapply grown|intros; apply Ht; by right].
Qed.
End Passes.

Section PlanImages.
Context {B : Type} `{HL : BuilderLaws B}.
Implicit Types (b c : B) (images : list LogicalImageSize).
Lemma shrunk_growing b images cows c : targets_ok b images -> cows_ok b images cows -> (forall i, i ∈ images -> 0 <= im_bytes i) ->
  resize_pass true images (foldl RemovePartition b cows) = Some (inr c) -> growing b images cows images c.
Proof.
  intros [Hn Ht] Hcow Hpos Hr. destruct (resize_pass_spec _ _ _ _ Hn Hr) as (Hf & Hg & Hc). split.
  - intros n. rewrite Hf, removed_find. case_decide; [done|]. unfold passed.
    destruct (FindPartition b n), (image_of images n); cbn; by rewrite ?resized_group.
  - intros g. by rewrite Hg, removed_group.
  - by rewrite Hc, removed_capacity.
  - intros n Hout. unfold planned_size, size_of. rewrite Hf, removed_find, decide_False by done. unfold passed.
    destruct (image_of images n) as [i|] eqn:Ei; destruct (FindPartition b n) as [p|] eqn:Ep; cbn; try done.
    + apply image_of_Some in Ei as [Hi _]. pose proof (align_bound _ (Hpos i Hi)). unfold resized, fitted.
      destruct (Z.eqb_spec (pt_size p) (im_bytes i)) as [E|E]; cbn; [lia|].
      destruct (Z.ltb_spec (im_bytes i) (pt_size p)); cbn; lia.
    + apply image_of_Some in Ei as [Hi <-]. destruct (Ht i Hi) as (_ & _ & ? & ?). congruence.
  - intros i Hi. rewrite Hf, removed_find, decide_False; [unfold passed; by rewrite (image_of_in _ _ Hn Hi)|].
    intros Hin. destruct (Hcow _ Hin) as (p & _ & _ & _ & _ & Hout). apply Hout. by apply list_elem_of_fmap_2.
Qed.
Lemma not_a_cow b images cows i : cows_ok b images cows -> i ∈ images -> im_name i ∉ cows.
Proof. intros Hc Hi Hin. destruct (Hc _ Hin) as (p & _ & _ & _ & _ & Hn). apply Hn. by apply list_elem_of_fmap_2. Qed.
Lemma planned_sound b images cows c b' : targets_ok b images -> (forall i, i ∈ images -> 0 <= im_bytes i) ->
  resize_pass true images (foldl RemovePartition b cows) = Some (inr c) -> resize_pass false images c = Some (inr b') ->
  (forall n, FindPartition b' n = FindPartition b n ≫= planned_part images cows n) /\ (forall g, FindGroup b' g = FindGroup b g).
Proof.
  intros [Hn _] Hpos H1 H2. destruct (resize_pass_spec _ _ _ _ Hn H1) as (Hf & Hg & _). destruct (resize_pass_spec _ _ _ _ Hn H2) as (Hf' & Hg' & _).
  split; [|intros g; by rewrite Hg', Hg, removed_group]. intros n. rewrite Hf', Hf, removed_find. unfold planned_part, passed.
  destruct (FindPartition b n) as [p|]; cbn; case_decide; try done. cbn. destruct (image_of images n) as [i|] eqn:Ei; [|done].
  f_equal. apply twice_resized, Hpos. by apply image_of_Some in Ei as [? _].
Qed.
Lemma planned_room b images cows b' i : targets_ok b images -> cows_ok b images cows -> (forall i, i ∈ images -> 0 <= im_bytes i) -> i ∈ images ->
  (forall n, FindPartition b' n = FindPartition b n ≫= planned_part images cows n) ->
  exists p, FindPartition b' (im_name i) = Some p /\ im_bytes i <= pt_size p.
Proof.
  intros [Hn Ht] Hc Hpos Hi Hf. destruct (Ht i Hi) as (_ & _ & p & Hp). rewrite Hf, Hp. cbn. unfold planned_part.
  rewrite decide_False by (by eapply not_a_cow). rewrite (image_of_in _ _ Hn Hi). eexists. split; [done|]. cbn. unfold fitted.
  pose proof (align_bound _ (Hpos i Hi)). destruct (_ =? _); lia.
Qed.

End PlanImages.

(** ** The ROM layout *)
Lemma substring_app a s : String.substring (String.length a) (String.length s) (a ++ s)%string = s.
Proof.
  induction a as [|c a IH]; [|exact IH]. cbn [String.length]. change ("" ++ s)%string with s. induction s as [|d s IH]; [done|]. cbn. by rewrite IH.
Qed.
Lemma has_suffix_app suffix name : name ≠ ""%string -> has_suffix suffix (name ++ suffix) = true.
Proof.
  intros Hn. unfold has_suffix, ends_with. rewrite !string_length_app, Nat.add_sub, substring_app, String.eqb_refl.
  destruct name as [|c name]; [done|]. cbn [String.length]. rewrite andb_true_r. apply andb_true_iff. split; [apply Nat.ltb_lt|apply Nat.leb_le]; lia.
Qed.
Lemma rom_groups_spec suffix gs groups all : rom_groups suffix gs groups = Some all ->
  all = list_to_set (rom_group suffix <$> gs) ∪ groups /\ NoDup (rom_group suffix <$> gs) /\
  (forall g, g ∈ gs -> rg_name g ≠ ""%string /\ rom_group suffix g ∉ groups).
Proof.
  revert groups. induction gs as [|g gs IH]; intros groups; cbn [rom_groups].
  - intros [= <-]. split_and!; [set_solver|constructor|intros ? H; by apply elem_of_nil in H].
  - destruct (_ || _) eqn:E; [done|]. apply orb_false_iff in E as [E Eg]. apply orb_false_iff in E as [Ee Em].
    apply String.eqb_neq in Ee. apply bool_decide_eq_false in Eg. intros (-> & Hn & Ho)%IH. cbn. split_and!; [set_solver| |].
    + apply NoDup_cons. split; [|done]. intros (h & Eh & Hh)%list_elem_of_fmap. destruct (Ho h Hh) as [_ Hx]. unfold rom_group in *. set_solver.
    + intros h [->|Hh]%elem_of_cons; [done|]. destruct (Ho h Hh). set_solver.
Qed.
Lemma rom_desired_spec suffix selected groups ps desired all : rom_desired suffix selected groups ps desired = Some all ->
  all = list_to_set (rom_part suffix <$> ps) ∪ desired /\ NoDup (rom_part suffix <$> ps) /\
  (forall p, p ∈ ps -> rp_name p ≠ ""%string /\ (rom_part suffix p ∉ desired) /\ (rp_group p ++ suffix)%string ∈ groups).
Proof.
  revert desired. induction ps as [|p ps IH]; intros desired; cbn [rom_desired].
  - intros [= <-]. split_and!; [set_solver|constructor|intros ? H; by apply elem_of_nil in H].
  - destruct (_ || _) eqn:E; [done|]. apply orb_false_iff in E as [E Eg]. apply orb_false_iff in E as [E Es]. apply orb_false_iff in E as [Ee Ed].
    apply String.eqb_neq in Ee. apply bool_decide_eq_false in Ed. apply negb_false_iff, bool_decide_eq_true in Eg. intros (-> & Hn & Ho)%IH.
    cbn. split_and!; [set_solver| |].
    + apply NoDup_cons. split; [|done]. intros (h & Eh & Hh)%list_elem_of_fmap. destruct (Ho h Hh) as (_ & Hx & _). unfold rom_part in *. set_solver.
    + intros h [->|Hh]%elem_of_cons; [done|]. destruct (Ho h Hh) as (? & ? & ?). split_and!; set_solver.
Qed.
Section Rom.
Context {B : Type} `{HL : BuilderLaws B}.
Implicit Types (b c : B) (images : list LogicalImageSize).
Lemma obsolete_spec b suffix desired n : n ∈ obsolete b suffix desired <-> is_Some (FindPartition b n) /\ has_suffix suffix n = true /\ n ∉ desired.
Proof.
  unfold obsolete. rewrite list_elem_of_bind. setoid_rewrite list_elem_of_filter. split.
  - intros (g & (Hs & Hl) & _). apply listed_find in Hl as (p & -> & _). done.
  - intros ([p Hp] & Hs). exists (pt_group p). split; [split; [done|by apply listed]|]. apply groups_listed. by eapply group_of.
Qed.
Lemma make_groups_spec suffix gs b b' : make_groups suffix gs b = inr b' -> NoDup (rom_group suffix <$> gs) ->
  (forall n, FindPartition b' n = FindPartition b n) /\
  (forall g, g ∈ gs -> FindGroup b' (rom_group suffix g) = Some (rg_maximum_bytes g)) /\
  (forall h, h ∉ rom_group suffix <$> gs -> FindGroup b' h = FindGroup b h).
Proof.
  revert b. induction gs as [|g gs IH]; intros b; cbn [make_groups].
  { intros [= ->] _. split_and!; [done|intros ? H; by apply elem_of_nil in H|done]. }
  intros Hm [Hg Hn]%NoDup_cons. assert (exists c, make_groups suffix gs c = inr b' /\ (forall n, FindPartition c n = FindPartition b n) /\
    (forall h, FindGroup c h = if decide (h = rom_group suffix g) then Some (rg_maximum_bytes g) else FindGroup b h)) as (c & Hc & Hf & Hl).
  { destruct (FindGroup b _); [destruct (ChangeGroupSize _ _ _) as [c|] eqn:E|destruct (AddGroup _ _ _) as [c|] eqn:E]; try done; exists c; split_and!; try done; intros.
    - by eapply change_size_find. - by apply change_size_group. - by eapply add_group_find. - by apply add_group_group. }
  destruct (IH _ Hc Hn) as (Hf' & Hin & Hout). split_and!.
  - intros n. by rewrite Hf', Hf.
  - intros h [->|Hh]%elem_of_cons; [|by apply Hin]. rewrite Hout, Hl by done. by rewrite decide_True.
  - intros h Hh. cbn in Hh. rewrite Hout by set_solver. rewrite Hl, decide_False by set_solver. done.
Qed.
Lemma make_partitions_spec suffix ps b b' : make_partitions suffix ps b = inr b' -> NoDup (rom_part suffix <$> ps) ->
  (forall h, FindGroup b' h = FindGroup b h) /\
  (forall p, p ∈ ps -> FindPartition b' (rom_part suffix p) = Some (MkPart (rp_group p ++ suffix) (size_of b (rom_part suffix p)) (rp_attributes p))) /\
  (forall n, n ∉ rom_part suffix <$> ps -> FindPartition b' n = FindPartition b n).
Proof.
  revert b. induction ps as [|p ps IH]; intros b; cbn [make_partitions].
  { intros [= ->] _. split_and!; [done|intros ? H; by apply elem_of_nil in H|done]. }
  intros Hm [Hp Hn]%NoDup_cons. assert (exists c, make_partitions suffix ps c = inr b' /\ (forall h, FindGroup c h = FindGroup b h) /\
    (forall n, FindPartition c n = if decide (n = rom_part suffix p) then Some (MkPart (rp_group p ++ suffix) (size_of b n) (rp_attributes p)) else FindPartition b n))
    as (c & Hc & Hg & Hf).
  { destruct (_ ≫= _) as [c|] eqn:E; [|done]. exists (set_attributes c (rom_part suffix p) (rp_attributes p)).
    split; [done|]. destruct (FindPartition b _) as [q|] eqn:Eq.
    - cbn in E. split; [intros h; by rewrite attributes_keeps, (regroup_keeps _ _ _ _ _ E)|]. intros n. rewrite attributes_find, (regroup_find _ _ _ _ _ E).
      unfold rom_part, size_of. destruct (decide _) as [->|]; [|done]. by rewrite Eq.
    - destruct (AddPartition _ _ _ _) as [d|] eqn:Ed; [|done]. cbn in E.
      split; [intros h; by rewrite attributes_keeps, (regroup_keeps _ _ _ _ _ E), (add_keeps _ _ _ _ _ _ Ed)|].
      intros n. rewrite attributes_find, (regroup_find _ _ _ _ _ E), (add_find _ _ _ _ _ _ Ed). unfold rom_part, size_of. destruct (decide _) as [->|]; [|done]. by rewrite Eq. }
  destruct (IH _ Hc Hn) as (Hg' & Hin & Hout). split_and!.
  - intros h. by rewrite Hg', Hg.
  - intros q [->|Hq]%elem_of_cons; [by rewrite Hout, Hf, decide_True by done|]. rewrite (Hin q Hq). unfold size_of. rewrite Hf, decide_False; [done|].
    intros E. apply Hp. cbn. rewrite <- E. by apply list_elem_of_fmap_2.
  - intros n Hx. cbn in Hx. apply not_elem_of_cons in Hx as [Hx Hy]. by rewrite Hout, Hf, decide_False.
Qed.
Lemma drop_groups_spec suffix groups b :
  (forall n, FindPartition (drop_groups suffix groups b) n = FindPartition b n) /\
  (forall h, has_suffix suffix h = false \/ h ∈ groups -> FindGroup (drop_groups suffix groups b) h = FindGroup b h).
Proof.
  unfold drop_groups. generalize (ListGroups b). intros l. revert b. induction l as [|g l IH]; intros b; cbn; [done|].
  destruct (_ && _) eqn:E; [|by apply IH]. apply andb_true_iff in E as [E El]. apply andb_true_iff in E as [Es Eg].
  apply bool_decide_eq_true in El. apply negb_true_iff, bool_decide_eq_false in Eg. destruct (IH (RemoveGroupAndPartitions b g)) as [Hf Hg]. split.
  - intros n. rewrite Hf, drop_find. destruct (FindPartition b n) as [p|] eqn:Ep; [|done]. case_decide; [|done]. subst.
    apply listed in Ep. rewrite El in Ep. by apply elem_of_nil in Ep.
  - intros h Hh. rewrite Hg, drop_group by done. case_decide; [|done]. subst. destruct Hh; [congruence|done].
Qed.

(** C31: A ROM layout that PlanRomImageLayout applies touches its slot only.
    Partitions and groups without the slot's suffix stay as they are; the
    partitions with the suffix become exactly the layout's, each in its group,
    with its attributes and the size it had, and each is selected for flashing;
    the layout's groups have the layout's limits. *)
Theorem plan_rom_layout_exact b layout suffix images b' : PlanRomImageLayout b layout suffix images = inr b' ->
  (suffix = "_a" \/ suffix = "_b")%string /\
  (forall n, has_suffix suffix n = false -> FindPartition b' n = FindPartition b n) /\
  (forall g, has_suffix suffix g = false -> FindGroup b' g = FindGroup b g) /\
  (forall n, has_suffix suffix n = true -> is_Some (FindPartition b' n) <-> n ∈ rom_part suffix <$> rl_partitions layout) /\
  (forall n, n ∈ names_of images <-> n ∈ rom_part suffix <$> rl_partitions layout) /\
  (forall p, p ∈ rl_partitions layout ->
    FindPartition b' (rom_part suffix p) = Some (MkPart (rp_group p ++ suffix) (size_of b (rom_part suffix p)) (rp_attributes p))) /\
  (forall g, g ∈ rl_groups layout -> FindGroup b' (rom_group suffix g) = Some (rg_maximum_bytes g)).
Proof.
  unfold PlanRomImageLayout. destruct (_ || _) eqn:E0; [done|]. apply orb_false_iff in E0 as [E0 _].
  destruct (rom_groups _ _ _) as [groups|] eqn:E1; [|done]. destruct (rom_desired _ _ _ _ _) as [desired|] eqn:E2; [|done].
  destruct (negb (bool_decide (_ = desired))) eqn:E3; [done|]. apply negb_false_iff, bool_decide_eq_true in E3.
  destruct (make_groups _ _ _) as [|c] eqn:E4; [done|]. destruct (make_partitions _ _ _) as [|d] eqn:E5; [done|]. intros [= <-].
  apply rom_groups_spec in E1 as (Hgs & Hgn & Hgo). apply rom_desired_spec in E2 as (Hds & Hdn & Hdo). rewrite (right_id_L ∅ (∪)) in Hgs, Hds.
  destruct (make_groups_spec _ _ _ _ E4 Hgn) as (Hf1 & Hg1 & Hk1). destruct (make_partitions_spec _ _ _ _ E5 Hdn) as (Hg2 & Hf2 & Hk2).
  destruct (drop_groups_spec suffix groups d) as (Hf3 & Hg3).
  assert (Hsuf : forall n, n ∈ rom_part suffix <$> rl_partitions layout -> has_suffix suffix n = true).
  { intros n (p & -> & Hp)%list_elem_of_fmap. destruct (Hdo p Hp) as (? & _). by apply has_suffix_app. }
  assert (Hcf : forall n, FindPartition c n = if decide (n ∈ obsolete b suffix desired) then None else FindPartition b n).
  { intros n. by rewrite Hf1, removed_find. }
  split_and!.
  - destruct (String.eqb_spec suffix "_a"), (String.eqb_spec suffix "_b"); auto; discriminate.
  - intros n Hn. rewrite Hf3, Hk2 by (intros Hx; apply Hsuf in Hx; congruence). rewrite Hcf, decide_False; [done|].
    rewrite obsolete_spec. intros (_ & ? & _). congruence.
  - intros g Hg. rewrite Hg3, Hg2 by (by left). rewrite Hk1, removed_group; [done|].
    intros (h & -> & Hh)%list_elem_of_fmap. destruct (Hgo h Hh) as [? _]. unfold rom_group in Hg. by rewrite has_suffix_app in Hg.
  - intros n Hn. rewrite Hf3. split.
    + intros Hs. destruct (decide (n ∈ rom_part suffix <$> rl_partitions layout)) as [|Ho]; [done|]. rewrite Hk2, Hcf in Hs by done.
      case_decide as Hd; [by destruct Hs|]. destruct Hd. apply obsolete_spec. split_and!; [done|done|]. by rewrite Hds, elem_of_list_to_set.
    + intros (p & -> & Hp)%list_elem_of_fmap. by rewrite Hf2.
  - intros n. unfold names_of. rewrite <- (elem_of_list_to_set (C := gset string)), E3, Hds, elem_of_list_to_set. done.
  - intros p Hp. rewrite Hf3, (Hf2 p Hp). do 2 f_equal. unfold size_of. rewrite Hcf, decide_False; [done|].
    rewrite obsolete_spec. intros (_ & _ & Ho). apply Ho. rewrite Hds, elem_of_list_to_set. by apply list_elem_of_fmap_2.
  - intros g Hg. rewrite Hg3, Hg2; [by apply Hg1|right]. rewrite Hgs, elem_of_list_to_set. by apply list_elem_of_fmap_2.
Qed.
End Rom.

(** ** A builder that obeys the laws *)
(** A table of partitions and groups over a device of [tb_capacity] bytes, in
    blocks of 4096 bytes. An entry whose group is missing is not a partition. *)
Record Table := MkTable { tb_parts : gmap string Part; tb_groups : gmap string Z; tb_capacity : Z }.
Definition blocks (n : Z) : Z := (Z.max 0 n + 4095) / 4096 * 4096.
Definition live (t : Table) (p : Part) : bool := bool_decide (is_Some (tb_groups t !! pt_group p)) && (0 <=? pt_size p).
Definition table_find (t : Table) (name : string) : option Part := p ← tb_parts t !! name; if live t p then Some p else None.
Definition table_list (t : Table) (g : string) : list string :=
  (filter (fun e => live t e.2 = true /\ pt_group e.2 = g) (map_to_list (tb_parts t))).*1.
Definition table_groups (t : Table) : list string := (map_to_list (tb_groups t)).*1.
Definition table_size (t : Table) (name : string) : Z := match table_find t name with Some p => pt_size p | None => 0 end.
Definition with_parts (t : Table) (m : gmap string Part) : Table := MkTable m (tb_groups t) (tb_capacity t).
Definition table_update (t : Table) (name : string) (f : Part -> Part) : Table :=
  match table_find t name with Some p => with_parts t (<[name := f p]> (tb_parts t)) | None => t end.
Definition without_group (t : Table) (g : string) : gmap string Part := filter (fun e => pt_group e.2 ≠ g) (tb_parts t).
Definition table_resize (t : Table) (name : string) (size : Z) : option Table :=
  p ← table_find t name;
  limit ← tb_groups t !! pt_group p;
  let fits := (size <=? pt_size p) ||
    (((limit =? 0) || (sumZ (table_size t <$> table_list t (pt_group p)) - pt_size p + blocks size <=? limit)) &&
     (sumZ (table_size t <$> (table_groups t ≫= table_list t)) - pt_size p + blocks size <=? tb_capacity t)) in
  if fits then Some (table_update t name (fun p => with_size p (blocks size))) else None.
#[export] Instance table_builder : Builder Table := {
  FindPartition := table_find;
  FindGroup t g := tb_groups t !! g;
  ListGroups := table_groups;
  ListPartitionsInGroup := table_list;
  AddGroup t g size := match tb_groups t !! g with Some _ => None | None => Some (MkTable (without_group t g) (<[g := size]> (tb_groups t)) (tb_capacity t)) end;
  ChangeGroupSize t g size := match tb_groups t !! g with Some _ => Some (MkTable (tb_parts t) (<[g := size]> (tb_groups t)) (tb_capacity t)) | None => None end;
  AddPartition t name g a :=
    match table_find t name, tb_groups t !! g with None, Some _ => Some (with_parts t (<[name := MkPart g 0 a]> (tb_parts t))) | _, _ => None end;
  ChangePartitionGroup t name g := match tb_groups t !! g with Some _ => Some (table_update t name (fun p => with_group p g)) | None => None end;
  set_attributes t name a := table_update t name (fun p => with_attributes p a);
  RemovePartition t name := with_parts t (delete name (tb_parts t));
  RemoveGroupAndPartitions t g := MkTable (without_group t g) (delete g (tb_groups t)) (tb_capacity t);
  ResizePartition := table_resize }.
Lemma blocks_nonneg n : 0 <= blocks n.
Proof. unfold blocks. pose proof (Z.div_pos (Z.max 0 n + 4095) 4096). lia. Qed.
Lemma table_find_Some t n p : table_find t n = Some p <-> tb_parts t !! n = Some p /\ live t p = true.
Proof. unfold table_find. destruct (tb_parts t !! n) as [q|]; cbn; [|split; [done|by intros [? _]]].
  destruct (live t q) eqn:E; split; [intros [= <-]; done|intros [[= <-] _]; done|done|intros [[= <-] ?]; congruence]. Qed.
Lemma live_group t p : live t p = true -> is_Some (tb_groups t !! pt_group p) /\ 0 <= pt_size p.
Proof. unfold live. intros [H%bool_decide_eq_true ?]%andb_true_iff. split; [done|lia]. Qed.
Lemma table_listed t n g : n ∈ table_list t g <-> exists p, table_find t n = Some p /\ pt_group p = g.
Proof.
  unfold table_list. rewrite list_elem_of_fmap. setoid_rewrite list_elem_of_filter. setoid_rewrite table_find_Some. split.
  - intros ([m p] & -> & (Hl & Hg) & Hm%elem_of_map_to_list). eauto.
  - intros (p & (Hm & Hl) & Hg). exists (n, p). split_and!; try done. by apply elem_of_map_to_list.
Qed.
Lemma table_update_find t name f n : (forall p, live t p = true -> live t (f p) = true) ->
  table_find (table_update t name f) n = if decide (n = name) then f <$> table_find t n else table_find t n.
Proof.
  intros Hf. unfold table_update. destruct (table_find t name) as [p|] eqn:E; [|case_decide; subst; by rewrite ?E].
  case_decide as D; subst.
  - rewrite E. cbn. apply table_find_Some. cbn. rewrite lookup_insert_eq. apply table_find_Some in E as [_ E]. split; [done|]. by apply Hf.
  - unfold table_find. cbn. by rewrite lookup_insert_ne by done.
Qed.
Lemma table_update_groups t name f : tb_groups (table_update t name f) = tb_groups t /\ tb_capacity (table_update t name f) = tb_capacity t.
Proof. unfold table_update. by destruct (table_find t name). Qed.
Lemma table_resize_inv t name size t' : table_resize t name size = Some t' -> t' = table_update t name (fun p => with_size p (blocks size)).
Proof.
  unfold table_resize. destruct (table_find t name) as [p|]; [|done]. cbn. destruct (tb_groups t !! pt_group p); [|done]. cbn. destruct (_ || _); [|done]. by intros [= <-].
Qed.
Lemma table_find_ext t t' n : (forall p, tb_parts t' !! n = Some p /\ live t' p = true <-> tb_parts t !! n = Some p /\ live t p = true) ->
  table_find t' n = table_find t n.
Proof. intros H. apply option_eq. intros p. rewrite !table_find_Some. apply H. Qed.
#[export] Program Instance table_laws : BuilderLaws Table := { align := blocks; capacity := tb_capacity }.
Next Obligation. intros n H. unfold blocks. rewrite Z.max_r by done. pose proof (Z.div_mod (n + 4095) 4096). pose proof (Z.mod_pos_bound (n + 4095) 4096). lia. Qed.
Next Obligation. intros n m H. unfold blocks. rewrite !Z.max_r by lia. apply Z.mul_le_mono_nonneg_r; [lia|]. apply Z.div_le_mono; lia. Qed.
Next Obligation. intros t n p [_ H]%table_find_Some. by apply live_group in H as [_ ?]. Qed.
Next Obligation. intros t n p H. apply table_listed. eauto. Qed.
Next Obligation. intros t n g H. by apply table_listed. Qed.
Next Obligation. intros t g. apply NoDup_fmap_fst; [|apply NoDup_filter, NoDup_map_to_list]. intros n p q [_ Hp]%list_elem_of_filter [_ Hq]%list_elem_of_filter.
  apply elem_of_map_to_list in Hp, Hq. congruence. Qed.
Next Obligation. intros t. apply NoDup_fst_map_to_list. Qed.
Next Obligation. intros t g. cbn. unfold table_groups. rewrite list_elem_of_fmap. split.
  - intros ([h z] & -> & H%elem_of_map_to_list). eauto.
  - intros [z Hz]. exists (g, z). by rewrite elem_of_map_to_list. Qed.
Next Obligation. intros t n p [_ H]%table_find_Some. by apply live_group in H as [? _]. Qed.
Next Obligation. intros t name n. cbn. unfold table_find. cbn. case_decide; subst; [by rewrite lookup_delete_eq|by rewrite lookup_delete_ne]. Qed.
Next Obligation. done. Qed.
Next Obligation. done. Qed.
Next Obligation. intros t g size t' n. cbn. destruct (tb_groups t !! g) eqn:Eg; [done|]. intros [= <-]. apply table_find_ext. intros p. cbn.
  unfold without_group. rewrite map_lookup_filter_Some. cbn. unfold live. cbn. destruct (decide (pt_group p = g)) as [->|]; [|by rewrite lookup_insert_ne; naive_solver].
  rewrite Eg, (bool_decide_eq_false_2 (is_Some None)) by (by intros [? ?]). naive_solver. Qed.
Next Obligation. intros t g size t' h. cbn. destruct (tb_groups t !! g) eqn:Eg; [done|]. intros [= <-]. cbn. case_decide; subst; [by rewrite lookup_insert_eq|by rewrite lookup_insert_ne]. Qed.
Next Obligation. intros t g size t' n. cbn. destruct (tb_groups t !! g) eqn:Eg; [|done]. intros [= <-]. apply table_find_ext. intros p. cbn.
  unfold live. cbn. destruct (decide (pt_group p = g)) as [->|]; [|by rewrite lookup_insert_ne]. by rewrite lookup_insert_eq, Eg, !bool_decide_eq_true_2 by eauto. Qed.
Next Obligation. intros t g size t' h. cbn. destruct (tb_groups t !! g) eqn:Eg; [|done]. intros [= <-]. cbn. case_decide; subst; [by rewrite lookup_insert_eq|by rewrite lookup_insert_ne]. Qed.
Next Obligation. intros t name g a t' n. cbn. destruct (table_find t name) eqn:En; [done|]. destruct (tb_groups t !! g) eqn:Eg; [|done]. intros [= <-].
  unfold table_find. cbn. case_decide; subst; [rewrite lookup_insert_eq|by rewrite lookup_insert_ne]. cbn. unfold live. cbn. by rewrite Eg, bool_decide_eq_true_2. Qed.
Next Obligation. intros t name g a t' h. cbn. destruct (table_find t name) eqn:En; [done|]. destruct (tb_groups t !! g) eqn:Eg; [|done]. by intros [= <-]. Qed.
Next Obligation. intros t name g t' n. cbn. destruct (tb_groups t !! g) eqn:Eg; [|done]. intros [= <-]. apply table_update_find.
  intros p Hl. apply live_group in Hl as [_ ?]. unfold live. cbn. rewrite Eg, bool_decide_eq_true_2 by done. cbn. lia. Qed.
Next Obligation. intros t name g t' h. cbn. destruct (tb_groups t !! g) eqn:Eg; [|done]. intros [= <-]. by rewrite (proj1 (table_update_groups _ _ _)). Qed.
Next Obligation. intros t name a n. cbn. by apply table_update_find. Qed.
Next Obligation. intros t name a h. cbn. by rewrite (proj1 (table_update_groups _ _ _)). Qed.
Next Obligation. intros t g n. cbn. destruct (table_find t n) as [p|] eqn:E.
  - apply table_find_Some in E as [E L]. unfold table_find. cbn. unfold without_group. case_decide as D.
    + rewrite map_lookup_filter, E. cbn. rewrite option_guard_False by (intros H; by apply H). done.
    + rewrite map_lookup_filter, E. cbn. rewrite option_guard_True by done. cbn. unfold live in *. cbn. by rewrite lookup_delete_ne, L.
  - apply eq_None_not_Some. intros [p Hp]. apply table_find_Some in Hp as [Hp L]. cbn in Hp. apply map_lookup_filter_Some in Hp as [Hp Hg]. cbn in Hg.
    assert (table_find t n = Some p); [|congruence]. apply table_find_Some. split; [done|]. unfold live in *. cbn in L. by rewrite lookup_delete_ne in L. Qed.
Next Obligation. intros t g h. cbn. case_decide; subst; [by rewrite lookup_delete_eq|by rewrite lookup_delete_ne]. Qed.
Next Obligation. intros t name size t' n ->%table_resize_inv. apply table_update_find. intros p [Hg _]%live_group. unfold live. cbn.
  rewrite bool_decide_eq_true_2 by done. cbn. pose proof (blocks_nonneg size). lia. Qed.
Next Obligation. intros t name size t' h ->%table_resize_inv. cbn. by rewrite (proj1 (table_update_groups _ _ _)). Qed.
Next Obligation. intros t name size t' ->%table_resize_inv. by rewrite (proj2 (table_update_groups _ _ _)). Qed.
Next Obligation. intros t name size p Hp Hs. cbn in *. unfold table_resize. rewrite Hp. cbn. apply table_find_Some in Hp as [_ Hl].
  apply live_group in Hl as [[limit ->] _]. cbn. by rewrite (proj2 (Z.leb_le _ _)) by lia. Qed.
Next Obligation. intros t name size p limit Hp Hs Hl Hlim Hcap. cbn in *. unfold table_resize. rewrite Hp. cbn. rewrite Hl. cbn.
  assert (Ec : (sumZ (table_size t <$> (table_groups t ≫= table_list t)) - pt_size p + blocks size <=? tb_capacity t) = true) by (apply Z.leb_le; exact Hcap).
  rewrite Ec, andb_true_r. destruct Hlim as [->|Hlim]; [by rewrite Z.eqb_refl, orb_true_r|].
  assert (El : (sumZ (table_size t <$> table_list t (pt_group p)) - pt_size p + blocks size <=? limit) = true) by (apply Z.leb_le; exact Hlim).
  by rewrite El, !orb_true_r. Qed.

(** ** Two plans *)
Definition demo_table : Table := MkTable
  (list_to_map [("system_a"%string, MkPart "main_a" 32768 1); ("vendor_a"%string, MkPart "main_a" 16384 1);
    ("system_b"%string, MkPart "main_b" 4096 1); ("system_b-cow"%string, MkPart "cow" 8192 0)])
  (list_to_map [("default"%string, 0); ("main_a"%string, 49152); ("main_b"%string, 49152); ("cow"%string, 0)]) 57344.
(** The group is full: system_a gives vendor_a its space. *)
Definition demo_exchange : list LogicalImageSize := [MkImage "vendor_a" 32768; MkImage "system_a" 15872].
Definition demo_layout : RomImageLayout :=
  MkRomLayout [MkRomGroup "main" 40960] [MkRomPartition "system" "main" 1; MkRomPartition "product" "main" 3].
Definition demo_rom : list LogicalImageSize := [MkImage "product_a" 4096; MkImage "system_a" 8192].
Lemma demo_exchange_run : match PlanImageFlashLayout demo_table demo_exchange ["system_b-cow"%string] with
  | Some (inr b') => FindPartition b' "vendor_a" = Some (MkPart "main_a" 32768 1) /\ FindPartition b' "system_a" = Some (MkPart "main_a" 16384 1)
  | _ => False end.
Proof. vm_compute. by split. Qed.
Lemma demo_rom_run : match PlanRomImageLayout demo_table demo_layout "_a" demo_rom with inr b' => FindPartition b' "vendor_a" = None | inl _ => False end.
Proof. vm_compute. reflexivity. Qed.
Lemma plan_rom_layout_exact_witness : exists b', PlanRomImageLayout demo_table demo_layout "_a" demo_rom = inr b' /\
  FindPartition b' "system_b" = FindPartition demo_table "system_b" /\ FindPartition b' "product_a" = Some (MkPart "main_a" 0 3).
Proof.
  pose proof demo_rom_run as Hd. destruct (PlanRomImageLayout demo_table demo_layout "_a" demo_rom) as [|b'] eqn:E; [destruct Hd|].
  destruct (plan_rom_layout_exact demo_table demo_layout "_a" demo_rom b' E) as (_ & Hf & _ & _ & _ & Hp & _).
  exists b'. split_and!; [done|by apply Hf|]. apply (Hp (MkRomPartition "product" "main" 3)). right. left.
Defined.
