(* ===== verification/FlashPrepare.v ===== *)
(** partitionmanager.cpp: the Super partition during a batch of image writes.

    Prepare_Image_Flash_Targets changes the partition table and the mappings of
    the device mapper for the images to come; when nothing was written yet and
    the batch fails, the rollback of Run_Image_Flash_Batch puts both back.
    Resizing one partition and removing the copy-on-write partitions follow the
    same pattern. The table on the device is a value of [MD], the mappings are a
    finite map from names to extents; whether a call succeeds is an answer of
    the environment. *)
From stdpp Require Import base list strings gmap.
From Stdlib Require Import ZArith Lia Ascii.
From S2P Require Import Prelude Libbase CxxString PayloadFlash FlashMounts FlashRelease FlashLayout.

(** ** Partitions of the recovery *)
Record TWPartition := MkPartition {
  Mount_Point : string; Symlink_Mount_Point : string; Is_Super : bool; Can_Flash_Img : bool; Backup_DD : bool; SlotSelect : bool;
  Actual_Block_Device : string }.
Definition slash : ascii := "/".
Definition Get_Root_Path (path : string) : string :=
  let p := if String.prefix "/" path then path else ("/" ++ path)%string in
  match find_char slash (str_drop 2 p) with Some n => str_take (n + 2) p | None => p end.
Definition TW_NAS_MOUNT_POINT : string := "/mnt/nas".
Definition Is_NAS_Path (path : string) : bool := String.eqb path TW_NAS_MOUNT_POINT || String.prefix (TW_NAS_MOUNT_POINT ++ "/") path.
Definition local_path (path : string) : string :=
  let p := if Is_NAS_Path path then TW_NAS_MOUNT_POINT else Get_Root_Path path in
  if String.eqb p "/system" then "/system_root"%string else p.
Definition at_path (p : string) (part : TWPartition) : bool :=
  String.eqb (Mount_Point part) p || (negb (String.eqb (Symlink_Mount_Point part) "") && String.eqb (Symlink_Mount_Point part) p).
(** A partition is its place in the list. *)
Definition Find_Partition_By_Path (parts : list TWPartition) (path : string) : option nat :=
  fst <$> list_find (fun part => at_path (local_path path) part = true) parts.
Definition Remove_Beginning_Slash (path : string) : string := match find_char slash path with Some n => str_drop (n + 1) path | None => ""%string end.
Definition Get_Bare_Partition_Name (mount_point : string) : string :=
  if String.eqb mount_point "/system_root" then "system"%string else Remove_Beginning_Slash mount_point.
Definition bare_name (part : TWPartition) : string := Get_Bare_Partition_Name (Mount_Point part).
Definition with_block (block : string) (part : TWPartition) : TWPartition :=
  MkPartition (Mount_Point part) (Symlink_Mount_Point part) (Is_Super part) (Can_Flash_Img part) (Backup_DD part) (SlotSelect part) block.

(** ** The state of OTA snapshots *)
(** /metadata/ota/state: absent, not openable, or what fstat and the read give. *)
Inductive StateFile := NoState | StateError | StateText (regular : bool) (size : Z) (text : option string).
Record Snapshots := MkSnapshots {
  sn_virtual_ab : bool; sn_metadata_mounts : bool; sn_state : StateFile; sn_manager : option (bool * bool); sn_merge : option bool }.
Section Idle.
(** status.ParseFromString: whether the parsed state is None. *)
Context (parse_status : string -> option bool).
Definition state_none (f : StateFile) : bool :=
  match f with
  | NoState => true
  | StateError => false
  | StateText regular size text =>
      regular && (size <=? 65536) &&
      match text with
      | None => false
      | Some state => match parse_status state with Some none => none | None => String.eqb state "none" end
      end
  end.
Definition AeraSnapshotStateIdle (has_cows : bool) (sn : Snapshots) : bool :=
  if negb has_cows && negb (sn_virtual_ab sn) then true
  else sn_metadata_mounts sn && state_none (sn_state sn) &&
    match sn_manager sn with Some (none, safe) => none && safe | None => false end &&
    match sn_merge sn with Some settled => settled | None => false end.
End Idle.

(** ** The Super device *)
(** liblp over the table of the slot: builders, the names and the extents of a
    table. *)
Class LpDisk (MD B E : Type) `{!Builder B} := {
  of_table : MD -> option B;
  Export : B -> option MD;
  table_names : MD -> list string;
  extents : MD -> string -> option E }.
Class LpDiskLaws (MD B E : Type) `{!Builder B} `{!LpDisk MD B E} := {
  of_table_find (md : MD) (b : B) n : of_table md = Some b -> (is_Some (FindPartition b n) <-> n ∈ table_names md);
  extents_named (md : MD) n e : extents md n = Some e -> n ∈ table_names md }.
(** What a call meets. [Torn]: a table write that fails and leaves that table. *)
Inductive Reply (MD : Type) := Refuse | Accept | Path (s : string) | Torn (t : option MD).
Arguments Refuse {MD}.
Arguments Accept {MD}.
Arguments Path {MD} s.
Arguments Torn {MD} t.

Record Super (MD E : Type) := MkSuper {
  sp_table : option MD; sp_maps : gmap string E; sp_parts : list TWPartition;
  sp_resized : list nat; sp_changed : bool; sp_layout : list string; sp_original : list string; sp_cows : list string;
  sp_replies : list (Reply MD); sp_snapshots : list Snapshots }.
Arguments MkSuper {MD E}.
Arguments sp_table {MD E}.
Arguments sp_maps {MD E}.
Arguments sp_parts {MD E}.
Arguments sp_resized {MD E}.
Arguments sp_changed {MD E}.
Arguments sp_layout {MD E}.
Arguments sp_original {MD E}.
Arguments sp_cows {MD E}.
Arguments sp_replies {MD E}.
Arguments sp_snapshots {MD E}.
(** [None]: a null pointer is used. *)
Definition P (MD E A : Type) : Type := Super MD E -> option (A * Super MD E).
#[global] Instance P_ret {MD E} : MRet (P MD E) := fun _ x s => Some (x, s).
#[global] Instance P_bind {MD E} : MBind (P MD E) := fun _ _ k m s => '(x, s) ← m s; k x s.

Section Calls.
Context {MD B E : Type} `{!Builder B} `{!LpDisk MD B E}.
#[local] Abbreviation Super := (Super MD E).
#[local] Abbreviation P := (P MD E).
Definition set_table (t : option MD) (s : Super) : Super :=
  MkSuper t (sp_maps s) (sp_parts s) (sp_resized s) (sp_changed s) (sp_layout s) (sp_original s) (sp_cows s) (sp_replies s) (sp_snapshots s).
Definition set_maps (m : gmap string E) (s : Super) : Super :=
  MkSuper (sp_table s) m (sp_parts s) (sp_resized s) (sp_changed s) (sp_layout s) (sp_original s) (sp_cows s) (sp_replies s) (sp_snapshots s).
Definition set_parts (ps : list TWPartition) (s : Super) : Super :=
  MkSuper (sp_table s) (sp_maps s) ps (sp_resized s) (sp_changed s) (sp_layout s) (sp_original s) (sp_cows s) (sp_replies s) (sp_snapshots s).
Definition set_journal (resized : list nat) (changed : bool) (layout original cows : list string) (s : Super) : Super :=
  MkSuper (sp_table s) (sp_maps s) (sp_parts s) resized changed layout original cows (sp_replies s) (sp_snapshots s).
Definition set_replies (rs : list (Reply MD)) (sn : list Snapshots) (s : Super) : Super :=
  MkSuper (sp_table s) (sp_maps s) (sp_parts s) (sp_resized s) (sp_changed s) (sp_layout s) (sp_original s) (sp_cows s) rs sn.
Definition look {A} (f : Super -> A) : P A := fun s => Some (f s, s).
Definition change (f : Super -> Super) : P () := fun s => Some ((), f s).
Definition null {A} : P A := fun _ => None.
Definition deref {A} (x : option A) : P A := match x with Some x => mret x | None => null end.
(** The next answer; a world without answers refuses. *)
Definition ask : P (Reply MD) := fun s =>
  match sp_replies s with [] => Some (Refuse, s) | r :: rs => Some (r, set_replies rs (sp_snapshots s) s) end.
Definition accepted (r : Reply MD) : bool := match r with Accept | Path _ => true | Refuse | Torn _ => false end.
Definition SnapshotIdle (parse_status : string -> option bool) (has_cows : bool) : P bool := fun s =>
  match sp_snapshots s with
  | [] => Some (false, s)
  | sn :: rest => Some (AeraSnapshotStateIdle parse_status has_cows sn, set_replies (sp_replies s) rest s)
  end.
Definition ReadMetadata : P (option MD) := r ← ask; t ← look sp_table; mret (if accepted r then t else None).
Definition NewBuilder : P (option B) := t ← ReadMetadata; mret (t ≫= of_table).
Definition UpdatePartitionTable (md : MD) : P bool :=
  r ← ask;
  match r with
  | Refuse => mret false
  | Torn t => _ ← change (set_table t); mret false
  | Accept | Path _ => _ ← change (set_table (Some md)); mret true
  end.
Definition DestroyLogicalPartition (name : string) : P bool :=
  r ← ask;
  if accepted r then _ ← change (fun s => set_maps (delete name (sp_maps s)) s); mret true else mret false.
(** CreateLogicalPartition reads the table of the device as it is now. *)
Definition AeraMapLogicalPartition (name : string) : P (option string) :=
  r ← ask;
  t ← look sp_table;
  match r, t ≫= fun md => extents md name with
  | Path block, Some e => _ ← change (fun s => set_maps (<[name := e]> (sp_maps s)) s); mret (Some block)
  | _, _ => mret None
  end.
(** GetDmDevicePathByName: a mapped name has a path. *)
Definition GetDmDevicePathByName (name : string) : P (option string) :=
  m ← look sp_maps;
  match m !! name with
  | None => mret None
  | Some _ => r ← ask; mret (Some (match r with Path block => block | _ => ""%string end))
  end.
Definition Set_Block_Device (i : nat) (block : string) : P () := change (fun s => set_parts (alter (with_block block) i (sp_parts s)) s).
(** Find_Actual_Block_Device: the node found for the partition, if any. *)
Definition Find_Actual_Block_Device (i : nat) : P string :=
  r ← ask;
  ps ← look sp_parts;
  part ← deref (ps !! i);
  match r with Path block => _ ← Set_Block_Device i block; mret block | _ => mret (Actual_Block_Device part) end.
End Calls.

Section Prepare.
Context {MD B E : Type} `{!Builder B} `{!LpDisk MD B E} (parse_status : string -> option bool).
#[local] Abbreviation Super := (Super MD E).
#[local] Abbreviation P := (P MD E).
(** [probe]: what opening the device of a physical partition, ImageFlashGeometry
    and BLKROGET give; [suffix]: Get_Active_Slot_Suffix. *)
Context (probe : string -> option (Z * bool * bool)) (suffix : string).
(** The builder's name of a partition, with the suffix or without. *)
Definition logical_name (b : B) (bare : string) : option string :=
  if bool_decide (is_Some (FindPartition b (bare ++ suffix))) then Some (bare ++ suffix)%string
  else if bool_decide (is_Some (FindPartition b bare)) then Some bare else None.
(** ** Validate_Image_Flash_Target *)
Definition INT64_MAX : Z := 2 ^ 63 - 1.
Definition Validate_Image_Flash_Target (target : string) (bytes : Z) : P (option Z) :=
  if (bytes =? 0) || (INT64_MAX <? bytes) then mret None
  else
  ps ← look sp_parts;
  match Find_Partition_By_Path ps target ≫= fun i => part ← ps !! i; Some (i, part) with
  | None => mret None
  | Some (i, part) =>
      if Is_Super part then
        if negb (bytes mod 512 =? 0) then mret None
        else
        b ← NewBuilder;
        mret (b ← b; name ← logical_name b (bare_name part); pt_size <$> FindPartition b name)
      else if negb (Can_Flash_Img part) || negb (Backup_DD part) || negb (SlotSelect part) then mret None
      else
      block ← Find_Actual_Block_Device i;
      mret (match probe block with
            | Some (capacity, mapped, readonly) => if negb mapped && (bytes <=? capacity) && negb readonly then Some capacity else None
            | None => None
            end)
  end.

(** ** Prepare_Image_Flash_Targets *)
Definition logical_prefix : string := "/logical/".
Definition is_logical (target : string) : bool := String.prefix logical_prefix target.
Definition is_block (target : string) : bool := String.prefix "/dev/block/" target.
Definition logical_char (c : ascii) : bool :=
  let n := nat_of_ascii c in
  ((97 <=? n)%nat && (n <=? 122)%nat) || ((65 <=? n)%nat && (n <=? 90)%nat) || ((48 <=? n)%nat && (n <=? 57)%nat) || (n =? 95)%nat || (n =? 45)%nat.
Definition valid_bare (bare : string) : bool := negb (String.eqb bare "") && all_chars logical_char bare.
(** The builder is made at the first logical target. *)
Definition the_builder (b : option B) : P (option B) := match b with Some _ => mret b | None => NewBuilder end.
(** The loop over the targets: the builder, the sizes of the logical images and
    the partition of each target. *)
Fixpoint resolve (layout : bool) (targets : list string) (bytes : list Z) (b : option B) : P (string + (option B * list LogicalImageSize * list (option nat))) :=
  match targets, bytes with
  | target :: targets, n :: bytes =>
      if is_block target then
        r ← resolve layout targets bytes b;
        mret (match r with inl e => inl e | inr (b, images, parts) => inr (b, images, None :: parts) end)
      else if is_logical target then
        let bare := str_drop 9 target in
        if negb (valid_bare bare) || (n =? 0) || negb (n mod 512 =? 0) then mret (inl "Invalid package logical target"%string)
        else
        b ← the_builder b;
        match b with
        | None => mret (inl "Cannot read Super metadata"%string)
        | Some lp =>
            if negb layout && negb (bool_decide (is_Some (FindPartition lp (bare ++ suffix)%string)))
            then mret (inl ("Missing logical partition; applying ROM layout is required: " ++ bare)%string)
            else
            r ← resolve layout targets bytes b;
            mret (match r with inl e => inl e | inr (b, images, parts) => inr (b, MkImage (bare ++ suffix) n :: images, None :: parts) end)
        end
      else
        valid ← Validate_Image_Flash_Target target n;
        match valid with
        | None => mret (inl ("Invalid image flash target: " ++ target)%string)
        | Some _ =>
            ps ← look sp_parts;
            i ← deref (Find_Partition_By_Path ps target);
            part ← deref (ps !! i);
            if negb (Is_Super part) then
              r ← resolve layout targets bytes b;
              mret (match r with inl e => inl e | inr (b, images, parts) => inr (b, images, Some i :: parts) end)
            else
            b ← the_builder b;
            match b with
            | None => mret (inl "Cannot read Super metadata for the image batch"%string)
            | Some lp =>
                match logical_name lp (bare_name part) with
                | None => mret (inl ("Missing logical target: " ++ bare_name part)%string)
                | Some name =>
                    r ← resolve layout targets bytes b;
                    mret (match r with inl e => inl e | inr (b, images, parts) => inr (b, MkImage name n :: images, Some i :: parts) end)
                end
            end
        end
  | _, _ => mret (inr (b, [], []))
  end.
Definition cow_name (name : string) : bool := (4 <? String.length name)%nat && ends_with name "-cow".
Definition cow_names (b : B) : list string := filter (fun name => cow_name name = true) (ListPartitionsInGroup b "cow").
(** std::set: the partitions of the slot and the selected ones, in order. *)
Definition affected (b : B) (images : list LogicalImageSize) : list string :=
  (foldl (fun m name => set_insert name m) []
     (filter (fun name => has_suffix suffix name = true) (all_partitions b) ++ names_of images)).*1.
Fixpoint changed_names (b : B) (images : list LogicalImageSize) : option (list string) :=
  match images with
  | [] => Some []
  | image :: images =>
      part ← FindPartition b (im_name image);
      rest ← changed_names b images;
      Some (if pt_size part =? im_bytes image then rest else im_name image :: rest)
  end.
Definition logical_targets (targets : list string) : list string := (fun t => str_drop 9 t ++ suffix)%string <$> filter (fun t => is_logical t = true) targets.
Definition resized_part (changed : list string) (part : TWPartition) : bool :=
  Is_Super part && (bool_decide ((bare_name part ++ suffix)%string ∈ changed) || bool_decide (bare_name part ∈ changed)).
Definition resized_parts (ps : list TWPartition) (changed : list string) (parts : list (option nat)) : list nat :=
  omap (fun i => i ← i; part ← ps !! i; if resized_part changed part then Some i else None) parts.
(** Mapped names are recorded, then released. *)
Fixpoint release_layout (names : list string) : P (option string) :=
  match names with
  | [] => mret None
  | name :: names =>
      mapped ← GetDmDevicePathByName name;
      match mapped with
      | None => release_layout names
      | Some _ =>
          _ ← change (fun s => set_journal (sp_resized s) (sp_changed s) (sp_layout s) (sp_original s ++ [name]) (sp_cows s) s);
          ok ← DestroyLogicalPartition name;
          if ok : bool then release_layout names else mret (Some ("Cannot release ROM layout target: " ++ name)%string)
      end
  end.
Fixpoint release_changed (changed : list string) : P (option string) :=
  match changed with
  | [] => mret None
  | name :: changed =>
      layout ← look sp_layout;
      if bool_decide (name ∈ layout) then release_changed changed
      else
      ok ← DestroyLogicalPartition name;
      if ok : bool then release_changed changed else mret (Some ("Cannot release logical target: " ++ name)%string)
  end.
Fixpoint release_cows (cows : list string) : P (option string) :=
  match cows with
  | [] => mret None
  | name :: cows =>
      node ← ask;
      if negb (accepted node) then release_cows cows
      else
      ok ← DestroyLogicalPartition name;
      if negb ok then mret (Some ("Stale COW is still in use: " ++ name)%string)
      else
      _ ← change (fun s => set_journal (sp_resized s) (sp_changed s) (sp_layout s) (sp_original s) (sp_cows s ++ [name]) s);
      release_cows cows
  end.
(** Set_Block_Device for every resized partition of that name. *)
Definition rebase (name block : string) : P () := change (fun s =>
  set_parts (foldl (fun ps i => alter (fun part =>
    if String.eqb name (bare_name part) || String.eqb name (bare_name part ++ suffix) then with_block block part else part) i ps) (sp_parts s) (sp_resized s)) s).
Fixpoint map_prepared (names : list string) : P (option string) :=
  match names with
  | [] => mret None
  | name :: names =>
      block ← AeraMapLogicalPartition name;
      match block with
      | None => mret (Some ("Cannot map prepared target: " ++ name)%string)
      | Some block => _ ← rebase name block; map_prepared names
      end
  end.
(** Steps that may fail, one after the other. *)
Definition andThen (m k : P (option string)) : P (option string) := e ← m; match e with Some _ => mret e | None => k end.
(** From the first recorded mapping to the last new one. *)
Definition commit (rom : bool) (images : list LogicalImageSize) (parts : list (option nat)) (changed cows : list string) (updated : MD) : P (option string) :=
  _ ← change (fun s => set_journal (sp_resized s ++ resized_parts (sp_parts s) changed parts) (sp_changed s) (sp_layout s) (sp_original s) (sp_cows s) s);
  andThen (names ← look sp_layout; release_layout names) (
  andThen (release_changed changed) (
  andThen (release_cows cows) (
  idle ← SnapshotIdle parse_status (negb (bool_decide (cows = [])));
  if negb idle then mret (Some "Snapshot state changed before preparation"%string)
  else
  _ ← change (fun s => set_journal (sp_resized s) true (sp_layout s) (sp_original s) (sp_cows s) s);
  ok ← UpdatePartitionTable updated;
  if negb ok then mret (Some "Cannot commit the prepared Super layout"%string)
  else map_prepared (if rom then names_of images else changed)))).
Definition set_layout (names : list string) : P () := change (fun s => set_journal (sp_resized s) (sp_changed s) names (sp_original s) (sp_cows s) s).
Definition prepare_super (layout : option RomImageLayout) (targets : list string) (images : list LogicalImageSize) (parts : list (option nat)) (b : B) : P (option string) :=
  let cows := cow_names b in
  idle ← SnapshotIdle parse_status (negb (bool_decide (cows = [])));
  if negb idle then mret (Some "OTA snapshots are active or their state cannot be verified; no images written"%string)
  else
  let rom := match layout with Some layout => PlanRomImageLayout b layout suffix images | None => inr b end in
  match rom with
  | inl e => mret (Some e)
  | inr b' =>
      _ ← (match layout with Some _ => set_layout (affected b images) | None => mret () end);
      changed ← deref (changed_names b' images);
      _ ← (match layout with
           | Some _ => mret ()
           | None => names ← look sp_layout; set_layout (names ++ filter (.∈ changed) (logical_targets targets))
           end);
      plan ← deref (PlanImageFlashLayout b' images cows);
      match plan with
      | inl e => mret (Some e)
      | inr b'' =>
          match Export b'' with
          | None => mret (Some "The complete image layout exceeds Super metadata/group limits"%string)
          | Some updated =>
              if bool_decide (is_Some layout) || negb (bool_decide (changed = [])) || negb (bool_decide (cows = []))
              then commit (bool_decide (is_Some layout)) images parts changed cows updated
              else mret None
          end
      end
  end.
(** The last loop: a block device for every target. *)
Fixpoint find_blocks (targets : list string) (parts : list (option nat)) : P (string + list string) :=
  match targets, parts with
  | target :: targets, part :: parts =>
      block ← (if is_logical target then
                 let name := (str_drop 9 target ++ suffix)%string in
                 mapped ← GetDmDevicePathByName name;
                 match mapped with
                 | Some block => mret (inr block)
                 | None => block ← AeraMapLogicalPartition name;
                     mret (match block with Some block => inr block | None => inl "Cannot map ROM image target"%string end)
                 end
               else match part with
                    | None => mret (inr (if is_block target then target else ""%string))
                    | Some i => block ← Find_Actual_Block_Device i;
                        mret (if String.eqb block "" then inl ("Prepared target has no block device: " ++ target)%string else inr block)
                    end);
      match block with
      | inl e => mret (inl e)
      | inr block => rest ← find_blocks targets parts; mret (match rest with inl e => inl e | inr blocks => inr (block :: blocks) end)
      end
  | _, _ => mret (inr [])
  end.
(** [inl None]: false without a message. *)
Definition Prepare_Image_Flash_Targets (image_flash_batch : bool) (targets : list string) (bytes : list Z) (layout : option RomImageLayout) :
    P (option string + list string) :=
  if negb image_flash_batch || bool_decide (targets = []) || negb (length targets =? length bytes)%nat then mret (inl None)
  else
  r ← resolve (bool_decide (is_Some layout)) targets bytes None;
  match r with
  | inl e => mret (inl (Some e))
  | inr (b, images, parts) =>
      e ← (match b with Some b => prepare_super layout targets images parts b | None => mret None end);
      match e with
      | Some e => mret (inl (Some e))
      | None => blocks ← find_blocks targets parts; mret (match blocks with inl e => inl (Some e) | inr blocks => inr blocks end)
      end
  end.
End Prepare.

(** ** The rollback of Run_Image_Flash_Batch *)
Inductive Rolled := NothingToDo | Unidentified | Incomplete | Restored.
Section Rollback.
Context {MD B E : Type} `{!Builder B} `{!LpDisk MD B E} (suffix : string).
#[local] Abbreviation Super := (Super MD E).
#[local] Abbreviation P := (P MD E).
(** The original name of a partition, with the suffix or without. *)
Definition original_name (md : MD) (bare : string) : option string :=
  if bool_decide ((bare ++ suffix)%string ∈ table_names md) then Some (bare ++ suffix)%string
  else if bool_decide (bare ∈ table_names md) then Some bare else None.
Fixpoint original_names (md : MD) (ps : list TWPartition) (resized : list nat) : option (option (list (nat * string))) :=
  match resized with
  | [] => Some (Some [])
  | i :: resized =>
      part ← ps !! i;
      match original_name md (bare_name part) with
      | None => Some None
      | Some name => rest ← original_names md ps resized; Some (fmap (cons (i, name)) rest)
      end
  end.
(** Whether all of them could be released. *)
Fixpoint release_mapped (names : list string) : P bool :=
  match names with
  | [] => mret true
  | name :: names =>
      mapped ← GetDmDevicePathByName name;
      ok ← (match mapped with Some _ => DestroyLogicalPartition name | None => mret true end);
      rest ← release_mapped names;
      mret (ok && rest)
  end.
Fixpoint release_all (names : list string) : P bool :=
  match names with
  | [] => mret true
  | name :: names => ok ← DestroyLogicalPartition name; rest ← release_all names; mret (ok && rest)
  end.
Fixpoint remap_parts (entries : list (nat * string)) : P bool :=
  match entries with
  | [] => mret true
  | (i, name) :: entries =>
      block ← AeraMapLogicalPartition name;
      _ ← (match block with Some block => Set_Block_Device i block | None => mret () end);
      rest ← remap_parts entries;
      mret (bool_decide (is_Some block) && rest)
  end.
Fixpoint remap_names (names : list string) : P bool :=
  match names with
  | [] => mret true
  | name :: names => block ← AeraMapLogicalPartition name; rest ← remap_names names; mret (bool_decide (is_Some block) && rest)
  end.
Definition rollback (original : option MD) : P Rolled :=
  s ← look id;
  match original with
  | None => mret NothingToDo
  | Some md =>
      if bool_decide (sp_resized s = []) && negb (sp_changed s) && bool_decide (sp_cows s = []) && bool_decide (sp_layout s = []) then mret NothingToDo
      else
      mappings ← deref (original_names md (sp_parts s) (sp_resized s));
      match mappings with
      | None => mret Unidentified
      | Some mappings =>
          free1 ← release_mapped (sp_layout s);
          free2 ← release_all (mappings.*2);
          restored ← (if free1 && free2 then UpdatePartitionTable md else mret false);
          m1 ← remap_parts mappings;
          m2 ← remap_names (filter (.∈ table_names md) (sp_original s));
          m3 ← remap_names (sp_cows s);
          mret (if restored && (m1 && m2 && m3) then Restored else Incomplete)
      end
  end.
End Rollback.

(** ** Run_Image_Flash_Batch *)
Section Batch.
Context {MD B E : Type} `{!Builder B} `{!LpDisk MD B E} `{SizeSort} `{AndroidBase}.
#[local] Abbreviation Super := (Super MD E).
Context (env : Env) (replay : bool) (suffix : string).
(** The devices behind the physical targets and whether there is a logical one;
    [None]: a target has no block device. [find_block]: Find_Actual_Block_Device. *)
Context (find_block : nat -> string).
Fixpoint target_devices (nodes : string -> Node) (ps : list TWPartition) (targets : list string) : option (gset Z * bool) :=
  match targets with
  | [] => Some (∅, false)
  | target :: targets =>
      let logical := '(devices, _) ← target_devices nodes ps targets; Some (devices, true) in
      let physical block :=
        match nodes block with
        | BlockNode _ rdev => '(devices, l) ← target_devices nodes ps targets; Some ({[rdev]} ∪ devices, l)
        | _ => None
        end in
      if is_logical target then logical
      else if is_block target then physical target
      else
      match Find_Partition_By_Path ps target ≫= fun i => part ← ps !! i; Some (i, part) with
      | None => None
      | Some (i, part) => if Is_Super part then logical else physical (find_block i)
      end
  end.
(** The state of the call: mounts and services, Super, the checkpoint, what the
    rollback did and what the end did. *)
Record Batch := MkBatch {
  bt_flash : Flash; bt_super : Super; bt_checkpoint : option MD; bt_rolled : option Rolled; bt_events : list Event }.
Definition clear_journal (s : Super) : Super := set_journal [] false [] [] [] s.
(** [writer]: a writer_started callback was given. *)
Definition batch_prepare (writer logical : bool) (devices : gset Z) (b : Batch) : option (bool * Batch) :=
  '(ready, f) ← QuiesceDynamicPartitionUsers env true true devices (bt_flash b);
  let b := MkBatch f (bt_super b) (bt_checkpoint b) (bt_rolled b) (bt_events b) in
  if negb ready then Some (false, b)
  else if writer && logical then
    '(md, s) ← ReadMetadata (bt_super b);
    Some (bool_decide (is_Some md), MkBatch f s md (bt_rolled b) (bt_events b))
  else Some (true, b).
Definition batch_rollback (b : Batch) : option Batch :=
  '(r, s) ← rollback suffix (bt_checkpoint b) (bt_super b);
  Some (MkBatch (bt_flash b) s (bt_checkpoint b) (Some r) (bt_events b)).
Definition Restart_Quiesced_Dynamic_Services (f : Flash) : option (list string * Flash) :=
  if bool_decide (fl_services f = []) then Some ([], f)
  else RestartDynamicServices (fl_services f) (MkFlash (fl_world f) [] (fl_mounts f)).
Definition batch_restore (b : Batch) : option Batch :=
  '(_, f) ← restore_each (rev (fl_mounts (bt_flash b))) (bt_flash b);
  let events := if replay then bt_events b ++ [Replayed] else bt_events b in
  '(started, f) ← Restart_Quiesced_Dynamic_Services f;
  Some (MkBatch f (clear_journal (bt_super b)) (bt_checkpoint b) (bt_rolled b) (events ++ [Restarted started])).
(** [operation] acts on the devices; [writer_started]: the callback, if given. *)
Definition Run_Image_Flash_Batch (targets : list string) (operation : Batch -> option (bool * Batch)) (writer_started : option (Batch -> bool))
    (active : bool) (f : Flash) (s : Super) : option (bool * bool * Batch) :=
  let start := MkBatch (MkFlash (fl_world f) (fl_services f) []) s None None [] in
  if active then Some (false, active, start)
  else
  match target_devices (node (fl_world f)) (sp_parts s) targets with
  | None => Some (false, active, start)
  | Some (devices, logical) =>
      let start := MkBatch (bt_flash start) (clear_journal s) None None [] in
      let run (m : Batch -> option (bool * Batch)) (b : option Batch) : bool * option Batch :=
        match b ≫= m with Some (ok, b) => (ok, Some b) | None => (false, None) end in
      let started (b : option Batch) : bool := match writer_started, b with Some w, Some b => w b | _, _ => true end in
      let '(ok, (active, b)) := RunPreparedImageFlashBatch (run (batch_prepare (bool_decide (is_Some writer_started)) logical devices)) (run operation)
        (fun b => b ≫= batch_restore) started (fun b => b ≫= batch_rollback) active (Some start) in
      b ← b; Some (ok, active, b)
  end.
End Batch.

(** The members of a std::set filled in a loop. *)
Lemma set_of_names l (m : smap ()) n : n ∈ (foldl (fun m name => set_insert name m) m l).*1 <-> n ∈ m.*1 \/ n ∈ l.
Proof.
  revert m. induction l as [|x l IH]; intros m; cbn; [set_solver|]. rewrite IH. unfold set_insert. rewrite smap_set_keys. set_solver.
Qed.

(** ** What a call leaves alone *)
Section Frame.
Context {MD B E : Type} `{!Builder B} `{!LpDisk MD B E}.
#[local] Abbreviation Super := (Super MD E).
#[local] Abbreviation P := (P MD E).
Implicit Types (s : Super) (names : list string).
Definition journal s := (sp_resized s, sp_changed s, sp_layout s, sp_original s, sp_cows s).
Definition mounts s : list (string * bool) := (fun p => (Mount_Point p, Is_Super p)) <$> sp_parts s.
(** Only the mappings of [names] may differ. *)
Definition frame names s s' : Prop :=
  sp_table s' = sp_table s /\ (forall n, n ∉ names -> sp_maps s' !! n = sp_maps s !! n) /\ journal s' = journal s /\ mounts s' = mounts s.
Definition within {A} names (m : P A) : Prop := forall s x s', m s = Some (x, s') -> frame names s s'.
Lemma P_bind_inv {A C} (m : P A) (k : A -> P C) s y s' : (m ≫= k) s = Some (y, s') -> exists x s1, m s = Some (x, s1) /\ k x s1 = Some (y, s').
Proof. unfold mbind, P_bind. destruct (m s) as [[x s1]|]; [|done]. cbn. eauto. Qed.
Lemma super_frame_refl names s : frame names s s.
Proof. by repeat split. Qed.
Lemma super_frame_trans names s1 s2 s3 : frame names s1 s2 -> frame names s2 s3 -> frame names s1 s3.
Proof. intros (T1 & M1 & J1 & O1) (T2 & M2 & J2 & O2). split_and!; [congruence| |congruence|congruence]. intros n Hn. by rewrite M2, M1. Qed.
Lemma frame_weaken names names' s s' : (forall n, n ∈ names -> n ∈ names') -> frame names s s' -> frame names' s s'.
Proof. intros H (T1 & M1 & J1 & O1). split_and!; try done. intros n Hn. apply M1. intros ?. by apply Hn, H. Qed.
Lemma within_ret {A} names (x : A) : within names (mret x).
Proof. intros s y s' [= <- <-]. apply super_frame_refl. Qed.
Lemma within_null {A} names : within names (null (A := A)).
Proof. done. Qed.
Lemma within_deref {A} names (x : option A) : within names (deref x).
Proof. destruct x; [apply within_ret|apply within_null]. Qed.
Lemma within_bind {A C} names (m : P A) (k : A -> P C) : within names m -> (forall x, within names (k x)) -> within names (m ≫= k).
Proof. intros Hm Hk s y s' (x & s1 & E1 & E2)%P_bind_inv. eapply super_frame_trans; [by eapply Hm|by eapply Hk]. Qed.
Lemma within_look {A} names (f : Super -> A) : within names (look f).
Proof. intros s y s' [= <- <-]. apply super_frame_refl. Qed.
Lemma within_ask names : within names ask.
Proof. intros s y s'. unfold ask. destruct (sp_replies s); intros [= <- <-]; by repeat split. Qed.
Lemma within_idle names f c : within names (SnapshotIdle f c).
Proof. intros s y s'. unfold SnapshotIdle. destruct (sp_snapshots s); intros [= <- <-]; by repeat split. Qed.
Lemma within_weaken {A} names names' (m : P A) : (forall n, n ∈ names -> n ∈ names') -> within names m -> within names' m.
Proof. intros H Hm s x s' Hs. eapply frame_weaken; [done|by eapply Hm]. Qed.
Lemma mounts_alter s f i : (forall p, Mount_Point (f p) = Mount_Point p /\ Is_Super (f p) = Is_Super p) -> mounts (set_parts (alter f i (sp_parts s)) s) = mounts s.
Proof.
  intros Hf. unfold mounts. cbn. apply list_eq. intros j. rewrite !list_lookup_fmap. destruct (decide (i = j)) as [->|].
  - rewrite list_lookup_alter_eq. destruct (sp_parts s !! j) as [p|]; [|done]. cbn. by destruct (Hf p) as [-> ->].
  - by rewrite list_lookup_alter_ne.
Qed.
End Frame.
Ltac within_tac := repeat first [apply within_ret | apply within_null | apply within_deref | apply within_look | apply within_ask | apply within_idle |
  apply within_bind; [|intros] | case_match | progress cbn beta iota].
Tactic Notation "pstep" hyp(H) ident(x) ident(s) ident(Eq) := apply P_bind_inv in H as (x & s & Eq & H).

Section FrameCalls.
Context {MD B E : Type} `{!Builder B} `{!LpDisk MD B E}.
#[local] Abbreviation Super := (Super MD E).
#[local] Abbreviation P := (P MD E).
Implicit Types (s : Super) (names : list string).
Lemma within_block names i block : within names (Set_Block_Device (MD := MD) (E := E) i block).
Proof. intros s y s' [= <- <-]. split_and!; try done. by apply mounts_alter. Qed.
Lemma within_actual names i : within names (Find_Actual_Block_Device (MD := MD) (E := E) i).
Proof. unfold Find_Actual_Block_Device. within_tac; apply within_block. Qed.
Lemma within_read names : within names (ReadMetadata (MD := MD) (E := E)).
Proof. unfold ReadMetadata. within_tac. Qed.
Lemma within_builder names : within names (NewBuilder (MD := MD) (B := B) (E := E)).
Proof. unfold NewBuilder. within_tac. Qed.
Lemma within_path names name : within names (GetDmDevicePathByName (MD := MD) (E := E) name).
Proof. unfold GetDmDevicePathByName. within_tac. Qed.
Lemma within_destroy names name : name ∈ names -> within names (DestroyLogicalPartition (MD := MD) (E := E) name).
Proof.
  intros Hn. unfold DestroyLogicalPartition. within_tac. intros sa y sb [= <- <-]. split_and!; try done. cbn. intros n Ho. apply lookup_delete_ne. congruence.
Qed.
Lemma within_map names name : name ∈ names -> within names (AeraMapLogicalPartition (MD := MD) (B := B) (E := E) name).
Proof.
  intros Hn. unfold AeraMapLogicalPartition. within_tac; intros sa y sb [= <- <-]; split_and!; try done; cbn; intros n' Ho; apply lookup_insert_ne; congruence.
Qed.
Lemma destroy_spec name s ok s' : DestroyLogicalPartition (MD := MD) (E := E) name s = Some (ok, s') ->
  frame [name] s s' /\ if ok then sp_maps s' !! name = None else sp_maps s' = sp_maps s.
Proof.
  intros H. split; [eapply within_destroy; [left|exact H]|]. unfold DestroyLogicalPartition in H. pstep H r s1 Er.
  assert (sp_maps s1 = sp_maps s) as Hm by (unfold ask in Er; destruct (sp_replies s); by injection Er as <- <-).
  destruct (accepted r); [pstep H u s2 Eu; injection Eu as <- <-|]; injection H as <- <-; [cbn; apply lookup_delete_eq|done].
Qed.
Lemma map_spec name s block s' : AeraMapLogicalPartition (MD := MD) (B := B) (E := E) name s = Some (block, s') ->
  frame [name] s s' /\ match block with Some _ => exists md e, sp_table s = Some md /\ extents md name = Some e /\ sp_maps s' !! name = Some e | None => sp_maps s' = sp_maps s end.
Proof.
  intros H. split; [eapply within_map; [left|exact H]|]. unfold AeraMapLogicalPartition in H. pstep H r s1 Er.
  assert (sp_maps s1 = sp_maps s /\ sp_table s1 = sp_table s) as [Hm Ht] by (unfold ask in Er; destruct (sp_replies s); by injection Er as <- <-).
  pstep H t s2 Et. injection Et as <- <-. rewrite Ht in H. destruct (sp_table s) as [md|]; cbn in H; [|destruct r; by injection H as <- <-].
  destruct (extents md name) as [e|] eqn:Ee; [|destruct r; by injection H as <- <-]. destruct r; try by injection H as <- <-.
  pstep H u s3 Eu. injection Eu as <- <-. injection H as <- <-. exists md, e. split_and!; try done. cbn. apply lookup_insert_eq.
Qed.
Lemma path_spec name s block s' : GetDmDevicePathByName (MD := MD) (E := E) name s = Some (block, s') ->
  frame [] s s' /\ sp_maps s' = sp_maps s /\ (is_Some block <-> is_Some (sp_maps s !! name)).
Proof.
  intros H. split; [by eapply within_path|]. unfold GetDmDevicePathByName in H. pstep H m s1 Em. injection Em as <- <-.
  destruct (sp_maps s !! name) eqn:El; [|injection H as <- <-; by rewrite ?El]. pstep H r s2 Er.
  assert (sp_maps s2 = sp_maps s) by (unfold ask in Er; destruct (sp_replies s); by injection Er as <- <-). injection H as <- <-. by rewrite ?El.
Qed.
Lemma update_spec md s ok s' : UpdatePartitionTable (E := E) md s = Some (ok, s') ->
  sp_maps s' = sp_maps s /\ journal s' = journal s /\ mounts s' = mounts s /\ (ok = true -> sp_table s' = Some md).
Proof.
  intros H. unfold UpdatePartitionTable in H. pstep H r s1 Er. assert (sp_maps s1 = sp_maps s /\ journal s1 = journal s /\ mounts s1 = mounts s) as (<- & <- & <-)
    by (unfold ask in Er; destruct (sp_replies s); by injection Er as <- <-).
  destruct r; [injection H as <- <-; done|..]; pstep H u s2 Eu; injection Eu as <- <-; injection H as <- <-; done.
Qed.
End FrameCalls.

(** ** The rollback *)
Section RollbackProofs.
Context {MD B E : Type} `{!Builder B} `{!LpDisk MD B E} (suffix : string).
#[local] Abbreviation Super := (Super MD E).
#[local] Abbreviation P := (P MD E).
Implicit Types (s : Super) (names : list string).
Lemma frame_cons name names s1 s2 s3 : frame [name] s1 s2 -> frame names s2 s3 -> frame (name :: names) s1 s3.
Proof using Type. intros H1 H2. eapply super_frame_trans; eapply frame_weaken; [|exact H1| |exact H2]; set_solver. Qed.
(** A release removes mappings only. *)
Definition released_to names s s' : Prop := frame names s s' /\ forall n, sp_maps s !! n = None -> sp_maps s' !! n = None.
Lemma destroy_released name s ok s' : DestroyLogicalPartition name s = Some (ok, s') -> released_to [name] s s' /\ (ok = true -> sp_maps s' !! name = None).
Proof.
  intros (Hf & Hm)%destroy_spec. split_and!; [|by destruct ok]. split; [done|]. intros n Hn.
  destruct ok; [|by rewrite Hm]. destruct (decide (n = name)) as [->|]; [done|]. destruct Hf as (_ & Hf & _). by rewrite Hf by set_solver.
Qed.
Lemma released_cons name names s1 s2 s3 : released_to [name] s1 s2 -> released_to names s2 s3 -> released_to (name :: names) s1 s3.
Proof. intros [H1 N1] [H2 N2]. split; [by eapply frame_cons|]. auto. Qed.
Lemma framed_released s s' name : frame [] s s' -> sp_maps s' = sp_maps s -> released_to [name] s s'.
Proof. intros H1 H2. split; [eapply frame_weaken; [|exact H1]; set_solver|]. by rewrite H2. Qed.
Lemma release_all_spec names s ok s' : release_all names s = Some (ok, s') ->
  released_to names s s' /\ (ok = true -> forall n, n ∈ names -> sp_maps s' !! n = None).
Proof.
  revert s ok s'. induction names as [|name names IH]; intros s ok s' H; cbn in H.
  - injection H as <- <-. split; [split; [apply super_frame_refl|done]|]. intros _ n Hn. by apply elem_of_nil in Hn.
  - pstep H ok1 s1 E1. pstep H ok2 s2 E2. injection H as <- <-. apply destroy_released in E1 as [R1 O1]. apply IH in E2 as [R2 O2].
    split; [by eapply released_cons|]. intros [-> ->]%andb_true_iff n [->|Hn]%elem_of_cons; [apply (proj2 R2); by apply O1|by apply O2].
Qed.
Lemma release_mapped_spec names s ok s' : release_mapped names s = Some (ok, s') ->
  released_to names s s' /\ (ok = true -> forall n, n ∈ names -> sp_maps s' !! n = None).
Proof.
  revert s ok s'. induction names as [|name names IH]; intros s ok s' H; cbn in H.
  - injection H as <- <-. split; [split; [apply super_frame_refl|done]|]. intros _ n Hn. by apply elem_of_nil in Hn.
  - pstep H block s1 E1. apply path_spec in E1 as (F1 & M1 & B1). pstep H ok1 s2 E2. pstep H ok2 s3 E3. injection H as <- <-. apply IH in E3 as [R3 O3].
    assert (released_to [name] s s2 /\ (ok1 = true -> sp_maps s2 !! name = None)) as [R2 O2].
    { destruct block as [block|].
      - apply destroy_released in E2 as [[F2 N2] O2]. split; [|done]. split; [eapply super_frame_trans; [eapply frame_weaken; [|exact F1]; set_solver|done]|]. intros n Hn. apply N2. by rewrite M1.
      - injection E2 as <- <-. split; [by apply framed_released|]. intros _. rewrite M1. apply eq_None_not_Some. intros Hs. apply B1 in Hs. by destruct Hs. }
    split; [by eapply released_cons|]. intros [-> ->]%andb_true_iff n [->|Hn]%elem_of_cons; [apply (proj2 R3); by apply O2|by apply O3].
Qed.
(** Mapping again, with the table [md] on the device. *)
Definition mapped_to (md : MD) names s : Prop := forall n, n ∈ names -> exists e, extents md n = Some e /\ sp_maps s !! n = Some e.
Lemma mapped_frame md names l s s' : mapped_to md names s -> frame l s s' -> mapped_to md l s' -> mapped_to md (names ++ l) s'.
Proof.
  intros Hm (_ & Hf & _) Hl n Hn. destruct (decide (n ∈ l)) as [|Ho]; [by apply Hl|]. rewrite Hf by done. apply Hm. set_solver.
Qed.
Lemma map_one md name s block s' : sp_table s = Some md -> AeraMapLogicalPartition name s = Some (block, s') ->
  frame [name] s s' /\ sp_table s' = Some md /\ (is_Some block -> mapped_to md [name] s').
Proof.
  intros Ht (Hf & Hm)%map_spec. split_and!; [done|by rewrite (proj1 Hf)|]. intros [b ->] n Hn. apply list_elem_of_singleton in Hn as ->.
  destruct Hm as (md' & e & ? & ? & ?). exists e. split; [congruence|done].
Qed.
Lemma remap_names_spec md names s ok s' : sp_table s = Some md -> remap_names names s = Some (ok, s') ->
  frame names s s' /\ (ok = true -> mapped_to md names s').
Proof.
  revert s ok s'. induction names as [|name names IH]; intros s ok s' Ht H; cbn in H.
  - injection H as <- <-. split; [apply super_frame_refl|]. intros _ n Hn. by apply elem_of_nil in Hn.
  - pstep H block s1 E1. destruct (map_one _ _ _ _ _ Ht E1) as (F1 & T1 & M1). pstep H rest s2 E2. injection H as <- <-. destruct (IH _ _ _ T1 E2) as [F2 M2].
    split; [by eapply frame_cons|]. intros [Hb%bool_decide_eq_true ->]%andb_true_iff. apply (mapped_frame _ [name] _ s1); [by apply M1|done|by apply M2].
Qed.
Lemma remap_parts_spec md entries s ok s' : sp_table s = Some md -> remap_parts entries s = Some (ok, s') ->
  frame (entries.*2) s s' /\ (ok = true -> mapped_to md (entries.*2) s').
Proof.
  revert s ok s'. induction entries as [|[i name] entries IH]; intros s ok s' Ht H; cbn in H.
  - injection H as <- <-. split; [apply super_frame_refl|]. intros _ n Hn. by apply elem_of_nil in Hn.
  - pstep H block s1 E1. destruct (map_one _ _ _ _ _ Ht E1) as (F1 & T1 & M1). pstep H u s2 E2. pstep H rest s3 E3. injection H as <- <-.
    assert (frame [] s1 s2) as F2 by (destruct block; [by eapply within_block|injection E2 as <- <-; apply super_frame_refl]).
    assert (sp_table s2 = Some md) as T2 by (by rewrite (proj1 F2)). destruct (IH _ _ _ T2 E3) as [F3 M3].
    assert (frame (entries.*2) s1 s3) as F13 by (eapply super_frame_trans; [eapply frame_weaken; [|exact F2]; set_solver|exact F3]).
    split; [by eapply frame_cons|]. intros [Hb%bool_decide_eq_true ->]%andb_true_iff. apply (mapped_frame _ [name] _ s1); [by apply M1|done|by apply M3].
Qed.
Definition original_of (md : MD) s (n : string) : Prop :=
  exists i mp super, i ∈ sp_resized s /\ mounts s !! i = Some (mp, super) /\ original_name suffix md (Get_Bare_Partition_Name mp) = Some n.
Lemma original_names_spec md ps resized mappings : original_names suffix md ps resized = Some (Some mappings) -> forall n,
  n ∈ mappings.*2 <-> exists i part, i ∈ resized /\ ps !! i = Some part /\ original_name suffix md (bare_name part) = Some n.
Proof.
  revert mappings. induction resized as [|i resized IH]; intros mappings H n; cbn in H.
  - injection H as <-. split; [intros Hn; by apply elem_of_nil in Hn|]. intros (i & ? & Hi & _). by apply elem_of_nil in Hi.
  - destruct (ps !! i) as [part|] eqn:Ep; [|done]. cbn in H. destruct (original_name suffix md _) as [name|] eqn:En; [|done].
    destruct (original_names suffix md ps resized) as [[rest|]|]; try done. injection H as <-. cbn. rewrite elem_of_cons, (IH rest eq_refl). split.
    + intros [->|(j & p & Hj & ? & ?)]; [exists i, part; split; [left|done]|exists j, p; split; [by right|done]].
    + intros (j & p & [->|Hj]%elem_of_cons & Hp & Ho); [left; congruence|right; eauto].
Qed.
Lemma rollback_spec md s s' : rollback suffix (Some md) s = Some (Restored, s') ->
  sp_table s' = Some md /\ forall n,
  ((original_of md s n \/ (n ∈ sp_original s /\ n ∈ table_names md) \/ n ∈ sp_cows s) /\ exists e, extents md n = Some e /\ sp_maps s' !! n = Some e) \/
  (~ (original_of md s n \/ (n ∈ sp_original s /\ n ∈ table_names md) \/ n ∈ sp_cows s) /\
   sp_maps s' !! n = if decide (n ∈ sp_layout s) then None else sp_maps s !! n).
Proof.
  unfold rollback. intros H. pstep H s0 s1 E0. injection E0 as <- <-. cbn [id] in H. destruct (_ && _); [done|]. pstep H maps s1 E1.
  destruct (original_names _ _ _ _) as [maps'|] eqn:En; [|done]. injection E1 as <- <-. destruct maps' as [mappings|]; [|done].
  pstep H free1 s2 E2. pstep H free2 s3 E3. pstep H restored s4 E4. pstep H m1 s5 E5. pstep H m2 s6 E6. pstep H m3 s7 E7.
  destruct (restored && (m1 && m2 && m3)) eqn:Ok; [|done]. injection H as <-. apply andb_true_iff in Ok as [-> Ok]. apply andb_true_iff in Ok as [Ok ->]. apply andb_true_iff in Ok as [-> ->].
  destruct (free1 && free2) eqn:Fr; [|done]. apply andb_true_iff in Fr as [-> ->].
  apply release_mapped_spec in E2 as [[F2 _] O2]. apply release_all_spec in E3 as [[F3 N3] O3]. apply update_spec in E4 as (M4 & _ & _ & T4).
  destruct (remap_parts_spec md _ _ _ _ (T4 eq_refl) E5) as [F5 R5]. assert (T5 : sp_table s5 = Some md) by (rewrite (proj1 F5); auto).
  destruct (remap_names_spec md _ _ _ _ T5 E6) as [F6 R6]. assert (T6 : sp_table s6 = Some md) by (by rewrite (proj1 F6)).
  destruct (remap_names_spec md _ _ _ _ T6 E7) as [F7 R7]. split; [by rewrite (proj1 F7)|]. intros n.
  pose proof (mapped_frame _ _ _ _ _ (mapped_frame _ _ _ _ _ (R5 eq_refl) F6 (R6 eq_refl)) F7 (R7 eq_refl)) as Hall.
  pose proof (original_names_spec _ _ _ _ En n) as Hn.
  assert (Ho : n ∈ mappings.*2 <-> original_of md s n).
  { rewrite Hn. unfold original_of, mounts. setoid_rewrite list_lookup_fmap. split.
    - intros (i & part & Hi & Hp & Hx). exists i, (Mount_Point part), (Is_Super part). by rewrite Hp.
    - intros (i & mp & su & Hi & Hp & Hx). destruct (sp_parts s !! i) as [part|] eqn:Ep; [|done]. injection Hp as <- <-. by exists i, part. }
  destruct (decide (n ∈ (mappings.*2 ++ filter (.∈ table_names md) (sp_original s)) ++ sp_cows s)) as [Hin|Hout].
  - left. split; [|by apply Hall]. rewrite !elem_of_app, list_elem_of_filter, Ho in Hin. tauto.
  - right. split; [intros Hx; apply Hout; rewrite !elem_of_app, list_elem_of_filter, Ho; tauto|]. rewrite !not_elem_of_app in Hout. destruct Hout as [[H1 H2] H3].
    rewrite (proj1 (proj2 F7)), (proj1 (proj2 F6)), (proj1 (proj2 F5)), M4, (proj1 (proj2 F3)) by done. case_decide; [by apply O2|by apply (proj1 (proj2 F2))].
Qed.
End RollbackProofs.

(** ** What a preparation leaves in the journal *)
Section PrepareProofs.
Context {MD B E : Type} `{!Builder B} `{!LpDisk MD B E} `{!LpDiskLaws MD B E} (parse_status : string -> option bool).
Context (probe : string -> option (Z * bool * bool)) (suffix : string).
#[local] Abbreviation Super := (Super MD E).
#[local] Abbreviation P := (P MD E).
Implicit Types (s : Super) (names : list string).
Definition tracked (md : MD) s n : Prop := n ∈ sp_layout s \/ original_of suffix md s n \/ n ∈ sp_cows s.
(** Every mapping that may differ from the one at [s0] is in the journal. *)
Record journaled (md : MD) (s0 s : Super) : Prop := {
  jn_maps n : ~ tracked md s n -> is_Some (sp_maps s0 !! n) -> sp_maps s !! n = sp_maps s0 !! n;
  jn_original n : n ∈ sp_original s -> is_Some (sp_maps s0 !! n);
  jn_table : sp_changed s = false -> sp_table s = Some md;
  jn_mounts : mounts s = mounts s0 }.
Lemma tracked_frame md names s s' n : frame names s s' -> tracked md s' n <-> tracked md s n.
Proof. intros (_ & _ & Hj & Hm). unfold tracked, original_of. injection Hj as -> _ -> _ ->. by rewrite Hm. Qed.
Lemma journaled_frame md s0 names s s' : journaled md s0 s -> frame names s s' -> (forall n, n ∈ names -> tracked md s n) -> journaled md s0 s'.
Proof.
  intros [J1 J2 J3 J4] Hf Hn. pose proof (fun n => tracked_frame md _ _ _ n Hf) as Ht. destruct Hf as (T & M & J & O). injection J as _ Jc _ Jo _. split.
  - intros n Hnt Hs. rewrite Ht in Hnt. rewrite M by (intros ?; apply Hnt; by apply Hn). by apply J1.
  - intros n. rewrite Jo. apply J2.
  - rewrite T, Jc. apply J3.
  - by rewrite O.
Qed.
(** The journal of a batch that starts. *)
Definition fresh_journal s : Prop := journal s = ([], false, [], [], []).
Lemma journaled_start md s : fresh_journal s -> sp_table s = Some md -> journaled md s s.
Proof. intros Hj Ht. injection Hj as E1 E2 E3 E4 E5. split; try done. intros n. rewrite E4. intros Hn. by apply elem_of_nil in Hn. Qed.

(** *** Resolving the targets *)
Lemma builder_spec md s b s' : sp_table s = Some md -> NewBuilder s = Some (b, s') -> frame [] s s' /\ (forall lp : B, b = Some lp -> of_table md = Some lp).
Proof.
  intros Ht H. split; [by eapply within_builder|]. unfold NewBuilder in H. pstep H t s1 E1. injection H as <- <-. intros lp Hb.
  unfold ReadMetadata in E1. pstep E1 r s2 E2. pstep E1 t' s3 E3. injection E3 as <- <-. injection E1 as <- <-.
  assert (sp_table s2 = Some md) as T2 by (rewrite <- Ht; unfold ask in E2; destruct (sp_replies s); by injection E2 as <- <-).
  destruct (accepted r); [|done]. by rewrite T2 in Hb.
Qed.
Lemma the_builder_spec md (b : option B) s b' s' : (forall lp, b = Some lp -> of_table md = Some lp) -> sp_table s = Some md -> the_builder b s = Some (b', s') ->
  frame [] s s' /\ (forall lp, b' = Some lp -> of_table md = Some lp).
Proof.
  intros Hb Ht H. destruct b as [lp|]; cbn in H; [injection H as <- <-; split; [apply super_frame_refl|done]|]. by apply builder_spec.
Qed.
Lemma logical_original md (lp : B) bare : of_table md = Some lp -> logical_name suffix lp bare = original_name suffix md bare.
Proof.
  intros Hl. unfold logical_name, original_name. rewrite !(bool_decide_ext _ _ (of_table_find md lp _ Hl)). done.
Qed.
(** Each image comes from a logical target or from a partition in Super. *)
Definition image_source (md : MD) (targets : list string) (parts : list (option nat)) (ms : list (string * bool)) (name : string) : Prop :=
  name ∈ logical_targets suffix targets \/
  exists i mp, Some i ∈ parts /\ ms !! i = Some (mp, true) /\ original_name suffix md (Get_Bare_Partition_Name mp) = Some name.
Lemma within_validate target n : within [] (Validate_Image_Flash_Target (MD := MD) (B := B) (E := E) probe suffix target n).
Proof.
  unfold Validate_Image_Flash_Target. case_match; [apply within_ret|]. apply within_bind; [apply within_look|intros ps]. case_match; [|apply within_ret].
  destruct p as [i part]. case_match; [case_match; [apply within_ret|apply within_bind; [apply within_builder|intros; apply within_ret]]|].
  case_match; [apply within_ret|]. apply within_bind; [apply within_actual|intros; apply within_ret].
Qed.
Lemma source_cons md target targets part parts ms name : image_source md targets parts ms name -> image_source md (target :: targets) (part :: parts) ms name.
Proof.
  intros [Hl|(i & mp & Hi & Hm)]; [left|right; exists i, mp; split; [by right|done]]. unfold logical_targets in *. rewrite filter_cons. case_decide; [|done]. cbn. by right.
Qed.
Lemma mounts_frame names s s' : frame names s s' -> mounts s' = mounts s /\ sp_table s' = sp_table s.
Proof. intros (T & _ & _ & O). done. Qed.
Definition resolved_ok (md : MD) (targets : list string) s (r : string + (option B * list LogicalImageSize * list (option nat))) : Prop :=
  match r with
  | inl _ => True
  | inr (b, images, parts) => (forall lp, b = Some lp -> of_table md = Some lp) /\ forall image, image ∈ images -> image_source md targets parts (mounts s) (im_name image)
  end.
(** A target in front of resolved ones. *)
Lemma resolved_cons md target targets s s1 part name r : mounts s1 = mounts s -> resolved_ok md targets s1 r ->
  (forall n, name = Some n -> forall parts, image_source md (target :: targets) (part :: parts) (mounts s) n) -> forall bytes,
  resolved_ok md (target :: targets) s (match r with inl e => inl e | inr (b, images, parts) => inr (b, (match name with Some n => [MkImage n bytes] | None => [] end) ++ images, part :: parts) end).
Proof.
  intros Hm Hr Hn bytes. destruct r as [e|[[b images] parts]]; [done|]. destruct Hr as [Hb Hi]. rewrite Hm in Hi. split; [done|]. intros image [H|H]%elem_of_app.
  - destruct name as [n|]; [|by apply elem_of_nil in H]. apply list_elem_of_singleton in H as ->. by apply Hn.
  - by apply source_cons, Hi.
Qed.
Lemma resolve_spec md layout targets bytes b s r s' : (forall lp, b = Some lp -> of_table md = Some lp) -> sp_table s = Some md ->
  resolve probe suffix layout targets bytes b s = Some (r, s') -> frame [] s s' /\ resolved_ok md targets s r.
Proof.
  revert bytes b s r s'. induction targets as [|target targets IH]; intros [|n bytes] b s r s' Hb Ht H; cbn [resolve] in H;
    try (injection H as <- <-; split; [apply super_frame_refl|split; [done|]]; intros ? Hi; by apply elem_of_nil in Hi).
  destruct (is_block target) eqn:Eb.
  { pstep H r1 s1 E1. injection H as <- <-. destruct (IH _ _ _ _ _ Hb Ht E1) as [F1 R1]. split; [done|]. by apply (resolved_cons _ _ _ s s None None). }
  destruct (is_logical target) eqn:El.
  { destruct (_ || _); [injection H as <- <-; split; [apply super_frame_refl|done]|]. pstep H b1 s1 E1. destruct (the_builder_spec _ _ _ _ _ Hb Ht E1) as [F1 Hb1].
    destruct (mounts_frame _ _ _ F1) as [M1 T1]. destruct b1 as [lp|]; [|injection H as <- <-; done]. destruct (_ && _); [injection H as <- <-; done|].
    pstep H r1 s2 E2. injection H as <- <-. assert (sp_table s1 = Some md) as T1' by congruence. destruct (IH _ _ _ _ _ Hb1 T1' E2) as [F2 R2]. split; [by eapply super_frame_trans|].
    eapply (resolved_cons _ _ _ s s1 None (Some _)); [done|exact R2|]. intros ? [= <-] parts. left. unfold logical_targets. rewrite filter_cons_True by done. left. }
  pstep H valid s1 E1. apply within_validate in E1 as F1. destruct (mounts_frame _ _ _ F1) as [M1 T1]. destruct valid; [|injection H as <- <-; done].
  pstep H ps s2 E2. injection E2 as <- <-. pstep H i s3 E3. destruct (Find_Partition_By_Path _ _) as [j|]; [|done]. injection E3 as <- <-.
  pstep H part s4 E4. destruct (sp_parts s1 !! j) as [q|] eqn:Eq; [|done]. injection E4 as <- <-.
  destruct (Is_Super q) eqn:Es; cbn [negb] in H.
  - pstep H b1 s5 E5. rewrite <- T1 in Ht. destruct (the_builder_spec _ _ _ _ _ Hb Ht E5) as [F5 Hb5]. destruct (mounts_frame _ _ _ F5) as [M5 T5].
    pose proof (super_frame_trans _ _ _ _ F1 F5) as F15. destruct b1 as [lp|]; [|injection H as <- <-; done].
    destruct (logical_name suffix lp (bare_name q)) as [name|] eqn:En; [|injection H as <- <-; done]. pstep H r1 s6 E6. injection H as <- <-.
    assert (sp_table s5 = Some md) as T5' by congruence. destruct (IH _ _ _ _ _ Hb5 T5' E6) as [F6 R6]. split; [by eapply super_frame_trans|].
    eapply (resolved_cons _ _ _ s s5 (Some j) (Some _)); [congruence|exact R6|]. intros ? [= <-] parts. right. exists j, (Mount_Point q). split; [left|].
    rewrite <- M1. unfold mounts. rewrite list_lookup_fmap, Eq. cbn. rewrite Es. split; [done|]. rewrite <- (logical_original md lp _ (Hb5 _ eq_refl)). exact En.
  - pstep H r1 s5 E5. injection H as <- <-. assert (sp_table s1 = Some md) as T1' by congruence. destruct (IH _ _ _ _ _ Hb T1' E5) as [F5 R5]. split; [by eapply super_frame_trans|].
    by apply (resolved_cons _ _ _ s s1 (Some j) None).
Qed.

(** *** The commit *)
Definition preserves {A} (I : Super -> Prop) (m : P A) : Prop := forall s x s', I s -> m s = Some (x, s') -> I s'.
Lemma preserves_bind {A C} I (m : P A) (k : A -> P C) : preserves I m -> (forall x, preserves I (k x)) -> preserves I (m ≫= k).
Proof. intros Hm Hk s y s' Hs (x & s1 & E1 & E2)%P_bind_inv. eapply Hk; [by eapply Hm|exact E2]. Qed.
Lemma preserves_ret {A} I (x : A) : preserves I (mret x).
Proof. intros s y s' Hs [= <- <-]. done. Qed.
Lemma preserves_andThen I m k : preserves I m -> preserves I k -> preserves I (andThen m k).
Proof. intros Hm Hk. apply preserves_bind; [done|]. intros [e|]; [apply preserves_ret|done]. Qed.
(** The batch at work on the names [todo] of the layout [L]. *)
Definition working (md : MD) (s0 : Super) (L todo : list string) s : Prop :=
  journaled md s0 s /\ sp_layout s = L /\ forall n, n ∈ todo -> tracked md s n.
Lemma working_frame md s0 L todo names s s' : working md s0 L todo s -> frame names s s' -> (forall n, n ∈ names -> tracked md s n) -> working md s0 L todo s'.
Proof.
  intros (J & HL & Ht) F Hn. split_and!; [by eapply journaled_frame|destruct F as (_ & _ & Hj & _); injection Hj as _ _ -> _ _; done|].
  intros n Hi. eapply tracked_frame; [exact F|]. by apply Ht.
Qed.
Lemma working_within {A} md s0 L todo (m : P A) : within [] m -> preserves (working md s0 L todo) m.
Proof. intros Hm s x s' Hw H. eapply working_frame; [done|by eapply Hm|]. intros n Hn. by apply elem_of_nil in Hn. Qed.
Lemma working_release md s0 L todo changed : (forall n, n ∈ changed -> n ∈ todo) -> preserves (working md s0 L todo) (release_changed changed).
Proof.
  induction changed as [|name changed IH]; intros Hin; cbn; [apply preserves_ret|]. apply preserves_bind; [apply working_within, within_look|]. intros l.
  case_bool_decide; [apply IH; set_solver|]. apply preserves_bind; [|intros []; [apply IH; set_solver|apply preserves_ret]].
  intros s x s' Hw [F _]%destroy_spec. eapply working_frame; [done|exact F|]. intros n Hn. apply list_elem_of_singleton in Hn as ->. apply Hw, Hin. left.
Qed.
(** A journal entry more. *)
Lemma working_journal md s0 L todo s s' : working md s0 L todo s -> sp_maps s' = sp_maps s -> mounts s' = mounts s -> sp_layout s' = sp_layout s ->
  (forall n, tracked md s n -> tracked md s' n) -> (forall n, n ∈ sp_original s' -> is_Some (sp_maps s0 !! n)) -> (sp_changed s' = false -> sp_table s' = Some md) ->
  working md s0 L todo s'.
Proof.
  intros ([J1 J2 J3 J4] & HL & Ht) Hm Hp Hl Htr Ho Htb. split_and!; [|congruence|by auto]. split; [|done|done|congruence].
  intros n Hn Hs. rewrite Hm. apply J1; [|done]. intros Hx. by apply Hn, Htr.
Qed.
Lemma working_cows md s0 L todo cows : preserves (working md s0 L todo) (release_cows cows).
Proof.
  induction cows as [|name cows IH]; cbn; [apply preserves_ret|]. apply preserves_bind; [apply working_within, within_ask|]. intros node.
  destruct (negb _); [apply IH|]. intros s x s' Hw H. pstep H ok s1 E1. apply destroy_spec in E1 as [F1 M1]. destruct ok; cbn [negb] in H.
  - pstep H u s2 E2. injection E2 as <- <-. eapply IH; [|exact H]. destruct Hw as ([J1 J2 J3 J4] & HL & Ht).
    destruct F1 as (T & Hf & Hj & Hp). injection Hj as Hr Hc Hl Ho Hw.
    assert (Htr : forall n, tracked md s n -> tracked md (set_journal (sp_resized s1) (sp_changed s1) (sp_layout s1) (sp_original s1) (sp_cows s1 ++ [name]) s1) n).
    { intros n [Hn|[(i & mp & su & Hi & Hn)|Hn]]; [left; cbn; by rewrite Hl|right; left; exists i, mp, su|right; right; cbn; rewrite Hw; set_solver].
      split; [cbn; by rewrite Hr|]. destruct Hn as [Hn1 Hn2]. split; [|done]. rewrite <- Hn1. exact (f_equal (lookup i) Hp). }
    split_and!; [|cbn; congruence|by auto]. split; cbn; [|by rewrite Ho|rewrite Hc, T; auto|rewrite <- J4; exact Hp].
    intros n Hn Hs. rewrite Hf; [apply J1; [|done]; intros Hx; by apply Hn, Htr|]. intros ->%list_elem_of_singleton. apply Hn. right. right. cbn. set_solver.
  - injection H as <- <-. eapply working_frame; [done| |intros n Hn; by apply elem_of_nil in Hn]. destruct F1 as (? & ? & ? & ?). split_and!; [done|intros; by rewrite M1|done|done].
Qed.
Lemma working_layout md s0 L todo names s e s' : working md s0 L todo s -> (forall n, n ∈ names -> n ∈ L) ->
  (forall n, is_Some (sp_maps s !! n) -> is_Some (sp_maps s0 !! n)) -> release_layout names s = Some (e, s') -> working md s0 L todo s'.
Proof.
  revert s e s'. induction names as [|name names IH]; intros s e s' Hw Hin Hsh H; cbn in H; [by injection H as <- <-|].
  pstep H block s1 E1. apply path_spec in E1 as (F1 & M1 & B1).
  assert (Hw1 : working md s0 L todo s1) by (eapply working_frame; [exact Hw|exact F1|]; intros n Hn; by apply elem_of_nil in Hn).
  destruct block as [block|]; [|eapply IH; [exact Hw1|set_solver|by rewrite M1|exact H]].
  pstep H u s2 E2. injection E2 as <- <-. pstep H ok s3 E3.
  assert (Hs : is_Some (sp_maps s0 !! name)) by (apply Hsh, B1; by eexists).
  assert (Hw2 : working md s0 L todo (set_journal (sp_resized s1) (sp_changed s1) (sp_layout s1) (sp_original s1 ++ [name]) (sp_cows s1) s1)).
  { eapply working_journal; [exact Hw1|done|done|done|done| |apply Hw1]. cbn. intros n [Hn|Hn]%elem_of_app; [by apply Hw1|]. by apply list_elem_of_singleton in Hn as ->. }
  apply destroy_released in E3 as [[F3 N3] _].
  assert (Hw3 : working md s0 L todo s3).
  { eapply working_frame; [exact Hw2|exact F3|]. intros n Hn. apply list_elem_of_singleton in Hn as ->. left. rewrite (proj1 (proj2 Hw2)). apply Hin. left. }
  destruct ok; [|by injection H as <- <-]. eapply IH; [exact Hw3|set_solver| |exact H]. intros n [e1 Hn]. apply Hsh. rewrite <- M1.
  destruct (sp_maps s1 !! n) eqn:El; [done|]. rewrite (N3 n El) in Hn. done.
Qed.
Lemma mounts_foldl f l s : (forall p, Mount_Point (f p) = Mount_Point p /\ Is_Super (f p) = Is_Super p) ->
  mounts (set_parts (foldl (fun ps i => alter f i ps) (sp_parts s) l) s) = mounts s.
Proof.
  intros Hf. revert s. induction l as [|i l IH]; intros s; [by destruct s|]. cbn [foldl]. rewrite <- (mounts_alter s f i Hf). exact (IH (set_parts (alter f i (sp_parts s)) s)).
Qed.
Lemma within_rebase names name block : within names (rebase (MD := MD) (E := E) suffix name block).
Proof. intros s y s' [= <- <-]. split_and!; try done. apply mounts_foldl. intros p. by destruct (_ || _). Qed.
Lemma working_map md s0 L todo names : (forall n, n ∈ names -> n ∈ todo) -> preserves (working md s0 L todo) (map_prepared suffix names).
Proof.
  induction names as [|name names IH]; intros Hin; cbn; [apply preserves_ret|]. apply preserves_bind.
  - intros s x s' Hw [F _]%map_spec. eapply working_frame; [done|exact F|]. intros n Hn. apply list_elem_of_singleton in Hn as ->. apply Hw, Hin. left.
  - intros [block|]; [|apply preserves_ret]. apply preserves_bind; [apply working_within, within_rebase|intros _; apply IH; set_solver].
Qed.
(** Once the change is recorded, the table may be written. *)
Lemma working_update md s0 L todo updated s ok s' : working md s0 L todo s -> sp_changed s = true -> UpdatePartitionTable updated s = Some (ok, s') -> working md s0 L todo s'.
Proof.
  intros Hw Hc (Hm & Hj & Hp & _)%update_spec. injection Hj as Hr Hc' Hl Ho Hk. eapply working_journal; [exact Hw|done|done|done| | |].
  - intros n. unfold tracked, original_of. by rewrite Hr, Hl, Hk, Hp.
  - rewrite Ho. apply Hw.
  - congruence.
Qed.
Lemma original_cases md bare n : original_name suffix md bare = Some n -> n = (bare ++ suffix)%string \/ n = bare.
Proof. unfold original_name. case_bool_decide; [intros [= <-]; by left|]. case_bool_decide; [intros [= <-]; by right|done]. Qed.
Definition part_source md (parts : list (option nat)) (ms : list (string * bool)) (n : string) : Prop :=
  exists i mp, Some i ∈ parts /\ ms !! i = Some (mp, true) /\ original_name suffix md (Get_Bare_Partition_Name mp) = Some n.
Lemma resized_parts_spec md ps changed parts n : n ∈ changed -> part_source md parts ((fun p => (Mount_Point p, Is_Super p)) <$> ps) n ->
  exists i mp, i ∈ resized_parts suffix ps changed parts /\ ((fun p => (Mount_Point p, Is_Super p)) <$> ps) !! i = Some (mp, true) /\ original_name suffix md (Get_Bare_Partition_Name mp) = Some n.
Proof.
  intros Hn (i & mp & Hi & Hm & Ho). exists i, mp. split_and!; [|done|done]. unfold resized_parts. apply list_elem_of_omap. exists (Some i). split; [done|]. cbn.
  rewrite list_lookup_fmap in Hm. destruct (ps !! i) as [part|]; [|done]. injection Hm as <- Hs. cbn. unfold resized_part. rewrite Hs. cbn.
  destruct (original_cases _ _ _ Ho) as [->| ->]; [by rewrite bool_decide_eq_true_2|by rewrite (bool_decide_eq_true_2 (bare_name part ∈ changed)), orb_true_r].
Qed.
Lemma commit_spec md s0 rom images parts changed cows updated s e s' : journaled md s0 s -> (forall n, is_Some (sp_maps s !! n) -> is_Some (sp_maps s0 !! n)) ->
  (forall n, n ∈ changed -> n ∈ sp_layout s \/ part_source md parts (mounts s) n) -> (rom = true -> forall n, n ∈ names_of images -> n ∈ sp_layout s) ->
  commit parse_status suffix rom images parts changed cows updated s = Some (e, s') -> journaled md s0 s'.
Proof.
  intros J Hsh Hc Hrom H. unfold commit in H. pstep H u s1 E1. injection E1 as <- <-. set (s1 := set_journal _ _ _ _ _ s) in H.
  set (todo := changed ++ (if rom then names_of images else [])). enough (Hw : working md s0 (sp_layout s) todo s').
  { apply Hw. }
  assert (Hw1 : working md s0 (sp_layout s) todo s1).
  { assert (Hw0 : working md s0 (sp_layout s) [] s) by (split_and!; [done|done|intros n Hn; by apply elem_of_nil in Hn]).
    assert (Htr : forall n, tracked md s n -> tracked md s1 n).
    { intros n [Hn|[(i & mp & su & Hi & Hn)|Hn]]; [by left|right; left; exists i, mp, su; split; [cbn; set_solver|exact Hn]|by right; right]. }
    split_and!; [|done|].
    - eapply (working_journal md s0 _ [] s s1); [exact Hw0|done|done|done|exact Htr|apply J|apply J].
    - intros n [Hn|Hn]%elem_of_app.
      + destruct (Hc n Hn) as [Hl|Hp]; [by left|]. destruct (resized_parts_spec md (sp_parts s) changed parts n Hn Hp) as (i & mp & Hi & Hm & Ho).
        right. left. exists i, mp, true. split_and!; [cbn; set_solver|exact Hm|exact Ho].
      + left. destruct rom; [by apply Hrom|by apply elem_of_nil in Hn]. }
  apply P_bind_inv in H as (e1 & s2 & E2 & H). apply P_bind_inv in E2 as (names & s1' & En & E2). injection En as <- <-.
  assert (Hw2 : working md s0 (sp_layout s) todo s2) by (eapply working_layout; [exact Hw1|done|exact Hsh|exact E2]).
  destruct e1; [by injection H as <- <-|]. revert H. apply preserves_andThen; [apply working_release; set_solver| |exact Hw2].
  apply preserves_andThen; [apply working_cows|]. apply preserves_bind; [apply working_within, within_idle|]. intros [|]; [|apply preserves_ret]. cbn [negb].
  intros s3 x s3' Hw3 H. pstep H u s4 E4. injection E4 as <- <-. pstep H ok s5 E5.
  assert (Hw5 : working md s0 (sp_layout s) todo s5).
  { refine (working_update _ _ _ _ _ _ _ _ _ _ E5); [|reflexivity]. eapply working_journal; [exact Hw3|done|done|done|done|apply Hw3|done]. }
  destruct ok; cbn [negb] in H; [|by injection H as <- <-]. eapply working_map; [|exact Hw5|exact H]. intros n Hn. unfold todo. destruct rom; set_solver.
Qed.

(** *** The whole preparation *)
Lemma changed_images (b : B) images changed : changed_names b images = Some changed -> forall n, n ∈ changed -> n ∈ names_of images.
Proof.
  revert changed. induction images as [|i images IH]; intros changed H n Hn; cbn in H; [injection H as <-; by apply elem_of_nil in Hn|].
  destruct (FindPartition b (im_name i)); [|done]. cbn in H. destruct (changed_names b images) as [rest|]; [|done]. cbn in H.
  destruct (_ =? _); injection H as <-; [right; by eapply IH|]. apply elem_of_cons in Hn as [->|Hn]; [left|right; by eapply IH].
Qed.
Lemma journaled_layout md s0 names s : journaled md s0 s -> (forall n, n ∈ sp_layout s -> n ∈ names) ->
  journaled md s0 (set_journal (sp_resized s) (sp_changed s) names (sp_original s) (sp_cows s) s).
Proof.
  intros [J1 J2 J3 J4] Hl. split; [|done|done|done]. intros n Hn Hs. apply J1; [|done]. intros [Ht|[Ht|Ht]]; apply Hn; [left; by apply Hl|right; by left|right; by right].
Qed.
Lemma journaled_within {A} md s0 (m : P A) : within [] m -> preserves (journaled md s0) m.
Proof. intros Hm s x s' J H. eapply journaled_frame; [done|by eapply Hm|]. intros n Hn. by apply elem_of_nil in Hn. Qed.
Lemma prepare_super_spec md s0 layout targets images parts b s e s' : journaled md s0 s -> frame [] s0 s -> fresh_journal s ->
  (forall image, image ∈ images -> image_source md targets parts (mounts s) (im_name image)) ->
  prepare_super parse_status suffix layout targets images parts b s = Some (e, s') -> journaled md s0 s'.
Proof.
  intros J F0 Hfr Hsrc H. unfold prepare_super in H. pstep H idle s1 E1. assert (F1 : frame [] s s1) by (by eapply within_idle).
  assert (J1 : journaled md s0 s1) by (eapply journaled_within; [apply within_idle|exact J|exact E1]). destruct idle; cbn [negb] in H; [|by injection H as <- <-].
  destruct (match layout with Some _ => _ | None => _ end) as [er|b'] eqn:Erom; [by injection H as <- <-|].
  pstep H u1 s2 E2. pstep H changed s3 E3. destruct (changed_names b' images) as [changed'|] eqn:Ech; [|done]. injection E3 as <- <-.
  pose proof (changed_images _ _ _ Ech) as Hch. pstep H u2 s4 E4.
  pose proof (super_frame_trans _ _ _ _ F0 F1) as F01. destruct F1 as (_ & _ & Hj1 & Hm1). assert (Hl1 : sp_layout s1 = []) by (rewrite Hfr in Hj1; by injection Hj1).
  set (rom := bool_decide (is_Some layout)) in H.
  assert (J4 : journaled md s0 s4 /\ sp_maps s4 = sp_maps s1 /\ (forall n, n ∈ changed' -> n ∈ sp_layout s4 \/ part_source md parts (mounts s4) n) /\
    (rom = true -> forall n, n ∈ names_of images -> n ∈ sp_layout s4)).
  { assert (Hall : forall n, n ∈ names_of images -> n ∈ logical_targets suffix targets \/ part_source md parts (mounts s1) n).
    { intros n (i & -> & Hi)%list_elem_of_fmap. rewrite Hm1. by apply Hsrc. }
    destruct layout as [layout|].
    - injection E2 as <- <-. injection E4 as <- <-.
      assert (Ha : forall n, n ∈ names_of images -> n ∈ affected suffix b images) by (intros n Hn; unfold affected; rewrite set_of_names; right; set_solver).
      split_and!; [apply journaled_layout; [done|rewrite Hl1; intros n Hn; by apply elem_of_nil in Hn]|done| |]; cbn; auto.
    - injection E2 as <- <-. pstep E4 l s5 E5. injection E5 as <- <-. injection E4 as <- <-.
      split_and!; [apply journaled_layout; [done|set_solver]|done| |done]. cbn. intros n Hn. destruct (Hall n (Hch n Hn)) as [Hx|Hx]; [left|by right].
      apply elem_of_app. right. by apply list_elem_of_filter. }
  destruct J4 as (J4 & Hm4 & Hc4 & Hr4). pstep H plan s5 E5. destruct (PlanImageFlashLayout _ _ _) as [plan'|]; [|done]. injection E5 as <- <-.
  destruct plan' as [er|b'']; [by injection H as <- <-|]. destruct (Export b'') as [updated|]; [|by injection H as <- <-].
  destruct (_ || _); [|by injection H as <- <-]. eapply commit_spec; [exact J4| |exact Hc4|exact Hr4|exact H].
  intros n. rewrite Hm4, (proj1 (proj2 F01)) by (intros Hn; by apply elem_of_nil in Hn). done.
Qed.
Lemma find_blocks_spec md s0 targets parts : preserves (journaled md s0) (find_blocks suffix targets parts).
Proof.
  revert parts. induction targets as [|target targets IH]; intros [|part parts]; cbn; try apply preserves_ret.
  apply preserves_bind; [|intros [e|block]; [apply preserves_ret|apply preserves_bind; [apply IH|intros; apply preserves_ret]]].
  destruct (is_logical target).
  - intros s x s' J H. pstep H mapped s1 E1. apply path_spec in E1 as (F1 & M1 & B1).
    assert (J1 : journaled md s0 s1) by (eapply journaled_frame; [exact J|exact F1|]; intros n Hn; by apply elem_of_nil in Hn).
    destruct mapped as [block|]; [by injection H as <- <-|]. pstep H block s2 E2. injection H as <- <-. apply map_spec in E2 as [F2 M2].
    pose proof (fun n => tracked_frame md _ _ _ n F2) as Ht. destruct F2 as (T & Hf & Hj & Hp). injection Hj as _ Jc _ Jo _. destruct J1 as [K1 K2 K3 K4].
    split; [|by rewrite Jo|by rewrite T, Jc|by rewrite Hp]. intros n Hn Hs. rewrite Ht in Hn. rewrite Hf; [by apply K1|]. intros ->%list_elem_of_singleton.
    specialize (K1 _ Hn Hs). rewrite M1 in K1. destruct Hs as [e Hs]. rewrite Hs in K1. assert (is_Some (@None string)) as [? ?]; [|done]. apply B1. by rewrite K1.
  - destruct part as [i|]; [|apply preserves_ret]. apply preserves_bind; [apply journaled_within, within_actual|intros; apply preserves_ret].
Qed.
(** Whatever the preparation does and however it ends, the journal covers it. *)
Lemma prepare_spec md batch targets bytes layout s0 r s' : fresh_journal s0 -> sp_table s0 = Some md ->
  Prepare_Image_Flash_Targets parse_status probe suffix batch targets bytes layout s0 = Some (r, s') -> journaled md s0 s'.
Proof.
  intros Hfr Ht H. pose proof (journaled_start md s0 Hfr Ht) as J. unfold Prepare_Image_Flash_Targets in H. destruct (_ || _); [by injection H as <- <-|].
  pstep H r1 s1 E1. destruct (resolve_spec md _ _ _ None s0 _ _ ltac:(done) Ht E1) as [F1 R1].
  assert (J1 : journaled md s0 s1) by (eapply journaled_frame; [exact J|exact F1|]; intros n Hn; by apply elem_of_nil in Hn).
  destruct r1 as [e|[[b images] parts]]; [by injection H as <- <-|]. destruct R1 as [Hb Hi]. pstep H e s2 E2.
  assert (J2 : journaled md s0 s2).
  { destruct b as [b|]; [|by injection E2 as <- <-]. destruct F1 as (T1 & M1 & Hj & Hm). eapply prepare_super_spec; [exact J1|done|by unfold fresh_journal; rewrite Hj| |exact E2].
    rewrite Hm. exact Hi. }
  destruct e; [by injection H as <- <-|]. pstep H blocks s3 E3. injection H as <- <-. by eapply find_blocks_spec.
Qed.
End PrepareProofs.

(** ** A batch that fails before it writes *)
Section BatchProofs.
Context {MD B E : Type} `{!Builder B} `{!LpDisk MD B E} `{!LpDiskLaws MD B E} (parse_status : string -> option bool).
Context (probe : string -> option (Z * bool * bool)) (suffix : string).
#[local] Abbreviation Super := (Super MD E).
#[local] Abbreviation Batch := (Batch (MD := MD) (E := E)).
(** The mappings are those of the table. *)
Definition coherent (md : MD) (s : Super) : Prop := forall n e, sp_maps s !! n = Some e -> extents md n = Some e.
(** Released by the rollback, which does not know that they were mapped. *)
Definition lost (md : MD) (s : Super) (n : string) : Prop :=
  n ∈ sp_layout s /\ (n ∉ sp_original s) /\ (n ∉ sp_cows s) /\ ~ original_of suffix md s n.
(** What is left after the rollback from [s1] to [s2] of what was mapped at [s0]. *)
Definition put_back (md : MD) (s0 s1 s2 : Super) : Prop :=
  sp_table s2 = Some md /\ forall n e, sp_maps s0 !! n = Some e -> sp_maps s2 !! n = Some e \/ (lost md s1 n /\ sp_maps s2 !! n = None).
Lemma nothing_to_do md (s s' : Super) : rollback suffix (Some md) s = Some (NothingToDo, s') -> s' = s /\ sp_resized s = [] /\ sp_changed s = false /\ sp_cows s = [] /\ sp_layout s = [].
Proof.
  unfold rollback. intros H. pstep H s0 s1 E0. injection E0 as <- <-. cbn [id] in H. destruct (_ && _) eqn:Ej.
  - injection H as <-. apply andb_true_iff in Ej as [Ej E4]. apply andb_true_iff in Ej as [Ej E3]. apply andb_true_iff in Ej as [E1 E2].
    apply bool_decide_eq_true in E1, E3, E4. by apply negb_true_iff in E2.
  - pstep H maps s1 E1. destruct maps as [mappings|]; [|done]. do 6 (let x := fresh in let s := fresh in let Eq := fresh in pstep H x s Eq). by case_match.
Qed.
Lemma rolled_back md s0 s1 r s2 : journaled suffix md s0 s1 -> coherent md s0 -> rollback suffix (Some md) s1 = Some (r, s2) ->
  r = Restored \/ r = NothingToDo -> put_back md s0 s1 s2.
Proof.
  intros [J1 J2 J3 J4] Hco H [->| ->].
  - apply rollback_spec in H as [Ht Hm]. split; [done|]. intros n e Hn. destruct (Hm n) as [[_ (e' & He & Hs)]|[Ho Hs]].
    + left. rewrite Hs, <- He. by apply Hco.
    + rewrite Hs. case_decide as Hl.
      * right. split; [|done]. split_and!; [done| |tauto|tauto]. intros Hx. apply Ho. right. left. split; [done|]. by eapply extents_named, Hco.
      * left. rewrite J1; [done|unfold tracked; tauto|by eexists].
  - apply nothing_to_do in H as (-> & H1 & H2 & H3 & H4). split; [by apply J3|]. intros n e Hn. left. rewrite J1; [done| |by eexists].
    unfold tracked, original_of. rewrite H1, H3, H4. intros [Hx|[(i & mp & su & Hx & _)|Hx]]; by apply elem_of_nil in Hx.
Qed.
Lemma journaled_later md s0 s1 s2 : journaled suffix md s0 s1 -> frame [] s1 s2 -> journaled suffix md s0 s2.
Proof. intros J F. eapply journaled_frame; [exact J|exact F|]. intros n Hn. by apply elem_of_nil in Hn. Qed.

Context `{HS : SizeSort} `{HB : AndroidBase} (env : Env) (replay : bool) (find_block : nat -> string).
Definition with_super (b : Batch) (s : Super) : Batch := MkBatch (bt_flash b) s (bt_checkpoint b) (bt_rolled b) (bt_events b).
(** What a caller runs: the preparation, then [write] with the block devices. *)
Definition image_operation (targets : list string) (bytes : list Z) (layout : option RomImageLayout) (write : list string -> Batch -> option (bool * Batch)) (b : Batch) :
    option (bool * Batch) :=
  '(r, s) ← Prepare_Image_Flash_Targets parse_status probe suffix true targets bytes layout (bt_super b);
  match r with inl _ => Some (false, with_super b s) | inr blocks => write blocks (with_super b s) end.
(** A writer that fails before it starts has touched no partition. *)
Definition careful (started : Batch -> bool) (write : list string -> Batch -> option (bool * Batch)) : Prop :=
  forall blocks b ok b', write blocks b = Some (ok, b') ->
  bt_checkpoint b' = bt_checkpoint b /\ bt_rolled b' = bt_rolled b /\ (ok = false -> started b' = false -> frame [] (bt_super b) (bt_super b')).
Lemma restore_super (b b' : Batch) : batch_restore replay b = Some b' -> bt_super b' = clear_journal (bt_super b) /\ bt_rolled b' = bt_rolled b.
Proof.
  unfold batch_restore. destruct (restore_each _ _) as [[? f]|]; [|done]. cbn. destruct (Restart_Quiesced_Dynamic_Services f) as [[? f']|]; [|done]. cbn. by intros [= <-].
Qed.
Lemma prepare_checkpoint devices (b b' : Batch) md : bt_rolled b = None -> sp_table (bt_super b) = Some md -> batch_prepare env true true devices b = Some (true, b') ->
  bt_checkpoint b' = Some md /\ frame [] (bt_super b) (bt_super b') /\ bt_rolled b' = None.
Proof.
  intros Hr Ht. unfold batch_prepare. destruct (QuiesceDynamicPartitionUsers _ _ _ _ _) as [[ready f]|]; [|done]. cbn. destruct ready; [|done]. cbn.
  destruct (ReadMetadata _) as [[md' s]|] eqn:Er; [|done]. cbn. intros [= Hs <-]. apply bool_decide_eq_true in Hs. cbn. split_and!; [|by eapply within_read|done].
  unfold ReadMetadata in Er. pstep Er x s1 E1. pstep Er t s2 E2. injection E2 as <- <-. injection Er as <- <-.
  assert (sp_table s1 = sp_table (bt_super b)) as T1 by (unfold ask in E1; destruct (sp_replies (bt_super b)); by injection E1 as <- <-).
  destruct (accepted x); [by rewrite T1|by destruct Hs].
Qed.
Lemma prepare_refused devices (b b' : Batch) : bt_rolled b = None -> batch_prepare env true true devices b = Some (false, b') -> frame [] (bt_super b) (bt_super b') /\ bt_rolled b' = None.
Proof.
  intros Hr. unfold batch_prepare. destruct (QuiesceDynamicPartitionUsers _ _ _ _ _) as [[ready f]|]; [|done]. cbn. destruct ready; cbn.
  - destruct (ReadMetadata _) as [[md' s]|] eqn:Er; [|done]. cbn. intros [= _ <-]. split; [by eapply within_read|done].
  - intros [= <-]. split; [apply super_frame_refl|done].
Qed.
(** Where the operation stops without success or a started writer, the rollback
    meets the journal of the preparation. *)
Lemma operation_journal md targets bytes layout write started s0 (b b' : Batch) : careful started write -> fresh_journal s0 -> sp_table s0 = Some md ->
  frame [] s0 (bt_super b) -> image_operation targets bytes layout write b = Some (false, b') -> started b' = false ->
  bt_checkpoint b' = bt_checkpoint b /\ bt_rolled b' = bt_rolled b /\
  exists r s1, Prepare_Image_Flash_Targets parse_status probe suffix true targets bytes layout (bt_super b) = Some (r, s1) /\ frame [] s1 (bt_super b') /\ journaled suffix md s0 (bt_super b').
Proof.
  intros Hc Hj Ht F H Hs. unfold image_operation in H. destruct (Prepare_Image_Flash_Targets _ _ _ _ _ _ _ _) as [[r s1]|] eqn:Ep; [|done]. cbn in H.
  assert (J : journaled suffix md s0 s1).
  { destruct F as (T & M & J & O). pose proof (prepare_spec parse_status probe suffix md _ _ _ _ _ _ _ ltac:(unfold fresh_journal; rewrite J; exact Hj) ltac:(by rewrite T) Ep) as [J1 J2 J3 J4].
    assert (Hm : forall n, sp_maps (bt_super b) !! n = sp_maps s0 !! n) by (intros n; apply M; intros Hn; by apply elem_of_nil in Hn).
    split; [|intros n; rewrite <- Hm; apply J2|done|congruence]. intros n. rewrite <- Hm. apply J1. }
  destruct r as [e|blocks].
  - injection H as <-. split_and!; [done|done|]. exists (inl e), s1. split_and!; [done|apply super_frame_refl|done].
  - destruct (Hc _ _ _ _ H) as (H1 & H2 & H3). specialize (H3 eq_refl Hs). split_and!; [done|done|]. exists (inr blocks), s1. split_and!; [done|done|by eapply journaled_later].
Qed.

End BatchProofs.

(** ** Two batches *)
#[export] Instance table_disk : LpDisk Table Table Z := {
  of_table t := Some t; Export t := Some t; table_names t := all_partitions t; extents t n := pt_size <$> table_find t n }.
#[export] Instance table_disk_laws : LpDiskLaws Table Table Z.
Proof.
  split.
  - intros md b n [= <-]. symmetry. apply in_all.
  - intros md n e H. apply in_all. cbn in *. by destruct (table_find md n).
Qed.
Definition demo_flash : Flash := MkFlash (MkWorld [demo_root] (fun _ => NoNode) (replicate 8 Grant)) [] [].
Definition demo_no_mapper : Env := MkEnv None (fun _ => None) (Some ""%string) [] (fun _ => MkProcess [] None None) "".
Definition demo_super : Super Table Z := MkSuper (Some demo_table) (list_to_map [("system_a"%string, 32768); ("vendor_a"%string, 16384)]) [] [] false [] [] []
  (replicate 30 (Path "/dev/block/dm-0")) (replicate 2 (MkSnapshots true true NoState (Some (true, true)) (Some true))).
Definition demo_write (blocks : list string) (b : Batch (MD := Table) (E := Z)) : option (bool * Batch (MD := Table) (E := Z)) := Some (false, b).
Definition demo_started (b : Batch (MD := Table) (E := Z)) : bool := false.
#[local] Abbreviation demo_batch targets bytes layout := (Run_Image_Flash_Batch demo_no_mapper false "_a" (fun _ => ""%string) targets
  (image_operation (fun _ => None) (fun _ => None) "_a" targets bytes layout demo_write) (Some demo_started) false demo_flash demo_super).
(** A ROM layout whose images do not fit: the plan fails before anything was
    changed, yet the rollback, which reports success, takes the slot's mappings
    away. *)
Lemma layout_failure_unmaps_slot :
  match demo_batch ["/logical/system"; "/logical/product"]%string [40960; 40960] (Some demo_layout) with
  | Some (false, false, b) => bt_rolled b = Some Restored /\ sp_maps demo_super !! "system_a"%string = Some 32768 /\ sp_maps (bt_super b) !! "system_a"%string = None
  | _ => False
  end.
Proof. vm_compute. by repeat split. Qed.
Lemma demo_batch_ok :
  match demo_batch ["/logical/system"]%string [16384] None with
  | Some (_, _, b) => match bt_rolled b, sp_maps (bt_super b) !! "system_a"%string with Some Restored, Some 32768 => true | _, _ => false end
  | _ => false
  end = true.
Proof. vm_compute. reflexivity. Qed.
Lemma demo_coherent : coherent demo_table demo_super.
Proof.
  intros n e H. cbn in H. rewrite !lookup_insert in H. repeat (case_decide; subst; [injection H as <-; vm_compute; reflexivity|]). by rewrite lookup_empty in H.
Qed.
