(* ===== verification/SuperEdit.v ===== *)
(** partitionmanager.cpp: AeraResizeLogicalPartition, Prepare_Image_Flash_Target,
    Get_Snapshot_Cow_Partitions and Remove_Snapshot_Cow_Partitions, over the
    Super device of FlashPrepare. *)
From stdpp Require Import base list strings gmap.
From Stdlib Require Import ZArith Lia Ascii.
From S2P Require Import Prelude CxxString FlashRelease FlashLayout FlashPrepare.

Section Edit.
Context {MD B E : Type} `{!Builder B} `{!LpDisk MD B E} (parse_status : string -> option bool) (suffix : string).
#[local] Abbreviation Super := (Super MD E).
#[local] Abbreviation P := (P MD E).
(** ** AeraResizeLogicalPartition *)
(** Set_Block_Device, unless there is no path. *)
Definition rebase_part (i : nat) (block : option string) : P () :=
  match block with Some block => if String.eqb block "" then mret () else Set_Block_Device i block | None => mret () end.
(** The original table is written back and the partition mapped from it. *)
Definition undo_resize (i : nat) (name : string) (original : MD) : P bool :=
  _ ← UpdatePartitionTable original;
  block ← AeraMapLogicalPartition name;
  _ ← rebase_part i block;
  mret false.
Definition commit_resize (i : nat) (name : string) (original updated : MD) : P bool :=
  ok ← DestroyLogicalPartition name;
  if negb ok then mret false
  else
  written ← UpdatePartitionTable updated;
  if negb written then undo_resize i name original
  else
  block ← AeraMapLogicalPartition name;
  match block with
  | None => undo_resize i name original
  | Some block => _ ← Set_Block_Device i block; mret true
  end.
Definition AeraResizeLogicalPartition (i : nat) (requested : Z) : P bool :=
  ps ← look sp_parts;
  part ← deref (ps !! i);
  if negb (Is_Super part) then mret false
  else
  idle ← SnapshotIdle parse_status false;
  if negb idle then mret false
  else
  b ← NewBuilder;
  match b with
  | None => mret false
  | Some b =>
      match logical_name suffix b (bare_name part) ≫= fun name => logical ← FindPartition b name; Some (name, pt_size logical) with
      | None => mret false
      | Some (name, current) =>
          if requested =? current then mret true
          else
          match ResizePartition b name requested ≫= Export with
          | None => mret false
          | Some updated =>
              original ← ReadMetadata;
              match original with None => mret false | Some original => commit_resize i name original updated end
          end
      end
  end.
(** ** Prepare_Image_Flash_Target *)
Context (probe : string -> option (Z * bool * bool)).
(** [None]: false. The answer that UnMount meets comes before the resizing. *)
Definition Prepare_Image_Flash_Target (image_flash_batch : bool) (target : string) (bytes : Z) : P (option string) :=
  if negb image_flash_batch then mret None
  else
  valid ← Validate_Image_Flash_Target probe suffix target bytes;
  match valid with
  | None => mret None
  | Some capacity =>
      ps ← look sp_parts;
      match Find_Partition_By_Path ps target with
      | None => mret None
      | Some i =>
          part ← deref (ps !! i);
          ready ← (if Is_Super part then
                     resized ← look sp_resized;
                     _ ← (if negb (capacity =? bytes) && negb (bool_decide (i ∈ resized))
                          then change (fun s => set_journal (sp_resized s ++ [i]) (sp_changed s) (sp_layout s) (sp_original s) (sp_cows s) s) else mret ());
                     unmounted ← ask;
                     if negb (accepted unmounted) then mret false else AeraResizeLogicalPartition i bytes
                   else mret (Can_Flash_Img part && Backup_DD part && SlotSelect part));
          if negb ready then mret None
          else
          block ← Find_Actual_Block_Device i;
          mret (if String.eqb block "" then None else Some block)
      end
  end.
(** ** Get_Snapshot_Cow_Partitions, Remove_Snapshot_Cow_Partitions *)
Definition sort_names (l : list string) : list string := (foldl (fun m name => set_insert name m) [] l).*1.
(** The names and whether they may be removed. *)
Definition Get_Snapshot_Cow_Partitions : P (option (list string * bool)) :=
  super ← ask;
  if negb (accepted super) then mret None
  else
  b ← NewBuilder;
  match b with
  | None => mret None
  | Some b =>
      let cows := sort_names (cow_names b) in
      safe ← SnapshotIdle parse_status (negb (bool_decide (cows = [])));
      mret (Some (cows, safe))
  end.
Definition still_cow (b : B) (name : string) : bool :=
  match FindPartition b name with Some p => String.eqb (pt_group p) "cow" && cow_name name | None => false end.
Fixpoint remove_cows (cows : list string) (b : B) : P (option B) :=
  match cows with
  | [] => mret (Some b)
  | name :: cows =>
      node ← ask;
      released ← (if accepted node then DestroyLogicalPartition name else mret true);
      if negb released then mret None else remove_cows cows (RemovePartition b name)
  end.
Definition Remove_Snapshot_Cow_Partitions : P bool :=
  found ← Get_Snapshot_Cow_Partitions;
  match found with
  | Some (cows, true) =>
      if bool_decide (cows = []) then mret true
      else
      original ← ReadMetadata;
      match original with
      | None => mret false
      | Some original =>
          match of_table original with
          | None => mret false
          | Some b =>
              if negb (forallb (still_cow b) cows) then mret false
              else
              b' ← remove_cows cows b;
              match b' ≫= Export with
              | None => mret false
              | Some updated =>
                  ok ← UpdatePartitionTable updated;
                  if ok : bool then mret true else _ ← UpdatePartitionTable original; mret false
              end
          end
      end
  | _ => mret false
  end.
End Edit.

Section EditProofs.
Context {MD B E : Type} `{!Builder B} `{!LpDisk MD B E} (parse_status : string -> option bool) (suffix : string).
#[local] Abbreviation Super := (Super MD E).
#[local] Abbreviation P := (P MD E).
Implicit Types (s : Super) (names : list string).
(** Only the mappings of [names] and the table may differ. *)
Definition beside names s s' : Prop := (forall n, n ∉ names -> sp_maps s' !! n = sp_maps s !! n) /\ journal s' = journal s /\ mounts s' = mounts s.
(** Writing [md] back was tried last and failed. *)
Definition write_back_failed (md : MD) s' : Prop := exists s1 s2, UpdatePartitionTable md s1 = Some (false, s2) /\ sp_table s' = sp_table s2.
Lemma beside_refl names s : beside names s s.
Proof. by repeat split. Qed.
Lemma beside_trans names s1 s2 s3 : beside names s1 s2 -> beside names s2 s3 -> beside names s1 s3.
Proof. intros (M1 & J1 & O1) (M2 & J2 & O2). split_and!; [|congruence|congruence]. intros n Hn. by rewrite M2, M1. Qed.
Lemma frame_beside names names' s s' : frame names s s' -> (forall n, n ∈ names -> n ∈ names') -> beside names' s s'.
Proof. intros (_ & M & J & O) Hn. split_and!; [|done|done]. intros n Ho. apply M. intros ?. by apply Ho, Hn. Qed.
Lemma update_beside names md s ok s' : UpdatePartitionTable md s = Some (ok, s') -> beside names s s' /\ (ok = true -> sp_table s' = Some md).
Proof. intros (M & J & O & T)%update_spec. split; [|done]. split_and!; [|done|done]. intros n _. by rewrite M. Qed.
Lemma rebase_part_frame names i block s u s' : rebase_part (E := E) i block s = Some (u, s') -> frame names s s'.
Proof. unfold rebase_part. destruct block as [block|]; [destruct (String.eqb _ _)|]; [intros [= <- <-]; apply super_frame_refl|by apply within_block|intros [= <- <-]; apply super_frame_refl]. Qed.
Lemma undo_resize_spec i name md s ok s' : undo_resize i name md s = Some (ok, s') ->
  ok = false /\ beside [name] s s' /\ (sp_table s' = Some md \/ write_back_failed md s').
Proof.
  unfold undo_resize. intros H. pstep H w s1 E1. pstep H block s2 E2. pstep H u s3 E3. injection H as <- <-. apply map_spec in E2 as [F2 _]. apply (rebase_part_frame [name]) in E3 as F3.
  assert (Ht : sp_table s3 = sp_table s1) by (by rewrite (proj1 F3), (proj1 F2)). destruct (update_beside [name] _ _ _ _ E1) as [B1 T1]. split_and!; [done| |].
  - eapply beside_trans; [exact B1|]. eapply beside_trans; by eapply frame_beside.
  - destruct w; [left; rewrite Ht; by apply T1|right; exists s, s1; by rewrite Ht].
Qed.
Lemma commit_resize_spec i name md updated s ok s' : sp_table s = Some md -> commit_resize i name md updated s = Some (ok, s') ->
  beside [name] s s' /\
  if ok then sp_table s' = Some updated /\ exists e, extents updated name = Some e /\ sp_maps s' !! name = Some e
  else sp_table s' = Some md \/ write_back_failed md s'.
Proof.
  intros Ht H. unfold commit_resize in H. pstep H released s1 E1. apply destroy_spec in E1 as [F1 _]. assert (B1 : beside [name] s s1) by (by eapply frame_beside).
  destruct released; cbn [negb] in H; [|injection H as <- <-; split; [done|left; by rewrite (proj1 F1)]].
  pstep H written s2 E2. destruct (update_beside [name] _ _ _ _ E2) as [B2 T2]. pose proof (beside_trans _ _ _ _ B1 B2) as B12.
  destruct written; cbn [negb] in H; [|apply undo_resize_spec in H as (-> & B3 & H); split; [by eapply beside_trans|done]].
  pstep H block s3 E3. apply map_spec in E3 as [F3 M3]. assert (B13 : beside [name] s s3) by (eapply beside_trans; [exact B12|by eapply frame_beside]).
  destruct block as [block|]; [|apply undo_resize_spec in H as (-> & B4 & H); split; [by eapply beside_trans|done]].
  pstep H u s4 E4. apply (within_block [name]) in E4 as F4. pose proof (within_block [] _ _ _ _ _ E4) as (_ & M4 & _). injection H as <- <-. split; [eapply beside_trans; [exact B13|by eapply frame_beside]|].
  destruct M3 as (md' & e & T3 & He & Hm). rewrite (T2 eq_refl) in T3. injection T3 as <-. rewrite (proj1 F4), (proj1 F3). split; [by apply T2|].
  exists e. split; [done|]. rewrite M4; [done|]. intros Hn. by apply elem_of_nil in Hn.
Qed.
Lemma frame_nil_beside names s s' : frame [] s s' -> beside names s s'.
Proof. intros F. eapply frame_beside; [exact F|]. intros n Hn. by apply elem_of_nil in Hn. Qed.
Lemma idle_spec f c s ok s' : SnapshotIdle (MD := MD) (E := E) f c s = Some (ok, s') -> ok = true -> exists sn rest, sp_snapshots s = sn :: rest /\ AeraSnapshotStateIdle f c sn = true.
Proof. unfold SnapshotIdle. destruct (sp_snapshots s) as [|sn rest]; intros [= <- <-]; [done|]. eauto. Qed.
Lemma read_spec md s t s' : sp_table s = Some md -> ReadMetadata (MD := MD) (E := E) s = Some (t, s') -> frame [] s s' /\ (t = None \/ t = Some md).
Proof.
  intros Ht H. split; [by eapply within_read|]. unfold ReadMetadata in H. pstep H r s1 E1. pstep H t' s2 E2. injection E2 as <- <-. injection H as <- <-.
  assert (sp_table s1 = Some md) as -> by (rewrite <- Ht; unfold ask in E1; destruct (sp_replies s); by injection E1 as <- <-). destruct (accepted r); auto.
Qed.

(** Resizing one partition is a transaction. *)
Lemma resize_transaction md i requested s ok s' : sp_table s = Some md -> AeraResizeLogicalPartition parse_status suffix i requested s = Some (ok, s') ->
  exists name, beside [name] s s' /\
  if ok then (sp_table s' = Some md /\ beside [] s s') \/
    exists b b' md', of_table md = Some b /\ ResizePartition b name requested = Some b' /\ Export b' = Some md' /\ sp_table s' = Some md' /\
      exists e, extents md' name = Some e /\ sp_maps s' !! name = Some e
  else sp_table s' = Some md \/ write_back_failed md s'.
Proof.
  intros Ht H. unfold AeraResizeLogicalPartition in H. pstep H ps s0 E0. injection E0 as <- <-. pstep H part s1 E1.
  destruct (sp_parts s !! i); [|done]. injection E1 as <- <-.
  assert (Hsame : forall s1, frame [] s s1 -> exists name, beside [name] s s1 /\ (sp_table s1 = Some md \/ write_back_failed md s1)).
  { intros s1 F. exists ""%string. split; [by apply frame_nil_beside|left; by rewrite (proj1 F)]. }
  destruct (negb (Is_Super _)); [injection H as <- <-; apply Hsame, super_frame_refl|]. pstep H idle s2 E2. assert (F2 : frame [] s s2) by (by eapply within_idle).
  destruct (negb idle); [injection H as <- <-; by apply Hsame|]. pstep H b s3 E3. assert (T2 : sp_table s2 = Some md) by (by rewrite (proj1 F2)).
  destruct (builder_spec md _ _ _ T2 E3) as [F3 Hb]. pose proof (super_frame_trans _ _ _ _ F2 F3) as F23. destruct b as [b|]; [|injection H as <- <-; by apply Hsame].
  destruct (logical_name suffix b _ ≫= _) as [[name current]|]; [|injection H as <- <-; by apply Hsame].
  destruct (requested =? current).
  { injection H as <- <-. exists name. split; [by apply frame_nil_beside|]. left. split; [by rewrite (proj1 F23)|by apply frame_nil_beside]. }
  destruct (ResizePartition b name requested) as [b'|] eqn:Er; cbn in H; [|injection H as <- <-; by apply Hsame].
  destruct (Export b') as [updated|] eqn:Ex; [|injection H as <- <-; by apply Hsame].
  pstep H original s4 E4. assert (T3 : sp_table s3 = Some md) by (by rewrite (proj1 F23)). destruct (read_spec md _ _ _ T3 E4) as [F4 Ho].
  pose proof (super_frame_trans _ _ _ _ F23 F4) as F24. destruct original as [original|]; [|injection H as <- <-; by apply Hsame].
  destruct Ho as [|[= ->]]; [done|]. apply commit_resize_spec in H as [B5 H]; [|by rewrite (proj1 F24)]. exists name.
  split; [eapply beside_trans; [by apply frame_nil_beside|exact B5]|]. destruct ok; [|done]. right. exists b, b', updated. split_and!; auto; apply H.
Qed.
End EditProofs.

Section CowProofs.
Context {MD B E : Type} `{!Builder B} `{!BuilderLaws B} `{!LpDisk MD B E} (parse_status : string -> option bool).
#[local] Abbreviation Super := (Super MD E).
Implicit Types (s : Super) (names : list string).
Lemma sort_names_spec l n : n ∈ sort_names l <-> n ∈ l.
Proof. unfold sort_names. rewrite set_of_names. cbn. split; [intros [Hn|Hn]; [by apply elem_of_nil in Hn|done]|by right]. Qed.
Lemma remove_cows_spec cows (b : B) s b' s' : remove_cows cows b s = Some (b', s') ->
  frame cows s s' /\ forall c, b' = Some c -> c = foldl RemovePartition b cows.
Proof.
  revert b s b' s'. induction cows as [|name cows IH]; intros b s b' s' H; cbn in H; [injection H as <- <-; split; [apply super_frame_refl|by intros c [= <-]]|].
  pstep H node s1 E1. pstep H released s2 E2. assert (F1 : frame [name] s s1) by (by eapply within_ask).
  assert (F2 : frame [name] s1 s2) by (destruct (accepted node); [by apply destroy_spec in E2 as [? _]|injection E2 as <- <-; apply super_frame_refl]).
  pose proof (super_frame_trans _ _ _ _ F1 F2) as F12. destruct released; cbn [negb] in H.
  - apply IH in H as [F3 H]. split; [by eapply frame_cons|exact H].
  - injection H as <- <-. split; [|done]. eapply frame_weaken; [|exact F12]. set_solver.
Qed.
Lemma get_cows_spec md s r s' : sp_table s = Some md -> Get_Snapshot_Cow_Partitions (B := B) parse_status s = Some (r, s') ->
  frame [] s s' /\ forall cows safe, r = Some (cows, safe) -> exists b : B, of_table md = Some b /\ cows = sort_names (cow_names b) /\
    (safe = true -> exists sn, sn ∈ sp_snapshots s /\ AeraSnapshotStateIdle parse_status (negb (bool_decide (cows = []))) sn = true).
Proof.
  intros Ht H. unfold Get_Snapshot_Cow_Partitions in H. pstep H super s1 E1. assert (F1 : frame [] s s1) by (by eapply within_ask).
  assert (Hs1 : sp_snapshots s1 = sp_snapshots s) by (unfold ask in E1; destruct (sp_replies s); by injection E1 as <- <-).
  destruct (negb _); [injection H as <- <-; done|]. pstep H b s2 E2. assert (T1 : sp_table s1 = Some md) by (by rewrite (proj1 F1)).
  assert (Hs2 : sp_snapshots s2 = sp_snapshots s1).
  { unfold NewBuilder, ReadMetadata in E2. pstep E2 t s3 E3. pstep E3 a s4 E4. pstep E3 t' s5 E5. injection E5 as <- <-. injection E3 as <- <-. injection E2 as <- <-.
    unfold ask in E4. destruct (sp_replies s1); by injection E4 as <- <-. }
  destruct (builder_spec md _ _ _ T1 E2) as [F2 Hb]. pose proof (super_frame_trans _ _ _ _ F1 F2) as F12. destruct b as [b|]; [|injection H as <- <-; done].
  pstep H safe s3 E3. injection H as <- <-. split; [eapply super_frame_trans; [exact F12|by eapply within_idle]|]. intros cows safe' [= <- <-]. exists b. split_and!; [by apply Hb|done|].
  intros ->. apply idle_spec in E3 as (sn & rest & Hsn & Hi); [|done]. exists sn. split; [|done]. rewrite <- Hs1, <- Hs2, Hsn. left.
Qed.

End CowProofs.
