(* ===== verification/Install.v ===== *)
(** install/install.cpp, spl_check.cpp, wipe_device.cpp and wipe_data.cpp: the
    installation of an OTA package, from its verification to the commands of the
    updater, and the wipes that packages may ask for.

    Signature verification is that of Verifier. libziparchive, the protobuf
    reader and the helpers of libbase that are not in [AndroidBase] are
    parameters; what the platform answers is the record [Device]. What a run
    does to the device is the list of [Event]s it gives; [None] is a run that
    the program aborts, or that has no defined behaviour. *)
From stdpp Require Import base list strings gmap.
From Stdlib Require Import ZArith Lia Ascii.
From S2P Require Import Prelude Libbase CxxString Abl PayloadTargets RangeSet BlockMap Verifier.

(** ** What the code calls *)
(** An entry of an archive: its size, its place, and what extracting it into a
    buffer of a given size gives. *)
Record Entry := MkEntry { ze_length : Z; ze_offset : Z; ze_extract : Z -> option string }.
Definition Archive : Type := string -> option Entry.
Record OtaMetadata := MkOta { security_patch_level : string; spl_downgrade : bool; downgrade : bool }.
Class OtaText := {
  base_Trim : string -> string;
  base_Tokenize : string -> string -> list string;
  base_ParseInt : string -> option Z;
  ParseOtaMetadata : string -> option OtaMetadata;
  open_archive : list Z -> option Archive }.
(** How a child process ended. *)
Inductive Status := Exited (code : Z) | Signaled | Undecoded.
(** A block device to be wiped. *)
Record WipeDev := MkWipeDev {
  wd_opens : bool; wd_size : option Z; wd_secdiscard : bool; wd_zeroes : option Z; wd_discard : bool; wd_zeroout : bool }.
Record Device := MkDevice {
  prop : string -> string; int_prop : string -> option Z; bool_prop : string -> option bool;
  mounts_ok : bool; pipe_ok : bool; binary_opens : bool; binary_extracts : bool; fork_ok : bool; pipe_fd : Z;
  child_output : string; child_status : Status;
  has_volume : string -> bool; erase_ok : string -> bool; memtag_ok : bool;
  wipe_list : option string; wipe_dev : string -> WipeDev;
  cache_mounts : bool; uncrypt_status : option string; time_total : Z; temperatures : Z * Z * Z }.
Record Pkg := MkPkg { pk_package : Package; pk_archive : option Archive; pk_is_file : bool; pk_path : string }.
Inductive InstallResult := INSTALL_SUCCESS | INSTALL_ERROR | INSTALL_CORRUPT | INSTALL_NONE | INSTALL_SKIPPED | INSTALL_RETRY | INSTALL_KEY_INTERRUPTED | INSTALL_REBOOT.
Inductive OtaType := AB | BLOCK | BRICK.
#[global] Instance OtaType_eq_dec : EqDecision OtaType.
Proof. solve_decision. Defined.
Inductive WipeHow := SecDiscard | Discard | ZeroOut.
Inductive Event := Ran (args : list string) | Erased (volume : string) | MemtagReset | Wiped (partition : string) (how : WipeHow) | Logged (text : string).
Definition int_string (z : Z) : string := if z <? 0 then ("-" ++ to_string (- z))%string else to_string z.

Section Metadata.
Context `{AndroidBase} `{OtaText}.
(** ** ReadMetadataFromPackage *)
Definition equals : ascii := "=".
Definition metadata_line (m : smap string) (line : string) : smap string :=
  match find_char equals line with
  | None => m
  | Some eq => default m (smap_emplace (base_Trim (str_take eq line)) (base_Trim (str_drop (eq + 1) line)) m)
  end.
Definition METADATA_PATH : string := "META-INF/com/android/metadata".
Definition ReadMetadataFromPackage (zip : Archive) : option (smap string) :=
  entry ← zip METADATA_PATH;
  text ← ze_extract entry (u32 (ze_length entry));
  Some (foldl metadata_line [] (base_Split text newline)).
Definition get_value (m : smap string) (key : string) : string := default ""%string (smap_find key m).
Definition OtaTypeToString (t : OtaType) : string := match t with AB => "AB" | BLOCK => "BLOCK" | BRICK => "BRICK" end.
Definition isInStringList (target_token str_list deliminator : string) : bool :=
  if (String.length str_list <? String.length target_token)%nat then false
  else if (String.length target_token =? String.length str_list)%nat || (String.length deliminator =? 0)%nat then String.eqb target_token str_list
  else bool_decide (target_token ∈ base_Split str_list deliminator).
Definition FINGERPRING_SEPARATOR : string := "|".
Definition RELEASE_KEYS_TAG : string := "release-keys".
Definition ReadSourceTargetBuild (m : smap string) : list string :=
  let source := get_value m "pre-build-incremental" in
  let target := get_value m "post-build-incremental" in
  (if String.eqb source "" then [] else [("source_build: " ++ source)%string]) ++ (if String.eqb target "" then [] else [("target_build: " ++ target)%string]).
(** ** CheckPackageMetadata *)
Definition INT64_MAX : Z := 2 ^ 63 - 1.
Definition too_old (dev : Device) (m : smap string) : bool :=
  let build_timestamp := default INT64_MAX (int_prop dev "ro.build.date.utc") in
  let text := get_value m "post-timestamp" in
  String.eqb text "" || match base_ParseInt text with Some t => t <? build_timestamp | None => true end.
Definition CheckAbSpecificMetadata (dev : Device) (m : smap string) : bool :=
  let pkg_pre_build := get_value m "pre-build-incremental" in
  if negb (String.eqb pkg_pre_build "") && negb (String.eqb pkg_pre_build (prop dev "ro.build.version.incremental")) then false
  else
  let fingerprint := get_value m "pre-build" in
  if negb (String.eqb fingerprint "") && negb (isInStringList (prop dev "ro.build.fingerprint") fingerprint FINGERPRING_SEPARATOR) then false
  else if too_old dev m && negb (String.eqb (get_value m "ota-downgrade") "yes") then false
  else if too_old dev m && String.eqb fingerprint "" then false
  else
  match last (base_Tokenize (get_value m "post-build") "/") with
  | Some tag => String.eqb (prop dev "ro.build.tags") tag
  | None => true
  end.
Definition CheckPackageMetadata (dev : Device) (m : smap string) (t : OtaType) : bool :=
  if bool_decide (t ≠ AB /\ t ≠ BRICK) then true
  else if negb (String.eqb (get_value m "ota-type") (OtaTypeToString t)) then false
  else
  let pkg_device := get_value m "pre-device" in
  if String.eqb pkg_device "" || negb (isInStringList (prop dev "ro.product.device") pkg_device FINGERPRING_SEPARATOR) then false
  else
  let serial := get_value m "serialno" in
  let serial_ok :=
    if negb (String.eqb serial "") then existsb (fun number => String.eqb (prop dev "ro.serialno") (base_Trim number)) (base_Split serial "|")
    else if bool_decide (t = BRICK) then negb (String.eqb (prop dev "ro.build.tags") "") && negb (String.eqb (prop dev "ro.build.tags") RELEASE_KEYS_TAG)
    else true in
  if negb serial_ok then false
  else if bool_decide (t = AB) then CheckAbSpecificMetadata dev m else true.
(** ** ViolatesSPLDowngrade *)
Definition ViolatesSPL (metadata : OtaMetadata) (current_spl : string) : bool :=
  if String.eqb current_spl "" then false
  else
  match String.compare (security_patch_level metadata) current_spl with
  | Lt => negb (spl_downgrade metadata || downgrade metadata)
  | _ => false
  end.
Definition OTA_OTA_METADATA : string := "META-INF/com/android/metadata.pb".
Definition ViolatesSPLDowngrade (zip : Archive) (current_spl : string) : bool :=
  match zip OTA_OTA_METADATA with
  | None => false
  | Some entry =>
      match ze_extract entry (ze_length entry) ≫= ParseOtaMetadata with
      | None => false
      | Some metadata => ViolatesSPL metadata current_spl
      end
  end.
End Metadata.

(** ** The updater *)
Section Updater.
Context `{AndroidBase} `{OtaText}.
Definition ExtractPayloadProperties (zip : Archive) : string :=
  match zip "payload_properties.txt"%string with
  | None => ""
  | Some entry => default ""%string (ze_extract entry (ze_length entry))
  end.
Definition SetUpAbUpdateCommands (package : string) (zip : Archive) (status_fd : Z) : option (list string) :=
  let properties := ExtractPayloadProperties zip in
  if String.eqb properties "" then None
  else
  payload ← zip "payload.bin"%string;
  Some ["/system/bin/update_engine_sideload"; "--payload=file://" ++ package; "--offset=" ++ int_string (ze_offset payload);
        "--headers=" ++ properties; "--status_fd=" ++ int_string status_fd]%string.
Definition UPDATE_BINARY_NAME : string := "META-INF/com/google/android/update-binary".
Definition temporary_update_binary : string := "/tmp/update-binary".
Definition kRecoveryApiVersion : Z := 3.
Definition SetUpNonAbUpdateCommands (dev : Device) (package : string) (zip : Archive) (retry_count status_fd : Z) : option (list string) :=
  _ ← zip UPDATE_BINARY_NAME;
  if negb (binary_opens dev) || negb (binary_extracts dev) then None
  else Some ([temporary_update_binary; int_string kRecoveryApiVersion; int_string status_fd; package] ++ (if 0 <? retry_count then ["retry"%string] else [])).
(** fgets with a buffer of n + 1 bytes: up to n bytes, to the end of the line. *)
Fixpoint fgets (n : nat) (s : string) : string * string :=
  match n, s with
  | S n, String c s => if Ascii.eqb c (ascii_of_nat 10) then (String c "", s) else let '(l, rest) := fgets n s in (String c l, rest)
  | _, _ => (""%string, s)
  end.
(** std::string line(buffer): up to the first NUL. *)
Fixpoint c_str (s : string) : string :=
  match s with
  | EmptyString => ""
  | String c s => if Ascii.eqb c zero then "" else String c (c_str s)
  end.
Fixpoint read_lines (fuel : nat) (s : string) : list string :=
  match fuel, s with
  | S fuel, String _ _ => let '(l, rest) := fgets 1023 s in c_str l :: read_lines fuel rest
  | _, _ => []
  end.
(** The position of the first blank or newline. *)
Fixpoint word_end (s : string) : option nat :=
  match s with
  | EmptyString => None
  | String c s => if Ascii.eqb c " " || Ascii.eqb c (ascii_of_nat 10) then Some O else S <$> word_end s
  end.
Definition command_of (line : string) : string * string :=
  match word_end line with
  | Some n => (str_take n line, base_Trim (str_drop n line))
  | None => (line, ""%string)
  end.
Record Talk := MkTalk { tk_wipe_cache : bool; tk_retry : bool; tk_log : list string }.
Definition hear (t : Talk) (line : string) : Talk :=
  let '(command, args) := command_of line in
  if String.eqb command "wipe_cache" then MkTalk true (tk_retry t) (tk_log t)
  else if String.eqb command "retry_update" then MkTalk (tk_wipe_cache t) true (tk_log t)
  else if String.eqb command "log" && negb (String.eqb args "") then MkTalk (tk_wipe_cache t) (tk_retry t) (tk_log t ++ [args])
  else t.
Definition listen (output : string) (log : list string) : Talk := foldl hear (MkTalk false false log) (read_lines (String.length output) output).
End Updater.

(** ** wipe_data.cpp *)
Section Wipes.
Context (dev : Device).
Definition EraseVolume (volume : string) : bool * list Event := (erase_ok dev volume, [Erased volume]).
Definition WipeCache (confirm : bool) : bool * list Event :=
  if negb (has_volume dev "/cache") then (false, [])
  else if negb confirm then (false, []) else EraseVolume "/cache".
(** [device]: the answers of PreWipeData and PostWipeData; [None] is a null pointer. *)
Definition WipeData (device : option (bool * bool)) (keep_memtag_mode : bool) : option (bool * list Event) :=
  '(pre, post) ← device;
  let erase_if (present : bool) (volume : string) : bool * list Event := if present then EraseVolume volume else (true, []) in
  let '(ok, events) :=
    if pre : bool then
      let '(ok1, e1) := EraseVolume "/data" in
      let '(ok2, e2) := erase_if (has_volume dev "/cache") "/cache"%string in
      let '(ok3, e3) := erase_if (has_volume dev "/metadata") "/metadata"%string in
      (ok1 && ok2 && ok3, e1 ++ e2 ++ e3)
    else (false, []) in
  let '(ok, events) := if keep_memtag_mode then (ok, events) else (ok && memtag_ok dev, events ++ [MemtagReset]) in
  Some (ok && post, events).
(** ** wipe_device.cpp *)
Definition SecureWipePartition (partition : string) : option WipeHow :=
  let d := wipe_dev dev partition in
  if negb (wd_opens d) then None
  else if match wd_size d with Some n => n =? 0 | None => true end then None
  else if wd_secdiscard d then Some SecDiscard
  else if match wd_zeroes d with Some z => negb (z =? 0) | None => false end
  then if wd_discard d then Some Discard else None
  else if wd_zeroout d then Some ZeroOut else None.
End Wipes.

Section Driver.
Context `{PublicKeys} `{Sha256} `{ShaStream} `{Sha1} `{AndroidBase} `{OtaText}.
Context (keys : list Certificate) (dev : Device).
(** [None] is the undefined behaviour of verify_file. *)
Definition verify_package (package : Pkg) : option bool :=
  match keys with
  | [] => Some false
  | _ => r ← verify_file (pk_package package) keys; Some (r =? VERIFY_SUCCESS)
  end.
Definition wipe_lines (text : string) : list string :=
  filter (fun line => let partition := base_Trim line in negb (String.prefix "#" partition || String.eqb partition "") = true) (base_Split text newline).
Definition GetWipePartitionList (wipe_package : Pkg) : list string :=
  match pk_archive wipe_package with
  | None => []
  | Some zip =>
      match zip "recovery.wipe"%string with
      | Some entry => match ze_extract entry (ze_length entry) with Some text => wipe_lines text | None => [] end
      | None => match wipe_list dev with Some text => wipe_lines text | None => [] end
      end
  end.
Definition CheckWipePackage (wipe_package : Pkg) : option bool :=
  ok ← verify_package wipe_package;
  Some (ok && match pk_archive wipe_package ≫= ReadMetadataFromPackage with Some metadata => CheckPackageMetadata dev metadata BRICK | None => false end).
Definition WipeAbDevice (wipe_package : Pkg) : option (bool * list Event) :=
  ok ← CheckWipePackage wipe_package;
  if negb ok then Some (false, [])
  else
  match GetWipePartitionList wipe_package with
  | [] => Some (false, [])
  | partitions => Some (true, omap (fun p => Wiped p <$> SecureWipePartition dev p) partitions)
  end.
(** ** TryUpdateBinary *)
Definition kZipVerificationFailure : Z := 21.
Definition kMapFileFailure : Z := 26.
Definition kForkUpdateBinaryFailure : Z := 27.
Definition kUpdateBinaryCommandFailure : Z := 28.
Definition error_line (code : Z) : string := "error: " ++ int_string code.
Definition MEMORY_PACKAGE_LIMIT : Z := 1024 * 1024.
Definition contains (sub s : string) : bool :=
  (fix go s := String.prefix sub s || match s with String _ s => go s | EmptyString => false end) s.
(** WipeData(nullptr). *)
Definition PerformPowerwashIfRequired (zip : Archive) : option (bool * list Event) :=
  if contains "POWERWASH=1" (ExtractPayloadProperties zip) then WipeData dev None false else Some (true, []).
Record Outcome := MkOutcome { out_result : InstallResult; out_wipe_cache : bool; out_log : list string; out_events : list Event }.
Definition stop (result : InstallResult) (log : list string) : option Outcome := Some (MkOutcome result false log []).
Definition wiped (r : bool * list Event) : Outcome := MkOutcome (if r.1 then INSTALL_SUCCESS else INSTALL_ERROR) false [] r.2.
Definition is_type (m : smap string) (t : OtaType) : bool := String.eqb (get_value m "ota-type") (OtaTypeToString t).
(** A brick package in a small file is read once and judged as read. *)
Definition brick_package (package : Pkg) : option Pkg :=
  if pk_is_file package && (GetPackageSize (pk_package package) <? MEMORY_PACKAGE_LIMIT)
  then match ReadFullyAtOffset (pk_package package) (GetPackageSize (pk_package package)) 0 with
       | Some [] => None
       | Some content => Some (MkPkg (MemoryPackage content) (open_archive content) false "")
       | None => Some package
       end
  else Some package.
(** From the fork to the result. *)
Definition run_updater (package_is_ab : bool) (zip : Archive) (args : list string) (log : list string) : option Outcome :=
  if negb (fork_ok dev) then stop INSTALL_ERROR (log ++ [error_line kForkUpdateBinaryFailure])
  else
  let talk := listen (child_output dev) log in
  let finish result events := Some (MkOutcome result (tk_wipe_cache talk) (tk_log talk) (Ran args :: events)) in
  if tk_retry talk then finish INSTALL_RETRY []
  else
  match child_status dev with
  | Exited 0 => if package_is_ab then '(_, events) ← PerformPowerwashIfRequired zip; finish INSTALL_SUCCESS events else finish INSTALL_SUCCESS []
  | Exited _ | Signaled => finish INSTALL_ERROR []
  | Undecoded => None
  end.
Definition TryUpdateBinary (package : Pkg) (retry_count : Z) : option Outcome :=
  zip ← pk_archive package;
  match ReadMetadataFromPackage zip with
  | None => stop INSTALL_CORRUPT []
  | Some metadata =>
      if is_type metadata BRICK then brick ← brick_package package; wiped <$> WipeAbDevice brick
      else
      let device_only_supports_ab := default false (bool_prop dev "ro.build.ab_update") && negb (default false (bool_prop dev "ro.virtual_ab.allow_non_ab")) in
      let package_is_ab := is_type metadata AB in
      if ViolatesSPLDowngrade zip (prop dev "ro.build.version.security_patch") then stop INSTALL_ERROR []
      else if package_is_ab && negb (pk_is_file package) then None
      else if (package_is_ab || device_only_supports_ab) && negb (CheckPackageMetadata dev metadata AB)
      then stop INSTALL_ERROR [error_line kUpdateBinaryCommandFailure]
      else
      let log := ReadSourceTargetBuild metadata in
      if negb (pipe_ok dev) then stop INSTALL_CORRUPT log
      else
      match (if package_is_ab then SetUpAbUpdateCommands (pk_path package) zip (pipe_fd dev)
             else SetUpNonAbUpdateCommands dev (pk_path package) zip retry_count (pipe_fd dev)) with
      | None => stop INSTALL_CORRUPT (log ++ [error_line kUpdateBinaryCommandFailure])
      | Some args => run_updater package_is_ab zip args log
      end
  end.
Definition VerifyAndInstallPackage (package : Pkg) (retry_count : Z) : option Outcome :=
  ok ← verify_package package;
  if negb ok then stop INSTALL_CORRUPT [error_line kZipVerificationFailure] else TryUpdateBinary package retry_count.
(** ** InstallPackage *)
Definition uncrypt_line : list string :=
  if negb (has_volume dev "/cache") || negb (cache_mounts dev) then []
  else match uncrypt_status dev with Some s => if String.prefix "uncrypt_" s then [base_Trim s] else [] | None => [] end.
Definition temperature_lines : list string :=
  let '(start, end_, highest) := temperatures dev in
  (if 0 <? start then [("temperature_start: " ++ int_string start)%string] else []) ++
  (if 0 <? end_ then [("temperature_end: " ++ int_string end_)%string] else []) ++
  (if 0 <? Z.max end_ (Z.max start highest) then [("temperature_max: " ++ int_string (Z.max end_ (Z.max start highest)))%string] else []).
Definition install_log (package_id : string) (result : InstallResult) (retry_count : Z) (log : list string) : string :=
  let header := [package_id; match result with INSTALL_SUCCESS => "1" | _ => "0" end; "time_total: " ++ int_string (time_total dev); "retry: " ++ int_string retry_count]%string in
  (String.concat newline header ++ newline ++ String.concat newline (log ++ uncrypt_line ++ temperature_lines) ++ newline)%string.
Definition InstallPackage (package : option Pkg) (package_id : string) (should_wipe_cache : bool) (retry_count : Z) : option (InstallResult * list Event) :=
  o ← (match package with
       | None => stop INSTALL_CORRUPT [error_line kMapFileFailure]
       | Some package => if negb (mounts_ok dev) then stop INSTALL_ERROR [] else VerifyAndInstallPackage package retry_count
       end);
  let events := out_events o ++ [Logged (install_log package_id (out_result o) retry_count (out_log o))] in
  match out_result o with
  | INSTALL_SUCCESS =>
      if should_wipe_cache || out_wipe_cache o
      then let '(ok, e) := WipeCache dev true in Some (if ok then INSTALL_SUCCESS else INSTALL_ERROR, events ++ e)
      else Some (INSTALL_SUCCESS, events)
  | r => Some (r, events)
  end.
End Driver.

(** ** SetupPackageMount *)
Section Mount.
Context `{AndroidBase} `{OtaText} (canonical : string -> option string) (mounted : string -> bool) (file : string -> option string) (has_fstab : string -> bool).
Definition CheckPathCanonical (path : string) : bool := match canonical path with Some c => String.eqb c path | None => false end.
(** [Some use_fuse]: the package can be used. *)
Definition SetupPackageMount (package_path : string) : option bool :=
  match package_path with
  | EmptyString => None
  | String c block_map_path =>
      if Ascii.eqb c "@" then
        if negb (CheckPathCanonical block_map_path) then None
        else if negb (mounted block_map_path) then None
        else
        let data := default ""%string (path_ <$> ParseBlockMapFile base_Trim (file block_map_path)) in
        if negb (CheckPathCanonical data) then None
        else if negb (has_fstab data) then None
        else Some false
      else if negb (mounted package_path) then None
      else if negb (CheckPathCanonical package_path) then None
      else Some (negb (String.prefix "/cache" package_path))
  end.
End Mount.

(** ** What the checks of the metadata establish *)
Section Policy.
Context `{AndroidBase} `{OtaText}.
(** [t] is one of the names in [l]. *)
Definition one_of (t l : string) : Prop := t = l \/ t ∈ base_Split l FINGERPRING_SEPARATOR.
Lemma in_list_sound t l : isInStringList t l FINGERPRING_SEPARATOR = true -> one_of t l.
Proof.
  unfold isInStringList. destruct (_ <? _)%nat; [done|]. destruct (_ || _); [intros ->%String.eqb_eq; by left|]. intros ?%bool_decide_eq_true. by right.
Qed.
Lemma length_concat_in t ps : t ∈ ps -> ps ≠ [t] -> (String.length t < String.length (String.concat "|" ps))%nat.
Proof.
  induction ps as [|p ps IH]; intros Hin Hne; [by apply elem_of_nil in Hin|]. destruct ps as [|q ps].
  { apply list_elem_of_singleton in Hin as ->. done. }
  change (String.concat "|" (p :: q :: ps)) with (p ++ "|" ++ String.concat "|" (q :: ps))%string. rewrite !string_length_app. cbn [String.length].
  apply elem_of_cons in Hin as [->|Hin]; [lia|]. destruct (decide (q :: ps = [t])) as [E|E]; [rewrite E; cbn; lia|]. specialize (IH Hin E). lia.
Qed.
(** For a list of names joined by bars it is membership. *)
Lemma in_list_exact `{!AndroidBaseLaws H} t ps : no_char "|" t = true -> ps ≠ [] -> Forall (fun p => no_char "|" p = true) ps ->
  isInStringList t (String.concat "|" ps) FINGERPRING_SEPARATOR = bool_decide (t ∈ ps).
Proof.
  intros Ht Hne Hps. pose proof (split_concat "|" ps Hne Hps) as Hs. unfold isInStringList, FINGERPRING_SEPARATOR. rewrite orb_false_r.
  destruct (Nat.ltb_spec (String.length (String.concat "|" ps)) (String.length t)) as [L|L].
  { symmetry. apply bool_decide_eq_false. intros Hin. destruct (decide (ps = [t])) as [->|E]; [cbn in L; lia|]. pose proof (length_concat_in t ps Hin E). lia. }
  destruct (Nat.eqb_spec (String.length t) (String.length (String.concat "|" ps))) as [E|E]; [|change "|"%string with (String "|" "") at 2; by rewrite Hs].
  apply eq_bool_prop_intro. rewrite !Is_true_true, String.eqb_eq, bool_decide_eq_true. split.
  - intros ->. destruct ps as [|p [|q ps]]; [done|left|]. exfalso. revert Ht.
    change (String.concat "|" (p :: q :: ps)) with (p ++ String "|" (String.concat "|" (q :: ps)))%string. rewrite no_char_app. cbn. by rewrite andb_false_r.
  - intros Hin. destruct (decide (ps = [t])) as [->|Ene]; [done|]. pose proof (length_concat_in t ps Hin Ene). lia.
Qed.
(** What an A/B package that is accepted states. *)
Record ab_policy (dev : Device) (m : smap string) : Prop := MkAbPolicy {
  ab_type : get_value m "ota-type" = "AB"%string;
  ab_device : get_value m "pre-device" ≠ ""%string /\ one_of (prop dev "ro.product.device") (get_value m "pre-device");
  ab_serial : get_value m "serialno" = ""%string \/ exists n, n ∈ base_Split (get_value m "serialno") "|" /\ base_Trim n = prop dev "ro.serialno";
  ab_incremental : get_value m "pre-build-incremental" = ""%string \/ get_value m "pre-build-incremental" = prop dev "ro.build.version.incremental";
  ab_fingerprint : get_value m "pre-build" = ""%string \/ one_of (prop dev "ro.build.fingerprint") (get_value m "pre-build");
  ab_time : (exists t b, base_ParseInt (get_value m "post-timestamp") = Some t /\ int_prop dev "ro.build.date.utc" = Some b /\ b <= t) \/
    (exists t, base_ParseInt (get_value m "post-timestamp") = Some t /\ INT64_MAX <= t) \/
    (get_value m "ota-downgrade" = "yes"%string /\ get_value m "pre-build" ≠ ""%string);
  ab_tag tag : last (base_Tokenize (get_value m "post-build") "/") = Some tag -> tag = prop dev "ro.build.tags" }.
Record brick_policy (dev : Device) (m : smap string) : Prop := MkBrickPolicy {
  br_type : get_value m "ota-type" = "BRICK"%string;
  br_device : get_value m "pre-device" ≠ ""%string /\ one_of (prop dev "ro.product.device") (get_value m "pre-device");
  br_serial : (exists n, n ∈ base_Split (get_value m "serialno") "|" /\ base_Trim n = prop dev "ro.serialno") \/
    (prop dev "ro.build.tags" ≠ ""%string /\ prop dev "ro.build.tags" ≠ RELEASE_KEYS_TAG) }.
Lemma serial_listed dev l : existsb (fun n => String.eqb (prop dev "ro.serialno") (base_Trim n)) l = true -> exists n, n ∈ l /\ base_Trim n = prop dev "ro.serialno".
Proof. intros (n & Hn & E)%existsb_exists. apply String.eqb_eq in E. exists n. split; [by apply list_elem_of_In|done]. Qed.
Lemma check_common dev m t : t = AB \/ t = BRICK -> CheckPackageMetadata dev m t = true ->
  get_value m "ota-type" = OtaTypeToString t /\ (get_value m "pre-device" ≠ ""%string /\ one_of (prop dev "ro.product.device") (get_value m "pre-device")) /\
  (get_value m "serialno" ≠ ""%string /\ (exists n, n ∈ base_Split (get_value m "serialno") "|" /\ base_Trim n = prop dev "ro.serialno") \/
   get_value m "serialno" = ""%string /\ (t = BRICK -> prop dev "ro.build.tags" ≠ ""%string /\ prop dev "ro.build.tags" ≠ RELEASE_KEYS_TAG)) /\
  (t = AB -> CheckAbSpecificMetadata dev m = true).
Proof.
  intros Ht. unfold CheckPackageMetadata. rewrite bool_decide_eq_false_2 by (intros [? ?]; by destruct Ht).
  destruct (String.eqb_spec (get_value m "ota-type") (OtaTypeToString t)); [|done]. cbn [negb].
  destruct (String.eqb_spec (get_value m "pre-device") "") as [|Hd]; [done|]. cbn [orb]. destruct (isInStringList _ _ _) eqn:Ed; [|done]. apply in_list_sound in Ed. cbn [negb].
  destruct (String.eqb_spec (get_value m "serialno") "") as [Es|Es]; cbn [negb].
  - destruct (bool_decide (t = BRICK)) eqn:Et.
    + apply bool_decide_eq_true in Et as ->. destruct (_ && _) eqn:Eb; [|done]. apply andb_true_iff in Eb as [E1 E2]. apply negb_true_iff, String.eqb_neq in E1, E2.
      intros _. split_and!; [done|done|done|right; done|done].
    + apply bool_decide_eq_false in Et. destruct Ht as [->| ->]; [|done]. cbn. intros Hs. split_and!; [done|done|done|right; done|done].
  - destruct (existsb _ _) eqn:Ee; [|done]. apply serial_listed in Ee. cbn [negb]. intros Hs. split_and!; [done|done|done|left; done|]. intros ->. exact Hs.
Qed.
Lemma check_ab_policy dev m : CheckPackageMetadata dev m AB = true -> ab_policy dev m.
Proof.
  intros (H1 & H2 & H3 & H4)%check_common; [|by left]. specialize (H4 eq_refl). unfold CheckAbSpecificMetadata in H4.
  destruct (negb _ && negb _) eqn:E1 in H4; [done|]. destruct (negb _ && negb (isInStringList _ _ _)) eqn:E2 in H4; [done|].
  destruct (too_old dev m && negb _) eqn:E3 in H4; [done|]. destruct (too_old dev m && _) eqn:E4 in H4; [done|].
  split; [done|done|tauto| | | |].
  - destruct (String.eqb_spec (get_value m "pre-build-incremental") ""); [by left|]. right. cbn in E1. apply negb_false_iff in E1. by apply String.eqb_eq.
  - destruct (String.eqb_spec (get_value m "pre-build") ""); [by left|]. right. cbn in E2. apply negb_false_iff in E2. by apply in_list_sound.
  - destruct (too_old dev m) eqn:Eo; cbn in E3, E4.
    + right. right. apply negb_false_iff, String.eqb_eq in E3. by apply String.eqb_neq in E4.
    + unfold too_old in Eo. apply orb_false_iff in Eo as [_ Eo]. destruct (base_ParseInt _) as [t|]; [|done]. apply Z.ltb_ge in Eo.
      destruct (int_prop dev _) as [b|]; cbn in Eo; [left; eauto|right; left; eauto].
  - intros tag Htag. rewrite Htag in H4. by apply String.eqb_eq in H4.
Qed.
Lemma check_brick_policy dev m : CheckPackageMetadata dev m BRICK = true -> brick_policy dev m.
Proof. intros (H1 & H2 & H3 & _)%check_common; [|by right]. split; [done|done|]. destruct H3 as [[_ ?]|[_ H3]]; [by left|right; by apply H3]. Qed.
End Policy.

(** ** The lines of the updater *)
Definition unlines (ls : list string) : string := foldr (fun l rest => (l ++ String (ascii_of_nat 10) rest)%string) ""%string ls.
(** A line that fits the buffer. *)
Definition line_ok (l : string) : Prop := no_char (ascii_of_nat 10) l = true /\ no_char zero l = true /\ (String.length l <= 1022)%nat.
Lemma fgets_line n l rest : no_char (ascii_of_nat 10) l = true -> (String.length l < n)%nat ->
  fgets n (l ++ String (ascii_of_nat 10) rest) = ((l ++ String (ascii_of_nat 10) "")%string, rest).
Proof.
  revert n. induction l as [|c l IH]; intros [|n] Hl Hn; cbn [String.length] in Hn; try lia; [done|].
  apply andb_true_iff in Hl as [Hc Hl]. apply negb_true_iff, bool_decide_eq_false in Hc.
  change ((String c l ++ String (ascii_of_nat 10) rest)%string) with (String c (l ++ String (ascii_of_nat 10) rest)). cbn [fgets].
  destruct (Ascii.eqb_spec c (ascii_of_nat 10)) as [->|_]; [done|]. by rewrite IH by (done || lia).
Qed.
Lemma c_str_id s : no_char zero s = true -> c_str s = s.
Proof.
  induction s as [|c s IH]; [done|]. intros [Hc Hs]%andb_true_iff. apply negb_true_iff, bool_decide_eq_false in Hc. cbn.
  destruct (Ascii.eqb_spec c zero) as [->|_]; [done|]. by rewrite IH.
Qed.
Lemma read_lines_exact fuel ls : (length ls <= fuel)%nat -> Forall line_ok ls ->
  read_lines fuel (unlines ls) = (fun l => l ++ String (ascii_of_nat 10) "")%string <$> ls.
Proof.
  revert fuel. induction ls as [|l ls IH]; intros [|fuel] Hf Hls; cbn [length] in Hf; try lia; try done.
  apply Forall_cons in Hls as [(H1 & H2 & H3) Hls]. cbn [unlines foldr]. fold (unlines ls).
  assert (Hne : exists c s, (l ++ String (ascii_of_nat 10) (unlines ls))%string = String c s) by (destruct l; eauto). destruct Hne as (c & s & Hs).
  cbn [read_lines]. rewrite Hs. rewrite <- Hs. rewrite fgets_line by (done || lia). cbn [fmap list_fmap]. f_equal; [|apply IH; [lia|done]].
  apply c_str_id. rewrite no_char_app, H2. done.
Qed.
Lemma length_unlines ls : (length ls <= String.length (unlines ls))%nat.
Proof. induction ls as [|l ls IH]; [cbn; lia|]. cbn [unlines foldr length]. fold (unlines ls). rewrite string_length_app. cbn [String.length]. lia. Qed.
Section Commands.
Context `{OtaText}.
(** The first word of a line. *)
Fixpoint first_word (l : string) : string :=
  match l with
  | EmptyString => ""
  | String c l => if Ascii.eqb c " " then "" else String c (first_word l)
  end.
Lemma command_word l : no_char (ascii_of_nat 10) l = true -> (command_of (l ++ String (ascii_of_nat 10) "")).1 = first_word l.
Proof.
  unfold command_of. induction l as [|c l IH]; intros Hl; [done|]. apply andb_true_iff in Hl as [Hc Hl]. apply negb_true_iff, bool_decide_eq_false in Hc.
  change ((String c l ++ String (ascii_of_nat 10) "")%string) with (String c (l ++ String (ascii_of_nat 10) "")). cbn [word_end first_word].
  destruct (Ascii.eqb_spec c " ") as [->|_]; [done|]. destruct (Ascii.eqb_spec c (ascii_of_nat 10)) as [->|_]; [done|]. cbn [orb].
  specialize (IH Hl). destruct (word_end (l ++ _)) as [n|]; cbn in *; by rewrite IH.
Qed.
Lemma hear_flags t line : tk_wipe_cache (hear t line) = tk_wipe_cache t || String.eqb (command_of line).1 "wipe_cache" /\
  tk_retry (hear t line) = tk_retry t || String.eqb (command_of line).1 "retry_update".
Proof.
  unfold hear. destruct (command_of line) as [command args]. cbn [fst]. destruct (String.eqb_spec command "wipe_cache") as [->|].
  { cbn. by rewrite orb_true_r, orb_false_r. }
  destruct (String.eqb_spec command "retry_update") as [->|]; [cbn; by rewrite orb_true_r, orb_false_r|]. rewrite !orb_false_r. by destruct (_ && _).
Qed.

(** C36: the updater's commands. When every line the updater writes fits the
    buffer and holds no NUL, the cache wipe and the retry are exactly those of
    the lines that begin with these words, whatever else the updater prints. *)
Theorem updater_commands_exact ls log : Forall line_ok ls ->
  tk_wipe_cache (listen (unlines ls) log) = bool_decide ("wipe_cache"%string ∈ first_word <$> ls) /\
  tk_retry (listen (unlines ls) log) = bool_decide ("retry_update"%string ∈ first_word <$> ls).
Proof.
  intros Hls. unfold listen. rewrite read_lines_exact by (apply length_unlines || done).
  assert (Hg : forall t, tk_wipe_cache (foldl hear t ((fun l => l ++ String (ascii_of_nat 10) "")%string <$> ls)) = tk_wipe_cache t || bool_decide ("wipe_cache"%string ∈ first_word <$> ls) /\
    tk_retry (foldl hear t ((fun l => l ++ String (ascii_of_nat 10) "")%string <$> ls)) = tk_retry t || bool_decide ("retry_update"%string ∈ first_word <$> ls)); [|exact (Hg (MkTalk false false log))].
  induction Hls as [|l ls (H1 & _) _ IH]; intros t; cbn [fmap list_fmap foldl].
  - rewrite !bool_decide_eq_false_2 by (apply not_elem_of_nil). by rewrite !orb_false_r.
  - destruct (IH (hear t (l ++ String (ascii_of_nat 10) ""))) as [-> ->]. destruct (hear_flags t (l ++ String (ascii_of_nat 10) "")) as [-> ->].
    rewrite (command_word l H1), <- !orb_assoc. split; f_equal; apply eq_bool_prop_intro; rewrite orb_True, !bool_decide_spec, elem_of_cons;
      match goal with |- context [String.eqb ?a ?b] => destruct (String.eqb_spec a b) end; naive_solver.
Qed.
End Commands.

(** ** The installation is authorised *)
Section Authorised.
Context `{PublicKeys} `{Sha256} `{ShaStream} `{Sha1} `{AndroidBase} `{OtaText}.
Context (keys : list Certificate) (dev : Device).
(** The updater of [package] may run with [args]. *)
Record may_run (package : Pkg) (retry_count : Z) (args : list string) : Prop := MkMayRun {
  run_verified : verify_package keys package = Some true;
  run_checked : exists zip m, pk_archive package = Some zip /\ ReadMetadataFromPackage zip = Some m /\ get_value m "ota-type" ≠ "BRICK"%string /\
    ViolatesSPLDowngrade zip (prop dev "ro.build.version.security_patch") = false /\
    (get_value m "ota-type" = "AB"%string \/ (bool_prop dev "ro.build.ab_update" = Some true /\ bool_prop dev "ro.virtual_ab.allow_non_ab" ≠ Some true) -> ab_policy dev m) /\
    (if is_type m AB then SetUpAbUpdateCommands (pk_path package) zip (pipe_fd dev) = Some args
     else SetUpNonAbUpdateCommands dev (pk_path package) zip retry_count (pipe_fd dev) = Some args) }.
(** The device may be wiped by what [brick] holds. *)
Record may_wipe (package brick : Pkg) : Prop := MkMayWipe {
  wipe_verified : verify_package keys brick = Some true;
  wipe_source : brick_package package = Some brick;
  wipe_checked : exists zip m, pk_archive brick = Some zip /\ ReadMetadataFromPackage zip = Some m /\ brick_policy dev m }.
(** What an outcome of TryUpdateBinary can hold. *)
Inductive did (package : Pkg) (retry_count : Z) : Outcome -> Prop :=
  | did_stop result log : result ≠ INSTALL_SUCCESS -> did package retry_count (MkOutcome result false log [])
  | did_wipe brick events : may_wipe package brick -> (forall e, e ∈ events -> exists p how, e = Wiped p how /\ p ∈ GetWipePartitionList dev brick) ->
      did package retry_count (MkOutcome INSTALL_SUCCESS false [] events)
  | did_run args result wc log : may_run package retry_count args ->
      (result = INSTALL_SUCCESS -> child_status dev = Exited 0 /\ tk_retry (listen (child_output dev) []) = false) ->
      did package retry_count (MkOutcome result wc log [Ran args]).
Lemma wipe_ab_did package brick r retry_count : brick_package package = Some brick -> WipeAbDevice keys dev brick = Some r -> did package retry_count (wiped r).
Proof.
  intros Hb. unfold WipeAbDevice, CheckWipePackage. destruct (verify_package keys brick) as [[|]|] eqn:Ev; cbn; [|intros [= <-]; by constructor|done].
  destruct (pk_archive brick) as [zip|] eqn:Ez; cbn; [|intros [= <-]; by constructor]. destruct (ReadMetadataFromPackage zip) as [m|] eqn:Em; cbn; [|intros [= <-]; by constructor].
  destruct (CheckPackageMetadata dev m BRICK) eqn:Ec; cbn; [|intros [= <-]; by constructor].
  destruct (GetWipePartitionList dev brick) as [|p ps] eqn:Eg; intros [= <-]; [by constructor|]. apply (did_wipe _ _ brick).
  - split; [done|done|]. exists zip, m. split_and!; [done|done|by apply check_brick_policy].
  - intros e He. rewrite Eg. assert (He' : e ∈ omap (fun p => Wiped p <$> SecureWipePartition dev p) (p :: ps)) by exact He. clear He.
    apply list_elem_of_omap in He' as (q & Hq & He). destruct (SecureWipePartition dev q) as [how|]; [|done]. injection He as <-. eauto.
Qed.
Lemma listen_retry output log log' : tk_retry (listen output log) = tk_retry (listen output log').
Proof.
  unfold listen. generalize (read_lines (String.length output) output). intros ls.
  assert (Hg : forall t t', tk_retry t = tk_retry t' -> tk_retry (foldl hear t ls) = tk_retry (foldl hear t' ls)); [|by apply Hg].
  induction ls as [|l ls IH]; intros t t' Ht; [done|]. cbn. apply IH. rewrite (proj2 (hear_flags t l)), (proj2 (hear_flags t' l)). by rewrite Ht.
Qed.
Lemma run_did package retry_count is_ab zip args log o : may_run package retry_count args -> run_updater dev is_ab zip args log = Some o -> did package retry_count o.
Proof.
  intros Hm. unfold run_updater, stop. destruct (fork_ok dev); cbn [negb]; [|intros [= <-]; by constructor]. rewrite (listen_retry (child_output dev) log []).
  destruct (tk_retry (listen (child_output dev) [])) eqn:Er; [intros [= <-]; by apply did_run|].
  destruct (child_status dev) as [[|code|code]| |] eqn:Es; try (intros [= <-]; by apply did_run).
  destruct is_ab; [|intros [= <-]; by apply did_run]. unfold PerformPowerwashIfRequired. destruct (contains _ _); [done|]. cbn. intros [= <-]. by apply did_run.
Qed.
Lemma try_did package retry_count o : verify_package keys package = Some true -> TryUpdateBinary keys dev package retry_count = Some o -> did package retry_count o.
Proof.
  intros Hv. unfold TryUpdateBinary, stop. destruct (pk_archive package) as [zip|] eqn:Ez; [|done]. cbn. destruct (ReadMetadataFromPackage zip) as [m|] eqn:Em; [|intros [= <-]; by constructor].
  destruct (is_type m BRICK) eqn:Eb.
  { destruct (brick_package package) as [brick|] eqn:Ebp; [|done]. cbn. destruct (WipeAbDevice keys dev brick) as [r|] eqn:Ew; [|done]. intros [= <-]. by eapply wipe_ab_did. }
  destruct (ViolatesSPLDowngrade _ _) eqn:Espl; [intros [= <-]; by constructor|]. destruct (is_type m AB && negb (pk_is_file package)); [done|].
  destruct ((is_type m AB || _) && _) eqn:Ec; [intros [= <-]; by constructor|]. destruct (negb (pipe_ok dev)); [intros [= <-]; by constructor|].
  destruct (if is_type m AB then _ else _) as [args|] eqn:Ea; [|intros [= <-]; by constructor]. apply run_did. split; [done|]. exists zip, m. split_and!; try done.
  - by apply String.eqb_neq in Eb.
  - intros Hab. apply check_ab_policy. destruct (CheckPackageMetadata dev m AB); [done|]. rewrite andb_true_r in Ec. apply orb_false_iff in Ec as [E1 E2].
    destruct Hab as [Ht|[Hu Hn]]; [unfold is_type in E1; rewrite Ht in E1; done|]. rewrite Hu in E2. destruct (bool_prop dev "ro.virtual_ab.allow_non_ab") as [[|]|]; done.
  - destruct (is_type m AB); exact Ea.
Qed.

Lemma did_events package retry_count o x : did package retry_count o -> x ∈ out_events o ->
  (exists args, x = Ran args /\ may_run package retry_count args) \/ (exists p how brick, x = Wiped p how /\ may_wipe package brick /\ p ∈ GetWipePartitionList dev brick).
Proof.
  intros [result log _|brick ev Hm Hev|args result wc log Hm _] Hx; cbn in Hx; [by apply elem_of_nil in Hx| |].
  - right. apply Hev in Hx as (p & how & -> & Hp). eauto 6.
  - left. apply list_elem_of_singleton in Hx as ->. eauto.
Qed.
Lemma did_success package retry_count o : did package retry_count o -> out_result o = INSTALL_SUCCESS -> (exists brick, may_wipe package brick) \/
  (exists args, Ran args ∈ out_events o) /\ child_status dev = Exited 0 /\ tk_retry (listen (child_output dev) []) = false.
Proof.
  intros [result log Hr|brick ev Hm _|args result wc log _ Hs] Ho; cbn in *; [done|left; eauto|right]. split; [exists args; left|by apply Hs].
Qed.
(** The events of a run: those of the outcome, the log and the erased cache. *)
Lemma install_outcome package package_id should_wipe_cache retry_count r events :
  InstallPackage keys dev (Some package) package_id should_wipe_cache retry_count = Some (r, events) ->
  exists o e, did package retry_count o /\ events = out_events o ++ e /\ (forall x, x ∈ e -> (exists t, x = Logged t) \/ x = Erased "/cache") /\
    (r = INSTALL_SUCCESS -> out_result o = INSTALL_SUCCESS).
Proof.
  unfold InstallPackage. intros Hi. destruct (if negb (mounts_ok dev) then _ else _) as [o|] eqn:Eo; [|done]. cbn [mbind option_bind] in Hi.
  assert (Hd : did package retry_count o).
  { destruct (mounts_ok dev); cbn [negb] in Eo; [|injection Eo as <-; by constructor]. unfold VerifyAndInstallPackage in Eo.
    destruct (verify_package keys package) as [[|]|] eqn:Ev; [by apply try_did|injection Eo as <-; by constructor|done]. }
  assert (Hlog : forall t x, x ∈ [Logged t] -> (exists t, x = Logged t) \/ x = Erased "/cache") by (intros t x ->%list_elem_of_singleton; left; eauto).
  exists o. destruct (out_result o) eqn:Er; try (injection Hi as <- <-; eexists; split_and!; [done|reflexivity|apply Hlog|done]).
  destruct (should_wipe_cache || out_wipe_cache o); [|injection Hi as <- <-; eexists; split_and!; [done|reflexivity|apply Hlog|done]].
  destruct (WipeCache dev true) as [ok c] eqn:Ew. injection Hi as <- <-. eexists. split_and!; [done|by rewrite <- app_assoc| |done].
  intros x [Hx|Hx]%elem_of_app; [by eapply Hlog|]. right. unfold WipeCache in Ew.
  destruct (negb (has_volume dev "/cache")); injection Ew as <- <-; [by apply elem_of_nil in Hx|by apply list_elem_of_singleton in Hx].
Qed.

End Authorised.

(** ** What the code does not mean to do *)
(** A package that asks for a factory reset: WipeData is called with a null
    device, after the update was applied. *)
Lemma powerwash_aborts `{AndroidBase} `{OtaText} dev zip args log : fork_ok dev = true -> child_status dev = Exited 0 ->
  tk_retry (listen (child_output dev) log) = false -> contains "POWERWASH=1" (ExtractPayloadProperties zip) = true ->
  run_updater dev true zip args log = None.
Proof. intros Hf Hs Hr Hp. unfold run_updater. rewrite Hf, Hr, Hs. cbn. unfold PerformPowerwashIfRequired. by rewrite Hp. Qed.
(** The rest of a long line is taken for a command. *)
Lemma long_line_smuggles `{OtaText} :
  tk_retry (listen (unlines ["ui_print " ++ string_of (replicate 1014 120) ++ "retry_update"]%string) []) = true.
Proof. vm_compute. reflexivity. Qed.

(** ** A run *)
#[local] Existing Instances Verifier.demo_sha Verifier.demo_stream Verifier.demo_sha1 Verifier.demo_keys.
#[local] Instance demo_text : OtaText := {
  base_Trim := trim is_space; base_Tokenize s d := filter (fun t => t ≠ ""%string) (ref_Split s d); base_ParseInt s := ref_ParseUint s INT64_MAX;
  ParseOtaMetadata s := None; open_archive bs := None }.
Definition demo_entry (text : string) : Entry := MkEntry (slen text) 100 (fun n => if n =? slen text then Some text else None).
Definition demo_archive : Archive := fun name =>
  if String.eqb name METADATA_PATH then Some (demo_entry (unlines ["ota-type=BLOCK"; "pre-device = sargo|aosp"]%string))
  else if String.eqb name UPDATE_BINARY_NAME then Some (demo_entry "binary") else None.
Definition demo_device : Device := MkDevice (fun _ => ""%string) (fun _ => None) (fun _ => None) true true true true true 5
  (unlines ["ui_print done"; "wipe_cache"]%string) (Exited 0) (fun _ => true) (fun _ => true) true None (fun _ => MkWipeDev false None false None false false)
  true None 12 (0, 0, 0).
Definition demo_pkg : Pkg := MkPkg (MemoryPackage demo_good) (Some demo_archive) true "/cache/update.zip".
#[local] Abbreviation demo_install := (InstallPackage [demo_cert] demo_device (Some demo_pkg) "/cache/update.zip" false 0).
Lemma demo_install_ok : match demo_install with
  | Some (INSTALL_SUCCESS, [Ran args; Logged _; Erased "/cache"]) => bool_decide (args = ["/tmp/update-binary"; "3"; "5"; "/cache/update.zip"]%string)
  | _ => false end = true.
Proof. vm_compute. reflexivity. Qed.
Lemma updater_commands_exact_witness : Forall line_ok ["ui_print done"; "wipe_cache"]%string /\
  tk_wipe_cache (listen (unlines ["ui_print done"; "wipe_cache"]%string) []) = true.
Proof.
  assert (Hf : Forall line_ok ["ui_print done"; "wipe_cache"]%string) by (repeat constructor; cbn; lia). split; [exact Hf|].
  rewrite (proj1 (updater_commands_exact _ [] Hf)). vm_compute. reflexivity.
Defined.
