(* ===== verification/BootArgs.v ===== *)
(** install/get_args.cpp: the arguments of the recovery, from its command line
    or from the bootloader message, and what is written back so that the next
    boot finishes pending work. *)
From stdpp Require Import base list strings gmap.
From Stdlib Require Import ZArith Lia Ascii.
From S2P Require Import Prelude Libbase CxxString BootloaderMessage.

Section GetArgs.
Context `{AndroidBase}.
(** A C string of an array, which may fill it. *)
Definition field_text (bytes : list Z) : string := string_of (c_str bytes).
(** The options after the first line, "recovery". *)
Definition message_args (boot : bootloader_message) : list string :=
  match base_Split (field_text (take 767 (recovery boot))) newline with
  | first :: tokens => if String.eqb first "recovery" then filter (fun t => t ≠ ""%string) tokens else []
  | [] => []
  end.
Definition soft_switch : string := "--aera-soft-switch".
(** The arguments, and whether the message was written: [None] when it is not
    meant to be. An outer [None] is the back() of an empty option. *)
Definition get_args (argv : list string) (w : Misc) : option (list string * option bool * Misc) :=
  match argv with
  | [] => None
  | name :: given =>
      let '(r, w) := read_bootloader_message w in
      let boot := match r with inl boot => boot | inr _ => empty_boot end in
      let boot_command := field_text (command boot) in
      let args := match given with [] => message_args boot | _ => given end in
      '(written, w) ← (if bool_decide (soft_switch ∈ args) then Some (None, w)
                       else '(r, w) ← update_bootloader_message (bytes_of <$> args) w; Some (Some (match r with inl _ => true | inr _ => false end), w));
      let args := match args with
        | [] => if String.eqb boot_command "boot-fastboot" then ["--fastboot"%string]
                else if String.eqb boot_command "boot-rescue" then ["--rescue"%string] else []
        | _ => args
        end in
      Some (name :: args, written, w)
  end.
End GetArgs.

(** ** The next boot *)
(** An option that the message can carry. *)
Definition option_ok (s : string) : Prop := s ≠ ""%string /\ no_char (ascii_of_nat 10) s = true /\ no_char zero s = true.
Definition lines_of (opts : list string) : string := foldr (fun l rest => (l ++ String (ascii_of_nat 10) rest)%string) ""%string opts.
(** All of them fit the field and its terminator. *)
Definition fits (opts : list string) : Prop := (String.length (lines_of opts) <= 758)%nat.
Lemma bytes_of_app s t : bytes_of (s ++ t) = bytes_of s ++ bytes_of t.
Proof. induction s as [|c s IH]; [done|]. change ((String c s ++ t)%string) with (String c (s ++ t)). cbn [bytes_of]. by rewrite IH. Qed.
Lemma last_bytes s : option_ok s -> exists b, last (bytes_of s) = Some b /\ b ≠ 10.
Proof.
  intros (Hne & Hn & _). induction s as [|c s IH]; [done|]. apply andb_true_iff in Hn as [Hc Hn]. apply negb_true_iff, bool_decide_eq_false in Hc.
  destruct s as [|d s]; [|destruct IH as (b & Hb & ?); [done|done|]; exists b; by rewrite <- Hb].
  exists (byte_of c). split; [done|]. unfold byte_of. intros E. apply Hc. rewrite <- (ascii_nat_embedding c). f_equal. lia.
Qed.
Lemma recovery_lines_of opts : Forall option_ok opts -> recovery_lines (bytes_of <$> opts) = Some (bytes_of (lines_of opts)).
Proof.
  induction 1 as [|s opts Hs _ IH]; [done|]. cbn [fmap list_fmap recovery_lines]. destruct (last_bytes s Hs) as (b & -> & Hb). cbn. rewrite IH. cbn.
  destruct (Z.eqb_spec b 10); [done|]. f_equal. cbn [lines_of foldr]. by rewrite bytes_of_app.
Qed.
Lemma c_str_bytes s : no_char zero s = true -> c_str (bytes_of s) = bytes_of s.
Proof.
  induction s as [|c s IH]; [done|]. intros [Hc Hs]%andb_true_iff. apply negb_true_iff, bool_decide_eq_false in Hc. cbn.
  destruct (Z.eqb_spec (byte_of c) 0) as [E|_]; [|by rewrite IH]. destruct Hc. unfold byte_of in E. rewrite <- (ascii_nat_embedding c). symmetry. change zero with (ascii_of_nat 0). f_equal. lia.
Qed.
Lemma no_zero_lines opts : Forall option_ok opts -> no_char zero (lines_of opts) = true.
Proof. induction 1 as [|s opts (_ & _ & Hz) _ IH]; [done|]. cbn [lines_of foldr]. rewrite no_char_app, Hz. exact IH. Qed.
Lemma length_bytes_of s : length (bytes_of s) = String.length s.
Proof. induction s as [|c s IH]; cbn; congruence. Qed.
Lemma concat_lines opts : (lines_of opts) = String.concat (String (ascii_of_nat 10) "") (opts ++ [""%string]).
Proof.
  induction opts as [|s opts IH]; [done|]. cbn [lines_of foldr]. fold (lines_of opts). rewrite IH. cbn [app]. destruct (opts ++ [""%string]) as [|t l] eqn:E; [by destruct opts|]. done.
Qed.
Lemma take_c_str n s : take n (c_str s) = c_str (take n s).
Proof. revert n. induction s as [|c s IH]; intros [|n]; cbn; try done. destruct (c =? 0); [done|]. cbn. by rewrite IH. Qed.

Section Persist.
Context `{HB : AndroidBase} `{!AndroidBaseLaws HB}.
Lemma filter_nonempty opts : Forall option_ok opts -> filter (fun t => t ≠ ""%string) (opts ++ [""%string]) = opts.
Proof. induction 1 as [|s opts (Hs & _) _ IH]; [done|]. cbn [app]. by rewrite filter_cons_True, IH. Qed.
(** The message that carries the options gives them back. *)
Lemma message_args_written opts boot : Forall option_ok opts -> fits opts ->
  c_str (recovery boot) = take 767 (c_str (chars "recovery" ++ [10] ++ bytes_of (lines_of opts))) -> message_args boot = opts.
Proof.
  intros Ho Hf Hr. unfold message_args, field_text. rewrite <- take_c_str, Hr.
  change (chars "recovery" ++ [10] ++ bytes_of (lines_of opts)) with (bytes_of (lines_of ("recovery"%string :: opts))).
  assert (Hall : Forall option_ok ("recovery"%string :: opts)) by (constructor; [split_and!; done|done]).
  rewrite (c_str_bytes _ (no_zero_lines _ Hall)), take_take, take_ge, string_of_bytes_of.
  - rewrite concat_lines. unfold newline. rewrite split_concat; [|done|].
    + cbn [app]. by rewrite String.eqb_refl, filter_nonempty.
    + apply Forall_app. split; [|by repeat constructor]. eapply Forall_impl; [exact Hall|]. by intros s (_ & ? & _).
  - rewrite length_bytes_of. cbn [lines_of foldr]. fold (lines_of opts). rewrite string_length_app. cbn [String.length]. unfold fits in Hf. cbn. lia.
Qed.
(** What a successful update leaves to be read. *)
Lemma update_then_read opts w w1 w2 boot w3 : Forall option_ok opts -> fits opts -> update_bootloader_message (bytes_of <$> opts) w = Some (inl (), w1) ->
  disks w2 = disks w1 -> get_misc_blk_device w2 = get_misc_blk_device w -> read_bootloader_message w2 = (inl boot, w3) ->
  message_args boot = opts /\ field_text (command boot) = "boot-recovery"%string.
Proof.
  intros Ho Hf (dev & disk & b0 & b1 & lines & R1 & R2 & R3 & R4 & R5 & R6 & R7 & _ & _ & _ & R11)%update_bootloader_message_exact Hd Hn Hr.
  apply read_boot_data in Hr as (dev' & disk' & S1 & _ & S2 & _ & ->). rewrite Hn, R1 in S1. injection S1 as <-.
  rewrite Hd, R4, lookup_insert_eq in S2. injection S2 as <-. rewrite R11. rewrite recovery_lines_of in R5 by done. injection R5 as <-.
  split; [by apply message_args_written|]. unfold field_text. rewrite R6. vm_compute. reflexivity.
Qed.

End Persist.
Definition demo_boot_misc : Misc := MkMisc None (Some [("/misc", "/dev/misc")]%string) {["/dev/misc"%string := zeros 2048]} [true; true; true; true] [Completes; Completes; Completes].
#[local] Abbreviation demo_args := (get_args ["recovery"; "--wipe_data"]%string demo_boot_misc).
Definition reboot (w : Misc) : Misc := MkMisc None (fstab w) (disks w) [true; true; true; true] [Completes; Completes; Completes].
Lemma demo_args_ok : match demo_args with
  | Some (args, Some true, w) => bool_decide (args = ["recovery"; "--wipe_data"]%string) && bool_decide (fstab w = Some [("/misc", "/dev/misc")]%string) &&
      match read_bootloader_message (reboot w), get_args ["recovery"%string] (reboot w) with (inl _, _), Some _ => true | _, _ => false end
  | _ => false end = true.
Proof. vm_compute. reflexivity. Qed.
